(* ===== verification/_CoqProject ===== *)
-Q . S2P
Prelude.v
HeapRep.v
CLib.v
JsonLex.v
JsonTree.v
JsonWf.v
JsonMem.v
JsonRep.v
JsonApi.v
JsonRefine.v
JsonView.v
JsonNav.v
JsonEncode.v
JsonPrint.v
JsonThms.v
LinkedList.v
Utils.v
UtilsThms.v
Switch.v
SwitchRep.v
SwitchThms.v
Client.v
ClientParse.v
ClientRead.v
ClientWrite.v
ClientConfig.v
ClientThms.v
Tools.v
ToolsThms.v
Bytes.v
SshString.v
SshBuffer.v
SshQueue.v
SshQueueThms.v
SshStringThms.v
SshPack.v
SshUnpack.v
SshPackThms.v
SshRound.v
SshBase64.v
SshBase64Thms.v
SshMatch.v
SshMatchThms.v
SshToken.v
SshTokenThms.v
LegacyParser.v
LegacyShell.v
LegacyThms.v
HashTable.v
HashChain.v
HashProbe.v
HashFind.v
HashOps.v
HashUpdate.v
HashResize.v
HashSpec.v
HashValue.v
HashThms.v
HashNext.v
Dict.v
DictThms.v
SrXpath.v
SrXpathRun.v
SrXpathPath.v
SrXpathThms.v
SrXpathName.v
LySet.v
LySetRep.v
LySetThms.v
NcSession.v
NcWrite.v
NcWriteRep.v
NcMessage.v
NcRead.v
NcReadRep.v
NcUntil.v
NcFrames.v
NcReceive.v
NcThms.v
