(* ===== verification/Prelude.v ===== *)
(** * Verification of the TSN network-controller client (Masters-Project)

    The program reads the schedule of a time-sensitive network from a JSON document
    and writes, for each switch, an IEEE 802.1Qbv instance file for NETCONF. Its own
    code is under src/App; the libraries its containers are built from are vendored
    under src/docker/libs. This development models src/App, the modules of the vendored
    libssh that carry every packet, name list and key in memory, the hash table, the
    string dictionary and the sets of nodes of the vendored libyang, the path functions
    of sysrepo, and the messages of libnetconf2.

    ** The parts of the program and the files that model them

    - src/App/json (json.c, json.h): a JSON reader. JsonLex is the scanner on texts
      (json_scan, classify, json_copy); JsonMem the construction of the tree of nodes
      on a heap with failing allocations (json_create, json_build, json_parse,
      json_free); JsonApi the queries (json_node, json_item, json_foreach, the typed
      accessors, json_print); JsonEncode the writer json_encode.
    - src/App/switch (switch.c, switch.h): the database, three nested linked lists.
      LinkedList is the list all three types share, Switch the operations.
    - src/App/Client/utils.c: Utils (files as buffers, binaryToDecimal).
    - src/App/Client/Main.c: Client, the whole program: parse calls utils.c and
      json.c; read_json walks the document with json_foreach and fills the database;
      xml_write_instance walks the database and writes the files.
    - src/App/json/main.c and src/App/Client/Main-david.c: Tools, modules JsonMain
      and David.
    - src/App/Client/parser.c, parser.h and ReadFile.c: LegacyParser (the first
      parser and writer) and LegacyShell (the shell on a MySQL database that uses
      them).
    - src/docker/libs/libssh/src: SshString (string.c), SshBuffer (buffer.c),
      SshPack (packing and unpacking in buffer.c, conversions of bignum.c), SshBase64
      (base64.c), SshMatch (match.c), SshToken (token.c); Bytes holds the integers as
      bytes and the blocks they share.
    - src/docker/libs/libyang/src/hash_table.c and hash_table.h: HashTable, the generic
      hash table, one definition per function and loop, and Dict, the dictionary of
      strings that uses it.
    - src/docker/libs/sysrepo/src/utils/xpath.c and xpath.h: SrXpath, the functions
      that walk along a path by writing NULs into its text.
    - src/docker/libs/libyang/src/tree_data.c, the functions ly_set_*: LySet.
    - src/docker/libs/libnetconf2/src/io.c: NcSession (the session, its lock, the
      transport as scripts of results), NcWrite (nc_write to nc_write_msg_io) and
      NcRead (nc_read to nc_read_msg_poll_io).

    ** How C is modelled

    A computation is a function of its state to an [outcome] (below): a value, exit
    with a code, undefined behaviour, or the end of the fuel of a loop. The state of
    a component is a record (jmem, smem, uio, bstate, legacy, htmem, dict, xctx, lsmem, ncst); the client
    composes the states of its components through [Lens]. Pointers are optional heap
    locations or offsets into blocks; a block is a list of optional bytes, [None] for
    a byte that was never written, and every access checks the bounds. Allocation failures
    follow an arbitrary schedule. Integers are Z with the wrap or the overflow check
    of their C type written out; float is SpecFloat with the precision of the type.
    CLib holds the functions of the C library, in the C locale of glibc on x86-64.

    Outside the sources, and so parameters: the files and streams, the MySQL server,
    OpenSSL's BIGNUM (class Bignum of SshPack, BignumLaws of SshUnpack), the XML parser
    and printers of libyang that io.c calls, the clock and the transports of a session,
    and the functions of utils.c that are commented out although parser.c calls them.

    ** The theorems

    - JsonThms (C1-C9; proofs in JsonWf, JsonRep, JsonRefine, JsonView, JsonNav, JsonPrint
      on the reference grammar of JsonTree): json_parse refines a recursive grammar on
      every text and allocation schedule, is free of undefined behaviour on texts with at
      most INT_MAX quotes (JsonLex has the loops that count them twice, in nat and in int,
      and shows that they agree there), and gives back what it allocates, but for the
      failure C4 describes; documents survive printing and parsing; every walk of a client
      through a document and every query agree with the tree.
    - SwitchThms (C11, C13, C14; SwitchRep): the lists are sequences, the database prints
      what was pushed and is released completely.
    - UtilsThms (C15, C18): contents, handles, and the range of binaryToDecimal.
    - ClientThms (C20, C21, C23; ClientParse, ClientRead, ClientWrite, ClientConfig):
      main refines a function of the document; a valid configuration gives the files
      with its values; the cycle time comes from the last period only, and the files are
      given in integers although the code divides floats.
    - ToolsThms: the two small programs.
    - SshQueueThms (C26; SshQueue): the buffer refines a queue of bytes, and what
      a secure buffer leaves behind. SshRound (C29, C30; SshUnpack, SshPackThms):
      unpacking refines a reference parser and inverts packing. SshBase64Thms (C32,
      C33), SshMatchThms (C34), SshStringThms, SshTokenThms (C39): encoding, patterns,
      strings and name lists against reference definitions.
    - HashThms (C12, C28) and HashNext: a hash table refines the set of its
      values through every collision, removal and resize, whatever its callback calls
      equal; what a failed allocation and lyht_dup leave; how lyht_find_next visits
      the values of a hash. HashChain states the invariant on the array rotated to the
      order of a search, HashProbe and HashFind follow the searches, HashOps and
      HashUpdate the operations, HashResize and HashSpec the counter and the resize,
      HashValue the writes of callers through match_p.
    - DictThms (C17, C22): the dictionary refines reference-counted strings, and what
      a failed insertion leaves in it.
    - SrXpathThms (C24, C35, C36, C38; SrXpathRun, and SrXpathPath for the texts of
      paths) and SrXpathName: the path functions keep the text recoverable, a walk
      gives back the path, the lookup of a key finds its value, and a predicate
      without an equals sign makes that lookup run for ever.
    - LySetThms (C31; LySetRep): for every client the sets of nodes refine lists, and
      hold no duplicates unless they are asked for.
    - NcThms (C10, C25, C27, C37): a message that is written is read by the peer as it
      was written, unless the clock runs into the timeouts of the reader (NcWriteRep and NcMessage follow the writer, NcReadRep, NcUntil and
      NcFrames the reader, NcReceive the whole call); reading returns on every transport;
      failed writes go unnoticed, and a chunk size of -1 overruns its block.
    - LegacyThms (C16, C19, C40): the shell ends only by exit(1) or in undefined
      behaviour, store never stores anything (writing a file and sending a query are
      arguments of its definitions, and the run does not depend on them), select asks for
      what its options say.

    ** Fuel

    Loops that are not structural take fuel, and the theorems are about runs that
    never exhaust it: json_build one step per token (build_fuel, length of the text
    plus two), json_free two steps per node (free_fuel), walks of lists one step per
    live node (walk_fuel, chain_fuel), binaryToDecimal one step per decimal digit
    (binary_fuel, 11), the growth of a buffer one step per power of two (grow_fuel,
    66), the loops of base64.c, match.c and token.c one step per character, the
    parser one step per word, the shell one step per character of the input, a search
    of the hash table one step per record. An insertion into the hash table may resize
    it and so insert again, to a depth of 2: those insertions do not resize. A search for
    a node of a path takes one step per character (node_fuel); a search for a key by its
    name takes its fuel as an argument, since it need not end (C35), and on the text of
    a path one step per key is enough (C38). ly_set_merge takes one step per element of
    its second set. The loops that read a message take one step per result of the
    transport and per byte (rd_fuel), the loop of nc_write one per result and byte.

    ** Not modelled

    ReadFile2.c is a fragment that does not declare the names it uses. The rest of
    libyang, sysrepo, libssh and libnetconf2, and netopeer2 are vendored services
    around sockets, files and cryptography that the client does not call. YANG
    models, the SQL dump, Docker files and the documentation are not C code.
    Of a session of libnetconf2 only io.c is modelled: its set-up, threads and capabilities
    are not, nor are waiting and the log.
    A transport that stays open without data for ever is outside the scripts of NcSession.
    In libssh's buffers a data argument that aliases the buffer itself is left out.
    The merge of a set of nodes with itself, which frees it, is modelled but not among
    the calls of C31. *)

From stdpp Require Export base list gmap strings.
From Stdlib Require Export ZArith Lia.
From Stdlib Require Export Ascii.

#[global] Open Scope Z_scope.

(** ** Outcomes of C code

    [Ret a s]   normal return with value [a] in state [s];
    [Exit c s]  the process called exit(c);
    [Undef]     the C standard leaves the behaviour undefined (null or dangling
                dereference, buffer overflow, use of an indeterminate value,
                out-of-range conversion);
    [NoFuel]    the executable model of a loop ran out of its iteration bound. *)
Inductive outcome (S A : Type) : Type :=
| Ret (a : A) (s : S)
| Exit (code : Z) (s : S)
| Undef
| NoFuel.

Arguments Ret {S A} a s.
Arguments Exit {S A} code s.
Arguments Undef {S A}.
Arguments NoFuel {S A}.

Definition M (S A : Type) : Type := S -> outcome S A.

#[global] Instance M_ret {S} : MRet (M S) := fun A a s => Ret a s.
#[global] Instance M_bind {S} : MBind (M S) := fun A B k m s =>
  match m s with
  | Ret a s' => k a s'
  | Exit c s' => Exit c s'
  | Undef => Undef
  | NoFuel => NoFuel
  end.

Definition undef {S A} : M S A := fun _ => Undef.
Definition no_fuel {S A} : M S A := fun _ => NoFuel.
Definition exit_with {S A} (c : Z) : M S A := fun s => Exit c s.
Definition get {S} : M S S := fun s => Ret s s.
Definition put {S} (s : S) : M S unit := fun _ => Ret tt s.
Definition modify {S} (f : S -> S) : M S unit := fun s => Ret tt (f s).

(** [m] returns normally from [s], in a state and with a value satisfying [Q]:
    total correctness, so neither undefined behaviour nor fuel exhaustion. *)
Definition returns {S A} (m : M S A) (s : S) (Q : A -> S -> Prop) : Prop :=
  match m s with Ret a s' => Q a s' | _ => False end.

(** Split every conjunction and existential in the context. *)
Ltac deex :=
  repeat match goal with
         | H : exists x, _ |- _ => let y := fresh x in destruct H as [y H]
         | H : _ /\ _ |- _ => destruct H
         end.

Section MonadLemmas.
Context {S A B : Type}.

Lemma bind_ret_eq (m : M S A) (k : A -> M S B) s a s' :
  m s = Ret a s' -> (m ≫= k) s = k a s'.
Proof. unfold mbind, M_bind. by intros ->. Qed.

Lemma bind_undef_eq (m : M S A) (k : A -> M S B) s :
  m s = Undef -> (m ≫= k) s = Undef.
Proof. unfold mbind, M_bind. by intros ->. Qed.

Lemma bind_exit_eq (m : M S A) (k : A -> M S B) s c s' :
  m s = Exit c s' -> (m ≫= k) s = Exit c s'.
Proof. unfold mbind, M_bind. by intros ->. Qed.

Lemma bind_ext (m : M S A) (k k' : A -> M S B) s :
  (forall a s', m s = Ret a s' -> k a s' = k' a s') -> (m ≫= k) s = (m ≫= k') s.
Proof. unfold mbind, M_bind. intros Hk. destruct (m s); auto. Qed.

Lemma returns_bind (m : M S A) (k : A -> M S B) s Q :
  returns (m ≫= k) s Q <-> returns m s (fun a s' => returns (k a) s' Q).
Proof. unfold returns, mbind, M_bind. by destruct (m s). Qed.

Lemma returns_ret (a : A) s (Q : A -> S -> Prop) : returns (mret a) s Q <-> Q a s.
Proof. done. Qed.

Lemma returns_mono (m : M S A) s (Q Q' : A -> S -> Prop) :
  returns m s Q -> (forall a s', Q a s' -> Q' a s') -> returns m s Q'.
Proof. unfold returns. destruct (m s); eauto. Qed.

Lemma returns_eq (m : M S A) s (Q : A -> S -> Prop) :
  returns m s Q <-> exists a s', m s = Ret a s' /\ Q a s'.
Proof. unfold returns. split; [destruct (m s); try done; eauto|].
  by intros (a & s' & -> & HQ). Qed.
End MonadLemmas.

(** ** Component states inside a larger program state *)
Class Lens (S T : Type) := {
  view : S -> T;
  upd : T -> S -> S;
  view_upd : forall t s, view (upd t s) = t;
  upd_view : forall s, upd (view s) s = s;
  upd_upd : forall t t' s, upd t (upd t' s) = upd t s }.

Definition lift {S T A} `{Lens S T} (m : M T A) : M S A := fun s =>
  match m (view s) with
  | Ret a t => Ret a (upd t s)
  | Exit c t => Exit c (upd t s)
  | Undef => Undef
  | NoFuel => NoFuel
  end.

Lemma lift_ret_eq {S T A} `{Lens S T} (m : M T A) (s : S) (a : A) t :
  m (view s) = Ret a t -> lift m s = Ret a (upd t s).
Proof. unfold lift. by intros ->. Qed.

(** ** Characters and C strings

    A C [char] is an [ascii]; a NUL-terminated string is the list of the
    characters before its NUL; a pointer into a text is an offset, and reading at
    the offset of the end gives the NUL. *)
Definition ord (c : ascii) : Z := Z.of_N (N_of_ascii c).
Definition chr (z : Z) : ascii := ascii_of_N (Z.to_N z).
Definition NUL : ascii := "000"%char.
Definition dquote : ascii := "034"%char.
Definition backslash : ascii := "092"%char.

Definition lit (s : string) : list ascii := String.list_ascii_of_string s.

(** [qt] writes a literal that contains double quotes: each apostrophe of the
    literal stands for a double quote. *)
Definition qt (s : string) : list ascii :=
  map (fun c => if Ascii.eqb c "'"%char then dquote else c) (lit s).

Definition char_at (text : list ascii) (i : nat) : ascii :=
  match text !! i with Some c => c | None => NUL end.

Definition no_nul (s : list ascii) : Prop := Forall (fun c => c <> NUL) s.

(** The C string held by a byte buffer: everything before the first NUL. *)
Fixpoint cstr (s : list ascii) : list ascii :=
  match s with
  | [] => []
  | c :: s' => if Ascii.eqb c NUL then [] else c :: cstr s'
  end.

(** ** Heap locations and pointers *)
Abbreviation loc := positive (only parsing).
Abbreviation ptr := (option positive).
Abbreviation NULL := (@None positive).

(** ** Machine integers *)
Definition INT_MIN : Z := -(2^31).
Definition INT_MAX : Z := 2^31 - 1.
Definition LONG_MIN : Z := -(2^63).
Definition LONG_MAX : Z := 2^63 - 1.
Definition ULONG_MAX : Z := 2^64 - 1.
Definition SIZE_MAX : Z := 2^64 - 1.

Definition in_int (z : Z) : bool := (INT_MIN <=? z) && (z <=? INT_MAX).

(** Conversion of an integer to a 32-bit [int] (two's complement wrap, what gcc
    documents for out-of-range conversions). *)
Definition wrap_int (z : Z) : Z := (z + 2^31) mod 2^32 - 2^31.
Definition wrap_u32 (z : Z) : Z := z mod 2^32.
Definition wrap_u64 (z : Z) : Z := z mod 2^64.

Lemma wrap_int_range z : INT_MIN <= wrap_int z <= INT_MAX.
Proof.
  unfold wrap_int, INT_MIN, INT_MAX.
  pose proof (Z.mod_pos_bound (z + 2^31) (2^32) ltac:(lia)). lia.
Qed.

Lemma wrap_int_id z : INT_MIN <= z <= INT_MAX -> wrap_int z = z.
Proof.
  unfold wrap_int, INT_MIN, INT_MAX. intros. rewrite Z.mod_small; lia.
Qed.

(** ** Automation *)
(** Case analysis on the scrutinee of a match or if in a hypothesis. *)
Ltac case_hyp H :=
  match type of H with
  | context [match ?x with _ => _ end] =>
      lazymatch x with
      | context [match _ with _ => _ end] => fail
      | _ => let E := fresh "E" in destruct x eqn:E; simplify_eq/=
      end
  end.

Create HintDb capp discriminated.
#[export] Hint Constants Opaque : capp.

(** ** Generic list lemmas *)
Lemma char_at_lookup (text : list ascii) i c : text !! i = Some c -> char_at text i = c.
Proof. unfold char_at. by intros ->. Qed.

Lemma char_at_end (text : list ascii) i : (length text <= i)%nat -> char_at text i = NUL.
Proof. unfold char_at. by intros ->%lookup_ge_None. Qed.

Lemma cstr_no_nul s : no_nul (cstr s).
Proof.
  induction s as [|c s IH]; simpl; [constructor|].
  destruct (Ascii.eqb_spec c NUL); constructor; done.
Qed.

Lemma cstr_id s : no_nul s -> cstr s = s.
Proof.
  induction 1 as [|c s Hc _ IH]; simpl; [done|].
  destruct (Ascii.eqb_spec c NUL); [done|]. by rewrite IH.
Qed.
