(* ===== verification/HeapRep.v ===== *)
(** * Heaps described by their cells

    [rep cs g h]: the heap [h] consists of exactly the cells [cs], all at distinct
    locations, and of the rest [g], which they do not touch. Shared by the node
    heap of json.c and the list heaps of switch.c. *)

From S2P Require Import Prelude.

(** ** The heap holds exactly the cells and a rest *)
Definition rep {V : Type} (cs : list (positive * V)) (g h : gmap positive V) : Prop :=
  NoDup cs.*1 /\ h = list_to_map cs ∪ g /\ (list_to_map cs : gmap positive V) ##ₘ g.

#[global] Instance rep_proper {V : Type} : Proper ((≡ₚ) ==> (=) ==> (=) ==> iff) (@rep V).
Proof.
  assert (forall (cs cs' : list (positive * V)) g h, cs ≡ₚ cs' -> rep cs g h -> rep cs' g h) as Hp.
  { intros cs cs' g h Hcs (Hnd & -> & Hd).
    assert ((list_to_map cs : gmap positive V) = list_to_map cs') as Heq
      by by apply list_to_map_proper.
    split; [by rewrite <- Hcs|]. by rewrite <- Heq. }
  intros cs cs' Hcs g _ <- h _ <-. split; by apply Hp.
Qed.

Section RepLemmas.
Context {V : Type} (cs : list (positive * V)) (g h : gmap positive V).

Lemma rep_elem l n : rep cs g h -> (l, n) ∈ cs -> h !! l = Some n.
Proof.
  intros (Hnd & -> & Hd) Hin. apply lookup_union_Some_l.
  by apply elem_of_list_to_map_1.
Qed.

Lemma rep_update l n n' : rep ((l, n) :: cs) g h -> rep ((l, n') :: cs) g (<[l := n']> h).
Proof.
  intros (Hnd & -> & Hd). simpl in *. split; [done|]. split.
  - rewrite insert_union_l. by rewrite insert_insert_eq.
  - apply map_disjoint_insert_l in Hd as [Hg Hd]. by apply map_disjoint_insert_l.
Qed.

Lemma rep_alloc l n : rep cs g h -> h !! l = None -> rep ((l, n) :: cs) g (<[l := n]> h).
Proof.
  intros (Hnd & -> & Hd) [Hl Hg]%lookup_union_None. split; [|split].
  - simpl. constructor; [|done]. by apply not_elem_of_list_to_map_2.
  - simpl. by rewrite insert_union_l.
  - simpl. by apply map_disjoint_insert_l.
Qed.

Lemma rep_free l n : rep ((l, n) :: cs) g h -> rep cs g (delete l h).
Proof.
  intros (Hnd & -> & Hd). simpl in *. inv Hnd.
  apply map_disjoint_insert_l in Hd as [Hg Hd]. split; [done|]. split; [|done].
  rewrite delete_union, delete_insert_id, (delete_id g); [done|done|].
  by apply not_elem_of_list_to_map_1.
Qed.

Lemma rep_drop cs' :
  rep (cs ++ cs') g h -> rep cs (list_to_map cs' ∪ g) h.
Proof.
  intros (Hnd & -> & Hd). rewrite fmap_app in Hnd. apply NoDup_app in Hnd as (H1 & H2 & H3).
  rewrite list_to_map_app in *. apply map_disjoint_union_l in Hd as [Hd1 Hd2].
  split; [done|]. split; [by rewrite <- (assoc_L (∪))|].
  apply map_disjoint_union_r. split; [|done].
  apply map_disjoint_spec. intros i x y Hx Hy.
  apply elem_of_list_to_map_2 in Hx, Hy. apply (H2 i); apply list_elem_of_fmap; by eexists (i, _).
Qed.

Lemma rep_frame_subseteq : rep cs g h -> g ⊆ h.
Proof. intros (_ & -> & Hd). by apply map_union_subseteq_r. Qed.

Lemma rep_size : rep cs g h -> size h = (length cs + size g)%nat.
Proof.
  intros (Hnd & -> & Hd). rewrite map_size_disj_union by done. f_equal.
  clear Hd. induction cs as [|[l n] cs' IH]; [done|]. simpl in *. inv Hnd.
  rewrite map_size_insert_None; [by rewrite IH|]. by apply not_elem_of_list_to_map_1.
Qed.
End RepLemmas.

Lemma rep_drop_size {V : Type} (cs' : list (positive * V)) (g : gmap positive V) cs h :
  rep (cs ++ cs') g h ->
  g ⊆ list_to_map cs' ∪ g /\ size (list_to_map cs' ∪ g : gmap positive V) = (length cs' + size g)%nat.
Proof.
  intros H. assert (rep cs' g (list_to_map cs' ∪ g)) as Hr.
  { destruct H as (Hnd & _ & Hd). rewrite fmap_app in Hnd. apply NoDup_app in Hnd as (_ & _ & ?).
    split; [done|]. split; [done|]. rewrite list_to_map_app in Hd.
    by apply map_disjoint_union_l in Hd as [_ ?]. }
  split; [by eapply rep_frame_subseteq|by apply rep_size].
Qed.

Lemma rep_nil {V : Type} (g : gmap positive V) : rep [] g g.
Proof. split; [constructor|]. rewrite list_to_map_nil.
  split; [by rewrite (left_id_L ∅ (∪))|apply map_disjoint_empty_l]. Qed.

Lemma rep_nil_inv {V : Type} (g h : gmap positive V) : rep [] g h -> h = g.
Proof. intros (_ & -> & _). by rewrite list_to_map_nil, (left_id_L ∅ (∪)). Qed.

