(* ===== verification/CLib.v ===== *)
(** * The parts of the C standard library the client calls

    ctype.h classification in the "C" locale, the numeric conversions of
    stdlib.h (strtod, strtol, strtoul, atoi, atol), string.h comparisons, the
    integer conversions of printf, and IEEE binary32/binary64 arithmetic with
    rounding to nearest even (Stdlib's [SpecFloat]). *)

From Stdlib Require Import DecimalString DecimalZ SpecFloat.
From S2P Require Import Prelude.

(** ** ctype.h *)
Definition isspace (c : ascii) : bool :=
  ((9 <=? ord c) && (ord c <=? 13)) || (ord c =? 32).
Definition isdigit (c : ascii) : bool := (48 <=? ord c) && (ord c <=? 57).
Definition isupper (c : ascii) : bool := (65 <=? ord c) && (ord c <=? 90).
Definition islower (c : ascii) : bool := (97 <=? ord c) && (ord c <=? 122).
Definition isalpha (c : ascii) : bool := isupper c || islower c.
Definition isalnum (c : ascii) : bool := isalpha c || isdigit c.
Definition tolower (c : ascii) : ascii := if isupper c then chr (ord c + 32) else c.

(** ** string.h *)
Definition streq (a b : list ascii) : bool := bool_decide (a = b).

(** strncmp(s, t, n) = 0 for C strings [s] and [t]. *)
Definition strneq (s t : list ascii) (n : nat) : bool :=
  bool_decide (take n s = take n t).

(** strchr(s, c) is not NULL, for a character other than NUL. *)
Definition strchr_found (s : list ascii) (c : ascii) : bool := bool_decide (c ∈ s).

(** ** Digits *)
Definition digit_val (c : ascii) : Z := ord c - 48.

Fixpoint span_len (p : ascii -> bool) (s : list ascii) : nat :=
  match s with
  | c :: s' => if p c then S (span_len p s') else 0%nat
  | [] => 0%nat
  end.

Definition digits_val (base : Z) (val : ascii -> Z) (s : list ascii) : Z :=
  fold_left (fun acc c => acc * base + val c) s 0.

Definition dec_val (s : list ascii) : Z := digits_val 10 digit_val s.

Definition skip_space (s : list ascii) : list ascii := drop (span_len isspace s) s.

(** An optional sign: (negative, rest, characters taken). *)
Definition take_sign (s : list ascii) : bool * list ascii * nat :=
  match s with
  | c :: s' =>
      if Ascii.eqb c "-" then (true, s', 1%nat)
      else if Ascii.eqb c "+" then (false, s', 1%nat)
      else (false, s, 0%nat)
  | [] => (false, [], 0%nat)
  end.

(** ** strtoul, strtol, atol and atoi in base 10 *)
Definition strtoul (s : list ascii) : Z :=
  let '(neg, r, _) := take_sign (skip_space s) in
  let v := dec_val (take (span_len isdigit r) r) in
  if v >? ULONG_MAX then ULONG_MAX
  else if neg then wrap_u64 (- v) else v.

Definition strtol (s : list ascii) : Z :=
  let '(neg, r, _) := take_sign (skip_space s) in
  let v := dec_val (take (span_len isdigit r) r) in
  let v := if neg then - v else v in
  if v >? LONG_MAX then LONG_MAX else if v <? LONG_MIN then LONG_MIN else v.

Definition atol (s : list ascii) : Z := strtol s.
Definition atoi (s : list ascii) : Z := wrap_int (strtol s).

(** ** Binary floating point *)
Definition float := spec_float.
Definition double := spec_float.

(** Conversion of an integer to float, float division. *)
Definition float_of_Z (z : Z) : float := binary_normalize 24 128 z 0 false.
Definition float_div (a b : float) : float := SFdiv 24 128 a b.

(** The integer part of a finite float; [None] for infinities and NaN. *)
Definition sf_trunc (f : spec_float) : option Z :=
  match f with
  | S754_zero _ => Some 0
  | S754_finite s m e =>
      let a := if 0 <=? e then Z.pos m * 2 ^ e else Z.pos m / 2 ^ (- e) in
      Some (if s then - a else a)
  | _ => None
  end.

(** (int)f: undefined when the truncated value is not an [int]. *)
Definition int_of_float (f : float) : option Z :=
  match sf_trunc f with
  | Some z => if in_int z then Some z else None
  | None => None
  end.

(** The double nearest to (-1)^s * m * 10^e. *)
Definition round_decimal (s : bool) (m e : Z) : double :=
  match m with
  | Zpos p =>
      if 0 <=? e then binary_normalize 53 1024 ((if s then -1 else 1) * m * 10 ^ e) 0 s
      else
        match 10 ^ (- e) with
        | Zpos q =>
            let '(mz, ez, lz) := SFdiv_core_binary 53 1024 (Zpos p) 0 (Zpos q) 0 in
            binary_round_aux 53 1024 s mz ez lz
        | _ => S754_nan
        end
  | _ => S754_zero s
  end.

Definition is_zero (f : spec_float) : bool :=
  match f with S754_zero _ => true | _ => false end.

(** ** strtod

    [strtod s] is the converted double and the number of characters consumed
    (zero when no conversion is performed, where strtod stores the start of the
    string in its end pointer). *)
Definition xdigit (c : ascii) : bool :=
  isdigit c || ((97 <=? ord (tolower c)) && (ord (tolower c) <=? 102)).
Definition xdigit_val (c : ascii) : Z :=
  if isdigit c then digit_val c else ord (tolower c) - 87.

(** A case-insensitive prefix test against a lower-case literal. *)
Definition iprefix (p s : list ascii) : bool :=
  bool_decide (map tolower (take (length p) s) = p).

(** Mantissa digits with an optional point: (digits, digits after the point,
    characters taken); no digit at all gives zero characters. *)
Definition mantissa (isd : ascii -> bool) (s : list ascii) : list ascii * nat * nat :=
  let n := span_len isd s in
  match drop n s with
  | c :: r =>
      if Ascii.eqb c "." then
        let k := span_len isd r in
        if (n + k =? 0)%nat then ([], 0%nat, 0%nat)
        else (take n s ++ take k r, k, (n + 1 + k)%nat)
      else (take n s, 0%nat, n)
  | [] => (take n s, 0%nat, n)
  end.

(** An optional exponent introduced by [mark]: (value, characters taken). *)
Definition exponent (mark : ascii) (s : list ascii) : Z * nat :=
  match s with
  | c :: r =>
      if Ascii.eqb (tolower c) mark then
        let '(neg, r', k) := take_sign r in
        let n := span_len isdigit r' in
        if (n =? 0)%nat then (0, 0%nat)
        else ((if neg then -1 else 1) * dec_val (take n r'), (1 + k + n)%nat)
      else (0, 0%nat)
  | [] => (0, 0%nat)
  end.

Definition nan_len (s : list ascii) : nat :=
  match drop 3 s with
  | c :: r =>
      if Ascii.eqb c "(" then
        let n := span_len (fun c => isalnum c || Ascii.eqb c "_") r in
        if Ascii.eqb (char_at r n) ")" then (3 + n + 2)%nat else 3%nat
      else 3%nat
  | [] => 3%nat
  end.

(** The subject sequence after white space and sign. *)
Definition strtod_body (s : bool) (r : list ascii) : double * nat :=
  let '(hd, hf, hn) := mantissa xdigit (drop 2 r) in
  if iprefix (lit "0x") r && (0 <? hn)%nat then
    let '(e, en) := exponent "p" (drop (2 + hn) r) in
    let m := digits_val 16 xdigit_val hd in
    let e2 := e - 4 * Z.of_nat hf in
    ((if m =? 0 then S754_zero s
      else binary_normalize 53 1024 ((if s then -1 else 1) * m) e2 s), (2 + hn + en)%nat)
  else
    let '(dd, df, dn) := mantissa isdigit r in
    if (0 <? dn)%nat then
      let '(e, en) := exponent "e" (drop dn r) in
      (round_decimal s (dec_val dd) (e - Z.of_nat df), (dn + en)%nat)
    else if iprefix (lit "infinity") r then (S754_infinity s, 8%nat)
    else if iprefix (lit "inf") r then (S754_infinity s, 3%nat)
    else if iprefix (lit "nan") r then (S754_nan, nan_len r)
    else (S754_zero false, 0%nat).

Definition strtod (s : list ascii) : double * nat :=
  let w := span_len isspace s in
  let '(neg, r, k) := take_sign (drop w s) in
  let '(v, n) := strtod_body neg r in
  if (n =? 0)%nat then (S754_zero false, 0%nat) else (v, (w + k + n)%nat).

(** ** printf integer conversions (%d, %i, %lu, %ld, %u) *)
Definition show_Z (z : Z) : list ascii := lit (NilZero.string_of_int (Z.to_int z)).

(** ** Lemmas *)
Lemma span_len_le p s : (span_len p s <= length s)%nat.
Proof. induction s as [|c s IH]; simpl; [lia|]. destruct (p c); lia. Qed.

Lemma span_len_all p s r :
  Forall (fun c => p c = true) s -> (match r with c :: _ => p c = false | [] => True end) ->
  span_len p (s ++ r) = length s.
Proof.
  induction 1 as [|c s Hc _ IH]; simpl; intros Hr.
  - destruct r as [|c r]; simpl; [done|]. by rewrite Hr.
  - rewrite Hc. by rewrite IH.
Qed.

Lemma strtoul_range s : 0 <= strtoul s <= ULONG_MAX.
Proof.
  unfold strtoul. destruct (take_sign _) as [[neg r] k].
  set (v := dec_val _).
  assert (0 <= v) as Hv.
  { subst v. unfold dec_val, digits_val.
    assert (forall l acc, 0 <= acc -> Forall (fun c => isdigit c = true) l ->
              0 <= fold_left (fun acc c => acc * 10 + digit_val c) l acc) as Hf.
    { induction l as [|c l IH]; simpl; intros acc Ha Hl; [done|].
      inv Hl. apply IH; [|done]. unfold digit_val, isdigit in *. lia. }
    apply Hf; [lia|]. clear Hf. induction r as [|c r IH]; simpl; [constructor|].
    destruct (isdigit c) eqn:E; simpl; constructor; done. }
  destruct (v >? ULONG_MAX) eqn:E; [unfold ULONG_MAX; lia|].
  destruct neg; [|unfold ULONG_MAX in *; lia].
  unfold wrap_u64, ULONG_MAX. pose proof (Z.mod_pos_bound (-v) (2^64) ltac:(lia)). lia.
Qed.

(** ** Printing a number and reading it back *)
Lemma digits_acc d acc :
  fold_left (fun a c => a * 10 + digit_val c) (lit (NilEmpty.string_of_uint d)) (Zpos acc)
  = Zpos (Pos.of_uint_acc d acc).
Proof.
  revert acc. induction d; intros acc; [done|..]; cbn [NilEmpty.string_of_uint lit String.list_ascii_of_string fold_left Pos.of_uint_acc];
    rewrite <- IHd; f_equal; unfold digit_val;
    match goal with |- context [ord ?c] => let v := eval vm_compute in (ord c) in change (ord c) with v end; lia.
Qed.

Lemma dec_val_uint d : dec_val (lit (NilEmpty.string_of_uint d)) = Z.of_uint d.
Proof.
  unfold dec_val, digits_val, Z.of_uint.
  induction d; [done|..]; cbn [NilEmpty.string_of_uint lit String.list_ascii_of_string fold_left Pos.of_uint Z.of_N];
    try (etrans; [|apply digits_acc]; done).
  etrans; [|exact IHd]. done.
Qed.

Lemma uint_digits d : forallb isdigit (lit (NilEmpty.string_of_uint d)) = true.
Proof. by induction d. Qed.

Lemma to_int_pos z : 0 <= z -> exists d, Z.to_int z = Decimal.Pos d /\ d <> Decimal.Nil /\ Z.of_uint d = z.
Proof.
  intros Hz. pose proof (DecimalZ.of_to z) as H. destruct z as [|p|p]; [by exists (Decimal.D0 Decimal.Nil)| |lia].
  exists (Pos.to_uint p). split; [done|]. split; [|exact H]. intros E. simpl in H. rewrite E in H. done.
Qed.

Lemma show_digits z : 0 <= z ->
  forallb isdigit (show_Z z) = true /\ show_Z z <> [] /\ dec_val (show_Z z) = z.
Proof.
  intros (d & Hd & Hn & Hz)%to_int_pos. unfold show_Z. rewrite Hd. cbn [NilZero.string_of_int].
  assert (NilZero.string_of_uint d = NilEmpty.string_of_uint d) as -> by by destruct d.
  split; [apply uint_digits|]. split; [by destruct d|]. by rewrite dec_val_uint.
Qed.

Lemma strtoul_digits s : forallb isdigit s = true -> s <> [] ->
  strtoul s = Z.min (dec_val s) ULONG_MAX.
Proof.
  intros Hd Hne. unfold strtoul, skip_space.
  destruct s as [|c s]; [done|]. pose proof Hd as Hc. simpl in Hc. apply andb_true_iff in Hc as [Hc _].
  assert (isspace c = false /\ Ascii.eqb c "-" = false /\ Ascii.eqb c "+" = false) as (Hs & Hm & Hp).
  { clear -Hc. destruct c as [[][][][][][][][]]; vm_compute in Hc |- *; intuition congruence. }
  assert (span_len isspace (c :: s) = 0%nat) as -> by (simpl; by rewrite Hs).
  rewrite drop_0. cbn [take_sign]. rewrite Hm, Hp.
  assert (span_len isdigit (c :: s) = length (c :: s)) as ->.
  { rewrite <- (app_nil_r (c :: s)) at 1. apply span_len_all; [|done]. apply Forall_forall.
    rewrite forallb_forall in Hd. intros x Hx%list_elem_of_In. by apply Hd. }
  rewrite firstn_all. destruct (Z.gtb_spec (dec_val (c :: s)) ULONG_MAX); lia.
Qed.
