(* ===== verification/JsonLex.v ===== *)
(** * The lexical layer of App/json/json.c

    json_istoken, json_isescape, json_token, json_scan, json_copy and the
    classification done by json_set_name and json_set_value, as functions of
    the text and of offsets into it. *)

From S2P Require Import Prelude CLib.

(** enum json_type *)
Inductive json_type :=
| JSON_EMPTY | JSON_OBJECT | JSON_ARRAY | JSON_STRING | JSON_NUMBER
| JSON_BOOLEAN | JSON_NULL | JSON_NONE.

#[global] Instance json_type_eq_dec : EqDecision json_type.
Proof. solve_decision. Defined.

Definition json_isspace (c : ascii) : bool := isspace c.

Definition json_istoken (c : ascii) : bool :=
  Ascii.eqb c "{" || Ascii.eqb c "[" || Ascii.eqb c ":" || Ascii.eqb c "," ||
  Ascii.eqb c "]" || Ascii.eqb c "}".

Definition json_isescape (c : ascii) : bool :=
  Ascii.eqb c backslash || Ascii.eqb c "/" || Ascii.eqb c dquote ||
  Ascii.eqb c "b" || Ascii.eqb c "f" || Ascii.eqb c "n" || Ascii.eqb c "r" || Ascii.eqb c "t".

(** [Ascii.eqb] on a token character selects the container type. *)
Definition json_token (token : ascii) : json_type :=
  if Ascii.eqb token "{" || Ascii.eqb token "}" then JSON_OBJECT
  else if Ascii.eqb token "[" || Ascii.eqb token "]" then JSON_ARRAY
  else JSON_EMPTY.

(** ** json_scan

    The loop state is the text from [str] on, the offset [str], the number of
    quotes seen and the offsets [left] and [right] of the first and last
    character that is not a space. *)
Definition mark (c : ascii) (str : nat) (lr : option (nat * nat)) : option (nat * nat) :=
  if json_isspace c then lr
  else match lr with
       | None => Some (str, str)
       | Some (l, _) => Some (l, str)
       end.

Fixpoint scan_loop (rest : list ascii) (str quotes : nat) (lr : option (nat * nat))
  : option (option (nat * nat) * nat * nat) :=
  match rest with
  | [] => Some (lr, str, quotes)
  | c :: rest' =>
      if Ascii.eqb c backslash then
        if negb (Nat.odd quotes) then None
        else match rest' with
             | [] => None
             | e :: rest'' =>
                 if json_isescape e
                 then scan_loop rest'' (S (S str)) quotes (mark e (S str) lr)
                 else None
             end
      else if Ascii.eqb c dquote then
        scan_loop rest' (S str) (S quotes) (mark c str lr)
      else if negb (Nat.odd quotes) then
        if json_istoken c then Some (lr, str, quotes)
        else if (0 <? quotes)%nat && negb (json_isspace c) then None
        else scan_loop rest' (S str) quotes (mark c str lr)
      else scan_loop rest' (S str) quotes (mark c str lr)
  end.

(** json_scan(&left, &right): the offset of the next token (or of the end) with
    the new [left] and [right]; [None] for a malformed string. *)
Definition json_scan (text : list ascii) (left : nat) : option (nat * nat * nat) :=
  match scan_loop (drop left text) left 0 None with
  | None => None
  | Some (lr, str, quotes) =>
      if Nat.odd quotes then None
      else match lr with
           | None => Some (str, str, str)
           | Some (l, r) => Some (l, r, str)
           end
  end.

(** ** json_copy

    The characters written to the fresh buffer, for the [size] characters at
    [str]; [copy_loop] works on the remaining source characters. An escape
    character that is the last one of the range reads one more character of the
    text. *)
Definition unescape (e : ascii) : list ascii :=
  if Ascii.eqb e backslash || Ascii.eqb e "/" || Ascii.eqb e dquote then [e]
  else if Ascii.eqb e "b" then ["008"%char]
  else if Ascii.eqb e "f" then ["012"%char]
  else if Ascii.eqb e "n" then ["010"%char]
  else if Ascii.eqb e "r" then ["013"%char]
  else if Ascii.eqb e "t" then ["009"%char]
  else [].

Fixpoint copy_loop (src : list ascii) (after : ascii) (quotes : nat) : list ascii :=
  match src with
  | [] => []
  | c :: src' =>
      if Ascii.eqb c backslash then
        match src' with
        | [] => unescape after
        | e :: src'' => unescape e ++ copy_loop src'' after quotes
        end
      else if Ascii.eqb c dquote then copy_loop src' after (S quotes)
      else if (quotes =? 0)%nat || Nat.odd quotes then c :: copy_loop src' after quotes
      else copy_loop src' after quotes
  end.

Definition json_copy (text : list ascii) (left size : nat) : list ascii :=
  copy_loop (take size (drop left text)) (char_at text (left + size)) 0.

(** ** json_set_name and json_set_value, before the node is written

    The name a "key" range gives, [None] when it is not quoted. *)
Definition name_of (text : list ascii) (left right : nat) : option (list ascii) :=
  if negb (Ascii.eqb (char_at text left) dquote) || negb (Ascii.eqb (char_at text right) dquote)
  then None
  else Some (json_copy text left (right - left + 1)).

(** The type of the value in the range [left, right]; [None] when it is none. *)
Definition classify (text : list ascii) (left right : nat) : option json_type :=
  let size := (right - left + 1)%nat in
  let s := drop left text in
  if Ascii.eqb (char_at text left) dquote && Ascii.eqb (char_at text right) dquote
  then Some JSON_STRING
  else if (size =? 4)%nat && strneq s (lit "null") size then Some JSON_NULL
  else if (size =? 4)%nat && strneq s (lit "true") size then Some JSON_BOOLEAN
  else if (size =? 5)%nat && strneq s (lit "false") size then Some JSON_BOOLEAN
  else
    let '(_, n) := strtod s in
    if (left + n <=? right)%nat then None else Some JSON_NUMBER.

Definition value_of (text : list ascii) (left right : nat) : option (json_type * list ascii) :=
  match classify text left right with
  | None => None
  | Some ty => Some (ty, json_copy text left (right - left + 1))
  end.

(** ** The counters of quotes as int

    json_scan and json_copy count quotes in an int. [scan_loop] and [copy_loop] count in
    [nat]; these are the same loops on the int, where [None] stands for an increment of
    INT_MAX, which is undefined. They agree while a text has at most INT_MAX quotes. *)
Definition inc_int (n : Z) : option Z := if n <? INT_MAX then Some (n + 1) else None.

Fixpoint scan_loop_int (rest : list ascii) (str : nat) (quotes : Z) (lr : option (nat * nat))
  : option (option (option (nat * nat) * nat * Z)) :=
  match rest with
  | [] => Some (Some (lr, str, quotes))
  | c :: rest' =>
      if Ascii.eqb c backslash then
        if negb (Z.odd quotes) then Some None
        else match rest' with
             | [] => Some None
             | e :: rest'' =>
                 if json_isescape e
                 then scan_loop_int rest'' (S (S str)) quotes (mark e (S str) lr)
                 else Some None
             end
      else if Ascii.eqb c dquote then
        match inc_int quotes with
        | None => None
        | Some quotes => scan_loop_int rest' (S str) quotes (mark c str lr)
        end
      else if negb (Z.odd quotes) then
        if json_istoken c then Some (Some (lr, str, quotes))
        else if (0 <? quotes) && negb (json_isspace c) then Some None
        else scan_loop_int rest' (S str) quotes (mark c str lr)
      else scan_loop_int rest' (S str) quotes (mark c str lr)
  end.

Definition json_scan_int (text : list ascii) (left : nat) : option (option (nat * nat * nat)) :=
  match scan_loop_int (drop left text) left 0 None with
  | None => None
  | Some None => Some None
  | Some (Some (lr, str, quotes)) =>
      Some (if Z.odd quotes then None
            else match lr with
                 | None => Some (str, str, str)
                 | Some (l, r) => Some (l, r, str)
                 end)
  end.

Fixpoint copy_loop_int (src : list ascii) (after : ascii) (quotes : Z) : option (list ascii) :=
  match src with
  | [] => Some []
  | c :: src' =>
      if Ascii.eqb c backslash then
        match src' with
        | [] => Some (unescape after)
        | e :: src'' => app (unescape e) <$> copy_loop_int src'' after quotes
        end
      else if Ascii.eqb c dquote then
        match inc_int quotes with
        | None => None
        | Some quotes => copy_loop_int src' after quotes
        end
      else if (quotes =? 0) || Z.odd quotes then cons c <$> copy_loop_int src' after quotes
      else copy_loop_int src' after quotes
  end.

Definition json_copy_int (text : list ascii) (left size : nat) : option (list ascii) :=
  copy_loop_int (take size (drop left text)) (char_at text (left + size)) 0.

(** The number of quotes, escaped or not. *)
Definition quotes_in (text : list ascii) : nat := length (filter (fun c => c = dquote) text).

Lemma quotes_cons c text : quotes_in (c :: text) = ((if Ascii.eqb c dquote then 1 else 0) + quotes_in text)%nat.
Proof. unfold quotes_in. rewrite filter_cons. destruct (Ascii.eqb_spec c dquote), (decide _); done. Qed.

Lemma quotes_app a b : quotes_in (a ++ b) = (quotes_in a + quotes_in b)%nat.
Proof. unfold quotes_in. by rewrite filter_app, length_app. Qed.

Lemma quotes_drop n text : (quotes_in (drop n text) <= quotes_in text)%nat.
Proof. rewrite <- (take_drop n text) at 2. rewrite quotes_app. lia. Qed.

Lemma quotes_take n text : (quotes_in (take n text) <= quotes_in text)%nat.
Proof. rewrite <- (take_drop n text) at 2. rewrite quotes_app. lia. Qed.

Lemma odd_int q : Z.odd (Z.of_nat q) = Nat.odd q.
Proof.
  destruct (Nat.odd q) eqn:H.
  - apply Nat.odd_spec in H as [k ->]. apply Z.odd_spec. exists (Z.of_nat k). lia.
  - apply (f_equal negb) in H. rewrite Nat.negb_odd in H. apply Nat.even_spec in H as [k ->]. rewrite <- Z.negb_even.
    apply negb_false_iff, Z.even_spec. exists (Z.of_nat k). lia.
Qed.

Lemma inc_int_eq q : Z.of_nat (S q) <= INT_MAX -> inc_int (Z.of_nat q) = Some (Z.of_nat (S q)).
Proof. intros H. unfold inc_int. destruct (Z.ltb_spec (Z.of_nat q) INT_MAX); [f_equal; lia|lia]. Qed.

Lemma scan_loop_int_eq rest : forall str q lr, Z.of_nat (q + quotes_in rest) <= INT_MAX ->
  scan_loop_int rest str (Z.of_nat q) lr = Some ((fun '(lr, str, q) => (lr, str, Z.of_nat q)) <$> scan_loop rest str q lr).
Proof.
  induction rest as [rest IH] using (induction_ltof1 _ length). unfold ltof in IH. intros str q lr Hq. destruct rest as [|c rest]; [done|].
  assert (forall str lr q, Z.of_nat (q + quotes_in rest) <= INT_MAX ->
    scan_loop_int rest str (Z.of_nat q) lr = Some ((fun '(lr, str, q) => (lr, str, Z.of_nat q)) <$> scan_loop rest str q lr)) as Hone by (intros; apply IH; [cbn; lia|done]).
  rewrite quotes_cons in Hq. cbn [scan_loop_int scan_loop]. rewrite odd_int. replace (0 <? Z.of_nat q) with (0 <? q)%nat by (destruct (Nat.ltb_spec 0 q), (Z.ltb_spec 0 (Z.of_nat q)); lia).
  destruct (Ascii.eqb c backslash); [destruct (negb _); [done|]; destruct rest as [|e rest]; [done|]; destruct (json_isescape e); [|done];
    apply IH; [cbn; lia|rewrite quotes_cons in Hq; lia]|].
  destruct (Ascii.eqb c dquote); [rewrite inc_int_eq by lia; apply Hone; lia|].
  rewrite Hone by lia. destruct (negb _); [|done]. destruct (json_istoken c); [done|]. by destruct (_ && _).
Qed.

(** Counting in int changes nothing in a text with at most INT_MAX quotes. *)
Lemma json_scan_int_eq text left : Z.of_nat (quotes_in text) <= INT_MAX -> json_scan_int text left = Some (json_scan text left).
Proof.
  intros H. unfold json_scan_int, json_scan. change 0 with (Z.of_nat 0). pose proof (quotes_drop left text).
  rewrite scan_loop_int_eq by lia. destruct (scan_loop _ _ _ _) as [[[lr str] q]|]; [|done]. cbn. by rewrite odd_int.
Qed.

Lemma copy_loop_int_eq src after : forall q, Z.of_nat (q + quotes_in src) <= INT_MAX -> copy_loop_int src after (Z.of_nat q) = Some (copy_loop src after q).
Proof.
  induction src as [src IH] using (induction_ltof1 _ length). unfold ltof in IH. intros q Hq. destruct src as [|c src]; [done|].
  assert (forall q, Z.of_nat (q + quotes_in src) <= INT_MAX -> copy_loop_int src after (Z.of_nat q) = Some (copy_loop src after q)) as Hone by (intros; apply IH; [cbn; lia|done]).
  rewrite quotes_cons in Hq. cbn [copy_loop_int copy_loop]. rewrite odd_int. replace (Z.of_nat q =? 0) with (q =? 0)%nat by (destruct (Nat.eqb_spec q 0), (Z.eqb_spec (Z.of_nat q) 0); lia).
  destruct (Ascii.eqb c backslash).
  { destruct src as [|e src]; [done|]. rewrite quotes_cons in Hq. rewrite IH; [done|cbn; lia|lia]. }
  destruct (Ascii.eqb c dquote); [rewrite inc_int_eq by lia; apply Hone; lia|]. rewrite Hone by lia. by destruct (_ || _).
Qed.

Lemma json_copy_int_eq text left size : Z.of_nat (quotes_in text) <= INT_MAX -> json_copy_int text left size = Some (json_copy text left size).
Proof.
  intros H. unfold json_copy_int, json_copy. change 0 with (Z.of_nat 0). pose proof (quotes_drop left text). pose proof (quotes_take size (drop left text)).
  apply copy_loop_int_eq. lia.
Qed.

(** One token of more than INT_MAX quotes overflows the counter. *)
Lemma scan_overflow n : INT_MAX < Z.of_nat n -> json_scan_int (replicate n dquote) 0 = None.
Proof.
  intros Hn. unfold json_scan_int. assert (forall n str q lr, INT_MAX < q + Z.of_nat n -> scan_loop_int (replicate n dquote) str q lr = None \/ INT_MAX < q) as Hloop.
  { clear. induction n as [|n IH]; intros str q lr H; [right; lia|]. cbn [replicate scan_loop_int]. unfold inc_int.
    change (Ascii.eqb dquote backslash) with false. change (Ascii.eqb dquote dquote) with true. cbv iota.
    destruct (Z.ltb_spec q INT_MAX); [|by left]. destruct (IH (S str) (q + 1) (mark dquote str lr)) as [->|]; [lia|by left|lia]. }
  rewrite drop_0. destruct (Hloop n 0%nat 0 None) as [->|H]; [lia|done|]. unfold INT_MAX in H. lia.
Qed.

(** ** Bounds of json_scan *)
Lemma scan_loop_bounds rest str q lr lr' str' q' :
  scan_loop rest str q lr = Some (lr', str', q') ->
  (str <= str' <= str + length rest)%nat /\
  (str' = (str + length rest)%nat \/
   exists c, rest !! (str' - str)%nat = Some c /\ json_istoken c = true).
Proof.
  revert str q lr. induction rest as [rest IH] using (induction_ltof1 _ length).
  unfold ltof in IH. intros str q lr Hs. destruct rest as [|c rest]; simpl in *.
  { simplify_eq. split; [lia|]. left. lia. }
  assert (forall (r : list ascii) k q lr, scan_loop r (str + k) q lr = Some (lr', str', q') ->
    (k > 0)%nat -> drop k (c :: rest) = r -> length (c :: rest) = (k + length r)%nat ->
    (str <= str' <= str + S (length rest))%nat /\
    (str' = (str + S (length rest))%nat \/
     exists c', (c :: rest) !! (str' - str)%nat = Some c' /\ json_istoken c' = true)) as Hstep.
  { intros r k q0 lr0 Hr Hk Hd Hl. simpl in Hl. apply IH in Hr as [Hb Ht]; [|lia].
    split; [lia|]. destruct Ht as [->|(c' & Hc & Ht)]; [left; lia|]. right. exists c'.
    split; [|done]. rewrite <- Hd, lookup_drop in Hc. rewrite <- Hc. f_equal. lia. }
  destruct (Ascii.eqb c backslash).
  - destruct (negb _); [done|]. destruct rest as [|e rest]; [done|].
    destruct (json_isescape e); [|done].
    apply (Hstep rest 2%nat q (mark e (S str) lr)); [|lia|done|done].
    by replace (str + 2)%nat with (S (S str)) by lia.
  - assert (forall q lr, scan_loop rest (S str) q lr = Some (lr', str', q') ->
      (str <= str' <= str + S (length rest))%nat /\
      (str' = (str + S (length rest))%nat \/
       exists c', (c :: rest) !! (str' - str)%nat = Some c' /\ json_istoken c' = true)) as Hone.
    { intros q0 lr0 H0. apply (Hstep rest 1%nat q0 lr0); [|lia|done|done].
      by replace (str + 1)%nat with (S str) by lia. }
    destruct (Ascii.eqb c dquote); [by eapply Hone|].
    destruct (negb _); [|by eapply Hone].
    destruct (json_istoken c) eqn:Et; [|destruct (_ && _); [done|by eapply Hone]].
    simplify_eq. split; [lia|]. right. exists c. by rewrite Nat.sub_diag.
Qed.

Lemma json_scan_bounds text left l r tok :
  (left <= length text)%nat -> json_scan text left = Some (l, r, tok) ->
  (left <= tok <= length text)%nat /\
  (tok = length text \/ exists c, text !! tok = Some c /\ json_istoken c = true).
Proof.
  intros Hl. unfold json_scan.
  destruct (scan_loop _ _ _ _) as [[[lr str] q]|] eqn:E; [|done].
  apply scan_loop_bounds in E as [Hb Ht]. rewrite length_drop in *.
  destruct (Nat.odd q); [done|]. intros Hs.
  assert (str = tok) as -> by (destruct lr as [[??]|]; by simplify_eq).
  split; [lia|]. destruct Ht as [->|(c & Hc & Ht)]; [left; lia|]. right. exists c. split; [|done].
  rewrite lookup_drop in Hc. rewrite <- Hc. f_equal. lia.
Qed.

(** json_copy never writes past the buffer it allocates. *)
Lemma copy_loop_length src after q : (length (copy_loop src after q) <= length src)%nat.
Proof.
  assert (forall e, (length (unescape e) <= 1)%nat) as Hu.
  { intros e. unfold unescape. repeat (case_match; simpl; [lia|]). simpl. lia. }
  revert q. induction src as [src IH] using (induction_ltof1 _ length). unfold ltof in IH.
  intros q. destruct src as [|c src]; simpl in *; [lia|].
  assert (forall q, (length (copy_loop src after q) <= length src)%nat) as Hone by (intros; apply IH; lia).
  destruct (Ascii.eqb c backslash).
  - destruct src as [|e src]; simpl; [specialize (Hu after); lia|].
    rewrite length_app. specialize (Hu e). specialize (IH src ltac:(simpl; lia) q). lia.
  - destruct (Ascii.eqb c dquote); [specialize (Hone (S q)); lia|].
    specialize (Hone q). destruct (_ || _); simpl; lia.
Qed.
