(* ===== verification/JsonTree.v ===== *)
(** * The document tree: what the parser of json.c computes

    The abstract counterpart of the node heap: rose trees, the zipper at which
    the parser works, and the parser [spec_parse] as a pure function of the text.
    JsonRefine proves that the heap code implements it. Trees and zippers are
    polymorphic in the annotation of a node: [jdata] here, a location and [jdata]
    in JsonRefine. *)

From S2P Require Import Prelude CLib JsonLex.

(** ** Rose trees and zippers *)
Inductive tree (A : Type) : Type :=
| Node (a : A) (kids : list (tree A)).
Arguments Node {A} a kids.

Definition label {A} (t : tree A) : A := let '(Node a _) := t in a.
Definition kids {A} (t : tree A) : list (tree A) := let '(Node _ ks) := t in ks.

Section TreeInd.
Context {A : Type} (P : tree A -> Prop).
Hypothesis (HNode : forall a ks, Forall P ks -> P (Node a ks)).

Fixpoint tree_nested_ind (t : tree A) : P t :=
  match t with
  | Node a ks =>
      HNode a ks ((fix go (l : list (tree A)) : Forall P l :=
                     match l with
                     | [] => Forall_nil_2 P
                     | k :: l' => Forall_cons_2 P k l' (tree_nested_ind k) (go l')
                     end) ks)
  end.
End TreeInd.

Fixpoint tree_map {A B} (f : A -> B) (t : tree A) : tree B :=
  let '(Node a ks) := t in Node (f a) (map (tree_map f) ks).

Fixpoint tree_size {A} (t : tree A) : nat :=
  let '(Node _ ks) := t in S (sum_list_with tree_size ks).

Abbreviation forest_size := (sum_list_with tree_size).

Lemma tree_size_map {A B} (f : A -> B) (t : tree A) : tree_size (tree_map f t) = tree_size t.
Proof.
  induction t as [a ks IH] using tree_nested_ind. simpl. f_equal.
  induction IH as [|k ks Hk _ IH]; simpl; [done|]. by rewrite Hk, IH.
Qed.

Lemma forest_size_map {A B} (f : A -> B) (ks : list (tree A)) :
  forest_size (map (tree_map f) ks) = forest_size ks.
Proof. induction ks as [|k ks IH]; simpl; [done|]. by rewrite tree_size_map, IH. Qed.

(** A frame is the parent of the hole with the siblings on the left of the hole;
    the hole is always the last sibling. [dropped] counts the nodes that were
    unlinked from the document while it was built. *)
Record frame (A : Type) := Frame { f_node : A; f_prev : list (tree A) }.
Arguments Frame {A} f_node f_prev.
Arguments f_node {A} f.
Arguments f_prev {A} f.

Record zipper (A : Type) := Zip {
  focus : tree A; context : list (frame A); dropped : nat }.
Arguments Zip {A} focus context dropped.
Arguments focus {A} z.
Arguments context {A} z.
Arguments dropped {A} z.

Definition plug {A} (f : frame A) (t : tree A) : tree A :=
  Node (f_node f) (f_prev f ++ [t]).

Definition close_all {A} (ctx : list (frame A)) (t : tree A) : tree A :=
  fold_left (fun t f => plug f t) ctx t.

Definition root_of {A} (z : zipper A) : tree A := close_all (context z) (focus z).

Definition frame_map {A B} (f : A -> B) (fr : frame A) : frame B :=
  Frame (f (f_node fr)) (map (tree_map f) (f_prev fr)).
Definition zipper_map {A B} (f : A -> B) (z : zipper A) : zipper B :=
  Zip (tree_map f (focus z)) (map (frame_map f) (context z)) (dropped z).

(** ** The document *)
Record jdata := JData {
  d_type : json_type; d_name : option (list ascii); d_value : option (list ascii) }.

#[global] Instance jdata_eq_dec : EqDecision jdata.
Proof. solve_decision. Defined.

Abbreviation jtree := (tree jdata).

Definition data_zero : jdata := JData JSON_EMPTY None None.
Definition hole : jtree := Node data_zero [].

Definition with_type (ty : json_type) (d : jdata) : jdata := JData ty (d_name d) (d_value d).
Definition with_name (s : list ascii) (d : jdata) : jdata := JData (d_type d) (Some s) (d_value d).
Definition with_value (ty : json_type) (s : list ascii) (d : jdata) : jdata :=
  JData ty (d_name d) (Some s).

Inductive spec_step :=
| SDone (z : zipper jdata)
| SNext (z : zipper jdata).

Section Spec.
Context (text : list ascii).

Definition parent_object (ctx : list (frame jdata)) : bool :=
  match ctx with
  | f :: _ => bool_decide (d_type (f_node f) = JSON_OBJECT)
  | [] => false
  end.

Definition unnamed (d : jdata) : bool := bool_decide (d_name d = None).
Definition is_empty (d : jdata) : bool := bool_decide (d_type d = JSON_EMPTY).

(** Give the focus the value of the range. *)
Definition spec_value (t : jtree) (left right : nat) : option jtree :=
  match value_of text left right with
  | None => None
  | Some (ty, s) => Some (Node (with_value ty s (label t)) (kids t))
  end.

Definition spec_open (z : zipper jdata) (left token : nat) (c : ascii) : option spec_step :=
  let d := label (focus z) in
  if negb (left =? token)%nat then None
  else if parent_object (context z) && unnamed d then None
  else Some (SNext (Zip hole (Frame (with_type (json_token c) d) [] :: context z)
                        (dropped z + forest_size (kids (focus z))))).

Definition spec_colon (z : zipper jdata) (left right : nat) : option spec_step :=
  let d := label (focus z) in
  if negb (parent_object (context z)) || negb (unnamed d) then None
  else match name_of text left right with
       | None => None
       | Some s => Some (SNext (Zip (Node (with_name s d) (kids (focus z))) (context z) (dropped z)))
       end.

(** The focus once its separator has been met. *)
Definition spec_finish (t : jtree) (left right token : nat) (empty_ok : bool) : option jtree :=
  if is_empty (label t) then
    if (left =? token)%nat then (if empty_ok then Some t else None)
    else spec_value t left right
  else if (left =? token)%nat then Some t else None.

Definition spec_comma (z : zipper jdata) (left right token : nat) : option spec_step :=
  match context z with
  | [] => None
  | f :: ctx =>
      if parent_object (context z) && unnamed (label (focus z)) then None
      else match spec_finish (focus z) left right token false with
           | None => None
           | Some t => Some (SNext (Zip hole (Frame (f_node f) (f_prev f ++ [t]) :: ctx) (dropped z)))
           end
  end.

Definition spec_close (z : zipper jdata) (left right token : nat) (c : ascii) : option spec_step :=
  match context z with
  | [] => None
  | f :: ctx =>
      if negb (bool_decide (d_type (f_node f) = json_token c)) then None
      else if is_empty (label (focus z)) && negb (left =? token)%nat &&
              parent_object (context z) && unnamed (label (focus z)) then None
      else match spec_finish (focus z) left right token (bool_decide (f_prev f = [])) with
           | None => None
           | Some t => Some (SNext (Zip (plug f t) ctx (dropped z)))
           end
  end.

Definition spec_end (z : zipper jdata) (left right token : nat) : option spec_step :=
  let t := if (left =? token)%nat then Some (focus z)
           else if is_empty (label (focus z)) then spec_value (focus z) left right
           else None in
  match t with
  | None => None
  | Some t =>
      if is_empty (label t) then None
      else match context z with
           | [] => Some (SDone (Zip t [] (dropped z)))
           | _ :: _ => None
           end
  end.

Definition spec_switch (z : zipper jdata) (left right token : nat) : option spec_step :=
  let c := char_at text token in
  if Ascii.eqb c "{" || Ascii.eqb c "[" then spec_open z left token c
  else if Ascii.eqb c ":" then spec_colon z left right
  else if Ascii.eqb c "," then spec_comma z left right token
  else if Ascii.eqb c "]" || Ascii.eqb c "}" then spec_close z left right token c
  else spec_end z left right token.

Fixpoint spec_build (fuel : nat) (z : zipper jdata) (left : nat) : option (zipper jdata) :=
  match fuel with
  | O => None
  | S fuel =>
      match json_scan text left with
      | None => None
      | Some (l, r, token) =>
          match spec_switch z l r token with
          | None => None
          | Some (SDone z') => Some z'
          | Some (SNext z') => spec_build fuel z' (token + 1)
          end
      end
  end.
End Spec.

(** The document a text denotes, and the number of nodes dropped on the way. *)
Definition spec_parse_full (text : list ascii) : option (jtree * nat) :=
  match spec_build text (S (S (length text))) (Zip hole [] 0) 0 with
  | Some z => Some (focus z, dropped z)
  | None => None
  end.

Definition spec_parse (text : list ascii) : option jtree := fst <$> spec_parse_full text.

(** ** Queries on the document: the reference for the accessors of json.c *)
Definition tree_node (name : list ascii) (t : jtree) : option jtree :=
  list_find (fun k => d_name (label k) = Some name) (kids t) ≫= fun ik => Some (snd ik).

Definition tree_item (i : nat) (t : jtree) : option jtree := kids t !! i.
Definition tree_items (t : jtree) : nat := length (kids t).

Fixpoint preorder {A} (t : tree A) : list (tree A) :=
  t :: (fix go (ks : list (tree A)) : list (tree A) :=
          match ks with [] => [] | k :: ks' => preorder k ++ go ks' end) (kids t).
