(* ===== verification/JsonWf.v ===== *)
(** * Well-formed documents

    The shape every parsed document has: names exactly on the members of
    objects, values exactly on scalars, non-empty containers, and one node of
    type JSON_EMPTY as the only child of an empty container. *)

From S2P Require Import Prelude CLib JsonLex JsonTree.

Definition is_object (d : jdata) : bool := bool_decide (d_type d = JSON_OBJECT).
Definition named (d : jdata) : bool := negb (unnamed d).

(** The child list the parser leaves in "{}" and "[]". In an object this node
    may carry a name: a member name followed by a colon and the closing bracket
    is accepted as an empty object. *)
Definition empty_group (obj : bool) (ks : list jtree) : bool :=
  match ks with
  | [Node d []] => is_empty d && bool_decide (d_value d = None) && (obj || unnamed d)
  | _ => false
  end.

(** A finished element of a container ([obj]: of an object), or the root. *)
Fixpoint wf_elem (obj : bool) (t : jtree) : bool :=
  let '(Node d ks) := t in
  Bool.eqb (named d) obj &&
  match d_type d with
  | JSON_EMPTY | JSON_NONE => false
  | JSON_OBJECT | JSON_ARRAY =>
      bool_decide (d_value d = None) &&
      (empty_group (is_object d) ks || (negb (bool_decide (ks = [])) && forallb (wf_elem (is_object d)) ks))
  | JSON_STRING | JSON_NUMBER | JSON_BOOLEAN | JSON_NULL =>
      negb (bool_decide (d_value d = None)) && bool_decide (ks = [])
  end.

Definition is_container (ty : json_type) : Prop := ty = JSON_OBJECT \/ ty = JSON_ARRAY.
Definition is_scalar (ty : json_type) : Prop :=
  ty = JSON_STRING \/ ty = JSON_NUMBER \/ ty = JSON_BOOLEAN \/ ty = JSON_NULL.

(** The open containers around the focus. *)
Fixpoint wf_ctx (ctx : list (frame jdata)) : Prop :=
  match ctx with
  | [] => True
  | Frame d prev :: ctx' =>
      is_container (d_type d) /\ d_value d = None /\ named d = parent_object ctx' /\
      forallb (wf_elem (is_object d)) prev = true /\ wf_ctx ctx'
  end.

(** The element under construction: still without content, or a container that
    was just closed. *)
Definition wf_focus (obj : bool) (t : jtree) : Prop :=
  (d_type (label t) = JSON_EMPTY /\ d_value (label t) = None /\ kids t = [] /\
   (obj = false -> named (label t) = false)) \/
  (wf_elem obj t = true /\ is_container (d_type (label t))).

Definition wf_zip (z : zipper jdata) : Prop :=
  wf_ctx (context z) /\ wf_focus (parent_object (context z)) (focus z).

Lemma classify_scalar text a b ty : classify text a b = Some ty -> is_scalar ty.
Proof. unfold classify, is_scalar. intros H. repeat case_match; simplify_eq; auto. Qed.

Lemma json_token_container c :
  Ascii.eqb c "{" || Ascii.eqb c "[" = true -> is_container (json_token c).
Proof.
  intros [H|H]%orb_true_iff; apply Ascii.eqb_eq in H as ->; [by left|by right].
Qed.

Lemma wf_elem_named obj t : wf_elem obj t = true -> named (label t) = obj.
Proof. destruct t as [d ks]. simpl. intros [H%Bool.eqb_prop _]%andb_true_iff. done. Qed.

Lemma wf_elem_type obj t : wf_elem obj t = true -> d_type (label t) <> JSON_EMPTY.
Proof. destruct t as [d ks]. simpl. intros [_ H]%andb_true_iff He. by rewrite He in H. Qed.

Lemma wf_elem_container obj d ks :
  is_container (d_type d) -> d_value d = None -> named d = obj ->
  empty_group (is_object d) ks = true \/ (ks <> [] /\ forallb (wf_elem (is_object d)) ks = true) ->
  wf_elem obj (Node d ks) = true.
Proof.
  intros Hc Hv Hn Hk. cbn [wf_elem]. rewrite Hn, Bool.eqb_reflx, Hv.
  assert (empty_group (is_object d) ks || (negb (bool_decide (ks = [])) && forallb (wf_elem (is_object d)) ks) = true) as Hb.
  { destruct Hk as [->|[Hne ->]]; [done|]. rewrite bool_decide_eq_false_2 by done. apply orb_true_r. }
  destruct Hc as [Hc|Hc]; rewrite Hc; by rewrite Hb.
Qed.

Lemma wf_container_value obj t :
  wf_elem obj t = true -> is_container (d_type (label t)) -> d_value (label t) = None.
Proof.
  destruct t as [d ks]. cbn [wf_elem label]. intros [_ H]%andb_true_iff Hc.
  destruct Hc as [Hc|Hc]; rewrite Hc in H; apply andb_true_iff in H as [H _];
    by apply bool_decide_eq_true in H.
Qed.

Lemma wf_elem_scalar obj d ty s :
  is_scalar ty -> named d = obj -> wf_elem obj (Node (with_value ty s d) []) = true.
Proof.
  intros Hs Hn. simpl. change (named (with_value ty s d)) with (named d).
  rewrite Hn, Bool.eqb_reflx. by destruct Hs as [->|[->|[->| ->]]].
Qed.

Lemma wf_plug obj d prev t :
  is_container (d_type d) -> d_value d = None -> named d = obj ->
  forallb (wf_elem (is_object d)) prev = true -> wf_elem (is_object d) t = true ->
  wf_elem obj (plug (Frame d prev) t) = true.
Proof.
  intros. apply wf_elem_container; [done..|]. right. split; [by destruct prev|].
  rewrite forallb_app. simpl. by apply andb_true_iff; split; [|apply andb_true_iff].
Qed.

Section Preserve.
Context (text : list ascii).

(** An element whose separator was reached is complete, or the empty group. *)
Lemma spec_finish_wf obj t a b tok e t' :
  wf_focus obj t -> (obj = true -> named (label t) = true \/ is_empty (label t) && (a =? tok)%nat = true) ->
  spec_finish text t a b tok e = Some t' ->
  wf_elem obj t' = true \/ (e = true /\ empty_group obj [t'] = true).
Proof.
  intros Hf Hn. unfold spec_finish, spec_value, is_empty in *.
  case_bool_decide as Hty.
  2:{ case_match; [|done]. intros [= <-]. left. by destruct Hf as [[? _]|[? _]]. }
  destruct Hf as [(_ & Hv & Hk & Hnn)|[Hf _]]; [|by apply wf_elem_type in Hf].
  destruct t as [d ks]. simpl in *. subst ks. destruct (a =? tok)%nat; simpl in *.
  - destruct e; [|done]. intros [= <-]. right. split; [done|].
    simpl. unfold is_empty, named in *. rewrite bool_decide_eq_true_2, Hv by done.
    destruct obj; [done|]. by apply negb_false_iff, Hnn.
  - unfold value_of. destruct (classify text a b) as [ty|] eqn:Ec; [|done]. intros [= <-].
    left. apply wf_elem_scalar; [by eapply classify_scalar|].
    destruct obj; [by destruct (Hn eq_refl)|]. by apply Hnn.
Qed.

Lemma hole_wf obj : wf_focus obj hole.
Proof. left. done. Qed.

Lemma spec_open_wf z a tok c z' :
  wf_zip z -> Ascii.eqb c "{" || Ascii.eqb c "[" = true ->
  spec_open z a tok c = Some (SNext z') -> wf_zip z'.
Proof.
  destruct z as [t ctx n]. intros [Hctx Hf] Hc. unfold spec_open. simpl in *.
  destruct (negb _); [done|]. destruct (parent_object ctx && unnamed (label t)) eqn:En; [done|].
  intros [= <-]. split; [|apply hole_wf]. simpl. split; [by apply json_token_container|].
  unfold named, with_type, unnamed in *. simpl.
  destruct Hf as [(Hty & Hv & Hk & Hnn)|[Hf Hct]].
  - split; [done|]. split; [|done]. destruct (parent_object ctx); simpl in *; [by rewrite En|by apply Hnn].
  - split; [by eapply wf_container_value|]. split; [by apply wf_elem_named|done].
Qed.

Lemma spec_colon_wf z a b z' :
  wf_zip z -> spec_colon text z a b = Some (SNext z') -> wf_zip z' /\ kids (focus z') = [].
Proof.
  destruct z as [t ctx n]. intros [Hctx Hf]. unfold spec_colon. simpl in *.
  destruct (negb (parent_object ctx) || negb (unnamed (label t))) eqn:En; [done|].
  apply orb_false_iff in En as [Ho%negb_false_iff Hu].
  destruct (name_of text a b) as [s|]; [|done]. intros [= <-].
  destruct Hf as [(Hty & Hv & Hk & Hnn)|[Hf _]].
  - split; [|done]. split; [done|]. left. simpl. rewrite Ho. done.
  - apply wf_elem_named in Hf. unfold named in Hf. congruence.
Qed.

Lemma spec_comma_wf z a b tok z' :
  wf_zip z -> spec_comma text z a b tok = Some (SNext z') -> wf_zip z' /\ kids (focus z') = [].
Proof.
  destruct z as [t [|[d prev] ctx] n]; [done|]. intros [Hctx Hf]. unfold spec_comma. simpl in *.
  destruct (bool_decide (d_type d = JSON_OBJECT) && unnamed (label t)) eqn:En; [done|].
  destruct (spec_finish _ _ _ _ _ _) as [t'|] eqn:Efin; [|done]. intros [= <-].
  split; [|done]. split; [|apply hole_wf].
  eapply spec_finish_wf in Efin as [Hw|[? _]]; [|done|exact Hf|].
  - simpl. destruct Hctx as (?&?&?&Hp&?). split_and!; try done.
    unfold is_object in *. rewrite forallb_app. simpl. by rewrite Hp, Hw.
  - intros Ho. left. rewrite Ho in En. simpl in En. unfold named. by rewrite En.
Qed.

Lemma spec_close_wf z a b tok c z' :
  wf_zip z -> spec_close text z a b tok c = Some (SNext z') -> wf_zip z'.
Proof.
  destruct z as [t [|[d prev] ctx] n]; [done|]. intros [Hctx Hf]. unfold spec_close. simpl in *.
  destruct (negb _); [done|]. destruct (_ && _ && _ && _) eqn:En; [done|].
  destruct (spec_finish _ _ _ _ _ _) as [t'|] eqn:Efin; [|done]. intros [= <-].
  destruct Hctx as (Hc & Hv & Hn & Hp & Hctx). split; [done|]. right. simpl. split; [|done].
  eapply spec_finish_wf in Efin; [|exact Hf|].
  - destruct Efin as [Hw|[He%bool_decide_eq_true Hw]]; [by apply wf_plug|].
    subst prev. apply wf_elem_container; [done..|]. by left.
  - intros Ho. rewrite Ho in En. unfold named. destruct Hf as [(Hty&_)|[Hf _]].
    + unfold is_empty in *. rewrite bool_decide_eq_true_2 in * by done. simpl in *.
      destruct (a =? tok)%nat; simpl in *; [by right|]. rewrite En. by left.
    + left. apply wf_elem_named in Hf. unfold named in Hf. by rewrite Hf.
Qed.

Lemma spec_end_wf z a b tok z' :
  wf_zip z -> spec_end text z a b tok = Some (SDone z') -> wf_elem false (focus z') = true.
Proof.
  destruct z as [t ctx n]. intros [Hctx Hf]. unfold spec_end. simpl in *.
  destruct (if (a =? tok)%nat then _ else _) as [t'|] eqn:Et; [|done].
  destruct (is_empty (label t')) eqn:Hty'; [done|]. apply bool_decide_eq_false in Hty'.
  destruct ctx as [|f ctx]; [|done]. intros [= <-]. simpl.
  destruct (a =? tok)%nat; [simplify_eq; by destruct Hf as [[? _]|[? _]]|].
  destruct (is_empty (label t)) eqn:Hty; [|done]. apply bool_decide_eq_true in Hty.
  destruct Hf as [(_ & Hv & Hk & Hnn)|[Hf _]]; [|by apply wf_elem_type in Hf].
  unfold spec_value, value_of in Et. rewrite Hk in Et.
  destruct (classify text a b) as [ty|] eqn:Ec; [|done]. simplify_eq.
  apply wf_elem_scalar; [by eapply classify_scalar|]. by apply Hnn.
Qed.

(** The closing brackets. *)
Definition is_close (c : ascii) : bool := Ascii.eqb c "]" || Ascii.eqb c "}".
Definition is_open (c : ascii) : bool := Ascii.eqb c "{" || Ascii.eqb c "[".

Lemma spec_switch_wf z a b tok z' :
  wf_zip z -> spec_switch text z a b tok = Some (SNext z') ->
  wf_zip z' /\ (kids (focus z') = [] \/ is_close (char_at text tok) = true).
Proof.
  intros Hz. unfold spec_switch.
  destruct (_ || _) eqn:Eo.
  { intros H. split; [by eapply spec_open_wf|]. left.
    unfold spec_open in H. repeat case_match; by simplify_eq. }
  destruct (Ascii.eqb _ ":"); [intros H; eapply spec_colon_wf in H as [??]; auto|].
  destruct (Ascii.eqb _ ","); [intros H; eapply spec_comma_wf in H as [??]; auto|].
  destruct (Ascii.eqb _ "]" || _) eqn:Ec; [intros H; eapply spec_close_wf in H; auto|].
  unfold spec_end, spec_value. intros H. repeat case_match; by simplify_eq.
Qed.

Lemma spec_switch_done_wf z a b tok z' :
  wf_zip z -> spec_switch text z a b tok = Some (SDone z') -> wf_elem false (focus z') = true.
Proof.
  intros Hz. unfold spec_switch.
  destruct (_ || _); [unfold spec_open; intros; repeat case_match; by simplify_eq|].
  destruct (Ascii.eqb _ ":"); [unfold spec_colon; intros; repeat case_match; by simplify_eq|].
  destruct (Ascii.eqb _ ","); [unfold spec_comma; intros; repeat case_match; by simplify_eq|].
  destruct (_ || _); [unfold spec_close; intros; repeat case_match; by simplify_eq|].
  by apply spec_end_wf.
Qed.

Lemma spec_build_wf fuel z left z' :
  wf_zip z -> spec_build text fuel z left = Some z' -> wf_elem false (focus z') = true.
Proof.
  revert z left. induction fuel as [|fuel IH]; intros z left Hz; simpl; [done|].
  destruct (json_scan text left) as [[[a b] tok]|]; [|done].
  destruct (spec_switch text z a b tok) as [[z1|z1]|] eqn:E; [..|done].
  - intros [= <-]. by eapply spec_switch_done_wf.
  - apply IH. by eapply spec_switch_wf.
Qed.
End Preserve.

Lemma zip_init_wf : wf_zip (Zip hole [] 0).
Proof. split; [done|]. apply hole_wf. Qed.

Lemma spec_parse_wf_elem text t : spec_parse text = Some t -> wf_elem false t = true.
Proof.
  unfold spec_parse, spec_parse_full. destruct (spec_build _ _ _ _) as [z|] eqn:E; [|done].
  intros [= <-]. eapply spec_build_wf; [apply zip_init_wf|done].
Qed.
