(* ===== verification/JsonMem.v ===== *)
(** * App/json/json.c on a heap of nodes

    [struct json] is a record; a [json *] is an optional heap location; the heap
    maps the live locations to their nodes. calloc and malloc consult an
    arbitrary failure schedule [oom]: the n-th allocation of the process returns
    NULL when [oom n] holds. A node owns its [name] and [value] buffers (no other
    pointer to them is ever stored), so they are fields of the node and go away
    with it. Dereferencing a location that is not live is [Undef]. *)

From Stdlib Require Import SpecFloat.
From S2P Require Import Prelude CLib JsonLex.

(** struct json *)
Record json := mk_json {
  j_type : json_type;
  j_name : option (list ascii);
  j_value : option (list ascii);
  j_left : ptr;
  j_right : ptr;
  j_parent : ptr }.

#[global] Instance json_eq_dec : EqDecision json.
Proof. solve_decision. Defined.

(** What calloc(1, sizeof(struct json)) leaves in the node. *)
Definition json_zero : json := mk_json JSON_EMPTY None None NULL NULL NULL.

Definition set_type (t : json_type) (n : json) : json :=
  mk_json t (j_name n) (j_value n) (j_left n) (j_right n) (j_parent n).
Definition set_name (s : option (list ascii)) (n : json) : json :=
  mk_json (j_type n) s (j_value n) (j_left n) (j_right n) (j_parent n).
Definition set_value (s : option (list ascii)) (n : json) : json :=
  mk_json (j_type n) (j_name n) s (j_left n) (j_right n) (j_parent n).
Definition set_left (p : ptr) (n : json) : json :=
  mk_json (j_type n) (j_name n) (j_value n) p (j_right n) (j_parent n).
Definition set_right (p : ptr) (n : json) : json :=
  mk_json (j_type n) (j_name n) (j_value n) (j_left n) p (j_parent n).
Definition set_parent (p : ptr) (n : json) : json :=
  mk_json (j_type n) (j_name n) (j_value n) (j_left n) (j_right n) p.

(** The allocator: the live nodes and the number of allocations requested. *)
Record jmem := mk_jmem { nodes : gmap loc json; allocs : nat }.

Definition load (p : ptr) : M jmem json := fun m =>
  match p with
  | None => Undef
  | Some l => match nodes m !! l with Some n => Ret n m | None => Undef end
  end.

Definition store (p : ptr) (f : json -> json) : M jmem unit := fun m =>
  match p with
  | None => Undef
  | Some l =>
      match nodes m !! l with
      | Some n => Ret tt (mk_jmem (<[l := f n]> (nodes m)) (allocs m))
      | None => Undef
      end
  end.

(** free(node): undefined when the node is not live. *)
Definition free_node (p : ptr) : M jmem unit := fun m =>
  match p with
  | None => Ret tt m
  | Some l =>
      match nodes m !! l with
      | Some _ => Ret tt (mk_jmem (delete l (nodes m)) (allocs m))
      | None => Undef
      end
  end.

Section Json.
Context (oom : nat -> bool).

(** Whether the next allocation succeeds. *)
Definition allocate : M jmem bool := fun m =>
  Ret (negb (oom (allocs m))) (mk_jmem (nodes m) (S (allocs m))).

(** json_create *)
Definition json_create : M jmem ptr :=
  ok ← allocate;
  if ok : bool then
    m ← get;
    let l := fresh (dom (nodes m)) in
    _ ← put (mk_jmem (<[l := json_zero]> (nodes m)) (allocs m));
    mret (Some l)
  else mret NULL.

(** json_copy: the fresh buffer, or NULL when malloc fails. *)
Definition json_copy_alloc (text : list ascii) (left size : nat) : M jmem (option (list ascii)) :=
  ok ← allocate;
  mret (if ok : bool then Some (json_copy text left size) else None).

(** json_set_name: whether it returned a non-null pointer. *)
Definition json_set_name (text : list ascii) (node : ptr) (left right : nat) : M jmem bool :=
  if negb (Ascii.eqb (char_at text left) dquote) || negb (Ascii.eqb (char_at text right) dquote)
  then mret false
  else
    s ← json_copy_alloc text left (right - left + 1);
    _ ← store node (set_name s);
    mret (bool_decide (is_Some s)).

(** json_set_value: whether it returned a non-null pointer. *)
Definition json_set_value (text : list ascii) (node : ptr) (left right : nat) : M jmem bool :=
  match classify text left right with
  | None => mret false
  | Some ty =>
      _ ← store node (set_type ty);
      s ← json_copy_alloc text left (right - left + 1);
      _ ← store node (set_value s);
      mret (bool_decide (is_Some s))
  end.

(** ** json_build

    One iteration of the loop: the function returns NULL, returns the node, or
    goes on with a node and an offset. *)
Inductive build_step :=
| BFail
| BDone (node : ptr)
| BNext (node : ptr).

(** node->parent != NULL && node->parent->type == JSON_OBJECT *)
Definition parent_is_object (n : json) : M jmem bool :=
  match j_parent n with
  | None => mret false
  | Some _ => p ← load (j_parent n); mret (bool_decide (j_type p = JSON_OBJECT))
  end.

(** case '{' and '[' *)
Definition build_open (node : ptr) (left token : nat) (c : ascii) : M jmem build_step :=
  if negb (left =? token)%nat then mret BFail
  else
    n ← load node;
    obj ← parent_is_object n;
    if (obj : bool) && bool_decide (j_name n = None) then mret BFail
    else
      _ ← store node (set_type (json_token c));
      child ← json_create;
      _ ← store node (set_left child);
      match child with
      | None => mret BFail
      | Some _ =>
          _ ← store child (set_parent node);
          mret (BNext child)
      end.

(** case ':' *)
Definition build_colon (text : list ascii) (node : ptr) (left right : nat) : M jmem build_step :=
  n ← load node;
  obj ← parent_is_object n;
  if negb (obj : bool) || negb (bool_decide (j_name n = None)) then mret BFail
  else
    ok ← json_set_name text node left right;
    mret (if ok : bool then BNext node else BFail).

(** case ',' *)
Definition build_comma (text : list ascii) (node : ptr) (left right token : nat)
  : M jmem build_step :=
  n ← load node;
  obj ← parent_is_object n;
  if bool_decide (j_parent n = NULL) || ((obj : bool) && bool_decide (j_name n = None))
  then mret BFail
  else
    ok ← (if bool_decide (j_type n = JSON_EMPTY)
          then if (left =? token)%nat then mret false else json_set_value text node left right
          else mret (left =? token)%nat);
    if ok : bool then
      sib ← json_create;
      _ ← store node (set_right sib);
      match sib with
      | None => mret BFail
      | Some _ =>
          _ ← store sib (set_parent (j_parent n));
          mret (BNext sib)
      end
    else mret BFail.

(** case ']' and '}' *)
Definition build_close (text : list ascii) (node : ptr) (left right token : nat) (c : ascii)
  : M jmem build_step :=
  n ← load node;
  match j_parent n with
  | None => mret BFail
  | Some _ =>
      p ← load (j_parent n);
      if negb (bool_decide (j_type p = json_token c)) then mret BFail
      else
        ok ← (if bool_decide (j_type n = JSON_EMPTY) then
                if (left =? token)%nat then mret (bool_decide (j_left p = node))
                else if bool_decide (j_type p = JSON_OBJECT) && bool_decide (j_name n = None)
                then mret false
                else json_set_value text node left right
              else mret (left =? token)%nat);
        mret (if ok : bool then BNext (j_parent n) else BFail)
  end.

(** default: the end of the text *)
Definition build_end (text : list ascii) (node : ptr) (left right token : nat)
  : M jmem build_step :=
  n ← load node;
  ok ← (if negb (left =? token)%nat then
          if negb (bool_decide (j_type n = JSON_EMPTY)) then mret false
          else json_set_value text node left right
        else mret true);
  if ok : bool then
    n' ← load node;
    if bool_decide (j_type n' = JSON_EMPTY) then mret BFail
    else if negb (bool_decide (j_parent n' = NULL)) then mret BFail
    else mret (BDone node)
  else mret BFail.

(** The switch on the token. *)
Definition build_switch (text : list ascii) (node : ptr) (left right token : nat)
  : M jmem build_step :=
  let c := char_at text token in
  if Ascii.eqb c "{" || Ascii.eqb c "[" then build_open node left token c
  else if Ascii.eqb c ":" then build_colon text node left right
  else if Ascii.eqb c "," then build_comma text node left right token
  else if Ascii.eqb c "]" || Ascii.eqb c "}" then build_close text node left right token c
  else build_end text node left right token.

Fixpoint json_build (fuel : nat) (text : list ascii) (node : ptr) (left : nat) : M jmem ptr :=
  match fuel with
  | O => no_fuel
  | S fuel =>
      match node with
      | None => mret NULL
      | Some _ =>
          match json_scan text left with
          | None => mret NULL
          | Some (l, r, token) =>
              st ← build_switch text node l r token;
              match st with
              | BFail => mret NULL
              | BDone n => mret n
              | BNext n => json_build fuel text n (token + 1)
              end
          end
      end
  end.

(** json_free *)
Fixpoint json_free (fuel : nat) (node : ptr) : M jmem unit :=
  match fuel with
  | O => no_fuel
  | S fuel =>
      match node with
      | None => mret tt
      | Some _ =>
          n ← load node;
          _ ← store node (set_left NULL);
          match j_left n with
          | Some _ => json_free fuel (j_left n)
          | None =>
              let next := if bool_decide (j_right n = NULL) then j_parent n else j_right n in
              _ ← free_node node;
              json_free fuel next
          end
      end
  end.

(** A text of n characters has at most n + 1 tokens (the end included), and a
    tree of k nodes is freed in at most 2k + 1 iterations: the loops below never
    run out of these bounds (proved in JsonRefine). *)
Definition build_fuel (text : list ascii) : nat := S (S (length text)).
Definition free_fuel (m : jmem) : nat := S (2 * size (nodes m)).

(** json_parse *)
Definition json_parse (text : list ascii) : M jmem ptr :=
  node ← json_create;
  match node with
  | None => mret NULL
  | Some _ =>
      r ← json_build (build_fuel text) text node 0;
      match r with
      | None =>
          m ← get;
          _ ← json_free (free_fuel m) node;
          mret NULL
      | Some _ => mret node
      end
  end.
End Json.
