(* ===== verification/JsonRep.v ===== *)
(** * Trees in the heap

    The representation of a document tree by linked nodes: first child in
    [left], next sibling in [right], owner in [parent]. A located tree determines
    the list of its heap cells. *)

From S2P Require Import Prelude HeapRep CLib JsonLex JsonMem JsonTree.

Abbreviation ltree := (tree (loc * jdata)).
Abbreviation lframe := (frame (loc * jdata)).
Abbreviation lzipper := (zipper (loc * jdata)).

Definition tloc (t : ltree) : loc := fst (label t).
Definition erase (t : ltree) : jtree := tree_map snd t.

Definition to_json (d : jdata) (left right parent : ptr) : json :=
  mk_json (d_type d) (d_name d) (d_value d) left right parent.

Definition head_or (ks : list ltree) (last : ptr) : ptr :=
  match ks with k :: _ => Some (tloc k) | [] => last end.

(** The cells of a tree whose root has the given parent and right sibling. *)
Fixpoint cells (par right : ptr) (t : ltree) : list (loc * json) :=
  match t with
  | Node (l, d) ks =>
      (l, to_json d (head_or ks NULL) right par) ::
      (fix go (ks : list ltree) : list (loc * json) :=
         match ks with
         | [] => []
         | k :: ks' => cells (Some l) (head_or ks' NULL) k ++ go ks'
         end) ks
  end.

(** The cells of a chain of siblings; [last] is the right pointer of the last. *)
Fixpoint fcells (par : ptr) (ks : list ltree) (last : ptr) : list (loc * json) :=
  match ks with
  | [] => []
  | k :: ks' => cells par (head_or ks' last) k ++ fcells par ks' last
  end.

Definition ctx_parent (ctx : list lframe) : ptr :=
  match ctx with f :: _ => Some (fst (f_node f)) | [] => NULL end.

Fixpoint ctx_cells (ctx : list lframe) (child : loc) : list (loc * json) :=
  match ctx with
  | [] => []
  | Frame (l, d) prev :: ctx' =>
      (l, to_json d (head_or prev (Some child)) NULL (ctx_parent ctx')) ::
      fcells (Some l) prev (Some child) ++ ctx_cells ctx' l
  end.

Definition zcells (z : lzipper) : list (loc * json) :=
  cells (ctx_parent (context z)) NULL (focus z) ++ ctx_cells (context z) (tloc (focus z)).

Definition root_loc (ctx : list lframe) (l : loc) : loc :=
  fold_left (fun _ f => fst (f_node f)) ctx l.

Lemma cells_node par right l d ks :
  cells par right (Node (l, d) ks) =
  (l, to_json d (head_or ks NULL) right par) :: fcells (Some l) ks NULL.
Proof. simpl. f_equal. induction ks as [|k ks IH]; simpl; congruence. Qed.

Lemma fcells_snoc par prev t last :
  fcells par (prev ++ [t]) last = fcells par prev (Some (tloc t)) ++ cells par last t.
Proof.
  induction prev as [|k prev IH]; simpl; [by rewrite app_nil_r|].
  rewrite IH, app_assoc. f_equal. by destruct prev.
Qed.

Lemma head_or_snoc prev t last : head_or (prev ++ [t]) last = head_or prev (Some (tloc t)).
Proof. by destruct prev. Qed.

Lemma cells_plug par right l d prev t :
  cells par right (plug (Frame (l, d) prev) t) =
  (l, to_json d (head_or prev (Some (tloc t))) right par) ::
  fcells (Some l) prev (Some (tloc t)) ++ cells (Some l) NULL t.
Proof. unfold plug. simpl f_node. simpl f_prev. by rewrite cells_node, fcells_snoc, head_or_snoc. Qed.

Lemma zcells_root ctx t n :
  zcells (Zip t ctx n) ≡ₚ cells NULL NULL (close_all ctx t).
Proof.
  revert t. induction ctx as [|[[l d] prev] ctx IH]; intros t.
  { unfold zcells. simpl. by rewrite app_nil_r. }
  unfold close_all in *. simpl. rewrite <- IH. unfold zcells. simpl context. simpl focus.
  change (tloc (plug {| f_node := (l, d); f_prev := prev |} t)) with l.
  rewrite cells_plug. simpl. solve_Permutation.
Qed.

Lemma tloc_close_all ctx t : tloc (close_all ctx t) = root_loc ctx (tloc t).
Proof.
  unfold close_all, root_loc. revert t. induction ctx as [|f ctx IH]; intros t; [done|].
  simpl. by rewrite IH.
Qed.

Lemma length_cells par right t : length (cells par right t) = tree_size t.
Proof.
  revert par right. induction t as [[l d] ks IH] using tree_nested_ind; intros par right.
  rewrite cells_node. simpl. f_equal.
  induction IH as [|k ks Hk _ IH]; simpl; [done|].
  by rewrite length_app, Hk, IH.
Qed.

Lemma length_fcells par ks last : length (fcells par ks last) = forest_size ks.
Proof.
  induction ks as [|k ks IH]; simpl; [done|]. by rewrite length_app, length_cells, IH.
Qed.

(** ** Heap primitives on a represented heap *)
Section Prims.
Context (oom : nat -> bool).

Definition with_nodes (h : gmap loc json) (m : jmem) : jmem := mk_jmem h (allocs m).

Lemma load_elem cs g m l n :
  rep cs g (nodes m) -> (l, n) ∈ cs -> load (Some l) m = Ret n m.
Proof. intros Hr Hin. unfold load. by rewrite (rep_elem _ _ _ _ _ Hr Hin). Qed.

Lemma store_head cs g m l n f :
  rep ((l, n) :: cs) g (nodes m) ->
  returns (store (Some l) f) m (fun _ m' =>
    rep ((l, f n) :: cs) g (nodes m') /\ allocs m' = allocs m).
Proof.
  intros Hr. unfold returns, store.
  rewrite (rep_elem _ _ _ l n Hr ltac:(left)). simpl. split; [|done]. by eapply rep_update.
Qed.

Lemma free_head cs g m l n :
  rep ((l, n) :: cs) g (nodes m) ->
  returns (free_node (Some l)) m (fun _ m' => rep cs g (nodes m') /\ allocs m' = allocs m).
Proof.
  intros Hr. unfold returns, free_node.
  rewrite (rep_elem _ _ _ l n Hr ltac:(left)). simpl. split; [|done]. by eapply rep_free.
Qed.

(** Some allocation between the two states failed. *)
Definition oom_between (m m' : jmem) : Prop :=
  exists i, (allocs m <= i < allocs m')%nat /\ oom i = true.

Lemma create_rep cs g m :
  rep cs g (nodes m) ->
  returns (json_create oom) m (fun p m' =>
    allocs m' = S (allocs m) /\
    match p with
    | Some l => rep ((l, json_zero) :: cs) g (nodes m') /\ nodes m !! l = None
    | None => rep cs g (nodes m') /\ oom_between m m'
    end).
Proof.
  intros Hr. unfold returns, json_create, allocate, mbind, M_bind, mret, M_ret, get, put. simpl.
  destruct (oom (allocs m)) eqn:E; simpl; (split; [done|]).
  - split; [done|]. exists (allocs m). simpl. split; [lia|done].
  - assert (nodes m !! fresh (dom (nodes m)) = None) as Hf
      by (apply not_elem_of_dom, is_fresh).
    split; [|done]. by apply rep_alloc.
Qed.

Lemma copy_alloc_eq text a n m :
  exists s, json_copy_alloc oom text a n m = Ret s (mk_jmem (nodes m) (S (allocs m))) /\
    match s with
    | Some s => s = json_copy text a n
    | None => oom (allocs m) = true
    end.
Proof.
  unfold json_copy_alloc, allocate, mbind, M_bind, mret, M_ret. simpl.
  destruct (oom (allocs m)) eqn:E; simpl; eexists; (split; [reflexivity|done]).
Qed.

Lemma set_value_rep text l d lf rt pr cs g m a b :
  rep ((l, to_json d lf rt pr) :: cs) g (nodes m) ->
  returns (json_set_value oom text (Some l) a b) m (fun ok m' =>
    exists d', rep ((l, to_json d' lf rt pr) :: cs) g (nodes m') /\
      (allocs m <= allocs m')%nat /\ d_name d' = d_name d /\
      if ok then exists ty s, value_of text a b = Some (ty, s) /\ d' = with_value ty s d
      else oom_between m m' \/ value_of text a b = None).
Proof.
  intros Hr. unfold json_set_value, value_of. destruct (classify text a b) as [ty|]; simpl.
  2:{ apply returns_ret. exists d. split_and!; eauto with lia. }
  apply returns_bind. eapply returns_mono; [by apply store_head|]. simpl.
  intros _ m1 [Hr1 Ha1]. apply returns_bind.
  destruct (copy_alloc_eq text a (b - a + 1) m1) as (s & Hs & Hcase).
  unfold returns at 1. rewrite Hs. apply returns_bind.
  eapply returns_mono; [apply (store_head cs g _ l); simpl; done|]. simpl.
  intros _ m2 [Hr2 Ha2]. apply returns_ret. simpl in Ha2.
  exists (JData ty (d_name d) s). split; [done|]. split; [lia|]. split; [done|].
  destruct s as [s|]; simpl; subst.
  - exists ty, (json_copy text a (b - a + 1)). done.
  - left. exists (allocs m1). split; [lia|done].
Qed.

Lemma set_name_rep text l d lf rt pr cs g m a b :
  rep ((l, to_json d lf rt pr) :: cs) g (nodes m) ->
  returns (json_set_name oom text (Some l) a b) m (fun ok m' =>
    exists d', rep ((l, to_json d' lf rt pr) :: cs) g (nodes m') /\
      (allocs m <= allocs m')%nat /\
      if ok then exists s, name_of text a b = Some s /\ d' = with_name s d
      else oom_between m m' \/ name_of text a b = None).
Proof.
  intros Hr. unfold json_set_name, name_of.
  destruct (negb _ || negb _); simpl.
  { apply returns_ret. exists d. split_and!; eauto with lia. }
  apply returns_bind.
  destruct (copy_alloc_eq text a (b - a + 1) m) as (s & Hs & Hcase).
  unfold returns at 1. rewrite Hs. apply returns_bind.
  eapply returns_mono; [apply (store_head cs g _ l); simpl; done|]. simpl.
  intros _ m2 [Hr2 Ha2]. apply returns_ret. simpl in Ha2.
  exists (JData (d_type d) s (d_value d)). split; [done|]. split; [lia|].
  destruct s as [s|]; simpl; subst.
  - eexists. done.
  - left. exists (allocs m). split; [lia|done].
Qed.
End Prims.
