(* ===== verification/JsonApi.v ===== *)
(** * The accessors of App/json/json.c

    Every public query of json.c on the node heap: types, conversions,
    navigation, json_foreach and json_print. Loops over a chain of siblings are
    bounded by the number of live nodes. *)

From Stdlib Require Import SpecFloat.
From S2P Require Import Prelude CLib JsonLex JsonMem.

(** json_type(node) *)
Definition json_type_of (node : ptr) : M jmem json_type :=
  match node with
  | None => mret JSON_NONE
  | Some _ => n ← load node; mret (j_type n)
  end.

(** json_name, json_string *)
Definition json_name (node : ptr) : M jmem (option (list ascii)) :=
  match node with
  | None => mret None
  | Some _ => n ← load node; mret (j_name n)
  end.

Definition json_string (node : ptr) : M jmem (option (list ascii)) :=
  match node with
  | None => mret None
  | Some _ => n ← load node; mret (j_value n)
  end.

(** A conversion of the value buffer: the zero of the result type without one. *)
Definition convert {A} (zero : A) (f : list ascii -> A) (node : ptr) : M jmem A :=
  match node with
  | None => mret zero
  | Some _ =>
      n ← load node;
      mret (match j_value n with None => zero | Some v => f v end)
  end.

Definition json_number (node : ptr) : M jmem double :=
  convert (S754_zero false) (fun v => fst (strtod v)) node.
Definition json_integer (node : ptr) : M jmem Z := convert 0 strtol node.
Definition json_real (node : ptr) : M jmem Z := convert 0 strtoul node.

(** node->value as an argument of a string.h function: it must not be NULL. *)
Definition value_buffer (n : json) : M jmem (list ascii) :=
  match j_value n with Some v => mret v | None => undef end.

Definition json_boolean (node : ptr) : M jmem bool :=
  match node with
  | None => mret false
  | Some _ =>
      n ← load node;
      if bool_decide (j_type n = JSON_BOOLEAN) then
        v ← value_buffer n; mret (Ascii.eqb (char_at v 0) "t")
      else if bool_decide (j_type n = JSON_NUMBER) then
        d ← json_number node; mret (negb (is_zero d))
      else mret false
  end.

Definition has_type (ty : json_type) (node : ptr) : M jmem bool :=
  match node with
  | None => mret false
  | Some _ => n ← load node; mret (bool_decide (j_type n = ty))
  end.

Definition json_is_empty : ptr -> M jmem bool := has_type JSON_EMPTY.
Definition json_is_object : ptr -> M jmem bool := has_type JSON_OBJECT.
Definition json_is_array : ptr -> M jmem bool := has_type JSON_ARRAY.
Definition json_is_string : ptr -> M jmem bool := has_type JSON_STRING.
Definition json_is_number : ptr -> M jmem bool := has_type JSON_NUMBER.
Definition json_is_boolean : ptr -> M jmem bool := has_type JSON_BOOLEAN.
Definition json_is_null : ptr -> M jmem bool := has_type JSON_NULL.

Definition json_is_integer (node : ptr) : M jmem bool :=
  match node with
  | None => mret false
  | Some _ =>
      n ← load node;
      if negb (bool_decide (j_type n = JSON_NUMBER)) then mret false
      else v ← value_buffer n; mret (negb (strchr_found v "."))
  end.

Definition json_is_real (node : ptr) : M jmem bool :=
  match node with
  | None => mret false
  | Some _ =>
      n ← load node;
      if negb (bool_decide (j_type n = JSON_NUMBER)) then mret false
      else
        v ← value_buffer n;
        if strchr_found v "." then mret false
        else if strchr_found v "-" then mret false
        else mret true
  end.

Definition json_streq (node : ptr) (str : list ascii) : M jmem bool :=
  match node with
  | None => mret false
  | Some _ =>
      n ← load node;
      if negb (bool_decide (j_type n = JSON_STRING)) then mret false
      else v ← value_buffer n; mret (streq v str)
  end.

(** ** Navigation *)
Definition json_parent (node : ptr) : M jmem ptr :=
  match node with
  | None => mret NULL
  | Some _ => n ← load node; mret (j_parent n)
  end.

Definition json_next (node : ptr) : M jmem ptr :=
  match node with
  | None => mret NULL
  | Some _ => n ← load node; mret (j_right n)
  end.

Definition first_child (node : ptr) : M jmem ptr :=
  match node with
  | None => mret NULL
  | Some _ => n ← load node; mret (j_left n)
  end.

Fixpoint node_loop (fuel : nat) (name : list ascii) (node : ptr) : M jmem ptr :=
  match fuel with
  | O => no_fuel
  | S fuel =>
      match node with
      | None => mret NULL
      | Some _ =>
          n ← load node;
          if bool_decide (j_name n = Some name) then mret node
          else node_loop fuel name (j_right n)
      end
  end.

Fixpoint item_loop (fuel : nat) (item count : nat) (node : ptr) : M jmem ptr :=
  match fuel with
  | O => no_fuel
  | S fuel =>
      match node with
      | None => mret NULL
      | Some _ =>
          if (count =? item)%nat then mret node
          else n ← load node; item_loop fuel item (S count) (j_right n)
      end
  end.

Fixpoint items_loop (fuel : nat) (count : nat) (node : ptr) : M jmem nat :=
  match fuel with
  | O => no_fuel
  | S fuel =>
      match node with
      | None => mret count
      | Some _ => n ← load node; items_loop fuel (S count) (j_right n)
      end
  end.

(** A chain of live siblings is not longer than the heap. *)
Definition chain_fuel (m : jmem) : nat := S (size (nodes m)).

Definition json_node (root : ptr) (name : list ascii) : M jmem ptr :=
  first ← first_child root;
  m ← get;
  node_loop (chain_fuel m) name first.

(** The child of the member with that name. *)
Definition json_child (node : ptr) (name : list ascii) : M jmem ptr :=
  member ← json_node node name;
  first_child member.

Definition json_item (root : ptr) (item : nat) : M jmem ptr :=
  first ← first_child root;
  m ← get;
  item_loop (chain_fuel m) item 0 first.

Definition json_items (node : ptr) : M jmem nat :=
  first ← first_child node;
  m ← get;
  items_loop (chain_fuel m) 0 first.

(** ** Traversals *)
Section Foreach.
Context {S : Type} `{Lens S jmem} (func : ptr -> M S unit).

Fixpoint foreach_loop (fuel : nat) (node : ptr) : M S unit :=
  match fuel with
  | O => no_fuel
  | Datatypes.S fuel =>
      match node with
      | None => mret tt
      | Some _ =>
          _ ← func node;
          n ← lift (load node);
          _ ← foreach_loop fuel (j_left n);
          n ← lift (load node);
          foreach_loop fuel (j_right n)
      end
  end.

(** The recursion is at most as deep as there are nodes. *)
Definition json_foreach (node : ptr) : M S unit := fun s =>
  foreach_loop (chain_fuel (view s)) node s.
End Foreach.

(** json_type_name[type]; the array has no entry for JSON_NONE. *)
Definition json_type_name (ty : json_type) : option (list ascii) :=
  match ty with
  | JSON_EMPTY => Some (lit "Empty")
  | JSON_OBJECT => Some (lit "Object")
  | JSON_ARRAY => Some (lit "Array")
  | JSON_STRING => Some (lit "String")
  | JSON_NUMBER => Some (lit "Number")
  | JSON_BOOLEAN => Some (lit "Boolean")
  | JSON_NULL => Some (lit "Null")
  | JSON_NONE => None
  end.

(** printf of a null %s argument, as the GNU C library prints it. *)
Definition printf_s (s : option (list ascii)) : list ascii :=
  match s with Some s => s | None => lit "(null)" end.

Definition print_line (n : json) (level : nat) : M jmem (list ascii) :=
  match json_type_name (j_type n) with
  | None => undef
  | Some ty =>
      mret (replicate level "009"%char ++ lit "(" ++ ty ++ lit ") <" ++ printf_s (j_name n) ++
            lit "> = <" ++ printf_s (j_value n) ++ lit ">" ++ ["010"%char])
  end.

(** print(node, level): the text it writes on the standard output. *)
Fixpoint print (fuel : nat) (node : ptr) (level : nat) : M jmem (list ascii) :=
  match fuel with
  | O => no_fuel
  | S fuel =>
      match node with
      | None => mret []
      | Some _ =>
          n ← load node;
          line ← print_line n level;
          below ← print fuel (j_left n) (S level);
          after ← print fuel (j_right n) level;
          mret (line ++ below ++ after)
      end
  end.

Definition json_print (node : ptr) : M jmem (list ascii) :=
  m ← get; print (chain_fuel m) node 0.
