(* ===== verification/JsonRefine.v ===== *)
(** * The heap parser implements the document specification

    A forward simulation from the loop of json_build on the heap to
    [spec_switch] on zippers, the correctness of json_free, and from them the
    contract of json_parse. *)

From S2P Require Import Prelude HeapRep CLib JsonLex JsonMem JsonTree JsonWf JsonRep.

Definition abs (z : lzipper) : zipper jdata := zipper_map snd z.
Definition zroot (z : lzipper) : loc := root_loc (context z) (tloc (focus z)).

(** The heap is the tree under construction, the initial heap [g0], and the
    [dropped z] nodes that were unlinked. *)
Definition heap_inv (z : lzipper) (g0 h : gmap loc json) : Prop :=
  exists g, rep (zcells z) g h /\ g0 ⊆ g /\ size g = (size g0 + dropped z)%nat.

Section Simulation.
Context (oom : nat -> bool) (text : list ascii) (g0 : gmap loc json).

Definition step_post (z : lzipper) (m : jmem) (quiet : Prop) (spec : option spec_step)
    (st : build_step) (m' : jmem) : Prop :=
  exists z', heap_inv z' g0 (nodes m') /\ zroot z' = zroot z /\ (allocs m <= allocs m')%nat /\
    (quiet -> dropped z' = dropped z) /\
    match st with
    | BFail => oom_between oom m m' \/ spec = None
    | BDone p => p = Some (tloc (focus z')) /\ spec = Some (SDone (abs z'))
    | BNext p => p = Some (tloc (focus z')) /\ spec = Some (SNext (abs z'))
    end.

Lemma zcells_cons l d ks ctx n :
  zcells (Zip (Node (l, d) ks) ctx n) =
  (l, to_json d (head_or ks NULL) NULL (ctx_parent ctx)) ::
  fcells (Some l) ks NULL ++ ctx_cells ctx l.
Proof. unfold zcells. simpl context. simpl focus. by rewrite cells_node. Qed.

Lemma oom_between_weaken m1 m2 m1' m2' :
  (allocs m1' <= allocs m1)%nat -> (allocs m2 <= allocs m2')%nat ->
  oom_between oom m1 m2 -> oom_between oom m1' m2'.
Proof. intros H1 H2 (i & Hi & Ho). exists i. split; [lia|done]. Qed.

(** A failing branch that leaves the heap alone. *)
Lemma step_fail z g m :
  rep (zcells z) g (nodes m) -> g0 ⊆ g -> size g = (size g0 + dropped z)%nat ->
  forall quiet spec, spec = None -> step_post z m quiet spec BFail m.
Proof. intros Hr Hg Hs quiet spec ->. exists z. split; [by exists g|]. auto. Qed.

Lemma step_weaken z m (quiet quiet' : Prop) spec st m' :
  (quiet' -> quiet) -> step_post z m quiet spec st m' -> step_post z m quiet' spec st m'.
Proof. intros Hq (z' & H1 & H2 & H3 & H4 & H5). exists z'. split_and!; auto. Qed.

(** A branch that ends with the focus [Node (l, d') ks'] and unlinks nothing. *)
Lemma step_intro z z' g m quiet spec st m' :
  rep (zcells z') g (nodes m') -> g0 ⊆ g -> size g = (size g0 + dropped z')%nat ->
  zroot z' = zroot z -> (allocs m <= allocs m')%nat -> dropped z' = dropped z ->
  match st with
  | BFail => oom_between oom m m' \/ spec = None
  | BDone p => p = Some (tloc (focus z')) /\ spec = Some (SDone (abs z'))
  | BNext p => p = Some (tloc (focus z')) /\ spec = Some (SNext (abs z'))
  end -> step_post z m quiet spec st m'.
Proof. intros. exists z'. split; [by exists g|]. done. Qed.

Lemma focus_parent_elem t pl pd prev ctx n :
  (pl, to_json pd (head_or prev (Some (tloc t))) NULL (ctx_parent ctx))
    ∈ zcells (Zip t (Frame (pl, pd) prev :: ctx) n).
Proof. unfold zcells. simpl. apply elem_of_app. right. left. Qed.

Lemma parent_object_eq d lf rt ctx l ks n g m :
  rep (zcells (Zip (Node (l, d) ks) ctx n)) g (nodes m) ->
  parent_is_object (to_json d lf rt (ctx_parent ctx)) m =
  Ret (parent_object (map (frame_map snd) ctx)) m.
Proof.
  intros Hr. unfold parent_is_object. destruct ctx as [|[[pl pd] prev] ctx]; simpl; [done|].
  unfold mbind, M_bind. erewrite load_elem; [|exact Hr|apply focus_parent_elem]. done.
Qed.

Lemma load_focus l d ks ctx n g m :
  rep (zcells (Zip (Node (l, d) ks) ctx n)) g (nodes m) ->
  load (Some l) m = Ret (to_json d (head_or ks NULL) NULL (ctx_parent ctx)) m.
Proof. intros Hr. eapply load_elem; [done|]. rewrite zcells_cons. left. Qed.

(** Cells that are no longer linked become part of the rest of the heap. *)
Lemma heap_inv_drop t ctx n dead g h :
  rep (zcells (Zip t ctx 0) ++ dead) g h -> g0 ⊆ g -> size g = (size g0 + n)%nat ->
  heap_inv (Zip t ctx (n + length dead)) g0 h.
Proof.
  intros Hr Hg Hs. pose proof (rep_drop_size _ _ _ _ Hr) as [Hsub Hsz]. apply rep_drop in Hr.
  eexists. split; [exact Hr|]. split; [by etrans|]. simpl. lia.
Qed.

Lemma open_sim l d ks ctx n g m a tok c :
  let z := Zip (Node (l, d) ks) ctx n in
  rep (zcells z) g (nodes m) -> g0 ⊆ g -> size g = (size g0 + n)%nat ->
  returns (build_open oom (Some l) a tok c) m 
    (step_post z m (ks = [] \/ (a =? tok)%nat = false) (spec_open (abs z) a tok c)).
Proof.
  intros z Hr Hg Hs. unfold build_open, spec_open. simpl.
  destruct (a =? tok)%nat eqn:Ea; simpl; [|apply returns_ret; by eapply step_fail].
  apply returns_bind. unfold returns at 1. rewrite (load_focus _ _ _ _ _ _ _ Hr).
  apply returns_bind. unfold returns at 1. erewrite parent_object_eq by done. simpl.
  unfold unnamed. destruct (parent_object _ && _); [apply returns_ret; by eapply step_fail|].
  apply returns_bind. unfold z in Hr. rewrite zcells_cons in Hr.
  eapply returns_mono; [by apply store_head|]. intros _ m1 [Hr1 Ha1].
  apply returns_bind. eapply returns_mono; [by apply create_rep|]. intros child m2 [Ha2 Hcase].
  apply returns_bind. set (d' := with_type (json_token c) d).
  destruct child as [cl|].
  - destruct Hcase as [Hr2 _]. rewrite (Permutation_swap _ _ (_ ++ _)) in Hr2.
    eapply returns_mono; [by apply store_head|]. intros _ m3 [Hr3 Ha3]. apply returns_bind.
    rewrite (Permutation_swap _ _ (_ ++ _)) in Hr3.
    eapply returns_mono; [by apply store_head|]. intros _ m4 [Hr4 Ha4]. apply returns_ret.
    exists (Zip (Node (cl, data_zero) []) (Frame (l, d') [] :: ctx) (n + length (fcells (Some l) ks NULL))).
    split; [|split; [done|split; [lia|split; [|split; [done|]]]]].
    + apply heap_inv_drop with g; [|done..]. rewrite zcells_cons. simpl.
      eapply rep_proper; [|done..|exact Hr4]. solve_Permutation.
    + intros [->|?]; [simpl; lia|done].
    + simpl. by rewrite length_fcells, forest_size_map.
  - destruct Hcase as [Hr2 Hoom].
    eapply returns_mono; [by apply store_head|]. intros _ m3 [Hr3 Ha3]. apply returns_ret.
    exists (Zip (Node (l, d') []) ctx (n + length (fcells (Some l) ks NULL))).
    split; [|split; [done|split; [lia|split]]].
    + apply heap_inv_drop with g; [|done..]. rewrite zcells_cons. simpl.
      eapply rep_proper; [|done..|exact Hr3]. solve_Permutation.
    + intros [->|?]; [simpl; lia|done].
    + left. eapply oom_between_weaken; [..|exact Hoom]; lia.
Qed.

Lemma colon_sim l d ks ctx n g m a b :
  let z := Zip (Node (l, d) ks) ctx n in
  rep (zcells z) g (nodes m) -> g0 ⊆ g -> size g = (size g0 + n)%nat ->
  returns (build_colon oom text (Some l) a b) m (step_post z m True (spec_colon text (abs z) a b)).
Proof.
  intros z Hr Hg Hs. unfold build_colon, spec_colon. simpl.
  apply returns_bind. unfold returns at 1. rewrite (load_focus _ _ _ _ _ _ _ Hr).
  apply returns_bind. unfold returns at 1. erewrite parent_object_eq by done. simpl.
  unfold unnamed. destruct (negb (parent_object _) || _); [apply returns_ret; by eapply step_fail|].
  apply returns_bind. unfold z in Hr. rewrite zcells_cons in Hr.
  eapply returns_mono; [by apply set_name_rep|]. intros ok m1 (d' & Hr1 & Ha1 & Hok).
  apply returns_ret.
  apply (step_intro _ (Zip (Node (l, d') ks) ctx n) g); try done; [by rewrite zcells_cons|].
  destruct ok; [destruct Hok as (s & -> & ->); done|].
  destruct Hok as [Hok| ->]; auto.
Qed.

(** The choice made on a focus whose separator has been reached: [guard] is
    the "elements of an object have a name" test of the closing brackets. *)
Lemma finish_sim l d (ks : list jtree) lf rt pr cs g m a b tok (empty_ok guard : bool) spec :
  spec = (if is_empty d && negb (a =? tok)%nat && guard then None
          else spec_finish text (Node d ks) a b tok empty_ok) ->
  rep ((l, to_json d lf rt pr) :: cs) g (nodes m) ->
  returns (if bool_decide (d_type d = JSON_EMPTY) then
             if (a =? tok)%nat then mret empty_ok
             else if guard then mret false
             else json_set_value oom text (Some l) a b
           else mret (a =? tok)%nat) m (fun ok m' =>
    exists d', rep ((l, to_json d' lf rt pr) :: cs) g (nodes m') /\ (allocs m <= allocs m')%nat /\
      if ok : bool then spec = Some (Node d' ks) else oom_between oom m m' \/ spec = None).
Proof.
  intros -> Hr. unfold spec_finish, is_empty, spec_value. simpl.
  case_bool_decide as Hty; simpl.
  2:{ apply returns_ret. exists d. split; [done|]. split; [lia|].
      destruct (a =? tok)%nat; simpl; auto. }
  destruct (a =? tok)%nat; simpl.
  { apply returns_ret. exists d. split; [done|]. split; [lia|]. destruct empty_ok; auto. }
  destruct guard; simpl.
  { apply returns_ret. exists d. split; [done|]. split; [lia|]. auto. }
  eapply returns_mono; [by apply set_value_rep|].
  intros ok m1 (d' & Hr1 & Ha1 & _ & Hok). exists d'. split; [done|]. split; [done|].
  destruct ok; [destruct Hok as (ty & s & -> & ->); done|].
  destruct Hok as [Hok| ->]; auto.
Qed.

Lemma comma_sim l d ks ctx n g m a b tok :
  let z := Zip (Node (l, d) ks) ctx n in
  rep (zcells z) g (nodes m) -> g0 ⊆ g -> size g = (size g0 + n)%nat ->
  returns (build_comma oom text (Some l) a b tok) m
    (step_post z m True (spec_comma text (abs z) a b tok)).
Proof.
  intros z Hr Hg Hs. unfold build_comma, spec_comma. simpl.
  apply returns_bind. unfold returns at 1. rewrite (load_focus _ _ _ _ _ _ _ Hr).
  apply returns_bind. unfold returns at 1. erewrite parent_object_eq by done. simpl.
  destruct ctx as [|[[pl pd] prev] ctx]; simpl; [apply returns_ret; by eapply step_fail|].
  unfold unnamed. destruct (_ && _); [apply returns_ret; by eapply step_fail|].
  apply returns_bind. unfold z in Hr. rewrite zcells_cons in Hr.
  eapply returns_mono.
  { by apply (finish_sim l d (map (tree_map snd) ks)) with (guard := false) (empty_ok := false). }
  intros ok m1 (d' & Hr1 & Ha1 & Hok). rewrite andb_false_r in Hok.
  destruct ok.
  2:{ apply returns_ret.
      apply (step_intro _ (Zip (Node (l, d') ks) (Frame (pl, pd) prev :: ctx) n) g); try done;
        [by rewrite zcells_cons|].
      destruct Hok as [Hok| ->]; auto. }
  rewrite Hok. apply returns_bind. eapply returns_mono; [by apply create_rep|].
  intros sib m2 [Ha2 Hcase]. apply returns_bind. destruct sib as [sl|].
  - destruct Hcase as [Hr2 _]. rewrite (Permutation_swap _ _ (_ ++ _)) in Hr2.
    eapply returns_mono; [by apply store_head|]. intros _ m3 [Hr3 Ha3]. apply returns_bind.
    rewrite (Permutation_swap _ _ (_ ++ _)) in Hr3.
    eapply returns_mono; [by apply store_head|]. intros _ m4 [Hr4 Ha4]. apply returns_ret.
    apply (step_intro _ (Zip (Node (sl, data_zero) []) (Frame (pl, pd) (prev ++ [Node (l, d') ks]) :: ctx) n) g);
      try done; [|lia|split; [done|]].
    + rewrite zcells_cons. simpl. rewrite fcells_snoc, head_or_snoc, cells_node.
      eapply rep_proper; [|done..|exact Hr4]. simpl. solve_Permutation.
    + unfold abs, zipper_map, frame_map. simpl. by rewrite map_app.
  - destruct Hcase as [Hr2 Hoom].
    eapply returns_mono; [by apply store_head|]. intros _ m3 [Hr3 Ha3]. apply returns_ret.
    apply (step_intro _ (Zip (Node (l, d') ks) (Frame (pl, pd) prev :: ctx) n) g); try done;
      [by rewrite zcells_cons|lia|].
    left. eapply oom_between_weaken; [..|exact Hoom]; lia.
Qed.

Lemma close_sim l d ks ctx n g m a b tok c :
  let z := Zip (Node (l, d) ks) ctx n in
  rep (zcells z) g (nodes m) -> g0 ⊆ g -> size g = (size g0 + n)%nat ->
  returns (build_close oom text (Some l) a b tok c) m
    (step_post z m True (spec_close text (abs z) a b tok c)).
Proof.
  intros z Hr Hg Hs. unfold build_close, spec_close. simpl.
  apply returns_bind. unfold returns at 1. rewrite (load_focus _ _ _ _ _ _ _ Hr).
  destruct ctx as [|[[pl pd] prev] ctx]; simpl; [apply returns_ret; by eapply step_fail|].
  apply returns_bind. unfold returns at 1.
  erewrite load_elem; [|exact Hr|apply focus_parent_elem]. simpl.
  destruct (negb _); [apply returns_ret; by eapply step_fail|].
  apply returns_bind. assert (NoDup (zcells z).*1) as Hnd by apply Hr.
  unfold z in Hr. rewrite zcells_cons in Hr.
  assert (bool_decide (head_or prev (Some l) = Some l) = bool_decide (map (tree_map snd) prev = [])) as Hfirst.
  { unfold z in Hnd. rewrite zcells_cons in Hnd. apply bool_decide_ext.
    destruct prev as [|[[kl kd] kk] prev]; simpl; [done|]. split; [|done].
    intros Heq. injection Heq as Heq. unfold tloc in Heq. simpl in Heq. subst kl. exfalso.
    rewrite fmap_cons, fmap_app in Hnd. apply NoDup_cons in Hnd as [Hnin _]. apply Hnin. apply elem_of_app. right.
    simpl. right. left. }
  change (tloc (Node (l, d) ks)) with l. rewrite Hfirst. eapply returns_mono.
  { by apply (finish_sim l d (map (tree_map snd) ks)) with
      (guard := bool_decide (d_type pd = JSON_OBJECT) && bool_decide (d_name d = None))
      (empty_ok := bool_decide (map (tree_map snd) prev = [])). }
  intros ok m1 (d' & Hr1 & Ha1 & Hok). apply returns_ret.
  rewrite <- andb_assoc. unfold unnamed. destruct (_ && (_ && _)).
  { apply (step_intro _ (Zip (Node (l, d') ks) (Frame (pl, pd) prev :: ctx) n) g); try done;
      [by rewrite zcells_cons|]. destruct ok; [done|]. by right. }
  destruct ok.
  - rewrite Hok.
    apply (step_intro _ (Zip (plug (Frame (pl, pd) prev) (Node (l, d') ks)) ctx n) g); try done;
      [|split; [done|]].
    + unfold zcells. simpl context. simpl focus. rewrite cells_plug.
      eapply rep_proper; [|done..|exact Hr1]. rewrite cells_node. simpl. solve_Permutation.
    + unfold abs, zipper_map, plug. simpl. by rewrite map_app.
  - apply (step_intro _ (Zip (Node (l, d') ks) (Frame (pl, pd) prev :: ctx) n) g); try done;
      [by rewrite zcells_cons|].
    destruct Hok as [Hok| ->]; auto.
Qed.

Lemma end_sim l d ks ctx n g m a b tok :
  let z := Zip (Node (l, d) ks) ctx n in
  rep (zcells z) g (nodes m) -> g0 ⊆ g -> size g = (size g0 + n)%nat ->
  returns (build_end oom text (Some l) a b tok) m
    (step_post z m True (spec_end text (abs z) a b tok)).
Proof.
  intros z Hr Hg Hs. unfold build_end, spec_end. simpl.
  apply returns_bind. unfold returns at 1. rewrite (load_focus _ _ _ _ _ _ _ Hr).
  apply returns_bind. unfold z in *. rewrite zcells_cons in Hr.
  set (ks' := map (tree_map snd) ks).
  set (t := if (a =? tok)%nat then _ else _).
  eapply (returns_mono _ _ (fun ok m' =>
    exists d', rep (zcells (Zip (Node (l, d') ks) ctx n)) g (nodes m') /\
      (allocs m <= allocs m')%nat /\
      if ok : bool then t = Some (Node d' ks') else oom_between oom m m' \/ t = None)).
  { subst t. unfold is_empty, spec_value. simpl.
    destruct (a =? tok)%nat; simpl; [apply returns_ret; exists d; by rewrite zcells_cons|].
    case_bool_decide; simpl; [|apply returns_ret; exists d; rewrite zcells_cons; by auto].
    eapply returns_mono; [by apply set_value_rep|].
    intros ok m1 (d' & Hr1 & Ha1 & _ & Hok). exists d'. rewrite zcells_cons.
    split; [done|]. split; [done|].
    destruct ok; [destruct Hok as (ty & s & -> & ->); done|].
    destruct Hok as [Hok| ->]; auto. }
  intros ok m1 (d' & Hr1 & Ha1 & Hok).
  destruct ok.
  2:{ apply returns_ret. apply (step_intro _ (Zip (Node (l, d') ks) ctx n) g); try done.
      destruct Hok as [Hok| ->]; auto. }
  rewrite Hok. apply returns_bind. unfold returns at 1. rewrite (load_focus _ _ _ _ _ _ _ Hr1).
  unfold is_empty. simpl. case_bool_decide; simpl.
  { apply returns_ret. apply (step_intro _ (Zip (Node (l, d') ks) ctx n) g); auto. }
  destruct ctx as [|f ctx]; simpl; apply returns_ret.
  - by apply (step_intro _ (Zip (Node (l, d') ks) [] n) g).
  - apply (step_intro _ (Zip (Node (l, d') ks) (f :: ctx) n) g); auto.
Qed.

(** One iteration of json_build simulates one step of the specification, and
    unlinks nodes only when it opens a container in a node that has children. *)
Definition quiet_step (z : lzipper) (a tok : nat) : Prop :=
  kids (focus z) = [] \/ (a =? tok)%nat && is_open (char_at text tok) = false.

Lemma switch_sim z m a b tok :
  heap_inv z g0 (nodes m) ->
  returns (build_switch oom text (Some (tloc (focus z))) a b tok) m
    (step_post z m (quiet_step z a tok) (spec_switch text (abs z) a b tok)).
Proof.
  destruct z as [[[l d] ks] ctx n]. intros (g & Hr & Hg & Hs). unfold build_switch, spec_switch.
  destruct (_ || _) eqn:Eo.
  { eapply returns_mono; [by eapply open_sim|]. intros st m'. apply step_weaken.
    intros [Hk|Hq]; [by left|right]. unfold is_open in Hq. by rewrite Eo, andb_true_r in Hq. }
  assert (forall quiet spec st m', step_post (Zip (Node (l, d) ks) ctx n) m True spec st m' ->
    step_post (Zip (Node (l, d) ks) ctx n) m quiet spec st m') as Hw
    by (intros * Hst; eapply step_weaken; [|exact Hst]; done).
  destruct (Ascii.eqb _ ":"); [eapply returns_mono; [by eapply colon_sim|by intros; apply Hw]|].
  destruct (Ascii.eqb _ ","); [eapply returns_mono; [by eapply comma_sim|by intros; apply Hw]|].
  destruct (Ascii.eqb _ "]" || _).
  - eapply returns_mono; [by eapply close_sim|by intros; apply Hw].
  - eapply returns_mono; [by eapply end_sim|by intros; apply Hw].
Qed.
End Simulation.

(** ** The loop of json_build *)
Lemma spec_switch_done text z a b tok z' :
  spec_switch text z a b tok = Some (SDone z') -> context z' = [] /\ dropped z' = dropped z.
Proof.
  unfold spec_switch, spec_open, spec_colon, spec_comma, spec_close, spec_end, spec_finish, spec_value.
  intros H. repeat case_match; simplify_eq; done.
Qed.

(** A step that goes on stops at a token, so strictly before the end. *)
Lemma spec_switch_next text z a b tok z' :
  spec_switch text z a b tok = Some (SNext z') -> json_istoken (char_at text tok) = true.
Proof.
  unfold spec_switch. intros H.
  assert (spec_end text z a b tok <> Some (SNext z')) as Hend.
  { unfold spec_end, spec_value. intros H'. repeat case_match; simplify_eq. }
  unfold json_istoken. repeat match goal with |- context [Ascii.eqb ?x ?y] => destruct (Ascii.eqb x y) end;
    simpl in *; done.
Qed.

(** A closing bracket followed by an opening one with only spaces in between:
    the parser puts the new container in the node of the old one. *)
Definition reopens_at (text : list ascii) (i : nat) : bool :=
  is_close (char_at text i) &&
  match json_scan text (i + 1) with
  | Some (l, _, tok) => (l =? tok)%nat && is_open (char_at text tok)
  | None => false
  end.

Definition reopen_free (text : list ascii) : bool :=
  forallb (fun i => negb (reopens_at text i)) (seq 0 (length text)).

Lemma reopen_free_at text i : reopen_free text = true -> reopens_at text i = false.
Proof.
  intros Hf. destruct (decide (i < length text)%nat) as [Hi|Hi].
  - apply negb_true_iff. unfold reopen_free in Hf. rewrite forallb_forall in Hf.
    apply Hf, in_seq. lia.
  - unfold reopens_at. by rewrite char_at_end by lia.
Qed.

Section Build.
Context (oom : nat -> bool) (text : list ascii) (g0 : gmap loc json).

Definition build_post (z : lzipper) (m : jmem) (spec : option (zipper jdata))
    (p : ptr) (m' : jmem) : Prop :=
  exists z', heap_inv z' g0 (nodes m') /\ zroot z' = zroot z /\ (allocs m <= allocs m')%nat /\
    (reopen_free text = true -> dropped z' = dropped z) /\
    match p with
    | None => oom_between oom m m' \/ spec = None
    | Some l => l = tloc (focus z') /\ context z' = [] /\ spec = Some (abs z')
    end.

(** Where the parser stands: a focus with children has just been closed. *)
Definition build_inv (z : lzipper) (left : nat) : Prop :=
  wf_zip (abs z) /\
  (kids (focus z) = [] \/ exists i, left = (i + 1)%nat /\ is_close (char_at text i) = true).

Lemma build_inv_quiet z left a b tok :
  build_inv z left -> json_scan text left = Some (a, b, tok) -> reopen_free text = true ->
  quiet_step text z a tok.
Proof.
  intros [_ [Hk|(i & -> & Hc)]] Hs Hf; [by left|]. right.
  apply (reopen_free_at _ i) in Hf. unfold reopens_at in Hf. by rewrite Hc, Hs in Hf.
Qed.

Lemma build_inv_next z z' a b tok left :
  build_inv z left -> spec_switch text (abs z) a b tok = Some (SNext (abs z')) ->
  build_inv z' (tok + 1).
Proof.
  intros [Hw _] H. apply spec_switch_wf in H as [Hw' Hk]; [|done]. split; [done|].
  destruct Hk as [Hk|Hc]; [left|right; eauto].
  destruct z' as [[? ks] ctx n]. simpl in *. by apply map_eq_nil in Hk.
Qed.

Lemma build_sim fuel z left m :
  (length text - left < fuel)%nat -> (left <= length text)%nat ->
  heap_inv z g0 (nodes m) -> build_inv z left ->
  returns (json_build oom fuel text (Some (tloc (focus z))) left) m
    (build_post z m (spec_build text fuel (abs z) left)).
Proof.
  revert z left m. induction fuel as [|fuel IH]; intros z left m Hf Hl Hinv Hbi; [lia|]. simpl.
  destruct (json_scan text left) as [[[a b] tok]|] eqn:Es.
  2:{ apply returns_ret. exists z. split_and!; auto. }
  pose proof (build_inv_quiet _ _ _ _ _ Hbi Es) as Hquiet.
  apply json_scan_bounds in Es as [Hb Htok]; [|done].
  apply returns_bind. eapply returns_mono; [by apply switch_sim|].
  intros st m1 (z1 & Hinv1 & Hroot1 & Ha1 & Hd1 & Hst). destruct st as [|p|p]; simpl.
  - apply returns_ret. exists z1. split; [done|]. split; [done|]. split; [done|].
    split; [auto|]. destruct Hst as [?| ->]; auto.
  - destruct Hst as [-> Hspec]. apply returns_ret. exists z1. split; [done|]. split; [done|].
    split; [done|]. split; [auto|]. rewrite Hspec. split; [done|]. split; [|done].
    apply spec_switch_done in Hspec as [Hc _]. simpl in Hc. by apply map_eq_nil in Hc.
  - destruct Hst as [-> Hspec]. rewrite Hspec. pose proof (build_inv_next _ _ _ _ _ _ Hbi Hspec) as Hbi1.
    apply spec_switch_next in Hspec.
    assert (tok < length text)%nat as Hlt.
    { destruct (decide (tok < length text)%nat) as [|Hge]; [done|].
      rewrite char_at_end in Hspec by lia. done. }
    eapply returns_mono; [apply IH; [lia|lia|done|done]|].
    intros p m2 (z2 & Hinv2 & Hroot2 & Ha2 & Hd2 & Hp). exists z2. split; [done|]. split; [congruence|].
    split; [lia|]. split; [intros Hrf; rewrite Hd2 by done; auto|].
    destruct p as [l|]; [done|]. destruct Hp as [Ho|Ho]; [left|by right].
    eapply oom_between_weaken; [..|exact Ho]; lia.
Qed.
End Build.

(** ** json_free *)
Fixpoint tree_visits {A} (t : tree A) : nat :=
  let '(Node _ ks) := t in
  match ks with [] => 1 | _ :: _ => 2 + sum_list_with tree_visits ks end.

Lemma tree_visits_bound {A} (t : tree A) : (tree_visits t <= 2 * tree_size t)%nat.
Proof.
  induction t as [a ks IH] using tree_nested_ind. simpl.
  assert (sum_list_with tree_visits ks <= 2 * forest_size ks)%nat as Hs.
  { induction IH as [|k ks Hk _ IH']; simpl; lia. }
  destruct ks; lia.
Qed.

(** A node without children is released. *)
Lemma free_leaf l d right par cs g m fuel :
  rep ((l, to_json d NULL right par) :: cs) g (nodes m) ->
  exists m', rep cs g (nodes m') /\ allocs m' = allocs m /\
    json_free (S fuel) (Some l) m =
    json_free fuel (if bool_decide (right = NULL) then par else right) m'.
Proof.
  intros Hr. simpl.
  rewrite (bind_ret_eq _ _ _ _ _ (load_elem _ _ _ _ _ Hr ltac:(left))).
  pose proof (store_head _ _ _ _ _ (set_left NULL) Hr) as (u & m1 & He & Hr1 & Ha1)%returns_eq.
  rewrite (bind_ret_eq _ _ _ _ _ He). simpl.
  pose proof (free_head _ _ _ _ _ Hr1) as (u' & m2 & He2 & Hr2 & Ha2)%returns_eq.
  rewrite (bind_ret_eq _ _ _ _ _ He2). exists m2. split; [done|]. split; [congruence|done].
Qed.

(** Freeing a tree consumes its cells and goes on at the next sibling, or at
    the parent after the last one. *)
Lemma free_tree t : forall par right cs g m fuel,
  rep (cells par right t ++ cs) g (nodes m) ->
  exists m', rep cs g (nodes m') /\ allocs m' = allocs m /\
    json_free (tree_visits t + fuel) (Some (tloc t)) m =
    json_free fuel (if bool_decide (right = NULL) then par else right) m'.
Proof.
  induction t as [[l d] ks IH] using tree_nested_ind. intros par right cs g m fuel Hr.
  rewrite cells_node in Hr. simpl in Hr.
  assert (forall cs m fuel, rep (fcells (Some l) ks NULL ++ cs) g (nodes m) ->
    exists m', rep cs g (nodes m') /\ allocs m' = allocs m /\
      json_free (sum_list_with tree_visits ks + fuel) (head_or ks (Some l)) m =
      json_free fuel (Some l) m') as Hkids.
  { clear Hr m fuel cs. induction IH as [|k ks Hk _ IHks]; intros cs m fuel Hr; [by exists m|].
    simpl in Hr. rewrite <- app_assoc in Hr. simpl.
    destruct (Hk _ _ _ _ _ (sum_list_with tree_visits ks + fuel)%nat Hr) as (m1 & Hr1 & Ha1 & Heq).
    rewrite <- Nat.add_assoc, Heq.
    destruct (IHks cs m1 fuel Hr1) as (m2 & Hr2 & Ha2 & Heq2). exists m2.
    split; [done|]. split; [congruence|]. rewrite <- Heq2. by destruct ks. }
  destruct ks as [|k ks].
  { simpl in *. by apply (free_leaf l d). }
  change (tree_visits (Node (l, d) (k :: ks)) + fuel)%nat
    with (S (S (sum_list_with tree_visits (k :: ks) + fuel)))%nat.
  remember (k :: ks) as kks eqn:Ek.
  replace (S (sum_list_with tree_visits kks + fuel)) with (sum_list_with tree_visits kks + S fuel)%nat by lia.
  remember (sum_list_with tree_visits kks + S fuel)%nat as fuel' eqn:Ef. simpl.
  rewrite (bind_ret_eq _ _ _ _ _ (load_elem _ _ _ _ _ Hr ltac:(left))).
  pose proof (store_head _ _ _ _ _ (set_left NULL) Hr) as (u & m1 & He & Hr1 & Ha1)%returns_eq.
  rewrite (bind_ret_eq _ _ _ _ _ He). simpl.
  assert (head_or kks NULL = head_or kks (Some l)) as -> by by subst kks.
  destruct (head_or kks (Some l)) eqn:Eh; [|by subst kks].
  assert (rep (fcells (Some l) kks NULL ++ (l, to_json d NULL right par) :: cs) g (nodes m1)) as Hr2.
  { eapply rep_proper; [|done..|exact Hr1]. simpl. solve_Permutation. }
  destruct (Hkids _ _ (S fuel) Hr2) as (m2 & Hr3 & Ha2 & Heq).
  destruct (free_leaf l d right par cs g m2 fuel Hr3) as (m3 & Hr4 & Ha3 & Heq').
  exists m3. split; [done|]. split; [congruence|]. by rewrite Ef, Heq.
Qed.

Lemma free_root t g m :
  rep (cells NULL NULL t) g (nodes m) ->
  exists m', json_free (free_fuel m) (Some (tloc t)) m = Ret tt m' /\ nodes m' = g /\ allocs m' = allocs m.
Proof.
  intros Hr. pose proof (rep_size _ _ _ Hr) as Hs. rewrite length_cells in Hs.
  pose proof (tree_visits_bound t) as Hv.
  assert (exists k, free_fuel m = (tree_visits t + S k)%nat) as [k ->].
  { exists (2 * size (nodes m) - tree_visits t)%nat. unfold free_fuel. lia. }
  rewrite <- (app_nil_r (cells _ _ _)) in Hr.
  destruct (free_tree t _ _ _ _ _ (S k) Hr) as (m' & Hr' & Ha & ->).
  exists m'. split; [done|]. split; [by apply rep_nil_inv|done].
Qed.

(** ** json_parse *)
Lemma parse_sim oom text m :
  returns (json_parse oom text) m (fun p m' =>
    (allocs m <= allocs m')%nat /\
    exists g, nodes m ⊆ g /\ (reopen_free text = true -> g = nodes m) /\
    match p with
    | Some l => exists t, tloc t = l /\ rep (cells NULL NULL t) g (nodes m') /\
        spec_parse_full text = Some (erase t, (size g - size (nodes m))%nat)
    | None => nodes m' = g /\ (oom_between oom m m' \/ spec_parse_full text = None)
    end).
Proof.
  unfold json_parse. apply returns_bind.
  eapply returns_mono; [apply create_rep, rep_nil|]. intros node m1 [Ha1 Hc].
  destruct node as [l|].
  2:{ destruct Hc as [Hr Ho]. apply rep_nil_inv in Hr. apply returns_ret.
      split; [lia|]. exists (nodes m). auto. }
  destruct Hc as [Hr _]. set (z0 := Zip (Node (l, data_zero) []) [] 0).
  assert (heap_inv z0 (nodes m) (nodes m1)) as Hinv0.
  { exists (nodes m). split; [done|]. split; [done|]. simpl. lia. }
  apply returns_bind. change l with (tloc (focus z0)) at 1.
  eapply returns_mono; [apply build_sim with (g0 := nodes m)|].
  { unfold build_fuel. lia. } { lia. } { done. } { split; [apply zip_init_wf|]. by left. }
  intros p m2 (z & (g & Hrg & Hsub & Hsz) & Hroot & Ha2 & Hd & Hp).
  change (abs z0) with (Zip hole [] 0) in Hp. fold (build_fuel text) in Hp.
  assert (reopen_free text = true -> g = nodes m) as Hleak.
  { intros Hrf. symmetry. apply map_subseteq_size_eq; [done|]. rewrite Hsz, Hd by done. simpl. lia. }
  unfold spec_parse_full. change (S (S (length text))) with (build_fuel text).
  destruct p as [l'|].
  - destruct Hp as (-> & Hctx & Hspec). apply returns_ret. split; [lia|]. exists g.
    split; [done|]. split; [done|]. destruct z as [t ctx n]. simpl in *. subst ctx.
    exists t. split; [exact Hroot|]. unfold zcells in Hrg. simpl in Hrg. rewrite app_nil_r in Hrg.
    split; [done|]. rewrite Hspec. simpl. do 2 f_equal. lia.
  - apply returns_bind. unfold returns at 1, get. apply returns_bind.
    destruct z as [t ctx n]. rewrite zcells_root in Hrg.
    destruct (free_root _ _ _ Hrg) as (m3 & Hfree & Hn3 & Ha3).
    rewrite tloc_close_all in Hfree.
    change (root_loc ctx (tloc t)) with (zroot (Zip t ctx n)) in Hfree. rewrite Hroot in Hfree.
    change (zroot z0) with l in Hfree. unfold returns at 1. rewrite Hfree. apply returns_ret.
    split; [lia|]. exists g. split; [done|]. split; [done|]. split; [done|].
    destruct Hp as [Ho| ->]; [left|by right]. eapply oom_between_weaken; [..|exact Ho]; lia.
Qed.
