(* ===== verification/JsonView.v ===== *)
(** * The accessors of json.c agree with the document tree

    [DocApi] is the contract json.c offers to its clients: predicates relating
    the pointers a client holds to (sub)documents, and one law per accessor. The
    client proofs use the contract only; [heap_doc_api] shows that the heap
    implementation satisfies it. *)

From Stdlib Require Import SpecFloat.
From S2P Require Import Prelude HeapRep CLib JsonLex JsonTree JsonWf JsonMem JsonRep JsonApi.

(** Typed values that string functions read are there. *)
Fixpoint values_ok (t : jtree) : bool :=
  let '(Node d ks) := t in
  (is_empty d || is_object d || bool_decide (d_type d = JSON_ARRAY) ||
   negb (bool_decide (d_value d = None))) && forallb values_ok ks.

Definition tree_has_type (ty : json_type) (t : jtree) : bool :=
  bool_decide (d_type (label t) = ty).
Definition tree_convert {A} (zero : A) (f : list ascii -> A) (t : jtree) : A :=
  match d_value (label t) with Some v => f v | None => zero end.
Definition tree_is_real (t : jtree) : bool :=
  tree_has_type JSON_NUMBER t &&
  match d_value (label t) with
  | Some v => negb (strchr_found v ".") && negb (strchr_found v "-")
  | None => false
  end.

Class DocApi (doc : jmem -> ptr -> option jtree -> Prop)
             (chain : jmem -> ptr -> list jtree -> Prop) := {
  api_node m p o name : doc m p o ->
    exists r, json_node p name m = Ret r m /\ doc m r (o ≫= tree_node name);
  api_item m p o i : doc m p o ->
    exists r, json_item p i m = Ret r m /\ doc m r (o ≫= tree_item i);
  api_children m p o : doc m p o ->
    exists r, json_item p 0 m = Ret r m /\ chain m r (from_option kids [] o);
  api_next m p t ts : chain m p (t :: ts) ->
    doc m p (Some t) /\ exists r, json_next p m = Ret r m /\ chain m r ts;
  api_chain_nil m p : chain m p [] -> p = NULL;
  api_chain_cons m p t ts : chain m p (t :: ts) -> is_Some p;
  api_chain_length m p ts : chain m p ts -> (length ts < chain_fuel m)%nat;
  api_items m p o : doc m p o -> json_items p m = Ret (from_option tree_items 0%nat o) m;
  api_type m p o ty : doc m p o ->
    has_type ty p m = Ret (from_option (tree_has_type ty) false o) m;
  api_string m p o : doc m p o -> json_string p m = Ret (o ≫= fun t => d_value (label t)) m;
  api_real m p o : doc m p o ->
    json_real p m = Ret (from_option (tree_convert 0 strtoul) 0 o) m;
  api_is_real m p o : doc m p o ->
    json_is_real p m = Ret (from_option tree_is_real false o) m;
  api_null m p : doc m p None <-> p = NULL;
  api_mem m m' p o : nodes m' = nodes m -> doc m p o -> doc m' p o }.

(** ** The heap implementation *)
Definition reads (h : gmap loc json) (cs : list (loc * json)) : Prop :=
  NoDup cs.*1 /\ forall l n, (l, n) ∈ cs -> h !! l = Some n.

Lemma rep_reads cs g h : rep cs g h -> reads h cs.
Proof. intros Hr. split; [apply Hr|]. intros. by eapply rep_elem. Qed.

Lemma reads_app h cs cs' : reads h (cs ++ cs') -> reads h cs /\ reads h cs'.
Proof.
  intros [Hnd Hl]. rewrite fmap_app in Hnd. apply NoDup_app in Hnd as (H1 & _ & H2).
  split; (split; [done|]; intros; apply Hl, elem_of_app; auto).
Qed.

Lemma reads_length h cs : reads h cs -> (length cs <= size h)%nat.
Proof.
  intros [Hnd Hl]. rewrite <- (length_fmap fst cs), <- size_dom.
  rewrite <- (size_list_to_set (C := gset loc)) by done.
  apply subseteq_size. intros l Hin. apply elem_of_list_to_set, list_elem_of_fmap in Hin as ([l' n] & -> & Hin).
  apply elem_of_dom. eexists. by apply Hl.
Qed.

Definition chain_heap (m : jmem) (p : ptr) (ts : list jtree) : Prop :=
  exists par lts, p = head_or lts NULL /\ map erase lts = ts /\ forallb values_ok ts = true /\
    reads (nodes m) (fcells par lts NULL).

Definition doc_heap (m : jmem) (p : ptr) (o : option jtree) : Prop :=
  match o with
  | None => p = NULL
  | Some t => exists par right lt, p = Some (tloc lt) /\ erase lt = t /\ values_ok t = true /\
      reads (nodes m) (cells par right lt)
  end.

Lemma fcells_cons par l d ks lts last :
  fcells par (Node (l, d) ks :: lts) last =
  (l, to_json d (head_or ks NULL) (head_or lts last) par) ::
  fcells (Some l) ks NULL ++ fcells par lts last.
Proof. cbn [fcells]. by rewrite cells_node. Qed.

Lemma reads_load m l n cs : reads (nodes m) ((l, n) :: cs) -> load (Some l) m = Ret n m.
Proof. intros [_ Hl]. unfold load. by rewrite (Hl l n) by left. Qed.

Lemma chain_length m par (lts : list ltree) :
  reads (nodes m) (fcells par lts NULL) -> (length lts < chain_fuel m)%nat.
Proof.
  intros Hr%reads_length. rewrite length_fcells in Hr. unfold chain_fuel.
  assert (length lts <= forest_size lts)%nat; [|lia]. clear.
  induction lts as [|[a ks] lts IH]; simpl; lia.
Qed.

(** First child of a document: the chain of its children. *)
Lemma first_child_doc m p o :
  doc_heap m p o ->
  exists par lts, first_child p m = Ret (head_or lts NULL) m /\ map erase lts = from_option kids [] o /\
    forallb values_ok (from_option kids [] o) = true /\ reads (nodes m) (fcells par lts NULL).
Proof.
  destruct o as [t|]; simpl.
  - intros (par & right & [[l d] lts] & -> & <- & Hv & Hr). rewrite cells_node in Hr.
    exists (Some l), lts. unfold first_child. cbn [tloc label fst].
    rewrite (bind_ret_eq _ _ _ _ _ (reads_load _ _ _ _ Hr)). split; [done|]. split; [done|].
    simpl in Hv. apply andb_true_iff in Hv as [_ Hv]. split; [done|].
    by apply (reads_app _ [_]) in Hr as [_ ?].
  - intros ->. exists NULL, []. split; [done|]. split; [done|]. split; [done|]. split; [constructor|].
    intros ?? []%not_elem_of_nil.
Qed.

Lemma chain_cons_inv m par l d ks lts :
  reads (nodes m) (fcells par (Node (l, d) ks :: lts) NULL) ->
  load (Some l) m = Ret (to_json d (head_or ks NULL) (head_or lts NULL) par) m /\
  reads (nodes m) (fcells par lts NULL) /\
  reads (nodes m) (cells par (head_or lts NULL) (Node (l, d) ks)).
Proof.
  intros Hr. split; [rewrite fcells_cons in Hr; by eapply reads_load|].
  cbn [fcells] in Hr. apply reads_app in Hr as [??]. done.
Qed.

Lemma node_loop_chain fuel name par lts m :
  (length lts < fuel)%nat -> forallb values_ok (map erase lts) = true ->
  reads (nodes m) (fcells par lts NULL) ->
  exists r, node_loop fuel name (head_or lts NULL) m = Ret r m /\
    doc_heap m r (list_find (fun k => d_name (label k) = Some name) (map erase lts) ≫= fun ik => Some (snd ik)).
Proof.
  revert fuel. induction lts as [|[[l d] ks] lts IH]; intros [|fuel] Hf Hv Hr; simpl in Hf; try lia.
  { exists NULL. done. }
  apply chain_cons_inv in Hr as (Hl & Hr & Hc). cbn [head_or tloc label fst map node_loop].
  rewrite (bind_ret_eq _ _ _ _ _ Hl). cbn [forallb map] in Hv. apply andb_true_iff in Hv as [Hvk Hv].
  cbn [list_find erase tree_map label]. simpl. case_bool_decide as Hn.
  - exists (Some l). split; [done|]. rewrite decide_True by done. simpl.
    eexists par, _, (Node (l, d) ks). done.
  - rewrite decide_False by done.
    destruct (IH fuel ltac:(lia) Hv Hr) as (r & He & Hd). exists r. split; [done|].
    by destruct (list_find _ (map erase lts)) as [[i k]|].
Qed.

Lemma item_loop_chain fuel i c par lts m :
  (length lts < fuel)%nat -> forallb values_ok (map erase lts) = true -> (c <= i)%nat ->
  reads (nodes m) (fcells par lts NULL) ->
  exists r, item_loop fuel i c (head_or lts NULL) m = Ret r m /\
    doc_heap m r (map erase lts !! (i - c)%nat) /\
    chain_heap m r (drop (i - c) (map erase lts)).
Proof.
  revert fuel c. induction lts as [|[[l d] ks] lts IH]; intros [|fuel] c Hf Hv Hc Hr; simpl in Hf; try lia.
  { exists NULL. split; [done|]. split; [done|]. exists par, []. cbn [map]. by rewrite drop_nil. }
  pose proof (chain_cons_inv _ _ _ _ _ _ Hr) as (Hl & Hr' & Hcell).
  cbn [head_or tloc label fst item_loop]. destruct (Nat.eqb_spec c i) as [->|Hne].
  - exists (Some l). split; [done|]. rewrite Nat.sub_diag. split.
    + simpl. eexists par, _, (Node (l, d) ks). split; [done|]. split; [done|].
      cbn [forallb map] in Hv. by apply andb_true_iff in Hv as [Hvk _].
    + exists par, (Node (l, d) ks :: lts). done.
  - rewrite (bind_ret_eq _ _ _ _ _ Hl). cbn [forallb map] in Hv. apply andb_true_iff in Hv as [Hvk Hv].
    destruct (IH fuel (S c) ltac:(lia) Hv ltac:(lia) Hr') as (r & He & Hd & Hch).
    exists r. split; [done|]. by replace (i - c)%nat with (S (i - S c)) by lia.
Qed.

Lemma items_loop_chain fuel c par (lts : list ltree) m :
  (length lts < fuel)%nat -> reads (nodes m) (fcells par lts NULL) ->
  items_loop fuel c (head_or lts NULL) m = Ret (c + length lts)%nat m.
Proof.
  revert fuel c. induction lts as [|[[l d] ks] lts IH]; intros [|fuel] c Hf Hr; simpl in Hf; try lia.
  { simpl. by rewrite Nat.add_0_r. }
  apply chain_cons_inv in Hr as (Hl & Hr & _). cbn [head_or tloc label fst items_loop].
  rewrite (bind_ret_eq _ _ _ _ _ Hl). cbn [j_right to_json]. rewrite IH by (lia || done).
  f_equal. simpl. lia.
Qed.

(** Loading a document node. *)
Lemma doc_load m p t :
  doc_heap m p (Some t) -> values_ok t = true /\ exists l lf rt pr, p = Some l /\
    load p m = Ret (to_json (label t) lf rt pr) m.
Proof.
  intros (par & right & [[l d] lts] & -> & <- & Hv & Hr). split; [done|].
  rewrite cells_node in Hr. eexists l, _, _, _. split; [done|]. by eapply reads_load.
Qed.

Lemma values_ok_number t :
  values_ok t = true -> d_type (label t) = JSON_NUMBER -> exists v, d_value (label t) = Some v.
Proof.
  destruct t as [d ks]. simpl. intros [H _]%andb_true_iff Ht. unfold is_empty, is_object in H.
  rewrite Ht in H. simpl in H. destruct (d_value d); [by eexists|done].
Qed.

Ltac doc_case Hd :=
  match type of Hd with doc_heap ?m ?p ?o => destruct o as [t|];
    [apply doc_load in Hd as (Hv & l & lf & rt & pr & -> & Hl)
    | simpl in Hd; subst p] end.

#[global] Instance heap_doc_api : DocApi doc_heap chain_heap.
Proof.
  constructor.
  - intros m p o name (par & lts & Hf & Hm & Hv & Hr)%first_child_doc.
    unfold json_node. rewrite (bind_ret_eq _ _ _ _ _ Hf). unfold get, mbind at 1, M_bind.
    rewrite <- Hm in Hv.
    destruct (node_loop_chain (chain_fuel m) name par lts m) as (r & He & Hd);
      [by eapply chain_length|done..|]. exists r. split; [done|].
    rewrite Hm in Hd. by destruct o.
  - intros m p o i (par & lts & Hf & Hm & Hv & Hr)%first_child_doc.
    unfold json_item. rewrite (bind_ret_eq _ _ _ _ _ Hf). unfold get, mbind at 1, M_bind.
    rewrite <- Hm in Hv.
    destruct (item_loop_chain (chain_fuel m) i 0 par lts m) as (r & He & Hd & _);
      [by eapply chain_length|done|lia|done|]. exists r. split; [done|].
    rewrite Hm, Nat.sub_0_r in Hd. by destruct o.
  - intros m p o (par & lts & Hf & Hm & Hv & Hr)%first_child_doc.
    unfold json_item. rewrite (bind_ret_eq _ _ _ _ _ Hf). unfold get, mbind at 1, M_bind.
    rewrite <- Hm in Hv.
    destruct (item_loop_chain (chain_fuel m) 0 0 par lts m) as (r & He & _ & Hch);
      [by eapply chain_length|done|lia|done|]. exists r. split; [done|].
    by rewrite Hm in Hch.
  - intros m p t ts (par & [|[[l d] ks] lts] & -> & Hm & Hv & Hr); [done|].
    apply chain_cons_inv in Hr as (Hl & Hr & Hc). injection Hm as Ht Hts.
    cbn [forallb] in Hv. apply andb_true_iff in Hv as [Hvt Hvs]. split.
    + eexists par, _, (Node (l, d) ks). done.
    + exists (head_or lts NULL). split; [by unfold json_next; simpl; rewrite (bind_ret_eq _ _ _ _ _ Hl)|].
      exists par, lts. done.
  - intros m p (par & lts & -> & Hm & _). by apply map_eq_nil in Hm as ->.
  - intros m p t ts (par & [|lt lts] & -> & Hm & _); [done|]. by eexists.
  - intros m p ts (par & lts & -> & <- & _ & Hr). rewrite length_map. by eapply chain_length.
  - intros m p o (par & lts & Hf & Hm & Hv & Hr)%first_child_doc.
    unfold json_items. rewrite (bind_ret_eq _ _ _ _ _ Hf). unfold get, mbind at 1, M_bind.
    rewrite (items_loop_chain _ _ par) by (done || by eapply chain_length).
    rewrite <- (length_map erase), Hm. by destruct o.
  - intros m p o ty Hd. doc_case Hd; [|done]. unfold has_type. by rewrite (bind_ret_eq _ _ _ _ _ Hl).
  - intros m p o Hd. doc_case Hd; [|done]. unfold json_string. by rewrite (bind_ret_eq _ _ _ _ _ Hl).
  - intros m p o Hd. doc_case Hd; [|done]. unfold json_real, convert. by rewrite (bind_ret_eq _ _ _ _ _ Hl).
  - intros m p o Hd. doc_case Hd; [|done]. unfold json_is_real. rewrite (bind_ret_eq _ _ _ _ _ Hl).
    simpl. unfold tree_is_real, tree_has_type. case_bool_decide as Hty; simpl; [|done].
    destruct (values_ok_number _ Hv Hty) as [v Hval]. unfold value_buffer. simpl. rewrite Hval.
    unfold mbind, M_bind, mret, M_ret. by destruct (strchr_found v "."), (strchr_found v "-").
  - intros m p. done.
  - intros m m' p [t|] Hn; [|done]. simpl. by rewrite Hn.
Qed.

Lemma wf_values_ok t : forall obj, wf_elem obj t = true -> values_ok t = true.
Proof.
  induction t as [d ks IH] using tree_nested_ind. intros obj Hw. cbn [wf_elem values_ok] in *.
  apply andb_true_iff in Hw as [_ Hw]. unfold is_empty, is_object in *.
  assert (forallb values_ok ks = true -> (d_type d = JSON_OBJECT \/ d_type d = JSON_ARRAY) \/ d_value d <> None ->
    (bool_decide (d_type d = JSON_EMPTY) || bool_decide (d_type d = JSON_OBJECT) ||
     bool_decide (d_type d = JSON_ARRAY) || negb (bool_decide (d_value d = None))) && forallb values_ok ks = true) as Hgoal.
  { intros -> Hc. rewrite andb_true_r. destruct Hc as [[->| ->]|Hc]; [done..|].
    rewrite (bool_decide_eq_false_2 (d_value d = None)) by done. by rewrite orb_true_r. }
  destruct (d_type d) eqn:Ety; try done; apply Hgoal; clear Hgoal; auto.
  all: apply andb_true_iff in Hw as [Hw1 Hw2].
  all: try (apply bool_decide_eq_true in Hw2 as ->; done).
  all: try (right; apply negb_true_iff, bool_decide_eq_false in Hw1; done).
  all: apply orb_true_iff in Hw2 as [He|[_ Hk]%andb_true_iff].
  1,3: destruct ks as [|[dk [|]] [|]]; try done; simpl in *; unfold is_empty in *;
    apply andb_true_iff in He as [[He _]%andb_true_iff _]; by rewrite He.
  all: apply forallb_forall; intros k Hin; rewrite forallb_forall in Hk; rewrite Forall_forall in IH;
    eapply IH; [by apply list_elem_of_In|]; by apply Hk.
Qed.

(** ** json_foreach visits the document in preorder *)
Lemma preorder_node {A} (a : A) ks : preorder (Node a ks) = Node a ks :: concat (map preorder ks).
Proof. simpl. f_equal. induction ks as [|k ks IH]; simpl; congruence. Qed.

Section ForeachLaw.
Context {S : Type} `{Lens S jmem} (func : ptr -> M S unit).

Fixpoint visit (ps : list ptr) : M S unit :=
  match ps with
  | [] => mret tt
  | p :: ps => _ ← func p; visit ps
  end.

(** The callback does not change the node heap. *)
Hypothesis func_frame : forall p s u s', func p s = Ret u s' -> nodes (view s') = nodes (view s).

Lemma visit_frame ps s u s' : visit ps s = Ret u s' -> nodes (view s') = nodes (view s).
Proof.
  revert s. induction ps as [|p ps IH]; intros s; simpl; [by intros [= _ <-]|].
  unfold mbind, M_bind. destruct (func p s) as [v s1| | |] eqn:E; try done.
  intros H1%IH. rewrite H1. by eapply func_frame.
Qed.

Lemma visit_app ps qs s : visit (ps ++ qs) s = (visit ps ≫= fun _ => visit qs) s.
Proof.
  revert s. induction ps as [|p ps IH]; intros s; simpl; [done|].
  unfold mbind, M_bind in *. destruct (func p s); try done.
Qed.

Lemma lift_load s p n : load p (view s) = Ret n (view s) -> lift (load p) s = Ret n s.
Proof. intros Hl. rewrite (lift_ret_eq _ _ _ _ Hl). by rewrite upd_view. Qed.

Lemma foreach_visit fuel par lts s :
  (forest_size lts < fuel)%nat -> reads (nodes (view s)) (fcells par lts NULL) ->
  foreach_loop func fuel (head_or lts NULL) s =
  visit (map (fun t => Some (tloc t)) (concat (map preorder lts))) s.
Proof.
  revert par lts s. induction fuel as [|fuel IH]; intros par lts s Hf Hr; [lia|].
  destruct lts as [|[[l d] ks] lts]; [done|].
  cbn [map concat]. rewrite preorder_node. cbn [app map head_or tloc label fst foreach_loop visit].
  apply bind_ext. intros u s1 E.
  pose proof (func_frame _ _ _ _ E) as Hn1. rewrite <- Hn1 in Hr.
  pose proof (chain_cons_inv _ _ _ _ _ _ Hr) as (Hl & Hr' & Hc).
  rewrite (bind_ret_eq _ _ _ _ _ (lift_load _ _ _ Hl)). cbn [j_left to_json].
  rewrite cells_node in Hc. apply (reads_app _ [_]) in Hc as [_ Hks].
  cbn [sum_list_with tree_size] in Hf. rewrite map_app, visit_app.
  unfold mbind at 1 3, M_bind at 1 3. rewrite (IH (Some l)) by (lia || done).
  destruct (visit _ s1) as [u2 s2| | |] eqn:E2; try done.
  pose proof (visit_frame _ _ _ _ E2) as Hn2.
  assert (load (Some l) (view s2) = Ret (to_json d (head_or ks NULL) (head_or lts NULL) par) (view s2)) as Hl2.
  { unfold load in *. rewrite Hn2. by destruct (nodes (view s1) !! l); simplify_eq. }
  rewrite (bind_ret_eq _ _ _ _ _ (lift_load _ _ _ Hl2)). cbn [j_right to_json]. rewrite <- Hn2 in Hr'.
  by rewrite (IH par) by (lia || done).
Qed.
End ForeachLaw.

(** Every node of a chain, in preorder, with the subdocument it holds. *)
Lemma preorder_docs m par lts :
  reads (nodes m) (fcells par lts NULL) -> forallb values_ok (map erase lts) = true ->
  Forall2 (fun p t => doc_heap m p (Some t))
    (map (fun t => Some (tloc t)) (concat (map preorder lts)))
    (concat (map preorder (map erase lts))).
Proof.
  remember (forest_size lts) as k eqn:Hk. assert (forest_size lts <= k)%nat as Hle by lia. clear Hk.
  revert par lts Hle. induction k as [|k IH]; intros par lts Hle Hr Hv.
  { destruct lts as [|[a ks] lts]; [constructor|simpl in Hle; lia]. }
  destruct lts as [|[[l d] ks] lts]; [constructor|]. cbn [sum_list_with tree_size] in Hle.
  pose proof (chain_cons_inv _ _ _ _ _ _ Hr) as (_ & Hr' & Hc).
  cbn [map forallb] in Hv. apply andb_true_iff in Hv as [Hvk Hv].
  cbn [map concat]. rewrite map_app. apply Forall2_app; [|by eapply IH; [lia|..]].
  cbn [erase tree_map]. rewrite !preorder_node. cbn [map]. constructor.
  - eexists par, _, (Node (l, d) ks). done.
  - rewrite cells_node in Hc. apply (reads_app _ [_]) in Hc as [_ Hks].
    apply (IH (Some l)); [lia|done|]. cbn [erase tree_map values_ok] in Hvk.
    by apply andb_true_iff in Hvk as [_ ?].
Qed.
