(* ===== verification/JsonNav.v ===== *)
(** * Navigation in a document

    A cursor is a stack of nodes, innermost first, each with the siblings to its right:
    the node a client looks at and the way back to the root. The functions of json.c
    that go from node to node (json_node, json_item, json_child, json_parent, json_next)
    are steps of a cursor; on a document whose nodes have addresses the pointer they
    return is the address of the node the cursor is at. *)

From S2P Require Import Prelude HeapRep CLib JsonLex JsonTree JsonWf JsonMem JsonRep JsonApi JsonView.

(** ** Cursors *)
Inductive path_step := Member (name : list ascii) | Index (i : nat) | Child (name : list ascii) | Parent | Next.

Section Cursor.
Context {A : Type} (data : A -> jdata).

Definition cursor : Type := list (tree A * list (tree A)).

Fixpoint find_kid (name : list ascii) (ks : list (tree A)) : option (tree A * list (tree A)) :=
  match ks with
  | [] => None
  | k :: ks => if bool_decide (d_name (data (label k)) = Some name) then Some (k, ks) else find_kid name ks
  end.

Fixpoint nth_kid (i : nat) (ks : list (tree A)) : option (tree A * list (tree A)) :=
  match ks, i with
  | [], _ => None
  | k :: ks, O => Some (k, ks)
  | _ :: ks, S i => nth_kid i ks
  end.

(** To a child of the current node. *)
Definition descend (pick : list (tree A) -> option (tree A * list (tree A))) (c : cursor) : cursor :=
  match c with
  | [] => []
  | (t, _) :: _ => match pick (kids t) with Some k => k :: c | None => [] end
  end.

Definition move (st : path_step) (c : cursor) : cursor :=
  match st with
  | Member name => descend (find_kid name) c
  | Index i => descend (nth_kid i) c
  | Child name => descend (nth_kid 0) (descend (find_kid name) c)
  | Parent => tail c
  | Next => match c with (_, r :: rs) :: up => (r, rs) :: up | _ => [] end
  end.

Definition moves (path : list path_step) (c : cursor) : cursor := fold_left (fun c st => move st c) path c.
Definition current (c : cursor) : option (tree A) := fst <$> head c.
End Cursor.

(** ** The calls of a client *)
Definition step_ptr (st : path_step) (p : ptr) : M jmem ptr :=
  match st with
  | Member name => json_node p name
  | Index i => json_item p i
  | Child name => json_child p name
  | Parent => json_parent p
  | Next => json_next p
  end.

Fixpoint walk_ptr (path : list path_step) (p : ptr) : M jmem ptr :=
  match path with
  | [] => mret p
  | st :: path => p ← step_ptr st p; walk_ptr path p
  end.

(** ** Cursors and addresses *)
Definition lcursor : Type := cursor (A := loc * jdata).
Definition erase_cursor (c : lcursor) : cursor (A := jdata) := map (fun '(t, rs) => (erase t, map erase rs)) c.
Definition address (c : lcursor) : ptr := match c with (t, _) :: _ => Some (tloc t) | [] => NULL end.

Lemma find_kid_erase name ks : find_kid id name (map erase ks) = (fun '(k, rs) => (erase k, map erase rs)) <$> find_kid snd name ks.
Proof. induction ks as [|[[l d] ks'] ks IH]; [done|]. cbn [map find_kid erase tree_map label id snd]. by case_bool_decide. Qed.

Lemma nth_kid_erase ks : forall i, nth_kid i (map erase ks) = (fun '(k, rs) => (erase k, map erase rs)) <$> nth_kid i ks.
Proof. induction ks as [|k ks IH]; intros [|i]; [done..|apply IH]. Qed.

Lemma descend_erase pick pick' c : (forall ks, pick' (map erase ks) = (fun '(k, rs) => (erase k, map erase rs)) <$> pick ks) ->
  erase_cursor (descend pick c) = descend pick' (erase_cursor c).
Proof.
  intros H. destruct c as [|[[a ks] rs] up]; [done|]. cbn [erase_cursor map descend kids erase tree_map]. rewrite H. by destruct (pick ks) as [[k rs']|].
Qed.

Lemma move_erase st c : erase_cursor (move snd st c) = move id st (erase_cursor c).
Proof.
  destruct st as [name|i|name| |]; cbn [move].
  - apply descend_erase, find_kid_erase.
  - apply descend_erase. intros ks. apply nth_kid_erase.
  - rewrite (descend_erase _ (nth_kid 0)) by (intros ks; apply nth_kid_erase). f_equal. apply descend_erase, find_kid_erase.
  - by destruct c.
  - by destruct c as [|[t [|r rs]] up].
Qed.

Lemma moves_erase path : forall c, erase_cursor (moves snd path c) = moves id path (erase_cursor c).
Proof. induction path as [|st path IH]; intros c; [done|]. cbn. unfold moves in IH. by rewrite IH, move_erase. Qed.

(** ** The heap *)

(** Every node of the cursor and the siblings to its right are in the heap. *)
Fixpoint placed (h : gmap loc json) (c : lcursor) : Prop :=
  match c with
  | [] => True
  | (t, rs) :: up => reads h (fcells (address up) (t :: rs) NULL) /\ forallb values_ok (map erase (t :: rs)) = true /\ placed h up
  end.

Lemma placed_doc m c : placed (nodes m) c -> doc_heap m (address c) (current (erase_cursor c)).
Proof.
  destruct c as [|[t rs] up]; [done|]. intros (Hr & Hv & _). cbn [map forallb] in Hv. apply andb_true_iff in Hv as [Hv _].
  cbn [fcells] in Hr. apply reads_app in Hr as [Hr _]. by eexists (address up), _, t.
Qed.

(** What a search among the children of a node gives: a child and those to its right. *)
Definition picks (pick : list ltree -> option (ltree * list ltree)) (m : jmem) (par : ptr) (ks : list ltree) (r : ptr) : Prop :=
  match pick ks with
  | Some (k, rs) => r = Some (tloc k) /\ reads (nodes m) (fcells par (k :: rs) NULL) /\ forallb values_ok (map erase (k :: rs)) = true
  | None => r = NULL
  end.

Lemma node_loop_picks fuel name par ks m : (length ks < fuel)%nat -> forallb values_ok (map erase ks) = true -> reads (nodes m) (fcells par ks NULL) ->
  exists r, node_loop fuel name (head_or ks NULL) m = Ret r m /\ picks (find_kid snd name) m par ks r.
Proof.
  revert fuel. induction ks as [|[[l d] ks'] ks IH]; intros [|fuel] Hf Hv Hr; cbn [length] in Hf; try lia; [by exists NULL|].
  pose proof (chain_cons_inv _ _ _ _ _ _ Hr) as (Hl & Hr' & _). cbn [head_or tloc label fst node_loop]. rewrite (bind_ret_eq _ _ _ _ _ Hl).
  unfold picks. cbn [find_kid label snd j_name j_right to_json]. case_bool_decide; [by exists (Some l)|].
  cbn [map forallb] in Hv. apply andb_true_iff in Hv as [_ Hv]. apply (IH fuel); [lia|done|done].
Qed.

Lemma item_loop_picks fuel i c par ks m : (length ks < fuel)%nat -> (c <= i)%nat -> forallb values_ok (map erase ks) = true -> reads (nodes m) (fcells par ks NULL) ->
  exists r, item_loop fuel i c (head_or ks NULL) m = Ret r m /\ picks (nth_kid (i - c)) m par ks r.
Proof.
  revert fuel c. induction ks as [|[[l d] ks'] ks IH]; intros [|fuel] c Hf Hc Hv Hr; cbn [length] in Hf; try lia; [by exists NULL; destruct (i - c)%nat|].
  pose proof (chain_cons_inv _ _ _ _ _ _ Hr) as (Hl & Hr' & _). cbn [head_or tloc label fst item_loop]. destruct (Nat.eqb_spec c i) as [->|Hne].
  - exists (Some l). split; [done|]. by rewrite Nat.sub_diag.
  - rewrite (bind_ret_eq _ _ _ _ _ Hl). cbn [j_right to_json]. cbn [map forallb] in Hv. apply andb_true_iff in Hv as [_ Hv].
    replace (i - c)%nat with (S (i - S c)) by lia. apply (IH fuel (S c)); [lia|lia|done|done].
Qed.

(** The first child and the children of the current node. *)
Lemma first_child_placed m c : placed (nodes m) c -> exists ks par, first_child (address c) m = Ret (head_or ks NULL) m /\
  reads (nodes m) (fcells par ks NULL) /\ forallb values_ok (map erase ks) = true /\
  match c with [] => ks = [] | (t, _) :: _ => ks = kids t /\ par = Some (tloc t) end.
Proof.
  destruct c as [|[[[l d] ks] rs] up]; cbn [placed address]; intros H.
  - exists [], NULL. split; [done|]. split; [split; [constructor|by intros ?? []%not_elem_of_nil]|done].
  - destruct H as (Hr & Hv & _). exists ks, (Some l). pose proof (chain_cons_inv _ _ _ _ _ _ Hr) as (Hl & _ & Hc). split.
    { unfold first_child. cbn [tloc label fst]. by rewrite (bind_ret_eq _ _ _ _ _ Hl). }
    rewrite cells_node in Hc. apply (reads_app _ [_]) in Hc as [_ Hc]. split; [done|]. split; [|done].
    cbn [map forallb erase tree_map values_ok] in Hv. apply andb_true_iff in Hv as [Hv _]. by apply andb_true_iff in Hv as [_ Hv].
Qed.

Lemma descend_placed pick m c (search : ptr -> M jmem ptr) : placed (nodes m) c ->
  (forall ks, pick ks = None \/ ks <> []) ->
  (forall par ks, reads (nodes m) (fcells par ks NULL) -> forallb values_ok (map erase ks) = true -> exists r, search (head_or ks NULL) m = Ret r m /\ picks pick m par ks r) ->
  (p ← first_child (address c); search p) m = Ret (address (descend pick c)) m /\ placed (nodes m) (descend pick c).
Proof.
  intros Hp Hnil Hs. destruct (first_child_placed m c Hp) as (ks & par & Hf & Hr & Hv & Hc). rewrite (bind_ret_eq _ _ _ _ _ Hf).
  destruct (Hs par ks Hr Hv) as (r & -> & Hpick). unfold picks in Hpick. destruct c as [|[t rs] up].
  - subst ks. destruct (Hnil []) as [H|]; [|done]. rewrite H in Hpick. by subst r.
  - destruct Hc as [-> ->]. cbn [descend]. destruct (pick (kids t)) as [[k rs']|]; [|by subst r].
    destruct Hpick as (-> & H1 & H2). split; [done|]. split; [exact H1|]. by split.
Qed.

Lemma find_kid_nil name (ks : list ltree) : find_kid snd name ks = None \/ ks <> [].
Proof. destruct ks; [by left|by right]. Qed.

Lemma nth_kid_nil i (ks : list ltree) : nth_kid i ks = None \/ ks <> [].
Proof. destruct ks; [left; by destruct i|by right]. Qed.

Lemma json_node_placed m c name : placed (nodes m) c ->
  json_node (address c) name m = Ret (address (descend (find_kid snd name) c)) m /\ placed (nodes m) (descend (find_kid snd name) c).
Proof.
  intros H. unfold json_node. apply descend_placed; [done|apply find_kid_nil|]. intros par ks Hr Hv. unfold get, mbind, M_bind.
  apply node_loop_picks; [by eapply chain_length|done|done].
Qed.

Lemma json_item_placed m c i : placed (nodes m) c ->
  json_item (address c) i m = Ret (address (descend (nth_kid i) c)) m /\ placed (nodes m) (descend (nth_kid i) c).
Proof.
  intros H. unfold json_item. apply descend_placed; [done|apply nth_kid_nil|]. intros par ks Hr Hv. unfold get, mbind, M_bind.
  destruct (item_loop_picks (chain_fuel m) i 0 par ks m) as (r & He & Hp); [by eapply chain_length|lia|done|done|]. rewrite Nat.sub_0_r in Hp. by exists r.
Qed.

Lemma first_child_descend m c : placed (nodes m) c ->
  first_child (address c) m = Ret (address (descend (nth_kid 0) c)) m /\ placed (nodes m) (descend (nth_kid 0) c).
Proof.
  intros H. pose proof (descend_placed (nth_kid 0) m c mret H (nth_kid_nil 0)) as Hd. destruct Hd as [He Hp].
  { intros par ks Hr Hv. exists (head_or ks NULL). split; [done|]. by destruct ks. }
  split; [|done]. unfold mbind, M_bind in He. destruct (first_child (address c) m) as [p m1| | |]; [|done..]. by unfold mret, M_ret in He.
Qed.

(** Every step of a client follows the cursor. *)
Lemma step_placed st m c : placed (nodes m) c -> step_ptr st (address c) m = Ret (address (move snd st c)) m /\ placed (nodes m) (move snd st c).
Proof.
  intros H. destruct st as [name|i|name| |]; cbn [step_ptr move].
  - by apply json_node_placed.
  - by apply json_item_placed.
  - destruct (json_node_placed m c name H) as [He Hp]. unfold json_child. rewrite (bind_ret_eq _ _ _ _ _ He). by apply first_child_descend.
  - destruct c as [|[[[l d] ks] rs] up]; [done|]. destruct H as (Hr & _ & Hup). split; [|done].
    unfold json_parent. cbn [address tloc label fst]. by rewrite (bind_ret_eq _ _ _ _ _ (proj1 (chain_cons_inv _ _ _ _ _ _ Hr))).
  - destruct c as [|[[[l d] ks] rs] up]; [done|]. destruct H as (Hr & Hv & Hup). pose proof (chain_cons_inv _ _ _ _ _ _ Hr) as (Hl & Hr' & _).
    unfold json_next. cbn [address tloc label fst]. rewrite (bind_ret_eq _ _ _ _ _ Hl). cbn [j_right to_json]. destruct rs as [|r rs]; [done|]. split; [done|].
    split; [done|]. split; [|done]. cbn [map forallb] in Hv |- *. by apply andb_true_iff in Hv as [_ Hv].
Qed.

Lemma walk_placed path : forall m c, placed (nodes m) c -> walk_ptr path (address c) m = Ret (address (moves snd path c)) m /\ placed (nodes m) (moves snd path c).
Proof.
  induction path as [|st path IH]; intros m c H; [done|]. destruct (step_placed st m c H) as [He Hp]. cbn [walk_ptr].
  rewrite (bind_ret_eq _ _ _ _ _ He). by apply IH.
Qed.
