(* ===== verification/JsonEncode.v ===== *)
(** * json_encode and the reading back of strings and atoms

    json_encode writes a quoted, escaped copy of its argument. The lemmas give
    the scan of an encoded string and of a bare atom, wherever they stand in a
    text, and the value the parser assigns to them. *)

From Stdlib Require Import SpecFloat.
From S2P Require Import Prelude CLib JsonLex.

(** What the switch of json_encode appends for one source character. *)
Definition encode_char (c : ascii) : list ascii :=
  if Ascii.eqb c backslash then [backslash; backslash]
  else if Ascii.eqb c "/" then [backslash; "/"%char]
  else if Ascii.eqb c dquote then [backslash; dquote]
  else if Ascii.eqb c "008" then [backslash; "b"%char]
  else if Ascii.eqb c "012" then [backslash; "f"%char]
  else if Ascii.eqb c "010" then [backslash; "n"%char]
  else if Ascii.eqb c "013" then [backslash; "r"%char]
  else if Ascii.eqb c "009" then [backslash; "t"%char]
  else [c].

Fixpoint encode_loop (src : list ascii) : list ascii :=
  match src with
  | [] => []
  | c :: src' => encode_char c ++ encode_loop src'
  end.

(** The string json_encode(dst, src) leaves in [dst]. *)
Definition encoded (src : list ascii) : list ascii := dquote :: encode_loop src ++ [dquote].

(** json_encode: the bytes written to [dst], the NUL included, and the result. *)
Definition json_encode (src : list ascii) : list ascii * nat :=
  (encoded src ++ [NUL], length (encoded src)).

(** ** The characters that escape *)
Lemma encode_char_cases c :
  (exists e, encode_char c = [backslash; e] /\ json_isescape e = true /\ unescape e = [c]) \/
  (encode_char c = [c] /\ c <> backslash /\ c <> dquote).
Proof.
  unfold encode_char.
  repeat match goal with
  | |- context [if Ascii.eqb ?x ?y then _ else _] =>
      destruct (Ascii.eqb_spec x y) as [->|?]; [left; eexists; split; [reflexivity|split; reflexivity]|]
  end.
  by right.
Qed.

Lemma encode_char_length c : (1 <= length (encode_char c) <= 2)%nat.
Proof.
  destruct (encode_char_cases c) as [(e & -> & _)|[-> _]]; simpl; lia.
Qed.

(** The marked range when a quoted character is passed. *)
Lemma mark_some c str l r : exists r', mark c str (Some (l, r)) = Some (l, r').
Proof. unfold mark. destruct (json_isspace c); eauto. Qed.

Lemma scan_encode_loop s rest str l r q :
  Nat.odd q = true ->
  exists r', scan_loop (encode_loop s ++ rest) str q (Some (l, r)) =
             scan_loop rest (str + length (encode_loop s)) q (Some (l, r')).
Proof.
  intros Hq. revert str r. induction s as [|c s IH]; intros str r; simpl.
  { exists r. by rewrite Nat.add_0_r. }
  rewrite length_app, <- app_assoc.
  destruct (encode_char_cases c) as [(e & -> & He & _)|(-> & Hb & Hd)]; simpl.
  - rewrite Hq. simpl. rewrite He. destruct (mark_some e (S str) l r) as [r1 ->].
    destruct (IH (S (S str)) r1) as [r' ->]. exists r'. f_equal. lia.
  - destruct (Ascii.eqb_spec c backslash); [done|]. destruct (Ascii.eqb_spec c dquote); [done|].
    rewrite Hq. simpl. destruct (mark_some c str l r) as [r1 ->].
    destruct (IH (S str) r1) as [r' ->]. exists r'. f_equal. lia.
Qed.

Lemma copy_encode_loop s rest after q :
  Nat.odd q = true ->
  copy_loop (encode_loop s ++ rest) after q = s ++ copy_loop rest after q.
Proof.
  intros Hq. induction s as [|c s IH]; simpl; [done|]. rewrite <- app_assoc.
  destruct (encode_char_cases c) as [(e & -> & _ & Hu)|(-> & Hb & Hd)]; simpl.
  - rewrite Hu. simpl. by rewrite IH.
  - destruct (Ascii.eqb_spec c backslash); [done|]. destruct (Ascii.eqb_spec c dquote); [done|].
    rewrite Hq, orb_true_r. by rewrite IH.
Qed.

Definition sep_next (rest : list ascii) : Prop :=
  match rest with [] => True | c :: _ => json_istoken c = true end.

Lemma istoken_not_quote c :
  json_istoken c = true -> Ascii.eqb c backslash = false /\ Ascii.eqb c dquote = false /\
  json_isspace c = false /\ isdigit c = false /\ tolower c = c.
Proof.
  unfold json_istoken. rewrite !orb_true_iff.
  intros [[[[[H|H]|H]|H]|H]|H]; apply Ascii.eqb_eq in H as ->; done.
Qed.

Lemma scan_loop_sep rest str q lr :
  sep_next rest -> Nat.odd q = false -> scan_loop rest str q lr = Some (lr, str, q).
Proof.
  destruct rest as [|c rest]; simpl; [done|]. intros Ht Hq.
  destruct (istoken_not_quote c Ht) as (-> & -> & _). by rewrite Hq, Ht.
Qed.

(** ** Where a lexeme [s] stands in the text *)
Definition at_pos (text : list ascii) (p : nat) (s rest : list ascii) : Prop :=
  drop p text = s ++ rest.

Lemma at_pos_length text p s rest : at_pos text p s rest -> s <> [] ->
  (p + length s + length rest = length text)%nat.
Proof.
  unfold at_pos. intros H Hs. apply (f_equal length) in H.
  rewrite length_drop, length_app in H. destruct s; simpl in *; [done|]. lia.
Qed.

Lemma at_pos_char text p s rest i :
  at_pos text p s rest -> (i < length s)%nat -> char_at text (p + i) = char_at s i.
Proof.
  unfold at_pos, char_at. intros H Hi. rewrite <- lookup_drop, H. by rewrite lookup_app_l.
Qed.

Lemma at_pos_next text p s s' rest :
  at_pos text p (s ++ s') rest -> at_pos text (p + length s) s' rest.
Proof.
  unfold at_pos. intros H. rewrite <- drop_drop, H, <- app_assoc. by rewrite drop_app_length.
Qed.

Lemma at_pos_app text p s s' rest :
  at_pos text p (s ++ s') rest <-> at_pos text p s (s' ++ rest).
Proof. unfold at_pos. by rewrite <- app_assoc. Qed.

Lemma at_pos_take text p s rest :
  at_pos text p s rest -> take (length s) (drop p text) = s.
Proof. unfold at_pos. intros ->. by rewrite take_app_length. Qed.

(** An encoded string is scanned as one range. *)
Lemma scan_encoded text p s rest :
  at_pos text p (encoded s) rest -> sep_next rest ->
  json_scan text p = Some (p, (p + length (encoded s) - 1)%nat, (p + length (encoded s))%nat).
Proof.
  unfold at_pos, json_scan, encoded. intros -> Hr. rewrite <- app_comm_cons, <- app_assoc.
  change (scan_loop (dquote :: ?s) p 0 None) with (scan_loop s (S p) 1 (Some (p, p))).
  destruct (scan_encode_loop s ([dquote] ++ rest) (S p) p p 1 eq_refl) as [r' ->].
  change (scan_loop ([dquote] ++ rest) ?k 1 (Some (p, r'))) with (scan_loop rest (S k) 2 (Some (p, k))).
  rewrite scan_loop_sep by done. simpl. rewrite length_app. simpl.
  do 2 f_equal; [f_equal|]; lia.
Qed.

Lemma copy_encoded text p s rest :
  at_pos text p (encoded s) rest -> json_copy text p (length (encoded s)) = s.
Proof.
  intros H. unfold json_copy. rewrite (at_pos_take _ _ _ _ H). unfold encoded. simpl.
  rewrite copy_encode_loop by done. simpl. by rewrite app_nil_r.
Qed.

Lemma encoded_quotes text p s rest :
  at_pos text p (encoded s) rest ->
  char_at text p = dquote /\ char_at text (p + length (encoded s) - 1) = dquote.
Proof.
  intros H. split.
  - rewrite <- (Nat.add_0_r p). by rewrite (at_pos_char _ _ _ _ _ H) by (simpl; lia).
  - assert (length (encoded s) = S (length (encode_loop s) + 1)) as Hl
      by (unfold encoded; simpl; by rewrite length_app).
    replace (p + length (encoded s) - 1)%nat with (p + S (length (encode_loop s)))%nat by lia.
    rewrite (at_pos_char _ _ _ _ _ H) by lia. unfold char_at, encoded. simpl.
    by rewrite list_lookup_middle.
Qed.

Lemma encoded_size s p : (p + length (encoded s) - 1 - p + 1)%nat = length (encoded s).
Proof. unfold encoded. simpl. lia. Qed.

(** The parser reads an encoded string back, as a value and as a name. *)
Lemma value_encoded text p s rest :
  at_pos text p (encoded s) rest ->
  value_of text p (p + length (encoded s) - 1) = Some (JSON_STRING, s).
Proof.
  intros H. destruct (encoded_quotes _ _ _ _ H) as [H1 H2]. unfold value_of, classify.
  rewrite H1, H2, encoded_size, Ascii.eqb_refl. cbn [andb orb negb].
  by rewrite (copy_encoded _ _ _ _ H).
Qed.

Lemma name_encoded text p s rest :
  at_pos text p (encoded s) rest ->
  name_of text p (p + length (encoded s) - 1) = Some s.
Proof.
  intros H. destruct (encoded_quotes _ _ _ _ H) as [H1 H2]. unfold name_of.
  rewrite H1, H2, encoded_size, Ascii.eqb_refl. cbn [andb orb negb].
  by rewrite (copy_encoded _ _ _ _ H).
Qed.

(** ** Bare atoms: null, true, false and integers *)
Definition atom_char (c : ascii) : bool :=
  negb (json_istoken c) && negb (Ascii.eqb c dquote) && negb (Ascii.eqb c backslash) &&
  negb (json_isspace c).

Definition is_atom (v : list ascii) : bool := negb (bool_decide (v = [])) && forallb atom_char v.

Lemma scan_atom_loop v rest str l r :
  forallb atom_char v = true -> sep_next rest ->
  scan_loop (v ++ rest) str 0 (Some (l, r)) =
  Some (Some (l, if bool_decide (v = []) then r else (str + length v - 1)%nat), (str + length v)%nat, 0%nat).
Proof.
  intros Hv Hr. revert str r. induction v as [|c v IH]; intros str r; simpl.
  { rewrite scan_loop_sep by done. by rewrite Nat.add_0_r. }
  simpl in Hv. apply andb_true_iff in Hv as [Hc Hv]. unfold atom_char in Hc.
  rewrite !andb_true_iff, !negb_true_iff in Hc. destruct Hc as [[[Ht ->] ->] Hs].
  rewrite Ht. simpl. unfold mark. rewrite Hs, IH by done.
  replace (S str + length v)%nat with (str + S (length v))%nat by lia.
  destruct v as [|c' v]; [|done]. simpl. by replace (str + 1 - 1)%nat with str by lia.
Qed.

Lemma scan_atom text p v rest :
  at_pos text p v rest -> is_atom v = true -> sep_next rest ->
  json_scan text p = Some (p, (p + length v - 1)%nat, (p + length v)%nat).
Proof.
  unfold at_pos, json_scan, is_atom. intros -> [Hne Hv]%andb_true_iff Hr.
  destruct v as [|c v]; [done|]. simpl in *. apply andb_true_iff in Hv as [Hc Hv].
  unfold atom_char in Hc. rewrite !andb_true_iff, !negb_true_iff in Hc.
  destruct Hc as [[[Ht ->] ->] Hs]. rewrite Ht. simpl. unfold mark. rewrite Hs.
  rewrite scan_atom_loop by done. simpl.
  destruct v as [|c' v]; simpl; (apply f_equal; apply f_equal2; [apply f_equal|]; lia).
Qed.

Lemma copy_atom v after : forallb atom_char v = true -> copy_loop v after 0 = v.
Proof.
  induction v as [|c v IH]; simpl; [done|]. intros [Hc Hv]%andb_true_iff.
  unfold atom_char in Hc. rewrite !andb_true_iff, !negb_true_iff in Hc.
  destruct Hc as [[[_ ->] ->] _]. by rewrite IH.
Qed.

(** The type the parser gives to an atom followed by a separator. *)
Lemma value_atom text p v rest ty :
  at_pos text p v rest -> is_atom v = true ->
  (v = lit "null" /\ ty = JSON_NULL \/
   (v = lit "true" \/ v = lit "false") /\ ty = JSON_BOOLEAN \/
   (v <> lit "null" /\ v <> lit "true" /\ v <> lit "false" /\ ty = JSON_NUMBER /\
    (length v <= snd (strtod (v ++ rest)))%nat)) ->
  value_of text p (p + length v - 1) = Some (ty, v).
Proof.
  intros H Ha Hty. pose proof Ha as Ha'. apply andb_true_iff in Ha' as [Hne Hv].
  apply negb_true_iff, bool_decide_eq_false in Hne.
  assert (1 <= length v)%nat as Hlen by (destruct v; simpl; [done|lia]).
  unfold value_of, classify. replace (p + length v - 1 - p + 1)%nat with (length v) by lia.
  assert (Ascii.eqb (char_at text p) dquote = false) as ->.
  { rewrite <- (Nat.add_0_r p), (at_pos_char _ _ _ _ _ H) by lia.
    destruct v as [|c v]; [done|]. simpl in Hv. unfold atom_char in Hv.
    rewrite !andb_true_iff, !negb_true_iff in Hv. apply Hv. }
  assert (json_copy text p (length v) = v) as ->.
  { unfold json_copy. rewrite (at_pos_take _ _ _ _ H). by apply copy_atom. }
  cbn [andb]. unfold strneq. rewrite (at_pos_take _ _ _ _ H).
  destruct Hty as [[-> ->]|[[[->| ->] ->]|(H1 & H2 & H3 & -> & Hs)]]; [done..|].
  assert (forall w, v <> w -> (length v =? length w)%nat && bool_decide (v = take (length v) w) = false) as Hno.
  { intros w Hw. destruct (Nat.eqb_spec (length v) (length w)) as [E|]; [|done]. simpl.
    apply bool_decide_eq_false. by rewrite E, take_ge by lia. }
  pose proof (Hno _ H1) as H1'. pose proof (Hno _ H2) as H2'. pose proof (Hno _ H3) as H3'.
  simpl length in H1', H2', H3' at 2. rewrite H1', H2', H3'.
  unfold at_pos in H. rewrite H. destruct (strtod (v ++ rest)) as [d n] eqn:E. simpl in Hs.
  rewrite (proj2 (Nat.leb_gt _ _)) by lia. done.
Qed.

(** ** Integers *)
Definition is_digits (v : list ascii) : bool := negb (bool_decide (v = [])) && forallb isdigit v.

Lemma isdigit_atom c : isdigit c = true -> atom_char c = true.
Proof. destruct c as [[][][][][][][][]]; vm_compute; congruence. Qed.

Lemma digits_atom v : is_digits v = true -> is_atom v = true.
Proof.
  unfold is_digits, is_atom. intros [-> Hv]%andb_true_iff. simpl.
  rewrite forallb_forall in *. intros c Hc. by apply isdigit_atom, Hv.
Qed.

Lemma isdigit_facts c : isdigit c = true ->
  isspace c = false /\ Ascii.eqb c "-" = false /\ Ascii.eqb c "+" = false /\ tolower c = c /\ c <> "x"%char.
Proof. destruct c as [[][][][][][][][]]; vm_compute; intuition congruence. Qed.

Lemma sep_facts c : json_istoken c = true ->
  Ascii.eqb c "." = false /\ Ascii.eqb (tolower c) "e" = false /\ tolower c <> "x"%char.
Proof.
  unfold json_istoken. rewrite !orb_true_iff.
  intros [[[[[H|H]|H]|H]|H]|H]; apply Ascii.eqb_eq in H as ->; split_and!; done.
Qed.

Lemma digits_span v rest : forallb isdigit v = true -> sep_next rest ->
  span_len isdigit (v ++ rest) = length v.
Proof.
  intros Hv Hr. apply span_len_all.
  - apply Forall_forall. rewrite forallb_forall in Hv. intros c Hc%list_elem_of_In. by apply Hv.
  - destruct rest as [|c rest]; [done|]. simpl in Hr. by apply istoken_not_quote in Hr as (_&_&_&?&_).
Qed.

Lemma strtod_digits v rest :
  is_digits v = true -> sep_next rest -> snd (strtod (v ++ rest)) = length v.
Proof.
  unfold is_digits. intros [Hne Hv]%andb_true_iff Hr.
  destruct v as [|c v]; [done|]. pose proof Hv as Hall. simpl in Hv. apply andb_true_iff in Hv as [Hc Hv].
  destruct (isdigit_facts c Hc) as (Hs & Hm & Hp & Hl & _).
  unfold strtod. cbn [app span_len]. rewrite Hs. cbn [drop take_sign]. rewrite Hm, Hp.
  assert (iprefix (lit "0x") (c :: v ++ rest) = false) as Hx.
  { apply bool_decide_eq_false. simpl. intros Heq. injection Heq as _ Heq.
    destruct v as [|c' v]; simpl in Heq.
    - destruct rest as [|r rest]; simpl in Heq; [done|]. injection Heq as Heq.
      simpl in Hr. by apply sep_facts in Hr as (_ & _ & ?).
    - injection Heq as Heq. simpl in Hv. apply andb_true_iff in Hv as [Hc' _].
      apply isdigit_facts in Hc' as (_&_&_&Ht&Hn). congruence. }
  unfold strtod_body. destruct (mantissa xdigit _) as [[hd hf] hn]. rewrite Hx. cbn [andb].
  assert (mantissa isdigit (c :: v ++ rest) = (c :: v, 0%nat, S (length v))) as ->.
  { unfold mantissa. change (c :: v ++ rest) with ((c :: v) ++ rest). rewrite digits_span by done.
    rewrite drop_app_length, take_app_length. destruct rest as [|r rest]; [done|].
    simpl in Hr. by apply sep_facts in Hr as (-> & _). }
  cbn [Nat.ltb Nat.leb]. change (drop (S (length v)) (c :: v ++ rest)) with (drop (length v) (v ++ rest)).
  rewrite drop_app_length.
  assert (exponent "e" rest = (0, 0%nat)) as ->.
  { destruct rest as [|r rest]; [done|]. simpl in Hr. simpl. by apply sep_facts in Hr as (_ & -> & _). }
  rewrite Nat.add_0_r. done.
Qed.

(** ** Numbers: whatever strtod reads entirely *)
Definition is_number (v : list ascii) : bool := is_atom v && (length v <=? snd (strtod v))%nat.

(** A separator ends every part of a number. *)
Lemma token_facts c : json_istoken c = true ->
  isspace c = false /\ isdigit c = false /\ xdigit c = false /\ (isalnum c || Ascii.eqb c "_") = false /\ tolower c = c /\
  Ascii.eqb c "." = false /\ Ascii.eqb c "e" = false /\ Ascii.eqb c "p" = false /\
  Ascii.eqb c "-" = false /\ Ascii.eqb c "+" = false /\ Ascii.eqb c "(" = false /\ Ascii.eqb c ")" = false.
Proof.
  unfold json_istoken. rewrite !orb_true_iff.
  intros [[[[[H|H]|H]|H]|H]|H]; apply Ascii.eqb_eq in H as ->; done.
Qed.

Section BeforeSeparator.
Context (rest : list ascii).
Hypothesis Hsep : sep_next rest.

Definition stops (p : ascii -> bool) : Prop := match rest with [] => True | c :: _ => p c = false end.

Lemma span_sep p v : stops p -> span_len p (v ++ rest) = span_len p v.
Proof.
  intros Hp. induction v as [|c v IH]; cbn [app span_len]; [|by rewrite IH].
  unfold stops in Hp. destruct rest as [|c l]; [done|]. cbn. by rewrite Hp.
Qed.

Lemma sep_stops p : (forall c, json_istoken c = true -> p c = false) -> stops p.
Proof. intros H. pose proof Hsep as Hs. unfold stops. destruct rest; [done|by apply H]. Qed.

Lemma stops_space : stops isspace. Proof. apply sep_stops. by intros c (?&_)%token_facts. Qed.
Lemma stops_digit : stops isdigit. Proof. apply sep_stops. by intros c (_&?&_)%token_facts. Qed.
Lemma stops_xdigit : stops xdigit. Proof. apply sep_stops. by intros c (_&_&?&_)%token_facts. Qed.
Lemma stops_word : stops (fun c => isalnum c || Ascii.eqb c "_"). Proof. apply sep_stops. by intros c (_&_&_&?&_)%token_facts. Qed.

Lemma drop_sep n (v : list ascii) : (n <= length v)%nat -> drop n (v ++ rest) = drop n v ++ rest.
Proof. intros H. by rewrite drop_app_le. Qed.

Lemma take_sep n (v : list ascii) : (n <= length v)%nat -> take n (v ++ rest) = take n v.
Proof. intros H. by rewrite take_app_le. Qed.

Lemma mantissa_sep isd v : stops isd -> mantissa isd (v ++ rest) = mantissa isd v.
Proof.
  intros Hs. unfold mantissa. rewrite span_sep by done. pose proof (span_len_le isd v) as Hle. rewrite drop_sep, take_sep by done.
  destruct (drop (span_len isd v) v) as [|c r]; cbn [app].
  - pose proof Hsep as Ht. destruct rest as [|c l]; [done|]. by apply token_facts in Ht as (_&_&_&_&_&->&_).
  - rewrite span_sep by done. by rewrite take_sep by apply span_len_le.
Qed.

Lemma take_sign_sep v : take_sign (v ++ rest) = let '(neg, r, k) := take_sign v in (neg, r ++ rest, k).
Proof.
  destruct v as [|c v]; cbn [app take_sign].
  - pose proof Hsep as Ht. destruct rest as [|c l]; [done|]. cbn. by apply token_facts in Ht as (_&_&_&_&_&_&_&_&->&->&_).
  - by destruct (Ascii.eqb c "-"), (Ascii.eqb c "+").
Qed.

Lemma exponent_sep m v : m = "e"%char \/ m = "p"%char -> exponent m (v ++ rest) = exponent m v.
Proof.
  intros Hm. destruct v as [|c v]; cbn [app exponent].
  - pose proof Hsep as Ht. destruct rest as [|c l]; [done|]. cbn. apply token_facts in Ht as (_&_&_&_&->&_&He&Hp&_).
    destruct Hm as [->| ->]; [by rewrite He|by rewrite Hp].
  - destruct (Ascii.eqb (tolower c) m); [|done]. rewrite take_sign_sep. destruct (take_sign v) as [[neg r] k].
    rewrite span_sep by apply stops_digit. by rewrite take_sep by apply span_len_le.
Qed.

Lemma iprefix_sep p v : forallb (fun c => negb (json_istoken c)) p = true -> iprefix p (v ++ rest) = iprefix p v.
Proof.
  intros Hp. unfold iprefix. destruct (decide (length p <= length v)%nat) as [Hle|Hgt]; [by rewrite take_sep|].
  rewrite (bool_decide_eq_false_2 (map tolower (take (length p) v) = p)).
  2: { intros H. apply (f_equal length) in H. rewrite length_map, length_take in H. lia. }
  apply bool_decide_eq_false_2. intros H. pose proof Hsep as Ht. destruct rest as [|c l].
  { apply (f_equal length) in H. rewrite length_map, length_take, app_nil_r in H. lia. }
  assert (p !! length v = Some c) as Hc.
  { rewrite <- H, list_lookup_fmap, lookup_take_lt, lookup_app_r, Nat.sub_diag by lia. cbn. by apply token_facts in Ht as (_&_&_&_&->&_). }
  apply list_elem_of_lookup_2, list_elem_of_In in Hc. rewrite forallb_forall in Hp. specialize (Hp c Hc). cbn in Ht. by rewrite Ht in Hp.
Qed.

Lemma nan_len_sep v : (3 <= length v)%nat -> nan_len (v ++ rest) = nan_len v.
Proof.
  intros Hl. unfold nan_len. rewrite drop_sep by done. destruct (drop 3 v) as [|c r]; cbn [app].
  - pose proof Hsep as Ht. destruct rest as [|c l]; [done|]. by apply token_facts in Ht as (_&_&_&_&_&_&_&_&_&_&->&_).
  - destruct (Ascii.eqb c "("); [|done]. rewrite span_sep by apply stops_word. set (n := span_len _ r).
    assert (Ascii.eqb (char_at (r ++ rest) n) ")" = Ascii.eqb (char_at r n) ")") as ->; [|done].
    unfold char_at. destruct (decide (n < length r)%nat) as [Hn|Hn]; [by rewrite lookup_app_l|].
    rewrite lookup_app_r, (lookup_ge_None_2 r) by lia. pose proof (span_len_le (fun c => isalnum c || Ascii.eqb c "_") r). fold n in H.
    replace (n - length r)%nat with 0%nat by lia. pose proof Hsep as Ht. destruct rest as [|c' l]; [done|]. cbn. by apply token_facts in Ht as (_&_&_&_&_&_&_&_&_&_&_&->).
Qed.

Lemma iprefix_length p v : iprefix p v = true -> (length p <= length v)%nat.
Proof. intros H%bool_decide_eq_true. apply (f_equal length) in H. rewrite length_map, length_take in H. lia. Qed.

Lemma mantissa_le isd v : (snd (mantissa isd v) <= length v)%nat.
Proof.
  unfold mantissa. pose proof (span_len_le isd v) as H. pose proof (length_drop v (span_len isd v)) as Hd.
  destruct (drop (span_len isd v) v) as [|c r]; [done|]. destruct (Ascii.eqb c "."); [|done]. pose proof (span_len_le isd r). cbn [length] in Hd.
  destruct (_ =? 0)%nat; cbn [snd]; lia.
Qed.

Lemma hex_sep v : iprefix (lit "0x") v = true -> mantissa xdigit (drop 2 (v ++ rest)) = mantissa xdigit (drop 2 v).
Proof. intros H%iprefix_length. rewrite drop_sep by done. apply mantissa_sep, stops_xdigit. Qed.

Lemma strtod_body_sep s v : strtod_body s (v ++ rest) = strtod_body s v.
Proof.
  unfold strtod_body. rewrite (iprefix_sep (lit "0x")), (iprefix_sep (lit "infinity")), (iprefix_sep (lit "inf")), (iprefix_sep (lit "nan")) by done.
  rewrite (mantissa_sep isdigit) by apply stops_digit. pose proof (mantissa_le isdigit v) as Hd.
  assert ((let '(dd, df, dn) := mantissa isdigit v in
    if (0 <? dn)%nat then let '(e, en) := exponent "e" (drop dn (v ++ rest)) in (round_decimal s (dec_val dd) (e - Z.of_nat df), (dn + en)%nat)
    else if iprefix (lit "infinity") v then (S754_infinity s, 8%nat) else if iprefix (lit "inf") v then (S754_infinity s, 3%nat)
    else if iprefix (lit "nan") v then (S754_nan, nan_len (v ++ rest)) else (S754_zero false, 0%nat)) =
    (let '(dd, df, dn) := mantissa isdigit v in
    if (0 <? dn)%nat then let '(e, en) := exponent "e" (drop dn v) in (round_decimal s (dec_val dd) (e - Z.of_nat df), (dn + en)%nat)
    else if iprefix (lit "infinity") v then (S754_infinity s, 8%nat) else if iprefix (lit "inf") v then (S754_infinity s, 3%nat)
    else if iprefix (lit "nan") v then (S754_nan, nan_len v) else (S754_zero false, 0%nat))) as Hdec.
  { destruct (mantissa isdigit v) as [[dd df] dn]. cbn [snd] in Hd. destruct (0 <? dn)%nat; [by rewrite drop_sep, exponent_sep by auto|].
    destruct (iprefix (lit "infinity") v); [done|]. destruct (iprefix (lit "inf") v); [done|]. destruct (iprefix (lit "nan") v) eqn:Hn; [|done].
    by rewrite nan_len_sep by (by apply iprefix_length in Hn). }
  destruct (iprefix (lit "0x") v) eqn:Hx.
  - rewrite hex_sep by done. pose proof (mantissa_le xdigit (drop 2 v)) as Hm. rewrite length_drop in Hm. pose proof (iprefix_length _ _ Hx) as Hl. cbn in Hl.
    destruct (mantissa xdigit (drop 2 v)) as [[hd hf] hn]. cbn [snd andb] in *. destruct (0 <? hn)%nat; [|exact Hdec].
    by rewrite drop_sep, exponent_sep by (auto; lia).
  - cbn [andb]. destruct (mantissa xdigit (drop 2 (v ++ rest))) as [[? ?] ?], (mantissa xdigit (drop 2 v)) as [[? ?] ?]. exact Hdec.
Qed.

Lemma strtod_sep v : strtod (v ++ rest) = strtod v.
Proof.
  unfold strtod. rewrite span_sep by apply stops_space. rewrite drop_sep by apply span_len_le. rewrite take_sign_sep.
  destruct (take_sign _) as [[neg r] k]. by rewrite strtod_body_sep.
Qed.
End BeforeSeparator.

Lemma digits_number v : is_digits v = true -> is_number v = true.
Proof.
  intros H. unfold is_number. rewrite digits_atom by done. apply Nat.leb_le. rewrite <- (app_nil_r v) at 2. by rewrite strtod_digits.
Qed.

Lemma number_not_words v : is_number v = true -> v <> lit "null" /\ v <> lit "true" /\ v <> lit "false".
Proof. intros H. split_and!; intros ->; by vm_compute in H. Qed.
