(* ===== verification/JsonPrint.v ===== *)
(** * Writing a document as text and parsing it back

    [render] writes a document the way a client of json_encode would: strings and
    names through json_encode, the other scalars as they are. The parser reads
    the result back to the same document. *)

From S2P Require Import Prelude CLib JsonLex JsonTree JsonWf JsonEncode.

Definition opener (ty : json_type) : ascii := if bool_decide (ty = JSON_OBJECT) then "{"%char else "["%char.
Definition closer (ty : json_type) : ascii := if bool_decide (ty = JSON_OBJECT) then "}"%char else "]"%char.

Definition render_name (d : jdata) : list ascii :=
  match d_name d with Some s => encoded s ++ [":"%char] | None => [] end.

Definition value_text (d : jdata) : list ascii :=
  match d_value d with Some s => s | None => [] end.

Fixpoint render (t : jtree) : list ascii :=
  let '(Node d ks) := t in
  match d_type d with
  | JSON_OBJECT | JSON_ARRAY =>
      opener (d_type d) ::
      (fix go (ks : list jtree) : list ascii :=
         match ks with
         | [] => []
         | k :: ks' => render_name (label k) ++ render k ++
             match ks' with [] => [] | _ :: _ => ","%char :: go ks' end
         end) ks ++ [closer (d_type d)]
  | JSON_STRING => encoded (value_text d)
  | _ => value_text d
  end.

Fixpoint render_members (ks : list jtree) : list ascii :=
  match ks with
  | [] => []
  | k :: ks' => render_name (label k) ++ render k ++
      match ks' with [] => [] | _ :: _ => ","%char :: render_members ks' end
  end.

Lemma render_container d ks :
  is_container (d_type d) ->
  render (Node d ks) = opener (d_type d) :: render_members ks ++ [closer (d_type d)].
Proof.
  assert (forall ks, (fix go (ks : list jtree) : list ascii :=
         match ks with
         | [] => []
         | k :: ks' => render_name (label k) ++ render k ++
             match ks' with [] => [] | _ :: _ => ","%char :: go ks' end
         end) ks = render_members ks) as Hm.
  { induction ks0 as [|k ks0 IH]; simpl; [done|]. by rewrite IH. }
  intros [Hc|Hc]; simpl; rewrite Hc, Hm; done.
Qed.

(** Scalars whose text is the one the parser expects for their type, no NUL, and
    no name on the node of an empty container. *)
Definition nul_free (s : list ascii) : bool := forallb (fun c => negb (Ascii.eqb c NUL)) s.

Definition scalar_ok (d : jdata) : bool :=
  match d_name d with Some s => nul_free s | None => true end &&
  match d_type d, d_value d with
  | JSON_STRING, Some v => nul_free v
  | JSON_NUMBER, Some v => is_number v
  | JSON_BOOLEAN, Some v => bool_decide (v = lit "true") || bool_decide (v = lit "false")
  | JSON_NULL, Some v => bool_decide (v = lit "null")
  | JSON_EMPTY, None => unnamed d
  | JSON_OBJECT, None | JSON_ARRAY, None => true
  | _, _ => false
  end.

Fixpoint printable (t : jtree) : bool :=
  let '(Node d ks) := t in scalar_ok d && forallb printable ks.

(** ** Parser steps *)
Inductive pstep (text : list ascii) : zipper jdata * nat -> zipper jdata * nat -> Prop :=
| PStep z left a b tok z' :
    json_scan text left = Some (a, b, tok) ->
    spec_switch text z a b tok = Some (SNext z') ->
    pstep text (z, left) (z', (tok + 1)%nat).

Definition empty_node (name : option (list ascii)) : jtree := Node (JData JSON_EMPTY name None) [].

Lemma scan_sep text p c rest :
  at_pos text p [] (c :: rest) -> json_istoken c = true -> json_scan text p = Some (p, p, p).
Proof.
  unfold at_pos, json_scan. intros -> Ht. rewrite scan_loop_sep by done. done.
Qed.

Lemma at_pos_head text p c s rest : at_pos text p (c :: s) rest -> char_at text p = c.
Proof.
  intros H. rewrite <- (Nat.add_0_r p). by rewrite (at_pos_char _ _ _ _ _ H) by (simpl; lia).
Qed.

Lemma at_pos_char_next text p s c rest : at_pos text p s (c :: rest) -> char_at text (p + length s) = c.
Proof.
  intros H. apply (at_pos_head _ _ _ [] rest). apply at_pos_next. by apply at_pos_app.
Qed.

(** What reading one element establishes: the parser stands at the separator
    that ends it and will complete the focus to that element. *)
Definition elem_read (text : list ascii) (ctx : list (frame jdata)) (n : nat) (t : jtree)
    (start : zipper jdata * nat) (stop : nat) : Prop :=
  exists z' p' a b, rtc (pstep text) start (z', p') /\
    json_scan text p' = Some (a, b, stop) /\ context z' = ctx /\ dropped z' = n /\
    unnamed (label (focus z')) = unnamed (label t) /\
    (forall e, spec_finish text (focus z') a b stop e = Some t).

Lemma scalar_read text ctx n d ty v a b p q :
  json_scan text p = Some (a, b, q) -> (a < q)%nat -> value_of text a b = Some (ty, v) ->
  d = JData ty (d_name d) (Some v) ->
  elem_read text ctx n (Node d []) (Zip (empty_node (d_name d)) ctx n, p) q.
Proof.
  intros Hs Hlt Hv Hd. eexists _, p, a, b. split; [apply rtc_refl|]. split; [done|].
  split; [done|]. split; [done|]. split; [done|]. intros e. unfold spec_finish, spec_value.
  cbn [focus label kids empty_node]. unfold is_empty. simpl.
  rewrite (proj2 (Nat.eqb_neq a q)) by lia. rewrite Hv. by rewrite Hd at 2.
Qed.

Lemma opener_open ty : is_container ty ->
  Ascii.eqb (opener ty) "{" || Ascii.eqb (opener ty) "[" = true /\ json_token (opener ty) = ty /\
  json_istoken (opener ty) = true.
Proof. by intros [->| ->]. Qed.

Lemma closer_close ty : is_container ty ->
  json_token (closer ty) = ty /\ json_istoken (closer ty) = true /\
  (Ascii.eqb (closer ty) "{" || Ascii.eqb (closer ty) "[") = false /\
  Ascii.eqb (closer ty) ":" = false /\ Ascii.eqb (closer ty) "," = false /\
  Ascii.eqb (closer ty) "]" || Ascii.eqb (closer ty) "}" = true.
Proof. by intros [->| ->]. Qed.

(** The switch at each kind of token. *)
Lemma switch_open text z p c rest :
  at_pos text p [c] rest -> Ascii.eqb c "{" || Ascii.eqb c "[" = true ->
  parent_object (context z) && unnamed (label (focus z)) = false ->
  pstep text (z, p) (Zip hole (Frame (with_type (json_token c) (label (focus z))) [] :: context z)
                         (dropped z + forest_size (kids (focus z))), (p + 1)%nat).
Proof.
  intros Hp Hc Hn. econstructor.
  - eapply scan_sep; [done|]. unfold json_istoken. apply orb_true_iff in Hc as [-> | ->]; [done|].
    by rewrite orb_true_r.
  - unfold spec_switch. rewrite (at_pos_head _ _ _ _ _ Hp), Hc. unfold spec_open.
    by rewrite Nat.eqb_refl, Hn.
Qed.

Lemma switch_name text ctx n p s rest :
  at_pos text p (encoded s ++ [":"%char]) rest -> parent_object ctx = true ->
  pstep text (Zip hole ctx n, p)
    (Zip (empty_node (Some s)) ctx n, (p + length (encoded s ++ [":"%char]))%nat).
Proof.
  intros Hp Ho. apply at_pos_app in Hp. rewrite length_app, Nat.add_assoc. econstructor.
  - by eapply scan_encoded.
  - unfold spec_switch. rewrite (at_pos_char_next _ _ _ _ _ Hp). cbn [Ascii.eqb orb Bool.eqb].
    unfold spec_colon. cbn [context]. rewrite Ho. simpl negb. cbn [orb].
    by rewrite (name_encoded _ _ _ _ Hp).
Qed.

(** Completing an element at its separator. *)
Section Separators.
Context (text : list ascii) (ctx : list (frame jdata)) (n : nat) (d : jdata) (prev : list jtree).
Context (k : jtree) (start : zipper jdata * nat) (q : nat).
Hypothesis Hread : elem_read text (Frame d prev :: ctx) n k start q.
Hypothesis Hnamed : named (label k) = is_object d.

Lemma read_comma :
  char_at text q = ","%char ->
  rtc (pstep text) start (Zip hole (Frame d (prev ++ [k]) :: ctx) n, (q + 1)%nat).
Proof.
  intros Hc. destruct Hread as ([t c m] & p' & a & b & Hr & Hs & Hctx & Hd & Hn & Hf).
  simpl in *. subst. eapply rtc_r; [exact Hr|]. econstructor; [exact Hs|].
  unfold spec_switch. rewrite Hc. simpl. unfold spec_comma. simpl. rewrite Hn, Hf.
  unfold named, is_object in Hnamed. destruct (bool_decide _); simpl; [|done].
  by rewrite (proj1 (negb_true_iff _) Hnamed).
Qed.

Lemma read_close :
  is_container (d_type d) -> char_at text q = closer (d_type d) ->
  rtc (pstep text) start (Zip (Node d (prev ++ [k])) ctx n, (q + 1)%nat).
Proof.
  intros Hct Hc. destruct Hread as ([t c m] & p' & a & b & Hr & Hs & Hctx & Hd & Hn & Hf).
  simpl in *. subst. eapply rtc_r; [exact Hr|]. econstructor; [exact Hs|].
  destruct (closer_close _ Hct) as (Ht & _ & H1 & H2 & H3 & H4).
  unfold spec_switch. rewrite Hc, H1, H2, H3, H4. unfold spec_close. simpl.
  rewrite Ht, bool_decide_eq_true_2 by done. simpl. rewrite Hn, Hf.
  unfold named, is_object in Hnamed. destruct (bool_decide (d_type d = _)); simpl.
  - rewrite (proj1 (negb_true_iff _) Hnamed). by rewrite andb_false_r.
  - by rewrite andb_false_r.
Qed.
End Separators.

(** The reading of an element, for every position it may stand at. *)
Definition reads_back (k : jtree) : Prop :=
  forall text ctx n p rest,
    wf_elem (parent_object ctx) k = true -> printable k = true ->
    at_pos text p (render k) rest -> sep_next rest ->
    elem_read text ctx n k (Zip (empty_node (d_name (label k))) ctx n, p) (p + length (render k)).

Lemma unnamed_none d : named d = false -> d_name d = None.
Proof. unfold named, unnamed. intros H%negb_false_iff. by apply bool_decide_eq_true in H. Qed.

Lemma named_some d : named d = true -> exists s, d_name d = Some s.
Proof. unfold named, unnamed. destruct (d_name d); [by eexists|done]. Qed.

Lemma rtc_pos_eq text (start : zipper jdata * nat) z x y :
  rtc (pstep text) start (z, x) -> x = y -> rtc (pstep text) start (z, y).
Proof. by intros ? <-. Qed.

(** A member: its name, if it is in an object, and its value. *)
Lemma member_read k text d prev ctx n p rest :
  reads_back k -> wf_elem (is_object d) k = true -> printable k = true ->
  at_pos text p (render_name (label k) ++ render k) rest -> sep_next rest ->
  elem_read text (Frame d prev :: ctx) n k (Zip hole (Frame d prev :: ctx) n, p)
    (p + length (render_name (label k) ++ render k)).
Proof.
  intros Hk Hw Hp Hat Hsep. rewrite length_app, Nat.add_assoc.
  pose proof (wf_elem_named _ _ Hw) as Hn. unfold render_name in *.
  destruct (is_object d) eqn:Ho.
  - destruct (named_some _ Hn) as [s Hs]. rewrite Hs in *.
    pose proof (at_pos_next _ _ _ _ _ Hat) as Hat2.
    assert (parent_object (Frame d prev :: ctx) = true) as Hpo by exact Ho.
    assert (elem_read text (Frame d prev :: ctx) n k
      (Zip (empty_node (Some s)) (Frame d prev :: ctx) n, (p + length (encoded s ++ [":"%char]))%nat)
      (p + length (encoded s ++ [":"%char]) + length (render k))) as (z' & p' & a & b & Hr & Hrest).
    { rewrite <- Hs. eapply Hk; [by rewrite Hpo|done..]. }
    exists z', p', a, b. split; [|done]. eapply rtc_l; [|exact Hr].
    eapply switch_name; [|done]. apply at_pos_app in Hat. exact Hat.
  - rewrite (unnamed_none _ Hn) in *. simpl in *. rewrite Nat.add_0_r.
    assert (hole = empty_node (d_name (label k))) as -> by by rewrite (unnamed_none _ Hn).
    eapply Hk; [|done..]. change (parent_object _) with (is_object d). by rewrite Ho.
Qed.

Lemma members_read ks text d ctx n : is_container (d_type d) -> Forall reads_back ks ->
  forallb (wf_elem (is_object d)) ks = true -> forallb printable ks = true -> ks <> [] ->
  forall prev p rest, at_pos text p (render_members ks ++ [closer (d_type d)]) rest ->
  rtc (pstep text) (Zip hole (Frame d prev :: ctx) n, p)
    (Zip (Node d (prev ++ ks)) ctx n, (p + length (render_members ks ++ [closer (d_type d)]))%nat).
Proof.
  intros Hct. induction 1 as [|k ks Hk Hks IH]; [done|]. intros Hw Hpr _ prev p rest Hat.
  cbn [forallb] in Hw, Hpr. apply andb_true_iff in Hw as [Hwk Hw], Hpr as [Hpk Hpr].
  cbn [render_members] in *. rewrite (app_assoc (render_name _)) in *.
  pose proof (wf_elem_named _ _ Hwk) as Hn.
  destruct ks as [|k' ks].
  - rewrite app_nil_r in *. rewrite length_app, Nat.add_assoc. apply at_pos_app in Hat.
    apply read_close; [|done..|by eapply at_pos_char_next].
    eapply member_read; [done..|]. simpl. by apply closer_close.
  - rewrite <- app_assoc in *. rewrite length_app, Nat.add_assoc. apply at_pos_app in Hat.
    cbn [app] in Hat. etrans.
    + eapply read_comma; [|exact Hn|by eapply at_pos_char_next].
      eapply member_read; [done..|]. done.
    + assert (at_pos text (p + length (render_name (label k) ++ render k) + 1)
                (render_members (k' :: ks) ++ [closer (d_type d)]) rest) as Hat2.
      { apply (at_pos_next _ _ [","%char]). cbn [app]. apply at_pos_next with (rest := rest).
        by apply at_pos_app. }
      specialize (IH Hw Hpr ltac:(done) (prev ++ [k]) _ _ Hat2).
      rewrite <- app_assoc in IH. cbn [app] in IH.
      eapply rtc_pos_eq; [exact IH|]. cbn [length app]. lia.
Qed.

(** A container that stands complete before its separator. *)
Lemma container_read text ctx n d ks start p rest :
  is_container (d_type d) ->
  rtc (pstep text) start (Zip (Node d ks) ctx n, p) ->
  at_pos text p [] rest -> sep_next rest ->
  elem_read text ctx n (Node d ks) start p.
Proof.
  intros Hct Hr Hat Hsep. exists (Zip (Node d ks) ctx n), p, p, p. split; [done|].
  split.
  { unfold at_pos, json_scan in *. rewrite Hat. simpl. by rewrite scan_loop_sep. }
  split; [done|]. split; [done|]. split; [done|]. intros e. unfold spec_finish.
  simpl. unfold is_empty. rewrite bool_decide_eq_false_2 by (by destruct Hct as [->| ->]).
  by rewrite Nat.eqb_refl.
Qed.

Lemma scalar_reads_back d : is_scalar (d_type d) -> reads_back (Node d []).
Proof.
  intros Hsc text ctx n p rest Hw Hp Hat Hsep. cbn [label].
  cbn [printable forallb] in Hp. rewrite andb_true_r in Hp. unfold scalar_ok in Hp.
  apply andb_true_iff in Hp as [_ Hp]. destruct d as [ty nm [v|]]; simpl in *;
    [|by destruct Hsc as [->|[->|[->| ->]]]].
  destruct Hsc as [->|[->|[->| ->]]]; cbn [render d_type value_text d_value] in *.
  - eapply scalar_read; [by eapply scan_encoded|unfold encoded; simpl; lia|by eapply value_encoded|done].
  - pose proof (number_not_words _ Hp) as (?&?&?). apply andb_true_iff in Hp as [Ha Hd%Nat.leb_le].
    rewrite <- (strtod_sep rest Hsep) in Hd.
    eapply scalar_read; [by eapply scan_atom| |eapply value_atom; [done..|]|done].
    + apply andb_true_iff in Ha as [Hne _]. destruct v; [done|]. simpl. lia.
    + right. right. by split_and!.
  - apply orb_true_iff in Hp as [Hv|Hv]; apply bool_decide_eq_true in Hv as ->;
      (eapply scalar_read; [by eapply scan_atom|simpl; lia|eapply value_atom; [done..|]|done]); auto.
  - apply bool_decide_eq_true in Hp as ->.
    eapply scalar_read; [by eapply scan_atom|simpl; lia|eapply value_atom; [done..|]|done]. auto.
Qed.

Lemma container_reads_back d ks :
  is_container (d_type d) -> Forall reads_back ks -> reads_back (Node d ks).
Proof.
  intros Hct Hks text ctx n p rest Hw Hp Hat Hsep. cbn [label].
  rewrite render_container in * by done.
  pose proof (wf_elem_named _ _ Hw) as Hn. pose proof (wf_container_value _ _ Hw Hct) as Hv.
  destruct (opener_open _ Hct) as (Hop & Htok & _).
  assert (pstep text (Zip (empty_node (d_name d)) ctx n, p)
            (Zip hole (Frame d [] :: ctx) n, (p + 1)%nat)) as Hopen.
  { pose proof Hat as Hat1. change (opener (d_type d) :: ?x) with ([opener (d_type d)] ++ x) in Hat1.
    apply at_pos_app in Hat1.
    pose proof (switch_open text (Zip (empty_node (d_name d)) ctx n) p _ _ Hat1 Hop) as Hsw.
    simpl in Hsw. rewrite Nat.add_0_r, Htok in Hsw.
    assert (with_type (d_type d) (JData JSON_EMPTY (d_name d) None) = d) as Hd
      by (destruct d; simpl in *; by rewrite Hv).
    rewrite Hd in Hsw. apply Hsw. simpl in Hn. unfold named, unnamed in *. simpl.
    rewrite <- Hn. by destruct (bool_decide _). }
  assert (at_pos text (p + 1) (render_members ks ++ [closer (d_type d)]) rest) as Hat2
    by by apply (at_pos_next _ _ [opener (d_type d)]).
  assert (rtc (pstep text) (Zip hole (Frame d [] :: ctx) n, (p + 1)%nat)
    (Zip (Node d ks) ctx n, (p + 1 + length (render_members ks ++ [closer (d_type d)]))%nat)) as Hrun.
  { cbn [wf_elem printable] in Hw, Hp. apply andb_true_iff in Hw as [_ Hw], Hp as [_ Hp].
    assert (empty_group (is_object d) ks = true \/ ks <> [] /\ forallb (wf_elem (is_object d)) ks = true) as Hcase.
    { destruct Hct as [Hct|Hct]; rewrite Hct in Hw; apply andb_true_iff in Hw as [_ Hw];
        (apply orb_true_iff in Hw as [?|[Hne ?]%andb_true_iff]; [by left|right; split; [|done]]);
        by apply negb_true_iff, bool_decide_eq_false in Hne. }
    destruct Hcase as [He|[Hne Hwk]]; [|by apply (members_read ks text d ctx n Hct Hks) with (prev := []) (rest := rest)].
    destruct ks as [|[dk [|]] [|]]; try done. simpl in He.
    apply andb_true_iff in He as [[He Hvk]%andb_true_iff _].
    apply bool_decide_eq_true in He, Hvk. simpl in Hp. rewrite !andb_true_r in Hp.
    unfold scalar_ok in Hp. rewrite He, Hvk in Hp. apply andb_true_iff in Hp as [_ Hnk].
    apply bool_decide_eq_true in Hnk. destruct dk as [ty nm v]. simpl in *. subst.
    simpl in Hat2. destruct (closer_close _ Hct) as (Ht & Hti & H1 & H2 & H3 & H4).
    apply rtc_once. cbn [render_members app length]. econstructor.
    - eapply scan_sep; [exact Hat2|done].
    - unfold spec_switch. rewrite (at_pos_head _ _ _ _ _ Hat2), H1, H2, H3, H4.
      unfold spec_close, spec_finish. simpl. rewrite Ht, bool_decide_eq_true_2, Nat.eqb_refl by done. done. }
  assert ((p + length (opener (d_type d) :: render_members ks ++ [closer (d_type d)]))%nat =
          (p + 1 + length (render_members ks ++ [closer (d_type d)]))%nat) as -> by (simpl; lia).
  eapply container_read; [done|eapply rtc_l; [exact Hopen|exact Hrun]| |exact Hsep].
  apply at_pos_next. by rewrite app_nil_r.
Qed.

Lemma printable_reads_back t : reads_back t.
Proof.
  induction t as [d ks IH] using tree_nested_ind.
  destruct (d_type d) eqn:Ety.
  1,8: intros text ctx n p rest Hw; exfalso; cbn [wf_elem] in Hw; rewrite Ety in Hw;
    by rewrite andb_false_r in Hw.
  1,2: apply container_reads_back; [|done]; unfold is_container; auto.
  all: intros text ctx n p rest Hw; assert (ks = []) as ->
    by (cbn [wf_elem] in Hw; rewrite Ety in Hw;
        apply andb_true_iff in Hw as [_ [_ Hk]%andb_true_iff]; by apply bool_decide_eq_true in Hk);
    apply scalar_reads_back; [|done]; unfold is_scalar; auto.
Qed.

(** ** From steps to spec_build *)
Lemma steps_build text z left z' left' fuel :
  rtc (pstep text) (z, left) (z', left') -> (left <= length text)%nat ->
  (length text - left < fuel)%nat ->
  exists fuel', (length text - left' < fuel')%nat /\ (left' <= length text)%nat /\
    spec_build text fuel z left = spec_build text fuel' z' left'.
Proof.
  intros Hr. remember (z, left) as s eqn:Es. remember (z', left') as s' eqn:Es'.
  revert z left fuel Es Es'. induction Hr as [|x y w Hxy Hr IH]; intros z0 left0 fuel -> Heq Hl Hf.
  { simplify_eq. by exists fuel. }
  inversion Hxy as [z1 l1 a b tok z2 Hs Hsw]. subst. clear Hxy.
  destruct fuel as [|fuel]; [lia|]. simpl. rewrite Hs, Hsw.
  apply json_scan_bounds in Hs as [Hb Htok]; [|done].
  assert (tok < length text)%nat as Hlt.
  { destruct Htok as [->|(c & Hc & _)]; [|by apply lookup_lt_Some in Hc].
    unfold spec_switch in Hsw. rewrite char_at_end in Hsw by lia. simpl in Hsw.
    unfold spec_end, spec_value in Hsw. repeat case_match; simplify_eq. }
  eapply IH; [done|done|lia|lia].
Qed.

Lemma render_parse t :
  wf_elem false t = true -> printable t = true -> spec_parse_full (render t) = Some (t, 0%nat).
Proof.
  intros Hw Hp. set (text := render t).
  assert (at_pos text 0 (render t) []) as Hat by (unfold at_pos; by rewrite app_nil_r).
  pose proof (wf_elem_named _ _ Hw) as Hn. apply unnamed_none in Hn as Hnn.
  destruct (printable_reads_back t text [] 0%nat 0%nat [] Hw Hp Hat I) as (z' & p' & a & b & Hr & Hs & Hctx & Hd & Hu & Hf).
  rewrite Hnn in Hr. unfold spec_parse_full. change hole with (empty_node None).
  destruct (steps_build _ _ _ _ _ (S (S (length text))) Hr) as (fuel' & Hf' & Hl' & ->); [lia|lia|].
  destruct fuel' as [|fuel']; [lia|]. simpl. rewrite Hs. unfold spec_switch.
  rewrite char_at_end by done. simpl. unfold spec_end. rewrite Hctx.
  specialize (Hf false). unfold spec_finish in Hf.
  assert (is_empty (label t) = false) as Hne.
  { apply bool_decide_eq_false. by apply wf_elem_type in Hw. }
  destruct (is_empty (label (focus z'))).
  - destruct (a =? _)%nat; [done|]. rewrite Hf, Hne. simpl. by rewrite Hd.
  - destruct (a =? _)%nat; [|done]. injection Hf as Hf. rewrite Hf, Hne. simpl. by rewrite Hd.
Qed.
