(* ===== verification/JsonThms.v ===== *)
(** * What json.c promises: the theorems of the JSON component

    Parsing, freeing, reading and writing documents, stated on the heap code of
    JsonMem, JsonApi and JsonEncode against the document trees of JsonTree. *)

From Stdlib Require Import SpecFloat.
From S2P Require Import Prelude HeapRep CLib JsonLex JsonTree JsonWf JsonMem JsonRep JsonApi.
From S2P Require Import JsonRefine JsonView JsonNav JsonEncode JsonPrint.

(** ** Statements *)

(** The heap [m] consists of [base] and of the nodes of the document [t], whose
    root is at [p]: nothing is shared, nothing else is live. *)
Definition stored (base : gmap loc json) (m : jmem) (p : ptr) (t : jtree) : Prop :=
  exists lt : ltree, p = Some (tloc lt) /\ erase lt = t /\ rep (cells NULL NULL lt) base (nodes m).

Definition never : nat -> bool := fun _ => false.
Definition empty_mem : jmem := mk_jmem ∅ 0.

(** Everything the accessors say about one node; json_streq compares with [o_str]. *)
Record observation := Observe {
  o_type : json_type; o_name : option (list ascii); o_string : option (list ascii);
  o_number : double; o_integer : Z; o_real : Z; o_boolean : bool;
  o_is_integer : bool; o_is_real : bool; o_items : nat;
  o_is_empty : bool; o_is_object : bool; o_is_array : bool; o_is_string : bool;
  o_is_number : bool; o_is_boolean : bool; o_is_null : bool; o_streq : bool }.

Definition observe (str : list ascii) (p : ptr) : M jmem observation :=
  ty ← json_type_of p; nm ← json_name p; s ← json_string p; d ← json_number p;
  i ← json_integer p; r ← json_real p; b ← json_boolean p; ii ← json_is_integer p;
  ir ← json_is_real p; n ← json_items p;
  e ← json_is_empty p; o ← json_is_object p; a ← json_is_array p; st ← json_is_string p;
  nu ← json_is_number p; bo ← json_is_boolean p; nl ← json_is_null p; eq ← json_streq p str;
  mret (Observe ty nm s d i r b ii ir n e o a st nu bo nl eq).

Definition tree_number (t : jtree) : double := tree_convert (S754_zero false) (fun v => fst (strtod v)) t.

Definition tree_boolean (t : jtree) : bool :=
  match d_type (label t), d_value (label t) with
  | JSON_BOOLEAN, Some v => Ascii.eqb (char_at v 0) "t"
  | JSON_NUMBER, _ => negb (is_zero (tree_number t))
  | _, _ => false
  end.

Definition tree_is_integer (t : jtree) : bool :=
  tree_has_type JSON_NUMBER t &&
  match d_value (label t) with Some v => negb (strchr_found v ".") | None => false end.

Definition tree_streq (str : list ascii) (t : jtree) : bool :=
  tree_has_type JSON_STRING t && bool_decide (d_value (label t) = Some str).

Definition tree_observation (str : list ascii) (o : option jtree) : observation :=
  match o with
  | None => Observe JSON_NONE None None (S754_zero false) 0 0 false false false 0 false false false false false false false false
  | Some t =>
      Observe (d_type (label t)) (d_name (label t)) (d_value (label t)) (tree_number t)
        (tree_convert 0 strtol t) (tree_convert 0 strtoul t) (tree_boolean t)
        (tree_is_integer t) (tree_is_real t) (tree_items t)
        (tree_has_type JSON_EMPTY t) (tree_has_type JSON_OBJECT t) (tree_has_type JSON_ARRAY t) (tree_has_type JSON_STRING t)
        (tree_has_type JSON_NUMBER t) (tree_has_type JSON_BOOLEAN t) (tree_has_type JSON_NULL t) (tree_streq str t)
  end.

(** The lines json_print writes for a document. *)
Fixpoint tree_print (level : nat) (t : jtree) : list ascii :=
  let '(Node d ks) := t in
  replicate level "009"%char ++ lit "(" ++ default [] (json_type_name (d_type d)) ++ lit ") <" ++
  printf_s (d_name d) ++ lit "> = <" ++ printf_s (d_value d) ++ lit ">" ++ ["010"%char] ++
  concat (map (tree_print (S level)) ks).

(** ** Helper lemmas *)
Lemma never_between m m' : ~ oom_between never m m'.
Proof. by intros (n & _ & ?). Qed.

Lemma parse_cases oom text m :
  exists p m' g, json_parse oom text m = Ret p m' /\ nodes m ⊆ g /\
    (reopen_free text = true -> g = nodes m) /\
    match p with
    | Some _ => exists t, stored g m' p t /\ spec_parse_full text = Some (t, (size g - size (nodes m))%nat)
    | None => nodes m' = g /\ (oom_between oom m m' \/ spec_parse_full text = None)
    end.
Proof.
  pose proof (parse_sim oom text m) as H. apply returns_eq in H as (p & m' & He & _ & g & Hs & Hr & Hp).
  exists p, m', g. split; [done|]. split; [done|]. split; [done|]. destruct p as [l|]; [|done].
  destruct Hp as (t & <- & Hrep & Hsp). exists (erase t). split; [|done]. by exists t.
Qed.

Lemma spec_full_parse text t n : spec_parse_full text = Some (t, n) -> spec_parse text = Some t.
Proof. unfold spec_parse. by intros ->. Qed.

Lemma spec_none_parse text : spec_parse_full text = None -> spec_parse text = None.
Proof. unfold spec_parse. by intros ->. Qed.

Lemma stored_values base m p t : stored base m p t -> wf_elem false t = true -> doc_heap m p (Some t).
Proof.
  intros (lt & -> & <- & Hr) Hw. exists NULL, NULL, lt. split; [done|]. split; [done|].
  split; [by eapply wf_values_ok|]. by eapply rep_reads.
Qed.

(** A successful parse: the text denotes the document that is in the heap. *)
Lemma parse_some oom text m p m' l :
  json_parse oom text m = Ret p m' -> p = Some l ->
  exists g t, stored g m' p t /\ nodes m ⊆ g /\ (reopen_free text = true -> g = nodes m) /\
    spec_parse_full text = Some (t, (size g - size (nodes m))%nat) /\ doc_heap m' p (Some t).
Proof.
  intros He ->. destruct (parse_cases oom text m) as (p & m1 & g & He' & Hs & Hr & Hp).
  rewrite He in He'. simplify_eq. destruct Hp as (t & Hst & Hsp). exists g, t.
  split; [done|]. split; [done|]. split; [done|]. split; [done|]. eapply stored_values; [done|].
  eapply spec_parse_wf_elem. by eapply spec_full_parse.
Qed.

Lemma free_stored base m p t :
  stored base m p t -> exists m', json_free (free_fuel m) p m = Ret tt m' /\ nodes m' = base.
Proof.
  intros (lt & -> & _ & Hr). destruct (free_root _ _ _ Hr) as (m' & ? & ? & _). by exists m'.
Qed.

Lemma values_ok_scalar t ty :
  values_ok t = true -> d_type (label t) = ty -> ty = JSON_BOOLEAN \/ ty = JSON_NUMBER \/ ty = JSON_STRING ->
  exists v, d_value (label t) = Some v.
Proof.
  destruct t as [d ks]. simpl. intros [H _]%andb_true_iff Ht Hc. unfold is_empty, is_object in H.
  rewrite Ht in H. destruct (d_value d); [by eexists|]. by destruct Hc as [->|[->| ->]].
Qed.

Lemma convert_doc {A} (zero : A) f m p t :
  doc_heap m p (Some t) -> convert zero f p m = Ret (tree_convert zero f t) m.
Proof.
  intros (_ & l & lf & rt & pr & -> & Hl)%doc_load. unfold convert, tree_convert.
  by rewrite (bind_ret_eq _ _ _ _ _ Hl).
Qed.

Lemma boolean_doc m p t : doc_heap m p (Some t) -> json_boolean p m = Ret (tree_boolean t) m.
Proof.
  intros Hd. pose proof (doc_load _ _ _ Hd) as (Hv & l & lf & rt & pr & -> & Hl).
  unfold json_boolean, tree_boolean. rewrite (bind_ret_eq _ _ _ _ _ Hl). cbn [j_type to_json].
  destruct (d_type (label t)) eqn:Et; try done.
  - rewrite bool_decide_eq_false_2, bool_decide_eq_true_2 by done. unfold json_number.
    by rewrite (bind_ret_eq _ _ _ _ _ (convert_doc _ _ _ _ _ Hd)).
  - destruct (values_ok_scalar _ _ Hv Et) as [v Hvv]; [auto|].
    rewrite bool_decide_eq_true_2 by done. unfold value_buffer.
    cbn [j_value to_json]. by rewrite Hvv.
Qed.

Lemma is_integer_doc m p t : doc_heap m p (Some t) -> json_is_integer p m = Ret (tree_is_integer t) m.
Proof.
  intros Hd. pose proof (doc_load _ _ _ Hd) as (Hv & l & lf & rt & pr & -> & Hl).
  unfold json_is_integer, tree_is_integer, tree_has_type. rewrite (bind_ret_eq _ _ _ _ _ Hl).
  cbn [j_type to_json]. case_bool_decide as Et; [|done]. cbn [negb andb].
  destruct (values_ok_scalar _ _ Hv Et) as [v Hvv]; [auto|]. unfold value_buffer.
  cbn [j_value to_json]. by rewrite Hvv.
Qed.

Lemma streq_doc m p t str : doc_heap m p (Some t) -> json_streq p str m = Ret (tree_streq str t) m.
Proof.
  intros Hd. pose proof (doc_load _ _ _ Hd) as (Hv & l & lf & rt & pr & -> & Hl).
  unfold json_streq, tree_streq, tree_has_type. rewrite (bind_ret_eq _ _ _ _ _ Hl).
  cbn [j_type to_json]. case_bool_decide as Et; [|done]. cbn [negb andb].
  destruct (values_ok_scalar _ _ Hv Et) as [v Hvv]; [auto|]. unfold value_buffer.
  cbn [j_value to_json]. rewrite Hvv. unfold mbind, M_bind, mret, M_ret, streq. f_equal. apply bool_decide_ext. split; [by intros ->|by intros [=]].
Qed.

Lemma observe_doc str m p o : doc_heap m p o -> observe str p m = Ret (tree_observation str o) m.
Proof.
  intros Hd. pose proof (api_string _ _ _ Hd) as Hs. pose proof (api_real _ _ _ Hd) as Hr.
  pose proof (api_is_real _ _ _ Hd) as Hir. pose proof (api_items _ _ _ Hd) as Hi.
  destruct o as [t|]; [|by simpl in Hd; subst p].
  pose proof (doc_load _ _ _ Hd) as (_ & l & lf & rt & pr & Hp & Hl). unfold observe.
  assert (json_type_of p m = Ret (d_type (label t)) m) as Hty
    by (subst p; unfold json_type_of; by rewrite (bind_ret_eq _ _ _ _ _ Hl)).
  assert (json_name p m = Ret (d_name (label t)) m) as Hnm
    by (subst p; unfold json_name; by rewrite (bind_ret_eq _ _ _ _ _ Hl)).
  rewrite (bind_ret_eq _ _ _ _ _ Hty), (bind_ret_eq _ _ _ _ _ Hnm), (bind_ret_eq _ _ _ _ _ Hs).
  unfold json_number, json_integer.
  rewrite !(bind_ret_eq _ _ _ _ _ (convert_doc _ _ _ _ _ Hd)), (bind_ret_eq _ _ _ _ _ Hr).
  rewrite (bind_ret_eq _ _ _ _ _ (boolean_doc _ _ _ Hd)), (bind_ret_eq _ _ _ _ _ (is_integer_doc _ _ _ Hd)).
  rewrite (bind_ret_eq _ _ _ _ _ Hir), (bind_ret_eq _ _ _ _ _ Hi).
  unfold json_is_empty, json_is_object, json_is_array, json_is_string, json_is_number, json_is_boolean, json_is_null.
  rewrite !(bind_ret_eq _ _ _ _ _ (api_type _ _ _ _ Hd)). by rewrite (bind_ret_eq _ _ _ _ _ (streq_doc _ _ _ _ Hd)).
Qed.

Lemma foreach_stored {S} `{Lens S jmem} (func : ptr -> M S unit) :
  (forall p s u s', func p s = Ret u s' -> nodes (view s') = nodes (view s)) ->
  forall g m p t s, stored g m p t -> wf_elem false t = true -> view s = m ->
  exists ps, Forall2 (fun p t' => doc_heap m p (Some t')) ps (preorder t) /\
    json_foreach func p s = visit func ps s.
Proof.
  intros Hf g m p t s (lt & -> & <- & Hr) Hw Hv. exists (map (fun t => Some (tloc t)) (preorder lt)).
  assert (reads (nodes m) (fcells NULL [lt] NULL)) as Hrd
    by (cbn [fcells head_or]; rewrite app_nil_r; by eapply rep_reads).
  apply wf_values_ok in Hw. split.
  - pose proof (preorder_docs m NULL [lt] Hrd) as Hp. cbn [map concat forallb] in Hp.
    rewrite !app_nil_r, andb_true_r in Hp. by apply Hp.
  - unfold json_foreach. pose proof (foreach_visit func Hf (chain_fuel (view s)) NULL [lt] s) as Hfv.
    cbn [head_or map concat] in Hfv. rewrite app_nil_r in Hfv. apply Hfv; [|by rewrite Hv].
    rewrite Hv. apply rep_size in Hr. rewrite length_cells in Hr. unfold chain_fuel. simpl. lia.
Qed.

Lemma cstr_snoc s : no_nul s -> cstr (s ++ [NUL]) = s.
Proof.
  induction 1 as [|c s Hc _ IH]; [done|]. simpl. destruct (Ascii.eqb_spec c NUL); [done|]. by rewrite IH.
Qed.

Lemma encoded_no_nul s : no_nul s -> no_nul (encoded s).
Proof.
  intros Hs. unfold encoded. constructor; [done|]. apply Forall_app. split; [|by constructor].
  induction Hs as [|c s Hc _ IH]; simpl; [constructor|]. apply Forall_app. split; [|done].
  unfold encode_char. repeat case_match; repeat constructor; done.
Qed.

Lemma length_encoded s : (length s + 2 <= length (encoded s) <= 2 * length s + 2)%nat.
Proof.
  unfold encoded. simpl. rewrite length_app. simpl.
  assert (length s <= length (encode_loop s) <= 2 * length s)%nat; [|lia].
  induction s as [|c s IH]; simpl; [lia|]. rewrite length_app. pose proof (encode_char_length c). lia.
Qed.

(** json_print on a chain of siblings. *)
Definition printable_type (t : jtree) : Prop := d_type (label t) <> JSON_NONE.

Lemma print_chain fuel : forall level par lts m,
  (forest_size lts < fuel)%nat -> reads (nodes m) (fcells par lts NULL) ->
  Forall (fun t => Forall printable_type (preorder t)) (map erase lts) ->
  print fuel (head_or lts NULL) level m = Ret (concat (map (tree_print level) (map erase lts))) m.
Proof.
  induction fuel as [|fuel IH]; intros level par lts m Hf Hr Ht; [lia|].
  destruct lts as [|[[l d] ks] lts]; [done|]. cbn [map erase tree_map] in Ht |- *.
  inversion_clear Ht as [|? ? Hh Htl]. rewrite preorder_node in Hh. inversion_clear Hh as [|? ? Hd Hks].
  pose proof (chain_cons_inv _ _ _ _ _ _ Hr) as (Hl & Hr' & Hc).
  rewrite cells_node in Hc. apply (reads_app _ [_]) in Hc as [_ Hrk].
  cbn [sum_list_with tree_size] in Hf. cbn [head_or tloc label fst print].
  rewrite (bind_ret_eq _ _ _ _ _ Hl).
  assert (exists ty, json_type_name (d_type d) = Some ty) as [ty Hty]
    by (unfold printable_type in Hd; simpl in Hd; destruct (d_type d); try done; by eexists).
  unfold print_line at 1. cbn [j_type j_left j_right j_name j_value to_json]. rewrite Hty.
  assert (Forall (fun t => Forall printable_type (preorder t)) (map erase ks)) as Hks'.
  { clear -Hks. change (map (tree_map snd) ks) with (map erase ks) in Hks.
    induction (map erase ks) as [|k ks' IH']; [done|]. cbn [map concat] in Hks.
    apply Forall_app in Hks as [? ?]. constructor; auto. }
  erewrite bind_ret_eq by reflexivity.
  rewrite (bind_ret_eq _ _ _ _ _ (IH (S level) (Some l) ks m ltac:(lia) Hrk Hks')).
  rewrite (bind_ret_eq _ _ _ _ _ (IH level par lts m ltac:(lia) Hr' Htl)).
  unfold mret, M_ret. f_equal. cbn [concat tree_print snd]. rewrite Hty. cbn [default].
  change (map (tree_map snd) ks) with (map erase ks). by rewrite <- !app_assoc.
Qed.

Lemma wf_printable t : forall obj, wf_elem obj t = true -> Forall printable_type (preorder t).
Proof.
  induction t as [d ks IH] using tree_nested_ind. intros obj Hw. rewrite preorder_node.
  cbn [wf_elem] in Hw. apply andb_true_iff in Hw as [_ Hw]. constructor.
  { unfold printable_type. simpl. by destruct (d_type d). }
  assert (empty_group (is_object d) ks = true \/ forallb (wf_elem (is_object d)) ks = true) as [He|Hk].
  { destruct (d_type d); try done; apply andb_true_iff in Hw as [_ Hw];
      try (apply bool_decide_eq_true in Hw as ->; by right);
      apply orb_true_iff in Hw as [Hw|Hw]; auto; apply andb_true_iff in Hw as [_ Hw]; auto. }
  - destruct ks as [|[dk [|]] [|]]; try done. simpl in He. apply andb_true_iff in He as [[He _]%andb_true_iff _].
    simpl. constructor; [|done]. unfold printable_type. simpl. unfold is_empty in He.
    apply bool_decide_eq_true in He. by rewrite He.
  - clear Hw. induction IH as [|k ks Hk1 _ IH']; [constructor|]. simpl in *.
    apply andb_true_iff in Hk as [Hk2 Hk3]. apply Forall_app. split; [by eapply Hk1|by apply IH'].
Qed.

Lemma print_stored base m p t : stored base m p t -> wf_elem false t = true ->
  json_print p m = Ret (tree_print 0 t) m.
Proof.
  intros (lt & -> & Ht & Hr) Hw.
  pose proof (print_chain (chain_fuel m) 0 NULL [lt] m) as Hp. cbn [head_or map concat] in Hp.
  rewrite app_nil_r, Ht in Hp. unfold json_print. apply Hp.
  - apply rep_size in Hr. rewrite length_cells in Hr. unfold chain_fuel. simpl. lia.
  - cbn [fcells head_or]. rewrite app_nil_r. by eapply rep_reads.
  - constructor; [|done]. by eapply wf_printable.
Qed.

(** ** The theorems *)

(** A document used by the witnesses below. *)
Definition sample : list ascii := qt "{'a':[1,true],'b':'x'}".

(** C1. json_parse implements the abstract parser: when memory does not run out
    and no closing bracket is followed directly by an opening one, it returns
    normally; it returns a node exactly when the text denotes a document, the heap
    then holds that document beside what it held before, and on a malformed text
    it returns NULL and leaves the heap as it was. *)
Theorem json_parse_refines text m :
  reopen_free text = true ->
  exists p m', json_parse never text m = Ret p m' /\
    match spec_parse text with
    | Some t => stored (nodes m) m' p t
    | None => p = NULL /\ nodes m' = nodes m
    end.
Proof.
  intros Hrf. destruct (parse_cases never text m) as (p & m' & g & He & _ & Hg & Hp).
  exists p, m'. split; [done|]. rewrite Hg in Hp by done. destruct p as [l|].
  - destruct Hp as (t & Hst & Hsp). by rewrite (spec_full_parse _ _ _ Hsp).
  - destruct Hp as [Hn [Ho|Hsp]]; [by apply never_between in Ho|]. by rewrite (spec_none_parse _ Hsp).
Qed.

Lemma json_parse_refines_witness :
  reopen_free sample = true /\ is_Some (spec_parse sample) /\
  exists p m', json_parse never sample empty_mem = Ret p m' /\
    match spec_parse sample with
    | Some t => stored (nodes empty_mem) m' p t
    | None => p = NULL /\ nodes m' = nodes empty_mem
    end.
Proof.
  split; [vm_compute; reflexivity|]. split; [vm_compute; eauto|].
  apply json_parse_refines. vm_compute. reflexivity.
Defined.

(** C2. json_parse is safe on every text with at most INT_MAX quotes and under every
    schedule of allocation failures: it always returns (no undefined behaviour, and the
    loops end within their bounds), never touches the nodes that were live before, returns
    a node only for a text that denotes a document, and returns NULL only when an
    allocation failed or the text is malformed. The counters of quotes of json_scan and
    json_copy, which are int, do not overflow wherever they are called on the text; more
    quotes in one token overflow them (lemma scan_overflow). *)
Theorem json_parse_safe oom text m :
  Z.of_nat (quotes_in text) <= INT_MAX ->
  (exists p m', json_parse oom text m = Ret p m' /\ nodes m ⊆ nodes m' /\
    match p with
    | Some _ => is_Some (spec_parse text)
    | None => oom_between oom m m' \/ spec_parse text = None
    end) /\
  (forall left, json_scan_int text left = Some (json_scan text left)) /\
  (forall left size, json_copy_int text left size = Some (json_copy text left size)).
Proof.
  intros Hq. split; [|split; intros; [by apply json_scan_int_eq|by apply json_copy_int_eq]].
  destruct (parse_cases oom text m) as (p & m' & g & He & Hs & _ & Hp).
  exists p, m'. split; [done|]. destruct p as [l|].
  - destruct Hp as (t & (lt & _ & _ & Hr) & Hsp). split; [|by rewrite (spec_full_parse _ _ _ Hsp)].
    etrans; [exact Hs|]. by eapply rep_frame_subseteq.
  - destruct Hp as [<- [Ho|Hsp]]; auto using spec_none_parse.
Qed.

Lemma json_parse_safe_witness :
  exists p m', json_parse never sample empty_mem = Ret p m' /\ nodes empty_mem ⊆ nodes m' /\
    match p with
    | Some _ => is_Some (spec_parse sample)
    | None => oom_between never empty_mem m' \/ spec_parse sample = None
    end.
Proof. apply json_parse_safe. vm_compute. discriminate. Defined.

(** C3. Parsing then freeing gives back all memory: for every text in which no
    closing bracket is directly followed by an opening one and every allocation
    schedule, a failed parse leaves the heap as it was, and json_free after a
    successful one restores it. *)
Theorem json_parse_free oom text m :
  reopen_free text = true ->
  exists p m' m'', json_parse oom text m = Ret p m' /\
    json_free (free_fuel m') p m' = Ret tt m'' /\ nodes m'' = nodes m.
Proof.
  intros Hrf. destruct (parse_cases oom text m) as (p & m' & g & He & _ & Hg & Hp).
  rewrite Hg in Hp by done. destruct p as [l|].
  - destruct Hp as (t & Hst & _). destruct (free_stored _ _ _ _ Hst) as (m'' & Hf & Hn).
    by exists (Some l), m', m''.
  - destruct Hp as [Hn _]. by exists NULL, m', m'.
Qed.

Lemma json_parse_free_witness :
  reopen_free sample = true /\
  exists p m' m'', json_parse (fun n => (n =? 3)%nat) sample empty_mem = Ret p m' /\
    json_free (free_fuel m') p m' = Ret tt m'' /\ nodes m'' = nodes empty_mem.
Proof.
  split; [vm_compute; reflexivity|]. apply json_parse_free. vm_compute. reflexivity.
Defined.

(** C4. The exact cost of reopening: when a text is accepted, freeing its document
    leaves as many unreachable nodes as the abstract parser says it dropped. *)
Theorem json_parse_leak oom text m l m' :
  json_parse oom text m = Ret (Some l) m' ->
  exists t k m'', spec_parse_full text = Some (t, k) /\
    json_free (free_fuel m') (Some l) m' = Ret tt m'' /\
    nodes m ⊆ nodes m'' /\ size (nodes m'') = (size (nodes m) + k)%nat.
Proof.
  intros He. destruct (parse_some _ _ _ _ _ _ He eq_refl) as (g & t & Hst & Hs & _ & Hsp & _).
  destruct (free_stored _ _ _ _ Hst) as (m'' & Hf & Hn). eexists t, _, m''.
  split; [done|]. split; [done|]. rewrite Hn. split; [done|].
  pose proof (map_subseteq_size _ _ Hs). lia.
Qed.

(** The text [1][2] is accepted and loses the node of the 1. *)
Lemma json_parse_leak_witness :
  exists l m', json_parse never (lit "[1][2]") empty_mem = Ret (Some l) m' /\
    spec_parse_full (lit "[1][2]") = Some (Node (JData JSON_ARRAY None None)
      [Node (JData JSON_NUMBER None (Some (lit "2"))) []], 1%nat) /\
    exists t k m'', spec_parse_full (lit "[1][2]") = Some (t, k) /\
      json_free (free_fuel m') (Some l) m' = Ret tt m'' /\
      nodes empty_mem ⊆ nodes m'' /\ size (nodes m'') = (size (nodes empty_mem) + k)%nat.
Proof.
  eexists _, _. split; [vm_compute; reflexivity|]. split; [vm_compute; reflexivity|].
  eapply (json_parse_leak never). vm_compute. reflexivity.
Defined.

(** C5. Every parsed document is well formed: names exactly on the members of
    objects, values exactly on scalars, and an empty container holds one node of
    type JSON_EMPTY. *)
Theorem json_parse_well_formed oom text m l m' :
  json_parse oom text m = Ret (Some l) m' ->
  exists g t, stored g m' (Some l) t /\ spec_parse text = Some t /\ wf_elem false t = true.
Proof.
  intros He. destruct (parse_some _ _ _ _ _ _ He eq_refl) as (g & t & Hst & _ & _ & Hsp & _).
  exists g, t. apply spec_full_parse in Hsp. split; [done|]. split; [done|]. by eapply spec_parse_wf_elem.
Qed.

Lemma json_parse_well_formed_witness :
  exists l m', json_parse never sample empty_mem = Ret (Some l) m' /\
  exists g t, stored g m' (Some l) t /\ spec_parse sample = Some t /\ wf_elem false t = true.
Proof.
  eexists _, _. split; [vm_compute; reflexivity|].
  eapply (json_parse_well_formed never _ empty_mem). vm_compute. reflexivity.
Defined.

(** C6. Printing and parsing: a well-formed document is read back by json_parse as the
    same document, with nothing lost, when it is printed with strings and names through
    json_encode and the other scalars as they are. The document is [printable]: strings
    and names have no NUL; a number is any text without white space, quotes, backslashes
    and separators that strtod reads to its end, with sign, point, exponent or in base 16;
    booleans and null are their words; and the node of an empty container has no name. *)
Theorem json_render_parse t m :
  wf_elem false t = true -> printable t = true ->
  exists p m', json_parse never (render t) m = Ret p m' /\ stored (nodes m) m' p t.
Proof.
  intros Hw Hp. pose proof (render_parse _ Hw Hp) as Hsp.
  destruct (parse_cases never (render t) m) as (p & m' & g & He & Hs & _ & Hc).
  exists p, m'. split; [done|]. destruct p as [l|].
  - destruct Hc as (t' & Hst & Hsp'). rewrite Hsp in Hsp'. simplify_eq.
    rewrite (map_subseteq_size_eq _ _ Hs) by lia. done.
  - destruct Hc as [_ [Ho|Hc]]; [by apply never_between in Ho|congruence].
Qed.

Definition sample_tree : jtree :=
  Node (JData JSON_OBJECT None None)
    [Node (JData JSON_ARRAY (Some (lit "a/b")) None)
       [Node (JData JSON_NUMBER None (Some (lit "42"))) []; Node (JData JSON_NUMBER None (Some (lit "-1.5e+3"))) [];
        Node (JData JSON_NUMBER None (Some (lit "0x1F"))) []; Node (JData JSON_NULL None (Some (lit "null"))) []];
     Node (JData JSON_STRING (Some (lit "")) (Some [dquote; backslash; "010"%char])) []].

Lemma json_render_parse_witness :
  wf_elem false sample_tree = true /\ printable sample_tree = true /\
  exists p m', json_parse never (render sample_tree) empty_mem = Ret p m' /\
    stored (nodes empty_mem) m' p sample_tree.
Proof.
  split; [vm_compute; reflexivity|]. split; [vm_compute; reflexivity|].
  apply json_render_parse; vm_compute; reflexivity.
Defined.

(** C7. json_encode of a string of n characters writes a NUL-terminated string of
    at least n + 2 and at most 2n + 2 characters and returns its length; placed
    anywhere in a text before a token or the end, the scanner delimits exactly
    that string and the parser reads the original back from it, as a value and as
    a member name. *)
Theorem json_encode_correct src before rest :
  no_nul src -> sep_next rest ->
  exists buf n, json_encode src = (buf, n) /\ length buf = S n /\ cstr buf = take n buf /\
    (length src + 2 <= n <= 2 * length src + 2)%nat /\
    let text := before ++ cstr buf ++ rest in
    let left := length before in
    json_scan text left = Some (left, (left + n - 1)%nat, (left + n)%nat) /\
    value_of text left (left + n - 1) = Some (JSON_STRING, src) /\
    name_of text left (left + n - 1) = Some src.
Proof.
  intros Hs Hr. exists (encoded src ++ [NUL]), (length (encoded src)). split; [done|].
  rewrite length_app, Nat.add_1_r, take_app_length. split; [done|].
  rewrite cstr_snoc by by apply encoded_no_nul. split; [done|]. split; [apply length_encoded|].
  assert (at_pos (before ++ encoded src ++ rest) (length before) (encoded src) rest) as Hat
    by (unfold at_pos; by rewrite drop_app_length).
  split; [by eapply scan_encoded|]. split; [by eapply value_encoded|by eapply name_encoded].
Qed.

Lemma json_encode_correct_witness :
  no_nul (lit "a/b") /\ sep_next (lit "]") /\
  exists buf n, json_encode (lit "a/b") = (buf, n) /\ length buf = S n /\ cstr buf = take n buf /\
    (length (lit "a/b") + 2 <= n <= 2 * length (lit "a/b") + 2)%nat /\
    let text := lit "[" ++ cstr buf ++ lit "]" in
    let left := length (lit "[") in
    json_scan text left = Some (left, (left + n - 1)%nat, (left + n)%nat) /\
    value_of text left (left + n - 1) = Some (JSON_STRING, lit "a/b") /\
    name_of text left (left + n - 1) = Some (lit "a/b").
Proof.
  assert (no_nul (lit "a/b")) as H by (repeat constructor; discriminate).
  split; [exact H|]. split; [reflexivity|]. apply json_encode_correct; [exact H|reflexivity].
Defined.

(** C8. Reading a parsed document. The client goes from the root along any path of calls
    of json_node, json_item, json_child, json_parent and json_next, each on the result of
    the one before, and queries the node it gets with all accessors (json_type, json_name,
    json_string, the conversions, the eight json_is functions on types and integers,
    json_is_real, json_items, and json_streq with any string). Every pointer it gets is
    the address of the node the path leads to in the document, NULL where the document
    has none, the queries say what that node has, and no memory outside the document is
    read. *)
Theorem json_query_correct oom text m l m' :
  json_parse oom text m = Ret (Some l) m' ->
  exists g lt, l = tloc lt /\ rep (cells NULL NULL lt) g (nodes m') /\ spec_parse text = Some (erase lt) /\
    forall path str,
      let here := current (moves id path [(erase lt, [])]) in
      let p := address (moves snd path [(lt, [])]) in
      walk_ptr path (Some l) m' = Ret p m' /\ (p = NULL <-> here = None) /\
      observe str p m' = Ret (tree_observation str here) m'.
Proof.
  intros He. destruct (parse_some _ _ _ _ _ _ He eq_refl) as (g & t & (lt & Hl & <- & Hrep) & _ & _ & Hsp & _). injection Hl as ->.
  apply spec_full_parse in Hsp. exists g, lt. split; [done|]. split; [done|]. split; [done|]. intros path str here p.
  assert (placed (nodes m') [(lt, [])]) as Hp.
  { cbn [placed fcells address map forallb]. rewrite app_nil_r, andb_true_r. split; [by eapply rep_reads|]. split; [|done].
    eapply wf_values_ok. by eapply spec_parse_wf_elem. }
  destruct (walk_placed path m' [(lt, [])] Hp) as [Hw Hq]. split; [exact Hw|]. pose proof (placed_doc _ _ Hq) as Hd.
  rewrite moves_erase in Hd. split; [|by apply observe_doc]. unfold here, p.
  change (erase_cursor [(lt, [])]) with [(erase lt, [] : list jtree)] in Hd.
  destruct (current (moves id path [(erase lt, [])])); [|done]. apply doc_load in Hd as (_ & l' & _ & _ & _ & -> & _). done.
Qed.

(** From the second item of a, up to a, and on to its next sibling, the string b. *)
Lemma json_query_correct_witness :
  exists l m', json_parse never sample empty_mem = Ret (Some l) m' /\
  exists r, walk_ptr [Member (lit "a"); Index 1; Parent; Next] (Some l) m' = Ret r m' /\
    observe (lit "x") r m' = Ret (tree_observation (lit "x") (Some (Node (JData JSON_STRING (Some (lit "b")) (Some (lit "x"))) []))) m' /\
    o_streq (tree_observation (lit "x") (Some (Node (JData JSON_STRING (Some (lit "b")) (Some (lit "x"))) []))) = true.
Proof.
  eexists _, _. split; [vm_compute; reflexivity|].
  edestruct (json_query_correct never sample empty_mem) as (g & lt & _ & _ & Hs & H); [vm_compute; reflexivity|].
  destruct (H [Member (lit "a"); Index 1; Parent; Next] (lit "x")) as (H1 & _ & H2).
  assert (erase lt = default (erase lt) (spec_parse sample)) as Ht by (by rewrite Hs).
  eexists. split; [exact H1|]. rewrite H2, Ht. split; vm_compute; reflexivity.
Defined.

(** C9. json_foreach on a parsed document calls the function once on every node,
    in document order (a node, its descendants, its next siblings), whatever the
    function does to the rest of the program state, as long as it leaves the
    document alone. *)
Theorem json_foreach_preorder {S} `{Lens S jmem} (func : ptr -> M S unit) oom text m l m' s :
  (forall p s u s', func p s = Ret u s' -> nodes (view s') = nodes (view s)) ->
  json_parse oom text m = Ret (Some l) m' -> view s = m' ->
  exists t ps, spec_parse text = Some t /\
    Forall2 (fun p t' => doc_heap m' p (Some t')) ps (preorder t) /\
    json_foreach func (Some l) s = visit func ps s.
Proof.
  intros Hf He Hv. destruct (parse_some _ _ _ _ _ _ He eq_refl) as (g & t & Hst & _ & _ & Hsp & Hd).
  apply spec_full_parse in Hsp. exists t.
  destruct (foreach_stored func Hf _ _ _ _ s Hst (spec_parse_wf_elem _ _ Hsp) Hv) as (ps & Hps & Hfe).
  by exists ps.
Qed.

Definition count_nodes (p : ptr) : M (jmem * nat) unit := fun s => Ret tt (fst s, S (snd s)).

#[global] Program Instance lens_fst : Lens (jmem * nat) jmem := {| view := fst; upd m s := (m, snd s) |}.
Solve All Obligations with by intros; repeat match goal with s : (_ * _)%type |- _ => destruct s end.

Lemma json_foreach_preorder_witness :
  exists l m', json_parse never sample empty_mem = Ret (Some l) m' /\
  exists t ps, spec_parse sample = Some t /\
    Forall2 (fun p t' => doc_heap m' p (Some t')) ps (preorder t) /\
    json_foreach count_nodes (Some l) (m', 0%nat) = visit count_nodes ps (m', 0%nat).
Proof.
  eexists _, _. split; [vm_compute; reflexivity|].
  eapply (json_foreach_preorder count_nodes never _ empty_mem).
  - intros p [m1 k] u [m2 k2] E. unfold count_nodes in E. simpl in *. congruence.
  - vm_compute. reflexivity.
  - reflexivity.
Defined.

(** json_print writes one line per node of a parsed document, in document
    order, indented by the depth, with the type, name and value of the node. *)
Theorem json_print_correct oom text m l m' :
  json_parse oom text m = Ret (Some l) m' ->
  exists t, spec_parse text = Some t /\ json_print (Some l) m' = Ret (tree_print 0 t) m'.
Proof.
  intros He. destruct (parse_some _ _ _ _ _ _ He eq_refl) as (g & t & Hst & _ & _ & Hsp & _).
  apply spec_full_parse in Hsp. exists t. split; [done|].
  eapply print_stored; [exact Hst|]. by eapply spec_parse_wf_elem.
Qed.

Lemma json_print_correct_witness :
  exists l m', json_parse never sample empty_mem = Ret (Some l) m' /\
  exists t, spec_parse sample = Some t /\ json_print (Some l) m' = Ret (tree_print 0 t) m'.
Proof.
  eexists _, _. split; [vm_compute; reflexivity|].
  eapply (json_print_correct never _ empty_mem). vm_compute. reflexivity.
Defined.
