(* ===== verification/LinkedList.v ===== *)
(** * Singly linked lists with a running size

    switch.c has three list types (port values, ports, switches) with the same
    three routines: a constructor that mallocs a head with size 0, a push that
    fills the head when its size is 0 and appends a node otherwise, and walks
    along [next]. They are instances of the routines below, which are generic in
    the payload. The contents of malloc'ed memory are arbitrary: payload [indet]
    stands for an indeterminate one, [junk_size] and [junk_next] for the two
    other fields. *)

From S2P Require Import Prelude HeapRep.

Record lnode (A : Type) := LNode { n_data : A; n_size : Z; n_next : ptr }.
Arguments LNode {A} n_data n_size n_next.
Arguments n_data {A} l.
Arguments n_size {A} l.
Arguments n_next {A} l.

Record lmem (A : Type) := LMem { lcells : gmap positive (lnode A); lcalls : nat }.
Arguments LMem {A} lcells lcalls.
Arguments lcells {A} l.
Arguments lcalls {A} l.

Section LinkedList.
Context {A : Type} (indet : A) (junk_size : Z) (junk_next : ptr) (oom : nat -> bool).

Definition put_data (a : A) (n : lnode A) : lnode A := LNode a (n_size n) (n_next n).
Definition put_size (z : Z) (n : lnode A) : lnode A := LNode (n_data n) z (n_next n).
Definition put_next (p : ptr) (n : lnode A) : lnode A := LNode (n_data n) (n_size n) p.

Definition lload (p : ptr) : M (lmem A) (lnode A) := fun m =>
  match p with
  | None => Undef
  | Some l => match lcells m !! l with Some n => Ret n m | None => Undef end
  end.

Definition lstore (p : ptr) (f : lnode A -> lnode A) : M (lmem A) unit := fun m =>
  match p with
  | None => Undef
  | Some l =>
      match lcells m !! l with
      | Some n => Ret tt (LMem (<[l := f n]> (lcells m)) (lcalls m))
      | None => Undef
      end
  end.

Definition lfree (p : ptr) : M (lmem A) unit := fun m =>
  match p with
  | None => Ret tt m
  | Some l =>
      match lcells m !! l with
      | Some _ => Ret tt (LMem (delete l (lcells m)) (lcalls m))
      | None => Undef
      end
  end.

Definition lmalloc : M (lmem A) ptr := fun m =>
  if oom (lcalls m) then Ret NULL (LMem (lcells m) (S (lcalls m)))
  else
    let l := fresh (dom (lcells m)) in
    Ret (Some l) (LMem (<[l := LNode indet junk_size junk_next]> (lcells m)) (S (lcalls m))).

(** switch_create_..._list *)
Definition list_create : M (lmem A) ptr :=
  p ← lmalloc;
  match p with
  | None => mret NULL
  | Some _ =>
      _ ← lstore p (put_size 0);
      _ ← lstore p (put_next NULL);
      mret p
  end.

(** while (current->next != NULL) current = current->next; *)
Fixpoint find_last (fuel : nat) (current : ptr) : M (lmem A) ptr :=
  match fuel with
  | O => no_fuel
  | S fuel =>
      n ← lload current;
      match n_next n with
      | None => mret current
      | Some _ => find_last fuel (n_next n)
      end
  end.

Definition walk_fuel (m : lmem A) : nat := S (size (lcells m)).

(** ..._push *)
Definition list_push (head : ptr) (data : A) : M (lmem A) unit :=
  n ← lload head;
  if n_size n =? 0 then
    _ ← lstore head (put_data data);
    _ ← lstore head (put_next NULL);
    lstore head (put_size 1)
  else
    m ← get;
    current ← find_last (walk_fuel m) head;
    p ← lmalloc;
    _ ← lstore current (put_next p);
    c ← lload current;
    _ ← lstore p (put_size (wrap_u64 (n_size c + 1)));
    _ ← lstore p (put_data data);
    lstore p (put_next NULL).

(** ** Representation *)
Abbreviation lchain := (list (positive * (A * Z))).

Definition chain_head (xs : lchain) (last : ptr) : ptr :=
  match xs with (l, _) :: _ => Some l | [] => last end.

Fixpoint chain_cells (xs : lchain) (last : ptr) : list (positive * lnode A) :=
  match xs with
  | [] => []
  | (l, (a, s)) :: xs' => (l, LNode a s (chain_head xs' last)) :: chain_cells xs' last
  end.

(** The chain holds the payloads [data]: a head of size 0 for no payload. *)
Definition chain_data (xs : lchain) (data : list A) : Prop :=
  match data with
  | [] => exists l, xs = [(l, (indet, 0))]
  | _ :: _ => map (fun x => fst (snd x)) xs = data /\
      match xs with (_, (_, s)) :: _ => s = 1 | [] => False end
  end.

Lemma chain_cells_app xs ys last :
  chain_cells (xs ++ ys) last = chain_cells xs (chain_head ys last) ++ chain_cells ys last.
Proof.
  induction xs as [|[l [a s]] xs IH]; simpl; [done|]. rewrite IH. by destruct xs as [|[? ?] ?].
Qed.

Lemma length_chain_cells xs last : length (chain_cells xs last) = length xs.
Proof. induction xs as [|[l [a s]] xs IH]; simpl; congruence. Qed.

Lemma lload_elem cs g m l n :
  rep cs g (lcells m) -> (l, n) ∈ cs -> lload (Some l) m = Ret n m.
Proof. intros Hr Hin. unfold lload. by rewrite (rep_elem _ _ _ _ _ Hr Hin). Qed.

Lemma lstore_head cs g m l n f :
  rep ((l, n) :: cs) g (lcells m) ->
  exists m', lstore (Some l) f m = Ret tt m' /\ rep ((l, f n) :: cs) g (lcells m') /\ lcalls m' = lcalls m.
Proof.
  intros Hr. unfold lstore. rewrite (rep_elem _ _ _ l n Hr ltac:(left)).
  eexists. split; [done|]. split; [by eapply rep_update|done].
Qed.

Lemma lfree_head cs g m l n :
  rep ((l, n) :: cs) g (lcells m) ->
  exists m', lfree (Some l) m = Ret tt m' /\ rep cs g (lcells m') /\ lcalls m' = lcalls m.
Proof.
  intros Hr. unfold lfree. rewrite (rep_elem _ _ _ l n Hr ltac:(left)).
  eexists. split; [done|]. split; [by eapply rep_free|done].
Qed.

Lemma lmalloc_ok cs g m :
  rep cs g (lcells m) -> oom (lcalls m) = false ->
  exists l m', lmalloc m = Ret (Some l) m' /\ lcalls m' = S (lcalls m) /\
    rep ((l, LNode indet junk_size junk_next) :: cs) g (lcells m').
Proof.
  intros Hr Ho. unfold lmalloc. rewrite Ho. eexists _, _. split; [done|]. split; [done|].
  apply rep_alloc; [done|]. apply not_elem_of_dom, is_fresh.
Qed.

Lemma find_last_chain xs l a s cs g m fuel :
  rep (chain_cells (xs ++ [(l, (a, s))]) NULL ++ cs) g (lcells m) -> (length xs < fuel)%nat ->
  find_last fuel (chain_head (xs ++ [(l, (a, s))]) NULL) m = Ret (Some l) m.
Proof.
  revert cs fuel. induction xs as [|[l0 [a0 s0]] xs IH]; intros cs fuel Hr Hf; (destruct fuel as [|fuel]; [simpl in Hf; lia|]).
  - simpl in *. by rewrite (bind_ret_eq _ _ _ _ _ (lload_elem _ _ _ _ _ Hr ltac:(left))).
  - simpl in *. rewrite (bind_ret_eq _ _ _ _ _ (lload_elem _ _ _ _ _ Hr ltac:(left))). simpl.
    assert (exists p, chain_head (xs ++ [(l, (a, s))]) NULL = Some p) as [p Hp]
      by (destruct xs as [|[? ?] ?]; by eexists).
    rewrite Hp, <- Hp. eapply (IH ((l0, _) :: cs)); [|lia].
    eapply rep_proper; [|done..|exact Hr]. solve_Permutation.
Qed.

(** list_create gives an empty list. *)
Lemma create_chain cs g m :
  rep cs g (lcells m) -> oom (lcalls m) = false ->
  exists xs m', list_create m = Ret (chain_head xs NULL) m' /\ lcalls m' = S (lcalls m) /\
    chain_data xs [] /\ xs <> [] /\ rep (chain_cells xs NULL ++ cs) g (lcells m').
Proof.
  intros Hr Ho. destruct (lmalloc_ok _ _ _ Hr Ho) as (l & m1 & He & Hc & Hr1).
  unfold list_create. rewrite (bind_ret_eq _ _ _ _ _ He).
  destruct (lstore_head _ _ _ _ _ (put_size 0) Hr1) as (m2 & He2 & Hr2 & Hc2).
  rewrite (bind_ret_eq _ _ _ _ _ He2).
  destruct (lstore_head _ _ _ _ _ (put_next NULL) Hr2) as (m3 & He3 & Hr3 & Hc3).
  rewrite (bind_ret_eq _ _ _ _ _ He3).
  exists [(l, (indet, 0))], m3. split; [done|]. split; [congruence|]. split; [by exists l|]. split; [done|].
  exact Hr3.
Qed.

Lemma push_chain_empty l cs g m data :
  rep (chain_cells [(l, (indet, 0))] NULL ++ cs) g (lcells m) ->
  exists m', list_push (Some l) data m = Ret tt m' /\ lcalls m' = lcalls m /\
    rep (chain_cells [(l, (data, 1))] NULL ++ cs) g (lcells m').
Proof.
  intros Hr. simpl in Hr. unfold list_push.
  rewrite (bind_ret_eq _ _ _ _ _ (lload_elem _ _ _ _ _ Hr ltac:(left))). simpl.
  destruct (lstore_head _ _ _ _ _ (put_data data) Hr) as (m1 & He1 & Hr1 & Hc1).
  rewrite (bind_ret_eq _ _ _ _ _ He1).
  destruct (lstore_head _ _ _ _ _ (put_next NULL) Hr1) as (m2 & He2 & Hr2 & Hc2).
  rewrite (bind_ret_eq _ _ _ _ _ He2).
  destruct (lstore_head _ _ _ _ _ (put_size 1) Hr2) as (m3 & He3 & Hr3 & Hc3).
  exists m3. split; [done|]. split; [congruence|]. exact Hr3.
Qed.

Lemma push_chain_append xs0 l a s h0 cs g m data :
  let xs := xs0 ++ [(l, (a, s))] in
  rep (chain_cells xs NULL ++ cs) g (lcells m) -> oom (lcalls m) = false ->
  match xs with (_, (_, z)) :: _ => z = h0 | [] => True end -> h0 <> 0 ->
  exists l' m', list_push (chain_head xs NULL) data m = Ret tt m' /\ lcalls m' = S (lcalls m) /\
    rep (chain_cells (xs ++ [(l', (data, wrap_u64 (s + 1)))]) NULL ++ cs) g (lcells m').
Proof.
  intros xs Hr Ho Hs Hne. unfold list_push.
  assert (exists n, (n_size n =? 0) = false /\ lload (chain_head xs NULL) m = Ret n m) as (n & Hn & Hl).
  { unfold xs in *. destruct xs0 as [|[l0 [a0 s0]] xs0]; simpl in *; eexists;
      (split; [|by eapply lload_elem; [exact Hr|left]]); simpl; lia. }
  rewrite (bind_ret_eq _ _ _ _ _ Hl), Hn. unfold mbind at 1, M_bind at 1, get.
  pose proof (rep_size _ _ _ Hr) as Hsz. rewrite length_app, length_chain_cells in Hsz.
  rewrite (bind_ret_eq _ _ _ _ _ (find_last_chain xs0 l a s cs g m (walk_fuel m) Hr
    ltac:(unfold walk_fuel, xs in *; rewrite length_app in *; simpl in *; lia))).
  destruct (lmalloc_ok _ _ _ Hr Ho) as (l' & m1 & He1 & Hc1 & Hr1).
  rewrite (bind_ret_eq _ _ _ _ _ He1). unfold xs in *. rewrite chain_cells_app in Hr1. simpl in Hr1.
  assert (rep ((l, LNode a s NULL) :: (l', LNode indet junk_size junk_next) ::
               chain_cells xs0 (Some l) ++ cs) g (lcells m1)) as Hr1'
    by (eapply rep_proper; [|done..|exact Hr1]; solve_Permutation).
  destruct (lstore_head _ _ _ _ _ (put_next (Some l')) Hr1') as (m2 & He2 & Hr2 & Hc2).
  rewrite (bind_ret_eq _ _ _ _ _ He2).
  rewrite (bind_ret_eq _ _ _ _ _ (lload_elem _ _ _ _ _ Hr2 ltac:(left))). simpl.
  rewrite (Permutation_swap _ _ (_ ++ _)) in Hr2.
  destruct (lstore_head _ _ _ _ _ (put_size (wrap_u64 (s + 1))) Hr2) as (m3 & He3 & Hr3 & Hc3).
  rewrite (bind_ret_eq _ _ _ _ _ He3).
  destruct (lstore_head _ _ _ _ _ (put_data data) Hr3) as (m4 & He4 & Hr4 & Hc4).
  rewrite (bind_ret_eq _ _ _ _ _ He4).
  destruct (lstore_head _ _ _ _ _ (put_next NULL) Hr4) as (m5 & He5 & Hr5 & Hc5).
  exists l', m5. split; [done|]. split; [congruence|].
  rewrite <- app_assoc, chain_cells_app. simpl.
  eapply rep_proper; [|done..|exact Hr5]. solve_Permutation.
Qed.

(** list_push appends one payload. *)
Lemma push_chain xs data cs g m a :
  chain_data xs data -> rep (chain_cells xs NULL ++ cs) g (lcells m) -> (forall i, oom i = false) ->
  exists xs' m', list_push (chain_head xs NULL) a m = Ret tt m' /\
    chain_head xs' NULL = chain_head xs NULL /\ chain_data xs' (data ++ [a]) /\
    rep (chain_cells xs' NULL ++ cs) g (lcells m').
Proof.
  intros Hd Hr Ho. destruct data as [|a0 data].
  - destruct Hd as [l ->]. destruct (push_chain_empty _ _ _ _ a Hr) as (m' & He & _ & Hr').
    exists [(l, (a, 1))], m'. done.
  - destruct Hd as [Hd Hs]. destruct xs as [|x xs] using rev_ind; [done|]. clear IHxs.
    destruct x as [l [b s]].
    destruct (push_chain_append xs l b s 1 cs g m a Hr (Ho _)) as (l' & m' & He & _ & Hr').
    { destruct xs as [|[? [? ?]] ?]; done. } { done. }
    exists ((xs ++ [(l, (b, s))]) ++ [(l', (a, wrap_u64 (s + 1)))]), m'.
    split; [done|]. split; [by destruct xs as [|[? ?] ?]|]. split; [|done].
    simpl. split; [|by destruct xs as [|[? [? ?]] ?]].
    rewrite map_app, Hd. done.
Qed.
End LinkedList.
