(* ===== verification/Utils.v ===== *)
(** * App/Client/utils.c

    Reading a file into a buffer (file_size, file_get_size, file_data, file_read)
    and the reinterpretation of a decimal numeral as a binary one
    (binaryToDecimal).

    The stdio calls act on a [stream], whose fields say what each call does; a
    path that fopen cannot open has none. The state counts the open handles. A
    buffer is a list of bytes, [None] for one that was never written. *)

From S2P Require Import Prelude CLib.

(** (size_t)-1 *)
Definition FILE_ERROR : Z := 2^64 - 1.

Record stream := Stream {
  contents : list ascii;
  seek_end_ok : bool;   (** fseek(file, 0, SEEK_END) succeeds *)
  tell_ok : bool;       (** ftell succeeds *)
  seek_set_ok : bool;   (** fseek(file, 0, SEEK_SET) succeeds *)
  read_short : nat }.   (** how many bytes fread fails to deliver *)

Record uio := UIO { handles : nat }.

(** ** Buffers *)
Abbreviation buffer := (list (option ascii)).

(** memcpy(buf + off, src, |src|) *)
Definition write_at (buf : buffer) (off : nat) (src : list ascii) : option buffer :=
  if (off + length src <=? length buf)%nat
  then Some (take off buf ++ (Some <$> src) ++ drop (off + length src) buf)
  else None.

Definition memcpy {S} (buf : buffer) (off : nat) (src : list ascii) : M S buffer :=
  match write_at buf off src with Some b => mret b | None => undef end.

(** The C string in a buffer: it must be written up to a NUL. *)
Fixpoint buffer_string (buf : buffer) : option (list ascii) :=
  match buf with
  | [] => None
  | None :: _ => None
  | Some c :: buf' => if Ascii.eqb c NUL then Some [] else cons c <$> buffer_string buf'
  end.

Section Files.
Context (fs : list ascii -> option stream) (malloc_ok : bool).

Definition fopen (path : list ascii) : M uio (option stream) := fun s =>
  match fs path with
  | Some f => Ret (Some f) (UIO (S (handles s)))
  | None => Ret None s
  end.

Definition fclose : M uio unit := fun s => Ret tt (UIO (Nat.pred (handles s))).

Definition file_size (f : stream) : Z :=
  if negb (seek_end_ok f) then FILE_ERROR
  else
    let size := if tell_ok f then Z.of_nat (length (contents f)) else -1 in
    if size =? -1 then FILE_ERROR
    else if negb (seek_set_ok f) then FILE_ERROR
    else wrap_u64 size.

Definition file_get_size (path : list ascii) : M uio Z :=
  f ← fopen path;
  match f with
  | None => mret FILE_ERROR
  | Some f => _ ← fclose; mret (file_size f)
  end.

Definition strlen_opt (s : option (list ascii)) : nat :=
  match s with Some s => length s | None => 0%nat end.

Definition file_data (path : list ascii) (prefix suffix : option (list ascii)) : M uio (option buffer) :=
  f ← fopen path;
  match f with
  | None => mret None
  | Some f =>
      let size := file_size f in
      if size =? FILE_ERROR then mret None
      else
        let size_prefix := strlen_opt prefix in
        let size_suffix := strlen_opt suffix in
        if negb malloc_ok then mret None
        else
          let total := wrap_u64 (size + Z.of_nat size_prefix + Z.of_nat size_suffix + 1) in
          let str : buffer := replicate (Z.to_nat total) None in
          let got := take (length (contents f) - read_short f) (contents f) in
          str ← memcpy str size_prefix (take (Z.to_nat size) got);
          if negb (Z.of_nat (length (take (Z.to_nat size) got)) =? size) then
            _ ← fclose; mret None
          else
            str ← (if (0 <? size_prefix)%nat then memcpy str 0 (default [] prefix) else mret str);
            str ← (if (0 <? size_suffix)%nat then memcpy str (Z.to_nat size) (default [] suffix) else mret str);
            str ← memcpy str (Z.to_nat (size + Z.of_nat size_prefix + Z.of_nat size_suffix)) [NUL];
            _ ← fclose;
            mret (Some str)
  end.

Definition file_read (path : list ascii) : M uio (option buffer) := file_data path None None.
End Files.

(** ** binaryToDecimal

    [None] when an int operation overflows. *)
Definition int_op (z : Z) : option Z := if in_int z then Some z else None.

Fixpoint binary_loop (fuel : nat) (temp dec_value base : Z) : option (option Z) :=
  match fuel with
  | O => None
  | S fuel =>
      if temp =? 0 then Some (Some dec_value)
      else
        let last_digit := Z.rem temp 10 in
        let temp := Z.quot temp 10 in
        match int_op (last_digit * base) with
        | None => Some None
        | Some d =>
            match int_op (dec_value + d) with
            | None => Some None
            | Some dec_value =>
                match int_op (base * 2) with
                | None => Some None
                | Some base => binary_loop fuel temp dec_value base
                end
            end
        end
  end.

(** An int has at most ten decimal digits. *)
Definition binary_fuel : nat := 11.

(** The outer option is the fuel, the inner one the overflow. *)
Definition binaryToDecimal (n : Z) : option (option Z) := binary_loop binary_fuel n 0 1.

(** ** Lemmas *)
Lemma write_at_id buf off src b :
  write_at buf off src = Some b -> length b = length buf.
Proof.
  unfold write_at. destruct (Nat.leb_spec (off + length src) (length buf)); [|done].
  intros [= <-]. rewrite !length_app, length_take, length_fmap, length_drop. lia.
Qed.

Lemma buffer_string_full s rest :
  buffer_string ((Some <$> s) ++ Some NUL :: rest) = Some (cstr s).
Proof.
  induction s as [|c s IH]; [done|]. rewrite fmap_cons. cbn [app buffer_string cstr].
  destruct (Ascii.eqb_spec c NUL); [done|]. by rewrite IH.
Qed.

(** ** Correctness of binaryToDecimal *)
Definition loop_bound (k : nat) (temp dec base : Z) : Prop :=
  Z.abs temp < 10 ^ Z.of_nat k /\ base = 2 ^ (10 - Z.of_nat k) /\ (k <= 10)%nat /\
  Z.abs dec <= 9 * (base - 1).

Lemma binary_loop_bounds k temp dec base :
  loop_bound k temp dec base ->
  exists v, binary_loop (S k) temp dec base = Some (Some v) /\ Z.abs v <= 9 * (2 ^ 10 - 1).
Proof.
  revert temp dec base. induction k as [|k IH]; intros temp dec base (Ht & Hb & Hk & Hd).
  { simpl in Ht. assert (temp = 0) as -> by lia. exists dec. split; [done|].
    rewrite Hb in Hd. simpl in Hd. lia. }
  assert (0 < base <= 2 ^ 9) as Hbase.
  { rewrite Hb. split; [apply Z.pow_pos_nonneg; lia|]. apply Z.pow_le_mono_r; lia. }
  assert (base * 2 = 2 ^ (10 - Z.of_nat k)) as Hb2.
  { rewrite Hb, Z.mul_comm, <- Z.pow_succ_r by lia. f_equal. lia. }
  remember (S k) as k' eqn:Ek. simpl. subst k'.
  destruct (Z.eqb_spec temp 0) as [->|Hne].
  { exists dec. split; [done|]. assert (2^9 <= 2^10) by lia. lia. }
  assert (Z.abs (Z.rem temp 10) <= 9) as Hrem by (pose proof (Z.rem_bound_abs temp 10 ltac:(lia)); lia).
  assert (Z.abs (Z.quot temp 10) < 10 ^ Z.of_nat k) as Hq.
  { rewrite <- Z.quot_abs by lia. change (Z.abs 10) with 10. rewrite Z.quot_div_nonneg by lia.
    apply Z.div_lt_upper_bound; [lia|]. rewrite <- Z.pow_succ_r by lia. by rewrite <- Nat2Z.inj_succ. }
  assert (Z.abs (Z.rem temp 10 * base) <= 9 * base) as Hprod by nia.
  unfold int_op, in_int, INT_MIN, INT_MAX.
  rewrite (proj2 (andb_true_iff _ _)) by (split; apply Z.leb_le; lia).
  rewrite (proj2 (andb_true_iff _ _)) by (split; apply Z.leb_le; lia).
  rewrite (proj2 (andb_true_iff _ _)) by (split; apply Z.leb_le; lia).
  apply IH. split; [done|]. split; [done|]. split; [lia|]. lia.
Qed.

(** The numeral with decimal digits [ds] (least significant first), and the
    number with those binary digits. *)
Definition digit_value (base : Z) (ds : list bool) : Z :=
  foldr (fun (d : bool) acc => (if d then 1 else 0) + base * acc) 0 ds.

Lemma digit_value_nonneg b ds : 0 <= b -> 0 <= digit_value b ds.
Proof. intros Hb. induction ds as [|d ds IH]; simpl; [lia|]. destruct d; nia. Qed.

Lemma binary_loop_bits ds : forall fuel dec base,
  (length ds < fuel)%nat -> 0 <= dec -> 0 < base ->
  dec + base * (2 ^ Z.of_nat (length ds) - 1) + base * 2 ^ Z.of_nat (length ds) <= INT_MAX ->
  binary_loop fuel (digit_value 10 ds) dec base = Some (Some (dec + base * digit_value 2 ds)).
Proof.
  induction ds as [|d ds IH]; intros fuel dec base Hf Hd Hb Hmax.
  { destruct fuel; [simpl in Hf; lia|]. simpl. do 2 f_equal. lia. }
  destruct fuel as [|fuel]; [simpl in Hf; lia|].
  cbn [digit_value foldr] in *. fold (digit_value 10 ds). fold (digit_value 2 ds).
  pose proof (digit_value_nonneg 10 ds ltac:(lia)) as Hn10.
  pose proof (digit_value_nonneg 2 ds ltac:(lia)) as Hn2.
  cbn [length] in Hmax. rewrite Nat2Z.inj_succ, Z.pow_succ_r in Hmax by lia.
  assert (1 <= 2 ^ Z.of_nat (length ds)) as Hpow
    by (pose proof (Z.pow_pos_nonneg 2 (Z.of_nat (length ds)) ltac:(lia) ltac:(lia)); lia).
  set (b := if d then 1 else 0). assert (0 <= b <= 1) as Hbit by (subst b; destruct d; lia).
  cbn [binary_loop].
  destruct (Z.eqb_spec (b + 10 * digit_value 10 ds) 0) as [Hz|Hnz].
  { assert (b = 0) by lia. assert (digit_value 10 ds = 0) as Hz10 by lia.
    assert (digit_value 2 ds = 0) as ->; [|do 2 f_equal; lia].
    clear -Hz10. induction ds as [|d ds IH]; [done|]. cbn [digit_value foldr] in *.
    fold (digit_value 10 ds) in *. fold (digit_value 2 ds).
    pose proof (digit_value_nonneg 10 ds ltac:(lia)). destruct d; [lia|]. rewrite IH; lia. }
  assert (Z.rem (b + 10 * digit_value 10 ds) 10 = b) as ->.
  { rewrite Z.rem_mod_nonneg by lia. rewrite Z.mul_comm, Z.mod_add by lia. apply Z.mod_small. lia. }
  assert (Z.quot (b + 10 * digit_value 10 ds) 10 = digit_value 10 ds) as ->.
  { rewrite Z.quot_div_nonneg by lia. rewrite Z.mul_comm, Z.div_add by lia. rewrite Z.div_small; lia. }
  unfold int_op, in_int, INT_MIN, INT_MAX in *.
  rewrite (proj2 (andb_true_iff _ _)) by (split; apply Z.leb_le; nia).
  rewrite (proj2 (andb_true_iff _ _)) by (split; apply Z.leb_le; nia).
  rewrite (proj2 (andb_true_iff _ _)) by (split; apply Z.leb_le; nia).
  rewrite IH; [do 2 f_equal; ring|simpl in Hf; lia|nia|lia|nia].
Qed.
