(* ===== verification/UtilsThms.v ===== *)
(** * What utils.c promises

    Reading files with optional text around them, the handles left open on
    errors, and binaryToDecimal. *)

From S2P Require Import Prelude CLib Utils.

(** The stdio calls on the stream succeed, and the sizes fit in a size_t. *)
Record sound_stream (f : stream) (extra : nat) : Prop := SoundStream {
  sound_seek_end : seek_end_ok f = true;
  sound_tell : tell_ok f = true;
  sound_seek_set : seek_set_ok f = true;
  sound_read : read_short f = 0%nat;
  sound_size : Z.of_nat (length (contents f)) + Z.of_nat extra + 1 < 2^64 }.

Definition affix (s : option (list ascii)) : list ascii := default [] s.

(** ** Helper lemmas *)
Lemma write_app (a b c : buffer) src :
  length b = length src -> write_at (a ++ b ++ c) (length a) src = Some (a ++ (Some <$> src) ++ c).
Proof.
  intros Hl. unfold write_at. rewrite !length_app. rewrite (proj2 (Nat.leb_le _ _)) by lia.
  rewrite take_app_length, <- drop_drop, drop_app_length, <- Hl, drop_app_length. done.
Qed.

Lemma memcpy_app {S} (a b c : buffer) src (s : S) :
  length b = length src -> memcpy (a ++ b ++ c) (length a) src s = Ret (a ++ (Some <$> src) ++ c) s.
Proof. intros Hl. unfold memcpy. by rewrite write_app. Qed.

Lemma file_size_sound f extra : sound_stream f extra -> file_size f = Z.of_nat (length (contents f)).
Proof.
  intros [H1 H2 H3 _ H5]. unfold file_size. rewrite H1, H2, H3. simpl.
  rewrite (proj2 (Z.eqb_neq _ _)) by lia. unfold wrap_u64. apply Z.mod_small. lia.
Qed.

Lemma strlen_affix s : strlen_opt s = length (affix s).
Proof. by destruct s. Qed.

(** The two optional copies of file_data, around contents already in place. *)
Lemma prefix_step {S} P (C : list ascii) (rest : buffer) (s : S) :
  (if (0 <? length P)%nat then memcpy (replicate (length P) None ++ (Some <$> C) ++ rest) 0 P
   else mret (replicate (length P) None ++ (Some <$> C) ++ rest)) s
  = Ret ((Some <$> P ++ C) ++ rest) s.
Proof.
  rewrite fmap_app, <- app_assoc. destruct (Nat.ltb_spec 0 (length P)) as [|HP].
  - exact (memcpy_app [] (replicate (length P) None) _ P s (length_replicate _ _)).
  - by destruct P; [|simpl in HP; lia].
Qed.

Lemma suffix_step {S} P (C Q : list ascii) (rest : buffer) (s : S) :
  P = [] \/ Q = [] ->
  (if (0 <? length Q)%nat then memcpy ((Some <$> P ++ C) ++ replicate (length Q) None ++ rest) (length C) Q
   else mret ((Some <$> P ++ C) ++ replicate (length Q) None ++ rest)) s
  = Ret ((Some <$> P ++ C ++ Q) ++ rest) s.
Proof.
  intros Hor. rewrite !fmap_app. destruct (Nat.ltb_spec 0 (length Q)) as [Hlt|HQ].
  - destruct Hor as [HP|HQ]; [|rewrite HQ in Hlt; simpl in Hlt; lia]. rewrite HP.
    pose proof (memcpy_app (Some <$> C) (replicate (length Q) None) rest Q s (length_replicate _ _)) as Hm.
    rewrite length_fmap in Hm. cbn [fmap list_fmap app]. rewrite Hm. by rewrite <- app_assoc.
  - destruct Q; [|simpl in HQ; lia]. simpl. by rewrite !app_nil_r.
Qed.

(** file_data once the file was read: the two copies, the final NUL, the close. *)
Definition file_data_rest (P C Q : list ascii) : M uio (option buffer) :=
  str ← (if (0 <? length P)%nat then memcpy (replicate (length P) None ++ (Some <$> C) ++ replicate (length Q + 1) None) 0 P
         else mret (replicate (length P) None ++ (Some <$> C) ++ replicate (length Q + 1) None));
  str ← (if (0 <? length Q)%nat then memcpy str (length C) Q else mret str);
  str ← memcpy str (length (P ++ C ++ Q)) [NUL];
  _ ← fclose;
  mret (Some str).

Lemma file_data_read fs path f pre suf s :
  fs path = Some f -> sound_stream f (length (affix pre) + length (affix suf)) ->
  file_data fs true path pre suf s = file_data_rest (affix pre) (contents f) (affix suf) (UIO (S (handles s))).
Proof.
  intros Hf Hs. pose proof (file_size_sound _ _ Hs) as Hsz. destruct Hs as [_ _ _ H4 H5].
  unfold file_data. assert (fopen fs path s = Ret (Some f) (UIO (S (handles s)))) as Ho by (unfold fopen; by rewrite Hf).
  rewrite (bind_ret_eq _ _ _ _ _ Ho), Hsz. rewrite (proj2 (Z.eqb_neq _ _)) by (unfold FILE_ERROR; lia).
  cbn [negb]. rewrite H4, Nat.sub_0_r, (take_ge (contents f)) by lia. rewrite Nat2Z.id, (take_ge (contents f)) by lia.
  rewrite !strlen_affix. fold (affix pre) (affix suf). set (P := affix pre) in *. set (Q := affix suf) in *.
  set (C := contents f) in *. unfold wrap_u64. rewrite Z.mod_small by lia.
  replace (Z.to_nat (Z.of_nat (length C) + Z.of_nat (length P) + Z.of_nat (length Q) + 1))
    with (length P + (length C + (length Q + 1)))%nat by lia.
  replace (Z.to_nat (Z.of_nat (length C) + Z.of_nat (length P) + Z.of_nat (length Q)))
    with (length (P ++ C ++ Q))%nat by (rewrite !length_app; lia).
  rewrite (replicate_add (length P)), (replicate_add (length C)).
  pose proof (memcpy_app (replicate (length P) None) (replicate (length C) None)
    (replicate (length Q + 1) None) C (UIO (S (handles s))) (length_replicate _ _)) as Hm1.
  rewrite length_replicate in Hm1. rewrite (bind_ret_eq _ _ _ _ _ Hm1). by rewrite Z.eqb_refl.
Qed.

(** The buffer file_data returns when at most one of the two texts is given. *)
Lemma file_data_buffer fs path f pre suf s :
  fs path = Some f -> sound_stream f (length (affix pre) + length (affix suf)) ->
  affix pre = [] \/ affix suf = [] ->
  file_data fs true path pre suf s
  = Ret (Some ((Some <$> (affix pre ++ contents f ++ affix suf)) ++ [Some NUL])) s.
Proof.
  intros Hf Hs Hor. rewrite (file_data_read _ _ _ _ _ _ Hf Hs). unfold file_data_rest.
  rewrite (bind_ret_eq _ _ _ _ _ (prefix_step _ _ _ _)), replicate_add.
  rewrite (bind_ret_eq _ _ _ _ _ (suffix_step _ _ _ _ _ Hor)).
  pose proof (memcpy_app (Some <$> affix pre ++ contents f ++ affix suf) (replicate 1 None) [] [NUL]
    (UIO (S (handles s))) eq_refl) as Hm4.
  rewrite length_fmap, app_nil_r in Hm4. rewrite (bind_ret_eq _ _ _ _ _ Hm4).
  unfold fclose. cbn. by destruct s.
Qed.

(** The buffer when both texts are given: the contents after the prefix, and the
    suffix over the bytes from the offset of the size of the contents on. *)
Definition misplaced (P C Q : list ascii) : buffer :=
  let b := (Some <$> P ++ C) ++ replicate (length Q + 1) None in
  take (length C) b ++ (Some <$> Q) ++ drop (length C + length Q) b.

Lemma length_misplaced P C Q : length (misplaced P C Q) = (length (P ++ C ++ Q) + 1)%nat.
Proof.
  unfold misplaced. rewrite !length_app, length_take, length_drop, !length_app, !length_fmap, length_replicate, !length_app. lia.
Qed.

Lemma misplaced_hole P C Q b : b = misplaced P C Q -> P <> [] -> Q <> [] ->
  (take (length (P ++ C ++ Q)) b ++ [Some NUL]) !! (length (P ++ C ++ Q) - 1)%nat = Some None.
Proof.
  intros -> HP HQ. destruct P as [|p P]; [done|]. destruct Q as [|q Q]; [done|].
  rewrite lookup_app_l by (rewrite length_take, length_misplaced, !length_app; simpl; lia).
  rewrite lookup_take_lt by (rewrite !length_app; simpl; lia). unfold misplaced.
  rewrite lookup_app_r by (rewrite length_take, !length_app, length_fmap, !length_app; simpl; lia).
  rewrite lookup_app_r by (rewrite length_take, !length_app, !length_fmap, !length_app; simpl; lia).
  rewrite lookup_drop, lookup_app_r; rewrite length_take, !length_app, !length_fmap, ?length_replicate, !length_app; simpl; [|lia].
  change (None :: replicate (length Q + 1) None) with (replicate (S (length Q + 1)) (None : option ascii)).
  apply lookup_replicate_2. lia.
Qed.

Lemma misplaced_ok P C Q b : b = misplaced P C Q -> no_nul (P ++ C ++ Q) ->
  Forall (fun o => o <> Some NUL) (take (length (P ++ C ++ Q)) b).
Proof.
  assert (forall l, no_nul l -> Forall (fun o => o <> Some NUL) (Some <$> l)) as Hsome.
  { intros l Hl. apply Forall_fmap. eapply Forall_impl; [exact Hl|]. intros c Hc [= ->]. done. }
  intros -> [HP [HC HQ]%Forall_app]%Forall_app. apply Forall_take. unfold misplaced.
  assert (Forall (fun o => o <> Some NUL) ((Some <$> P ++ C) ++ replicate (length Q + 1) None)) as Hb.
  { apply Forall_app. split; [by apply Hsome, Forall_app|]. by apply Forall_replicate. }
  apply Forall_app. split; [by apply Forall_take|]. apply Forall_app. split; [by apply Hsome|by apply Forall_drop].
Qed.

(** A byte that was never written comes before every NUL. *)
Lemma hole_string b i :
  (b ++ [Some NUL]) !! i = Some None -> Forall (fun o => o <> Some NUL) b ->
  buffer_string (b ++ [Some NUL]) = None.
Proof.
  revert i. induction b as [|o b IH]; intros i Hi Hok.
  { destruct i as [|i]; simpl in Hi; [done|by destruct i]. }
  inversion_clear Hok as [|? ? Ho Hb]. cbn [app buffer_string]. destruct o as [c|]; [|done].
  destruct (Ascii.eqb_spec c NUL) as [->|Hc]; [done|]. destruct i as [|i]; [done|].
  by rewrite (IH i).
Qed.

Lemma file_data_stages fs path f P Q s :
  fs path = Some f -> sound_stream f (length P + length Q) -> P <> [] -> Q <> [] ->
  file_data fs true path (Some P) (Some Q) s
  = Ret (Some (take (length (P ++ contents f ++ Q)) (misplaced P (contents f) Q) ++ [Some NUL])) s.
Proof.
  intros Hf Hs HP HQ. rewrite (file_data_read fs path f (Some P) (Some Q) s Hf Hs). unfold file_data_rest.
  cbn [affix default from_option id]. set (C := contents f). rewrite (bind_ret_eq _ _ _ _ _ (prefix_step P C _ _)).
  assert ((0 <? length Q)%nat = true) as -> by (apply Nat.ltb_lt; destruct Q; simpl; [done|lia]).
  assert (forall s' : uio, memcpy ((Some <$> P ++ C) ++ replicate (length Q + 1) None) (length C) Q s'
    = Ret (misplaced P C Q) s') as Hm3.
  { intros s'. unfold memcpy, write_at. rewrite length_app, length_fmap, length_replicate, length_app.
    rewrite (proj2 (Nat.leb_le _ _)) by lia. done. }
  rewrite (bind_ret_eq _ _ _ _ _ (Hm3 _)). unfold memcpy, write_at. rewrite length_misplaced.
  cbn [length]. rewrite Nat.leb_refl, drop_ge by (rewrite length_misplaced; lia).
  unfold fclose. cbn. by destruct s.
Qed.

Lemma binaryToDecimal_digits ds :
  (length ds <= 10)%nat -> binaryToDecimal (digit_value 10 ds) = Some (Some (digit_value 2 ds)).
Proof.
  intros Hl. unfold binaryToDecimal, binary_fuel. rewrite (binary_loop_bits ds 11 0 1); [f_equal; f_equal; lia|lia..|].
  assert (2 ^ Z.of_nat (length ds) <= 2 ^ 10) by (apply Z.pow_le_mono_r; lia).
  unfold INT_MAX. lia.
Qed.

(** ** The theorems *)

(** C15. file_data returns the whole file, NUL-terminated, as a fresh buffer, and
    closes its handle; a text before the contents, or a text after them, is put in
    place. When both are given the second one is copied to an offset that ignores
    the first, a byte before the final NUL is never written, and the result is not
    a C string. *)
Theorem file_data_contents fs path f pre suf s :
  fs path = Some f -> sound_stream f (length (affix pre) + length (affix suf)) ->
  exists buf, file_data fs true path pre suf s = Ret (Some buf) s /\
    length buf = (length (affix pre ++ contents f ++ affix suf) + 1)%nat /\
    (affix pre = [] \/ affix suf = [] -> buffer_string buf = Some (cstr (affix pre ++ contents f ++ affix suf))) /\
    (affix pre <> [] -> affix suf <> [] -> no_nul (affix pre ++ contents f ++ affix suf) -> buffer_string buf = None).
Proof.
  intros Hf Hs. destruct (decide (affix pre = [] \/ affix suf = [])) as [Hor|Hand].
  - eexists. split; [by apply file_data_buffer|]. rewrite length_app, length_fmap.
    split; [done|]. split; [intros _; apply buffer_string_full|]. by intros HP HQ; destruct Hor.
  - destruct pre as [P|]; [|destruct Hand; by left]. destruct suf as [Q|]; [|destruct Hand; by right]. cbn in *.
    assert (P <> [] /\ Q <> []) as [HP HQ] by tauto. eexists. split; [by apply file_data_stages|].
    rewrite length_app, length_take_le by (rewrite length_misplaced; lia). split; [done|]. split; [by intros [|]|].
    intros _ _ Hnul. apply (hole_string _ (length (P ++ contents f ++ Q) - 1)); [by apply misplaced_hole|by apply misplaced_ok].
Qed.

Definition sample_stream : stream := Stream (lit "[1]") true true true 0.

Lemma file_data_contents_witness :
  exists buf, file_data (fun _ => Some sample_stream) true (lit "f") (Some (lit "<")) (Some (lit ">")) (UIO 0) = Ret (Some buf) (UIO 0) /\
    length buf = 6%nat /\ buffer_string buf = None.
Proof.
  destruct (file_data_contents (fun _ => Some sample_stream) (lit "f") sample_stream (Some (lit "<")) (Some (lit ">")) (UIO 0)
    eq_refl ltac:(split; reflexivity)) as (buf & He & Hl & _ & Hn).
  exists buf. split; [exact He|]. split; [exact Hl|]. apply Hn; [discriminate|discriminate|repeat constructor; discriminate].
Defined.

(** Handles: file_data leaves one more handle open exactly on the two error
    paths that return early, an unknown size and a failed allocation; on every
    other path, a short read included, the handle is closed. *)
Theorem file_data_handles fs malloc_ok path pre suf s r s' :
  file_data fs malloc_ok path pre suf s = Ret r s' ->
  handles s' = match fs path with
               | None => handles s
               | Some f => if (file_size f =? FILE_ERROR) || negb malloc_ok then S (handles s) else handles s
               end.
Proof.
  unfold file_data, fopen. unfold mbind at 1, M_bind at 1.
  destruct (fs path) as [f|]; [|by intros [= _ <-]].
  destruct (file_size f =? FILE_ERROR); [by intros [= _ <-]|]. destruct malloc_ok; [|by intros [= _ <-]]. cbn [orb negb].
  assert (forall (b : buffer) off src (k : buffer -> M uio (option buffer)) s0 r0 s1,
    (memcpy b off src ≫= k) s0 = Ret r0 s1 -> exists b', k b' s0 = Ret r0 s1) as Hm.
  { intros b off src k s0 r0 s1. unfold memcpy. destruct (write_at b off src) as [b'|]; [|done]. by exists b'. }
  intros [b1 H1]%Hm. destruct (negb _); [by injection H1 as <- <-|].
  assert (forall (c : bool) (b : buffer) off src (k : buffer -> M uio (option buffer)) s0 r0 s1,
    ((if c then memcpy b off src else mret b) ≫= k) s0 = Ret r0 s1 -> exists b', k b' s0 = Ret r0 s1) as Hc.
  { intros [] b off src k s0 r0 s1; [apply Hm|by exists b]. }
  apply Hc in H1 as [b2 H2]. apply Hc in H2 as [b3 H3]. apply Hm in H3 as [b4 H4].
  by injection H4 as <- <-.
Qed.

Lemma file_data_handles_witness :
  exists r s', file_data (fun _ => Some sample_stream) false (lit "f") None None (UIO 0) = Ret r s' /\
  handles s' = match Some sample_stream with
               | None => handles (UIO 0)
               | Some f => if (file_size f =? FILE_ERROR) || negb false then S (handles (UIO 0)) else handles (UIO 0)
               end.
Proof.
  eexists _, _. split; [vm_compute; reflexivity|].
  eapply (file_data_handles (fun _ => Some sample_stream) false (lit "f") None None (UIO 0) None).
  vm_compute. reflexivity.
Defined.

(** C18. binaryToDecimal is defined on every int: its loop ends within eleven
    rounds, no multiplication or addition overflows, and the result is at most
    9 * 1023 in absolute value. On a decimal numeral whose digits are all 0 or 1 it
    is the number with those binary digits. *)
Theorem binaryToDecimal_total n :
  INT_MIN <= n <= INT_MAX ->
  exists v, binaryToDecimal n = Some (Some v) /\ Z.abs v <= 9 * 1023 /\
    forall ds, n = digit_value 10 ds -> (length ds <= 10)%nat -> v = digit_value 2 ds.
Proof.
  intros Hn. assert (loop_bound 10 n 0 1) as Hb by (unfold INT_MIN, INT_MAX in Hn; split; simpl; lia).
  destruct (binary_loop_bounds 10 n 0 1 Hb) as (v & Hv & Habs).
  exists v. split; [exact Hv|]. split; [exact Habs|]. intros ds -> Hl. apply binaryToDecimal_digits in Hl.
  unfold binaryToDecimal, binary_fuel in Hl. congruence.
Qed.

Lemma binaryToDecimal_total_witness :
  exists v, binaryToDecimal 1101 = Some (Some v) /\ Z.abs v <= 9 * 1023 /\ v = 13.
Proof.
  destruct (binaryToDecimal_total 1101 ltac:(split; vm_compute; discriminate)) as (v & Hv & Ha & Hb).
  exists v. split; [exact Hv|]. split; [exact Ha|].
  apply (Hb [true; false; true; true]); [reflexivity|simpl; lia].
Defined.
