(* ===== verification/Switch.v ===== *)
(** * App/switch/switch.c: the configuration database

    Switches hold lists of ports, ports hold lists of (period, gate states)
    values. The three list types live in three heaps; a field that was never
    written is [None], and reading it is [Undef]. *)

From S2P Require Import Prelude HeapRep CLib LinkedList.

Definition MAX_SWITCH_NAME_LENGTH : nat := 20.

(** struct t_port_values *)
Record t_port_values := PortValues { period : option Z; gate_states : option Z }.

(** struct t_port *)
Record t_port := Port { number : Z; port_values : ptr }.

(** struct t_switch: the characters of [name] before its NUL. *)
Record t_switch := Switch { sw_name : list ascii; port_list : ptr }.

(** A list node owns its payload; those of ports and switches are written as a
    whole, so they are either indeterminate or complete. *)
Abbreviation t_port_values_list := (lnode t_port_values).
Abbreviation t_port_list := (lnode (option t_port)).
Abbreviation t_switch_list := (lnode (option t_switch)).

Definition no_values : t_port_values := PortValues None None.

Record smem := SMem {
  values_heap : lmem t_port_values;
  ports_heap : lmem (option t_port);
  switches_heap : lmem (option t_switch) }.

#[global] Program Instance lens_values : Lens smem (lmem t_port_values) := {|
  view := values_heap;
  upd v s := SMem v (ports_heap s) (switches_heap s) |}.
Solve All Obligations with by intros; repeat match goal with s : smem |- _ => destruct s end.

#[global] Program Instance lens_ports : Lens smem (lmem (option t_port)) := {|
  view := ports_heap;
  upd v s := SMem (values_heap s) v (switches_heap s) |}.
Solve All Obligations with by intros; repeat match goal with s : smem |- _ => destruct s end.

#[global] Program Instance lens_switches : Lens smem (lmem (option t_switch)) := {|
  view := switches_heap;
  upd v s := SMem (values_heap s) (ports_heap s) v |}.
Solve All Obligations with by intros; repeat match goal with s : smem |- _ => destruct s end.

(** Using an indeterminate value is undefined. *)
Definition determinate {S A} (o : option A) : M S A :=
  match o with Some a => mret a | None => undef end.

Section Switch.
(** The unwritten fields of fresh list nodes, and the allocation failures. *)
Context (junk_size : Z) (junk_next : ptr) (oom : nat -> bool).

Definition switch_create_port_values_list : M smem ptr :=
  lift (list_create no_values junk_size junk_next oom).
Definition switch_create_port_list : M smem ptr :=
  lift (list_create (None : option t_port) junk_size junk_next oom).
Definition switch_create_list : M smem ptr :=
  lift (list_create (None : option t_switch) junk_size junk_next oom).

Definition switch_push (head : ptr) (data : t_switch) : M smem unit :=
  lift (list_push (None : option t_switch) junk_size junk_next oom head (Some data)).
Definition port_push (head : ptr) (data : t_port) : M smem unit :=
  lift (list_push (None : option t_port) junk_size junk_next oom head (Some data)).
Definition port_values_push (head : ptr) (data : t_port_values) : M smem unit :=
  lift (list_push no_values junk_size junk_next oom head data).
End Switch.

Definition tab : ascii := "009"%char.
Definition newline : ascii := "010"%char.

(** ** Walks along a list

    [walk fuel p] is the list of payloads seen by
    [for (cur = p; cur != NULL; cur = cur->next)]. *)
Fixpoint walk {A} (fuel : nat) (p : ptr) : M (lmem A) (list A) :=
  match fuel with
  | O => no_fuel
  | S fuel =>
      match p with
      | None => mret []
      | Some _ =>
          n ← lload p;
          rest ← walk fuel (n_next n);
          mret (n_data n :: rest)
      end
  end.

Definition walk_list {A} (p : ptr) : M (lmem A) (list A) :=
  m ← get; walk (walk_fuel m) p.

(** Run an action for each element, collecting the output text. *)
Fixpoint for_each {S A} (body : A -> M S (list ascii)) (xs : list A) : M S (list ascii) :=
  match xs with
  | [] => mret []
  | x :: xs => out ← body x; rest ← for_each body xs; mret (out ++ rest)
  end.

(** switch_print_list: the text written on the standard output. The three
    loops only read, so each reads its list before its body runs. *)
Definition print_values (v : t_port_values) : M smem (list ascii) :=
  p ← determinate (period v);
  g ← determinate (gate_states v);
  mret ([tab; tab] ++ lit "Period: " ++ show_Z p ++ [newline] ++
        [tab; tab] ++ lit "Gate States: " ++ show_Z g ++ [newline]).

Definition print_port (o : option t_port) : M smem (list ascii) :=
  pt ← determinate o;
  vs ← lift (walk_list (port_values pt));
  body ← for_each print_values vs;
  mret ([tab] ++ lit "Port Number: " ++ show_Z (number pt) ++ [newline] ++ body).

Definition print_switch (o : option t_switch) : M smem (list ascii) :=
  sw ← determinate o;
  ps ← lift (walk_list (port_list sw));
  body ← for_each print_port ps;
  mret (lit "Switch:" ++ sw_name sw ++ [newline] ++ body).

Definition switch_print_list (head : ptr) : M smem (list ascii) :=
  sws ← lift (walk_list head);
  for_each print_switch sws.

(** ** free_switch_list *)
Fixpoint free_values (fuel : nat) (cur : ptr) : M smem unit :=
  match fuel with
  | O => no_fuel
  | S fuel =>
      match cur with
      | None => mret tt
      | Some _ =>
          n ← lift (lload (A := t_port_values) cur);
          _ ← lift (lfree (A := t_port_values) cur);
          free_values fuel (n_next n)
      end
  end.

Fixpoint free_ports (fuel : nat) (cur : ptr) : M smem unit :=
  match fuel with
  | O => no_fuel
  | S fuel =>
      match cur with
      | None => mret tt
      | Some _ =>
          n ← lift (lload (A := option t_port) cur);
          pt ← determinate (n_data n);
          s ← get;
          _ ← free_values (walk_fuel (values_heap s)) (port_values pt);
          _ ← lift (lfree (A := option t_port) cur);
          free_ports fuel (n_next n)
      end
  end.

Fixpoint free_switches (fuel : nat) (cur : ptr) : M smem unit :=
  match fuel with
  | O => no_fuel
  | S fuel =>
      match cur with
      | None => mret tt
      | Some _ =>
          n ← lift (lload (A := option t_switch) cur);
          sw ← determinate (n_data n);
          s ← get;
          _ ← free_ports (walk_fuel (ports_heap s)) (port_list sw);
          _ ← lift (lfree (A := option t_switch) cur);
          free_switches fuel (n_next n)
      end
  end.

Definition free_switch_list (head : ptr) : M smem unit :=
  s ← get; free_switches (walk_fuel (switches_heap s)) head.
