(* ===== verification/SwitchRep.v ===== *)
(** * The database as an abstract value

    The abstract database is a list of named switches with numbered ports and
    their (period, gate states) values. [holds] says which list cells are in the
    three heaps of switch.c; the lemmas relate every routine of switch.c to the
    abstract value. *)

From S2P Require Import Prelude HeapRep CLib LinkedList Switch.

(** ** The abstract database *)
Abbreviation aport := (Z * list t_port_values)%type.
Abbreviation aswitch := (list ascii * list aport)%type.

(** What a walk along a list of [data] sees: the unwritten payload of the head
    when the list is empty. *)
Definition seen {A} (indet : A) (data : list A) : list A :=
  match data with [] => [indet] | _ => data end.

(** ** Located databases *)
Record lport := LPort {
  lp_num : Z;
  lp_vals : list t_port_values;
  lp_chain : list (positive * (t_port_values * Z)) }.

Record lswitch := LSwitch {
  ls_name : list ascii;
  ls_ports : list lport;
  ls_chain : list (positive * (option t_port * Z)) }.

Definition abs_port (p : lport) : aport := (lp_num p, lp_vals p).
Definition abs_switch (sw : lswitch) : aswitch := (ls_name sw, map abs_port (ls_ports sw)).

Definition port_payload (p : lport) : option t_port :=
  Some (Port (lp_num p) (chain_head (lp_chain p) NULL)).
Definition switch_payload (sw : lswitch) : option t_switch :=
  Some (Switch (ls_name sw) (chain_head (ls_chain sw) NULL)).

Definition vcells (ps : list lport) : list (positive * t_port_values_list) :=
  concat (map (fun p => chain_cells (lp_chain p) NULL) ps).
Definition db_vcells (sws : list lswitch) : list (positive * t_port_values_list) :=
  concat (map (fun sw => vcells (ls_ports sw)) sws).
Definition db_pcells (sws : list lswitch) : list (positive * t_port_list) :=
  concat (map (fun sw => chain_cells (ls_chain sw) NULL) sws).

Definition wf_port (p : lport) : Prop := chain_data no_values (lp_chain p) (lp_vals p).
Definition wf_switch (sw : lswitch) : Prop :=
  chain_data None (ls_chain sw) (map port_payload (ls_ports sw)) /\ Forall wf_port (ls_ports sw).

(** The three heaps: the cells given, and the frames [gv], [gp], [gs]. *)
Record holds (gv : gmap positive t_port_values_list) (gp : gmap positive t_port_list)
    (gs : gmap positive t_switch_list) (s : smem)
    (vs : list (positive * t_port_values_list)) (ps : list (positive * t_port_list))
    (ss : list (positive * t_switch_list)) : Prop := Holds {
  holds_values : rep vs gv (lcells (values_heap s));
  holds_ports : rep ps gp (lcells (ports_heap s));
  holds_switches : rep ss gs (lcells (switches_heap s)) }.

(** The database [db] is in the heaps, with its head at [head], beside the cells
    [vs], [ps] of lists still under construction. *)
Definition db_at gv gp gs (s : smem) (head : ptr) (db : list aswitch) vs ps : Prop :=
  exists sxs sws, head = chain_head sxs NULL /\ map abs_switch sws = db /\
    chain_data None sxs (map switch_payload sws) /\ Forall wf_switch sws /\
    holds gv gp gs s (vs ++ db_vcells sws) (ps ++ db_pcells sws) (chain_cells sxs NULL).

(** ** Chains *)
Definition payloads {A} (xs : list (positive * (A * Z))) : list A := map (fun x => fst (snd x)) xs.

Lemma chain_data_seen {A} (indet : A) xs data : chain_data indet xs data -> payloads xs = seen indet data.
Proof. destruct data as [|a data]; [by intros [l ->]|]. intros [Hd _]. exact Hd. Qed.

Lemma chain_data_cons {A} (indet : A) xs data : chain_data indet xs data -> exists l x xs', xs = (l, x) :: xs'.
Proof.
  destruct data as [|a data]; [intros [l ->]; by eexists _, _, _|]. intros [Hd Hs].
  destruct xs as [|[l x] xs]; [done|]. eauto.
Qed.

Lemma walk_chain {A} (xs : list (positive * (A * Z))) : forall cs g m fuel,
  rep (chain_cells xs NULL ++ cs) g (lcells m) -> (length xs < fuel)%nat ->
  walk fuel (chain_head xs NULL) m = Ret (payloads xs) m.
Proof.
  induction xs as [|[l [a z]] xs IH]; intros cs g m fuel Hr Hf;
    (destruct fuel as [|fuel]; [simpl in Hf; lia|]); [done|].
  simpl in *. rewrite (bind_ret_eq _ _ _ _ _ (lload_elem _ _ _ _ _ Hr ltac:(left))). simpl.
  rewrite (bind_ret_eq _ _ _ _ _ (IH ((l, LNode a z (chain_head xs NULL)) :: cs) g m fuel
    ltac:(eapply rep_proper; [|done..|exact Hr]; solve_Permutation) ltac:(lia))). done.
Qed.

Lemma walk_list_chain {A} (xs : list (positive * (A * Z))) cs g m :
  rep (chain_cells xs NULL ++ cs) g (lcells m) ->
  walk_list (chain_head xs NULL) m = Ret (payloads xs) m.
Proof.
  intros Hr. unfold walk_list, walk_fuel, get, mbind, M_bind. eapply walk_chain; [exact Hr|].
  apply rep_size in Hr. rewrite length_app, length_chain_cells in Hr. lia.
Qed.

Lemma lift_read {S T A} `{Lens S T} (m : M T A) (s : S) a :
  m (view s) = Ret a (view s) -> lift m s = Ret a s.
Proof. intros He. rewrite (lift_ret_eq _ _ _ _ He). by rewrite upd_view. Qed.

(** A list of the database, read from the database state. *)
Lemma walk_values xs vs gv gp gs s ps ss :
  holds gv gp gs s (chain_cells xs NULL ++ vs) ps ss ->
  lift (walk_list (A := t_port_values) (chain_head xs NULL)) s = Ret (payloads xs) s.
Proof. intros Hh. apply lift_read. eapply walk_list_chain, Hh. Qed.

Lemma walk_ports xs ps gv gp gs s vs ss :
  holds gv gp gs s vs (chain_cells xs NULL ++ ps) ss ->
  lift (walk_list (A := option t_port) (chain_head xs NULL)) s = Ret (payloads xs) s.
Proof. intros Hh. apply lift_read. eapply walk_list_chain, Hh. Qed.

Lemma walk_switches xs gv gp gs s vs ps :
  holds gv gp gs s vs ps (chain_cells xs NULL) ->
  lift (walk_list (A := option t_switch) (chain_head xs NULL)) s = Ret (payloads xs) s.
Proof.
  intros Hh. apply lift_read. eapply walk_list_chain. rewrite app_nil_r. apply Hh.
Qed.

#[global] Instance holds_proper gv gp gs s :
  Proper ((≡ₚ) ==> (≡ₚ) ==> (≡ₚ) ==> iff) (holds gv gp gs s).
Proof.
  intros v v' Hv p p' Hp q q' Hq.
  split; intros [H1 H2 H3]; constructor; (by rewrite Hv || by rewrite Hp || by rewrite Hq
    || by rewrite <- Hv || by rewrite <- Hp || by rewrite <- Hq).
Qed.

(** ** Creating lists and pushing *)
Section Push.
Context (junk_size : Z) (junk_next : ptr) (oom : nat -> bool) (no_oom : forall n, oom n = false).
Context (gv : gmap positive t_port_values_list) (gp : gmap positive t_port_list)
  (gs : gmap positive t_switch_list).

Lemma create_values s vs ps ss :
  holds gv gp gs s vs ps ss ->
  exists xs s', switch_create_port_values_list junk_size junk_next oom s = Ret (chain_head xs NULL) s' /\
    chain_data no_values xs [] /\ holds gv gp gs s' (chain_cells xs NULL ++ vs) ps ss.
Proof.
  intros [Hv Hp Hs]. destruct (create_chain no_values junk_size junk_next oom _ _ _ Hv (no_oom _))
    as (xs & m' & He & _ & Hd & _ & Hr).
  exists xs, (SMem m' (ports_heap s) (switches_heap s)). split; [exact (lift_ret_eq _ s _ _ He)|]. by split.
Qed.

Lemma create_ports s vs ps ss :
  holds gv gp gs s vs ps ss ->
  exists xs s', switch_create_port_list junk_size junk_next oom s = Ret (chain_head xs NULL) s' /\
    chain_data None xs [] /\ holds gv gp gs s' vs (chain_cells xs NULL ++ ps) ss.
Proof.
  intros [Hv Hp Hs]. destruct (create_chain (None : option t_port) junk_size junk_next oom _ _ _ Hp (no_oom _))
    as (xs & m' & He & _ & Hd & _ & Hr).
  exists xs, (SMem (values_heap s) m' (switches_heap s)). split; [exact (lift_ret_eq _ s _ _ He)|]. by split.
Qed.

Lemma push_values xs data v s vs ps ss :
  chain_data no_values xs data -> holds gv gp gs s (chain_cells xs NULL ++ vs) ps ss ->
  exists xs' s', port_values_push junk_size junk_next oom (chain_head xs NULL) v s = Ret tt s' /\
    chain_head xs' NULL = chain_head xs NULL /\ chain_data no_values xs' (data ++ [v]) /\
    holds gv gp gs s' (chain_cells xs' NULL ++ vs) ps ss.
Proof.
  intros Hd [Hv Hp Hs]. destruct (push_chain _ junk_size junk_next oom _ _ _ _ _ v Hd Hv no_oom)
    as (xs' & m' & He & Hh & Hd' & Hr).
  exists xs', (SMem m' (ports_heap s) (switches_heap s)). split; [exact (lift_ret_eq _ s _ _ He)|]. by split.
Qed.

Lemma push_ports xs data p s vs ps ss :
  chain_data None xs data -> holds gv gp gs s vs (chain_cells xs NULL ++ ps) ss ->
  exists xs' s', port_push junk_size junk_next oom (chain_head xs NULL) p s = Ret tt s' /\
    chain_head xs' NULL = chain_head xs NULL /\ chain_data None xs' (data ++ [Some p]) /\
    holds gv gp gs s' vs (chain_cells xs' NULL ++ ps) ss.
Proof.
  intros Hd [Hv Hp Hs]. destruct (push_chain _ junk_size junk_next oom _ _ _ _ _ (Some p) Hd Hp no_oom)
    as (xs' & m' & He & Hh & Hd' & Hr).
  exists xs', (SMem (values_heap s) m' (switches_heap s)). split; [exact (lift_ret_eq _ s _ _ He)|]. by split.
Qed.

(** switch_create_list *)
Lemma create_db s :
  holds gv gp gs s [] [] [] ->
  exists head s', switch_create_list junk_size junk_next oom s = Ret head s' /\
    db_at gv gp gs s' head [] [] [].
Proof.
  intros [Hv Hp Hs]. destruct (create_chain (None : option t_switch) junk_size junk_next oom _ _ _ Hs (no_oom _))
    as (xs & m' & He & _ & Hd & _ & Hr).
  exists (chain_head xs NULL), (SMem (values_heap s) (ports_heap s) m'). split; [exact (lift_ret_eq _ s _ _ He)|].
  exists xs, []. split; [done|]. split; [done|]. split; [done|]. split; [constructor|].
  rewrite app_nil_r in Hr. by split.
Qed.

(** switch_push of a switch whose lists are complete. *)
Lemma push_switch s head db sw vs ps :
  wf_switch sw ->
  db_at gv gp gs s head db (vcells (ls_ports sw) ++ vs) (chain_cells (ls_chain sw) NULL ++ ps) ->
  exists s', switch_push junk_size junk_next oom head (Switch (ls_name sw) (chain_head (ls_chain sw) NULL)) s
    = Ret tt s' /\ db_at gv gp gs s' head (db ++ [abs_switch sw]) vs ps.
Proof.
  intros Hw (sxs & sws & -> & <- & Hd & Hf & [Hv Hp Hs]).
  rewrite <- (app_nil_r (chain_cells sxs NULL)) in Hs.
  destruct (push_chain _ junk_size junk_next oom _ _ _ _ _ (switch_payload sw) Hd Hs no_oom)
    as (sxs' & m' & He & Hh & Hd' & Hr).
  exists (SMem (values_heap s) (ports_heap s) m'). split; [exact (lift_ret_eq _ s _ _ He)|].
  exists sxs', (sws ++ [sw]). split; [done|]. rewrite !map_app. split; [done|]. split; [done|].
  split; [apply Forall_app; split; [done|by apply Forall_singleton]|]. rewrite app_nil_r in Hr. unfold db_vcells, db_pcells.
  rewrite !map_app, !concat_app. split; [| |exact Hr]; cbn [map concat]; rewrite app_nil_r.
  - eapply rep_proper; [|done..|exact Hv]. unfold db_vcells. solve_Permutation.
  - eapply rep_proper; [|done..|exact Hp]. unfold db_pcells. solve_Permutation.
Qed.
End Push.

(** ** Printing *)
Definition show_values (v : t_port_values) : option (list ascii) :=
  p ← period v; g ← gate_states v;
  Some ([tab; tab] ++ lit "Period: " ++ show_Z p ++ [newline] ++
        [tab; tab] ++ lit "Gate States: " ++ show_Z g ++ [newline]).

Definition show_port (p : aport) : option (list ascii) :=
  body ← mapM show_values (seen no_values (snd p));
  Some ([tab] ++ lit "Port Number: " ++ show_Z (fst p) ++ [newline] ++ concat body).

Definition show_switch (sw : aswitch) : option (list ascii) :=
  body ← mapM (fun o => o ≫= show_port) (seen None (map Some (snd sw)));
  Some (lit "Switch:" ++ fst sw ++ [newline] ++ concat body).

(** The report of a database; [None] when an unwritten field would be printed. *)
Definition show_db (db : list aswitch) : option (list ascii) :=
  @concat ascii <$> mapM (fun o => o ≫= show_switch) (seen None (map Some db)).

Lemma determinate_bind {S A B} (o : option A) (f : A -> option B) (k : A -> M S B) s :
  (forall a, k a s = determinate (f a) s) -> (determinate o ≫= k) s = determinate (o ≫= f) s.
Proof. intros Hk. destruct o as [a|]; simpl; [apply Hk|done]. Qed.

(** A loop whose body has the output [f x], or is undefined. *)
Lemma for_each_spec {S A B} (body : A -> M S (list ascii)) (f : B -> option (list ascii)) xs ys s :
  Forall2 (fun x y => body x s = determinate (f y) s) xs ys ->
  for_each body xs s = determinate (@concat ascii <$> mapM f ys) s.
Proof.
  induction 1 as [|x y xs ys Hx _ IH]; [done|]. simpl.
  unfold mbind at 1, M_bind at 1. rewrite Hx. destruct (f y) as [out|]; [|done]. simpl.
  unfold mbind at 1, M_bind at 1. rewrite IH. by destruct (mapM f ys).
Qed.

Lemma seen_map {A B} (f : A -> B) (a : A) xs : map f (seen a xs) = seen (f a) (map f xs).
Proof. by destruct xs. Qed.

Lemma Forall2_seen {A B} (P : A -> B -> Prop) a b xs ys :
  P a b -> Forall2 P xs ys -> Forall2 P (seen a xs) (seen b ys).
Proof. intros Hab [|x y xs' ys' Hxy Hr]; repeat constructor; done. Qed.

(** ** What a reader of the database relies on

    The three kinds of walks, without the representation. *)
Definition readable_port (s : smem) (p : lport) : Prop :=
  lift (walk_list (A := t_port_values) (chain_head (lp_chain p) NULL)) s
  = Ret (seen no_values (lp_vals p)) s.
Definition readable_switch (s : smem) (sw : lswitch) : Prop :=
  lift (walk_list (A := option t_port) (chain_head (ls_chain sw) NULL)) s
  = Ret (seen None (map port_payload (ls_ports sw))) s /\ Forall (readable_port s) (ls_ports sw).
Definition readable_db (s : smem) (head : ptr) (db : list aswitch) : Prop :=
  exists sws, map abs_switch sws = db /\ Forall (readable_switch s) sws /\
    lift (walk_list (A := option t_switch) head) s = Ret (seen None (map switch_payload sws)) s.

Lemma concat_map_split {A B} (f : A -> list B) x xs :
  x ∈ xs -> exists rest, concat (map f xs) ≡ₚ f x ++ rest.
Proof.
  intros (xs1 & xs2 & ->)%list_elem_of_split. exists (concat (map f xs1) ++ concat (map f xs2)).
  rewrite map_app, concat_app. simpl. solve_Permutation.
Qed.

Lemma db_readable gv gp gs s head db vs ps : db_at gv gp gs s head db vs ps -> readable_db s head db.
Proof.
  intros (sxs & sws & -> & <- & Hd & Hf & Hh). exists sws. split; [done|].
  split; [|by rewrite (walk_switches _ _ _ _ _ _ _ Hh), (chain_data_seen _ _ _ Hd)].
  apply Forall_forall. intros sw Hin. rewrite Forall_forall in Hf. destruct (Hf sw Hin) as [Hsw Hps].
  destruct (concat_map_split (fun sw => chain_cells (ls_chain sw) NULL) _ _ Hin) as [pr Hpr].
  destruct (concat_map_split (fun sw => vcells (ls_ports sw)) _ _ Hin) as [vr Hvr].
  fold (db_pcells sws) in Hpr. fold (db_vcells sws) in Hvr. rewrite Hpr, Hvr in Hh. split.
  - rewrite <- (chain_data_seen _ _ _ Hsw). eapply (walk_ports _ (ps ++ pr)).
    eapply holds_proper; [reflexivity| |reflexivity|exact Hh]. solve_Permutation.
  - apply Forall_forall. intros p Hp. rewrite Forall_forall in Hps. specialize (Hps p Hp).
    destruct (concat_map_split (fun p => chain_cells (lp_chain p) NULL) _ _ Hp) as [r Hr].
    fold (vcells (ls_ports sw)) in Hr. rewrite Hr in Hh. unfold readable_port.
    rewrite <- (chain_data_seen _ _ _ Hps). eapply (walk_values _ (vs ++ r ++ vr)).
    eapply holds_proper; [|reflexivity|reflexivity|exact Hh]. solve_Permutation.
Qed.

Lemma Forall2_maps {A B C} (P : B -> C -> Prop) (f : A -> B) (g : A -> C) xs :
  Forall (fun x => P (f x) (g x)) xs -> Forall2 P (map f xs) (map g xs).
Proof. induction 1; simpl; by constructor. Qed.

Lemma print_values_spec v s : print_values v s = determinate (show_values v) s.
Proof. unfold print_values, show_values. destruct (period v), (gate_states v); done. Qed.

Lemma print_port_spec s p :
  readable_port s p -> print_port (port_payload p) s = determinate (show_port (abs_port p)) s.
Proof.
  intros Hp. unfold print_port, show_port, port_payload. cbn [determinate].
  erewrite bind_ret_eq by reflexivity. cbn [number port_values abs_port fst snd].
  rewrite (bind_ret_eq _ _ _ _ _ Hp). unfold mbind at 1, M_bind at 1.
  rewrite (for_each_spec _ show_values _ (seen no_values (lp_vals p))).
  - by destruct (mapM show_values _).
  - induction (seen no_values (lp_vals p)); constructor; auto using print_values_spec.
Qed.

Lemma print_switch_spec s sw :
  readable_switch s sw -> print_switch (switch_payload sw) s = determinate (show_switch (abs_switch sw)) s.
Proof.
  intros [Hw Hp]. unfold print_switch, show_switch, switch_payload. cbn [determinate].
  erewrite bind_ret_eq by reflexivity. cbn [sw_name port_list abs_switch fst snd].
  rewrite (bind_ret_eq _ _ _ _ _ Hw). unfold mbind at 1, M_bind at 1.
  rewrite (for_each_spec _ (fun o => o ≫= show_port) _ (seen None (map Some (map abs_port (ls_ports sw))))).
  - by destruct (mapM _ _).
  - apply Forall2_seen; [done|]. rewrite map_map. apply Forall2_maps.
    eapply Forall_impl; [exact Hp|]. intros p. apply print_port_spec.
Qed.

Lemma print_db_spec s head db :
  readable_db s head db -> switch_print_list head s = determinate (show_db db) s.
Proof.
  intros (sws & <- & Hf & Hw). unfold switch_print_list, show_db. rewrite (bind_ret_eq _ _ _ _ _ Hw).
  apply for_each_spec, Forall2_seen; [done|]. rewrite map_map. apply Forall2_maps.
  eapply Forall_impl; [exact Hf|]. intros sw. apply print_switch_spec.
Qed.

(** ** Freeing *)
Section Free.
Context (gv : gmap positive t_port_values_list) (gp : gmap positive t_port_list)
  (gs : gmap positive t_switch_list).

Lemma free_values_chain xs : forall fuel s vs ps ss,
  holds gv gp gs s (chain_cells xs NULL ++ vs) ps ss -> (length xs < fuel)%nat ->
  exists s', free_values fuel (chain_head xs NULL) s = Ret tt s' /\ holds gv gp gs s' vs ps ss.
Proof.
  induction xs as [|[l [a z]] xs IH]; intros fuel s vs ps ss Hh Hf;
    (destruct fuel as [|fuel]; [simpl in Hf; lia|]); [by exists s|].
  simpl in *. destruct Hh as [Hv Hp Hs].
  rewrite (bind_ret_eq _ _ _ _ _ (lift_read (T := lmem t_port_values) _ s _ (lload_elem _ _ _ _ _ Hv ltac:(left)))).
  destruct (lfree_head _ _ _ _ _ Hv) as (m' & He & Hr & _).
  rewrite (bind_ret_eq _ _ _ _ _ (lift_ret_eq (T := lmem t_port_values) _ s _ _ He)). apply IH; [by split|lia].
Qed.

Lemma free_values_list xs s vs ps ss :
  holds gv gp gs s (chain_cells xs NULL ++ vs) ps ss ->
  exists s', free_values (walk_fuel (values_heap s)) (chain_head xs NULL) s = Ret tt s' /\
    holds gv gp gs s' vs ps ss.
Proof.
  intros Hh. apply free_values_chain; [done|]. destruct Hh as [Hv _ _]. apply rep_size in Hv.
  rewrite length_app, length_chain_cells in Hv. unfold walk_fuel. lia.
Qed.

Lemma free_ports_chain xs : forall lps fuel s vs ps ss,
  payloads xs = map port_payload lps ->
  holds gv gp gs s (vcells lps ++ vs) (chain_cells xs NULL ++ ps) ss -> (length xs < fuel)%nat ->
  exists s', free_ports fuel (chain_head xs NULL) s = Ret tt s' /\ holds gv gp gs s' vs ps ss.
Proof.
  induction xs as [|[l [a z]] xs IH]; intros lps fuel s vs ps ss Hpl Hh Hf;
    (destruct fuel as [|fuel]; [simpl in Hf; lia|]); destruct lps as [|p lps]; try done; [by exists s|].
  simpl in *. injection Hpl as -> Hpl. destruct Hh as [Hv Hp Hs].
  rewrite (bind_ret_eq _ _ _ _ _ (lift_read (T := lmem (option t_port)) _ s _ (lload_elem _ _ _ _ _ Hp ltac:(left)))).
  cbn [n_data determinate]. erewrite bind_ret_eq by reflexivity. unfold get.
  unfold mbind at 1, M_bind at 1. cbn [port_values].
  unfold vcells in Hv. cbn [map concat] in Hv. rewrite <- app_assoc in Hv. fold (vcells lps) in Hv.
  destruct (free_values_list _ _ _ _ _ (Holds _ _ _ _ _ _ _ Hv Hp Hs)) as (s1 & He1 & [Hv1 Hp1 Hs1]).
  rewrite (bind_ret_eq _ _ _ _ _ He1). destruct (lfree_head _ _ _ _ _ Hp1) as (m' & He & Hr & _).
  rewrite (bind_ret_eq _ _ _ _ _ (lift_ret_eq (T := lmem (option t_port)) _ s1 _ _ He)).
  apply (IH lps); [done|by split|lia].
Qed.

Lemma free_switches_chain xs : forall sws fuel s vs ps,
  payloads xs = map switch_payload sws -> Forall wf_switch sws ->
  Forall (fun sw => ls_ports sw <> []) sws ->
  holds gv gp gs s (db_vcells sws ++ vs) (db_pcells sws ++ ps) (chain_cells xs NULL) ->
  (length xs < fuel)%nat ->
  exists s', free_switches fuel (chain_head xs NULL) s = Ret tt s' /\ holds gv gp gs s' vs ps [].
Proof.
  induction xs as [|[l [a z]] xs IH]; intros sws fuel s vs ps Hpl Hw Hne Hh Hf;
    (destruct fuel as [|fuel]; [simpl in Hf; lia|]); destruct sws as [|sw sws]; try done; [by exists s|].
  simpl in *. injection Hpl as -> Hpl. inversion_clear Hw as [|? ? [Hd _] Hw'].
  inversion_clear Hne as [|? ? Hn Hne']. destruct Hh as [Hv Hp Hs].
  rewrite (bind_ret_eq _ _ _ _ _ (lift_read (T := lmem (option t_switch)) _ s _ (lload_elem _ _ _ _ _ Hs ltac:(left)))).
  cbn [n_data determinate]. erewrite bind_ret_eq by reflexivity. unfold get.
  unfold mbind at 1, M_bind at 1. cbn [port_list].
  unfold db_vcells, db_pcells in Hv, Hp. cbn [map concat] in Hv, Hp. rewrite <- app_assoc in Hv, Hp.
  destruct (free_ports_chain (ls_chain sw) (ls_ports sw) (walk_fuel (ports_heap s)) s
    (db_vcells sws ++ vs) (db_pcells sws ++ ps) ((l, LNode (switch_payload sw) z (chain_head xs NULL)) :: chain_cells xs NULL))
    as (s1 & He1 & [Hv1 Hp1 Hs1]).
  { rewrite (chain_data_seen _ _ _ Hd). by destruct (ls_ports sw). }
  { by split. }
  { apply rep_size in Hp. rewrite length_app, length_chain_cells in Hp. unfold walk_fuel. lia. }
  rewrite (bind_ret_eq _ _ _ _ _ He1). destruct (lfree_head _ _ _ _ _ Hs1) as (m' & He & Hr & _).
  rewrite (bind_ret_eq _ _ _ _ _ (lift_ret_eq (T := lmem (option t_switch)) _ s1 _ _ He)).
  apply (IH sws); [done..|by split|lia].
Qed.

(** free_switch_list of a database in which no list of ports is empty. *)
Lemma free_db s head db :
  db_at gv gp gs s head db [] [] -> db <> [] -> Forall (fun sw : aswitch => snd sw <> []) db ->
  exists s', free_switch_list head s = Ret tt s' /\ holds gv gp gs s' [] [] [].
Proof.
  intros (sxs & sws & -> & <- & Hd & Hw & Hh) Hne Hps.
  assert (payloads sxs = map switch_payload sws) as Hpl
    by (rewrite (chain_data_seen _ _ _ Hd); by destruct sws).
  assert (length sxs < walk_fuel (switches_heap s))%nat as Hf.
  { destruct Hh as [_ _ Hs]. apply rep_size in Hs. rewrite length_chain_cells in Hs. unfold walk_fuel. lia. }
  unfold free_switch_list, get, mbind, M_bind. apply (free_switches_chain _ sws); [done|done| |by rewrite !app_nil_r|done].
  rewrite Forall_map in Hps. eapply Forall_impl; [exact Hps|]. intros sw Hn Hp. apply Hn.
  unfold abs_switch. simpl. by rewrite Hp.
Qed.
End Free.
