(* ===== verification/SwitchThms.v ===== *)
(** * What switch.c and utils.c promise

    The list routines, a database built, printed and freed through the interface
    of switch.h, reading files, and the reinterpretation of decimal numerals as
    binary ones. *)

From S2P Require Import Prelude HeapRep CLib LinkedList Utils Switch SwitchRep.

(** ** Building a database through the interface of switch.h *)
Section Build.
Context (junk_size : Z) (junk_next : ptr) (oom : nat -> bool).

Fixpoint push_all {A} (push : A -> M smem unit) (xs : list A) : M smem unit :=
  match xs with [] => mret tt | x :: xs => _ ← push x; push_all push xs end.

Definition build_port (p : aport) : M smem t_port :=
  head ← switch_create_port_values_list junk_size junk_next oom;
  _ ← push_all (port_values_push junk_size junk_next oom head) (snd p);
  mret (Port (fst p) head).

Definition push_ports_of (sw : aswitch) : M smem t_switch :=
  head ← switch_create_port_list junk_size junk_next oom;
  _ ← push_all (fun p => pt ← build_port p; port_push junk_size junk_next oom head pt) (snd sw);
  mret (Switch (fst sw) head).

Definition build_db (db : list aswitch) : M smem ptr :=
  head ← switch_create_list junk_size junk_next oom;
  _ ← push_all (fun a => sw ← push_ports_of a; switch_push junk_size junk_next oom head sw) db;
  mret head.

Context (no_oom : forall n, oom n = false).
Context (gv : gmap positive t_port_values_list) (gp : gmap positive t_port_list)
  (gs : gmap positive t_switch_list).

Lemma push_values_all vals : forall xs data s vs ps ss,
  chain_data no_values xs data -> holds gv gp gs s (chain_cells xs NULL ++ vs) ps ss ->
  exists xs' s', push_all (port_values_push junk_size junk_next oom (chain_head xs NULL)) vals s = Ret tt s' /\
    chain_head xs' NULL = chain_head xs NULL /\ chain_data no_values xs' (data ++ vals) /\
    holds gv gp gs s' (chain_cells xs' NULL ++ vs) ps ss.
Proof.
  induction vals as [|v vals IH]; intros xs data s vs ps ss Hd Hh; simpl.
  { exists xs, s. by rewrite app_nil_r. }
  destruct (push_values junk_size junk_next oom no_oom gv gp gs _ _ v _ _ _ _ Hd Hh)
    as (xs1 & s1 & He & Hx1 & Hd1 & Hh1).
  rewrite (bind_ret_eq _ _ _ _ _ He), <- Hx1.
  destruct (IH _ _ _ _ _ _ Hd1 Hh1) as (xs2 & s2 & He2 & Hx2 & Hd2 & Hh2).
  exists xs2, s2. rewrite <- app_assoc in Hd2. rewrite He2. split_and!; congruence || done.
Qed.

Lemma build_port_spec p s vs ps ss :
  holds gv gp gs s vs ps ss ->
  exists lp s', build_port p s = Ret (Port (lp_num lp) (chain_head (lp_chain lp) NULL)) s' /\
    abs_port lp = p /\ wf_port lp /\ holds gv gp gs s' (chain_cells (lp_chain lp) NULL ++ vs) ps ss.
Proof.
  intros Hh. unfold build_port.
  destruct (create_values junk_size junk_next oom no_oom gv gp gs _ _ _ _ Hh) as (xs & s1 & He1 & Hc1 & Hh1).
  rewrite (bind_ret_eq _ _ _ _ _ He1).
  destruct (push_values_all (snd p) _ _ _ _ _ _ Hc1 Hh1) as (xs2 & s2 & He2 & Hx2 & Hd2 & Hh2).
  rewrite (bind_ret_eq _ _ _ _ _ He2), <- Hx2. exists (LPort (fst p) (snd p) xs2), s2. by destruct p.
Qed.

Lemma push_ports_all aps : forall pxs lps s vs ps ss,
  chain_data None pxs (map port_payload lps) -> Forall wf_port lps ->
  holds gv gp gs s (vcells lps ++ vs) (chain_cells pxs NULL ++ ps) ss ->
  exists pxs' lps' s', push_all (fun p => pt ← build_port p;
      port_push junk_size junk_next oom (chain_head pxs NULL) pt) aps s = Ret tt s' /\
    chain_head pxs' NULL = chain_head pxs NULL /\ map abs_port lps' = map abs_port lps ++ aps /\
    chain_data None pxs' (map port_payload lps') /\ Forall wf_port lps' /\
    holds gv gp gs s' (vcells lps' ++ vs) (chain_cells pxs' NULL ++ ps) ss.
Proof.
  induction aps as [|p aps IH]; intros pxs lps s vs ps ss Hd Hw Hh; cbn [push_all].
  { exists pxs, lps, s. by rewrite app_nil_r. }
  destruct (build_port_spec p _ _ _ _ Hh) as (lp & s1 & He1 & Ha & Hwp & Hh1).
  assert (exists pxs1 s2, (pt ← build_port p; port_push junk_size junk_next oom (chain_head pxs NULL) pt) s = Ret tt s2 /\
    chain_head pxs1 NULL = chain_head pxs NULL /\ chain_data None pxs1 (map port_payload (lps ++ [lp])) /\
    holds gv gp gs s2 (vcells (lps ++ [lp]) ++ vs) (chain_cells pxs1 NULL ++ ps) ss)
    as (pxs1 & s2 & He2 & Hx2 & Hd2 & Hh2).
  { rewrite (bind_ret_eq _ _ _ _ _ He1).
    destruct (push_ports junk_size junk_next oom no_oom gv gp gs _ _ (Port (lp_num lp) (chain_head (lp_chain lp) NULL))
      _ _ _ _ Hd Hh1) as (pxs1 & s2 & He2 & Hx2 & Hd2 & Hh2).
    exists pxs1, s2. rewrite map_app. split_and!; [done..|].
    eapply holds_proper; [|reflexivity|reflexivity|exact Hh2]. unfold vcells. rewrite map_app, concat_app.
    simpl. solve_Permutation. }
  rewrite (bind_ret_eq _ _ _ _ _ He2), <- Hx2.
  destruct (IH pxs1 (lps ++ [lp]) s2 vs ps ss) as (pxs3 & lps3 & s3 & He3 & Hx3 & Ha3 & Hd3 & Hw3 & Hh3); try done.
  { apply Forall_app. split; [done|]. by apply Forall_singleton. }
  exists pxs3, lps3, s3. rewrite He3, Ha3, map_app. cbn [map]. rewrite Ha, <- app_assoc.
  split_and!; congruence || done.
Qed.

Lemma build_switches db : forall head db0 s,
  db_at gv gp gs s head db0 [] [] ->
  exists s', push_all (fun a => sw ← push_ports_of a; switch_push junk_size junk_next oom head sw) db s = Ret tt s' /\
    db_at gv gp gs s' head (db0 ++ db) [] [].
Proof.
  induction db as [|a db IH]; intros head db0 s Hdb; cbn [push_all].
  { exists s. by rewrite app_nil_r. }
  pose proof Hdb as (sxs & sws & Hhd & Hab & Hcd & Hwf & Hh).
  destruct (create_ports junk_size junk_next oom no_oom gv gp gs _ _ _ _ Hh) as (pxs & s1 & He1 & Hc1 & Hh1).
  destruct (push_ports_all (snd a) pxs [] s1 _ _ _ Hc1 (Forall_nil_2 _) Hh1)
    as (pxs2 & lps & s2 & He2 & Hx2 & Ha2 & Hd2 & Hw2 & Hh2).
  assert (push_ports_of a s = Ret (Switch (fst a) (chain_head pxs2 NULL)) s2) as Hb.
  { unfold push_ports_of. rewrite (bind_ret_eq _ _ _ _ _ He1), (bind_ret_eq _ _ _ _ _ He2). by rewrite Hx2. }
  destruct (push_switch junk_size junk_next oom no_oom gv gp gs s2 head db0 (LSwitch (fst a) lps pxs2) [] [])
    as (s3 & He3 & Hdb3).
  { by split. }
  { exists sxs, sws. split_and!; try done. cbn [ls_ports ls_chain]. by rewrite !app_nil_r. }
  assert (abs_switch (LSwitch (fst a) lps pxs2) = a) as Hsw
    by (unfold abs_switch; simpl; rewrite Ha2; by destruct a).
  rewrite Hsw in Hdb3. destruct (IH head _ s3 Hdb3) as (s4 & He4 & Hdb4).
  assert ((sw ← push_ports_of a; switch_push junk_size junk_next oom head sw) s = Ret tt s3) as Hone
    by by rewrite (bind_ret_eq _ _ _ _ _ Hb).
  exists s4. rewrite (bind_ret_eq _ _ _ _ _ Hone). by rewrite <- app_assoc in Hdb4.
Qed.
End Build.

Lemma build_db_spec junk_size junk_next oom (no_oom : forall n, oom n = false) db s :
  exists head s', build_db junk_size junk_next oom db s = Ret head s' /\
    db_at (lcells (values_heap s)) (lcells (ports_heap s)) (lcells (switches_heap s)) s' head db [] [].
Proof.
  destruct (create_db junk_size junk_next oom no_oom (lcells (values_heap s)) (lcells (ports_heap s))
    (lcells (switches_heap s)) s) as (head & s1 & He1 & Hdb1); [split; apply rep_nil|].
  destruct (build_switches junk_size junk_next oom no_oom _ _ _ db head [] s1 Hdb1) as (s2 & He2 & Hdb2).
  exists head, s2. unfold build_db. rewrite (bind_ret_eq _ _ _ _ _ He1), (bind_ret_eq _ _ _ _ _ He2). done.
Qed.

(** ** The theorems on lists *)
Section ListThms.
Context {A : Type} (indet : A) (junk_size : Z) (junk_next : ptr) (oom : nat -> bool).

Fixpoint list_fill (head : ptr) (xs : list A) : M (lmem A) unit :=
  match xs with
  | [] => mret tt
  | x :: xs => _ ← list_push indet junk_size junk_next oom head x; list_fill head xs
  end.

Lemma fill_chain cs g (no_oom : forall n, oom n = false) xs : forall ch data m,
  chain_data indet ch data -> rep (chain_cells ch NULL ++ cs) g (lcells m) ->
  exists ch' m', list_fill (chain_head ch NULL) xs m = Ret tt m' /\ chain_head ch' NULL = chain_head ch NULL /\
    chain_data indet ch' (data ++ xs) /\ rep (chain_cells ch' NULL ++ cs) g (lcells m').
Proof.
  induction xs as [|x xs IH]; intros ch data m Hd Hr; simpl.
  { exists ch, m. by rewrite app_nil_r. }
  destruct (push_chain indet junk_size junk_next oom _ _ _ _ _ x Hd Hr no_oom) as (ch1 & m1 & He & Hh & Hd1 & Hr1).
  rewrite (bind_ret_eq _ _ _ _ _ He), <- Hh. destruct (IH _ _ _ Hd1 Hr1) as (ch2 & m2 & He2 & Hh2 & Hd2 & Hr2).
  exists ch2, m2. rewrite <- app_assoc in Hd2. rewrite He2. split_and!; congruence || done.
Qed.
End ListThms.

(** C11. The list types of switch.c implement sequences: creating a list and
    pushing [xs] one after the other (whatever the memory returned by malloc
    contained) gives a list whose walk yields [xs] in order, the unwritten payload
    of the head when nothing was pushed, and changes no other list. *)
Theorem list_push_sequence {A} (indet : A) junk_size junk_next oom xs m :
  (forall n, oom n = false) ->
  exists head m1 m2, list_create indet junk_size junk_next oom m = Ret head m1 /\
    list_fill indet junk_size junk_next oom head xs m1 = Ret tt m2 /\
    walk_list head m2 = Ret (seen indet xs) m2 /\
    lcells m ⊆ lcells m2 /\ size (lcells m2) = (size (lcells m) + length (seen indet xs))%nat.
Proof.
  intros Ho. destruct (create_chain indet junk_size junk_next oom [] (lcells m) m (rep_nil _) (Ho _))
    as (ch & m1 & He & _ & Hd & _ & Hr).
  destruct (fill_chain indet junk_size junk_next oom [] _ Ho xs ch [] m1 Hd Hr) as (ch2 & m2 & He2 & Hh & Hd2 & Hr2).
  exists (chain_head ch NULL), m1, m2. apply chain_data_seen in Hd2 as Hs. cbn [app] in Hs.
  split; [done|]. split; [done|]. split; [rewrite <- Hh, <- Hs; by eapply walk_list_chain|].
  split; [by eapply rep_frame_subseteq|]. rewrite (rep_size _ _ _ Hr2), app_nil_r, length_chain_cells.
  rewrite <- Hs. unfold payloads. rewrite length_map. lia.
Qed.

Definition periods : list Z := [10; 20; 30].

Lemma list_push_sequence_witness :
  exists head m1 m2, list_create 0 7 (Some 3%positive) (fun _ => false) (LMem ∅ 0) = Ret head m1 /\
    list_fill 0 7 (Some 3%positive) (fun _ => false) head periods m1 = Ret tt m2 /\
    walk_list head m2 = Ret (seen 0 periods) m2 /\
    lcells (LMem ∅ 0) ⊆ lcells m2 /\
    size (lcells m2) = (size (lcells (LMem (A := Z) ∅ 0)) + length (seen 0%Z periods))%nat.
Proof. apply list_push_sequence. reflexivity. Defined.

(** A push whose malloc fails has undefined behaviour on every list that
    already holds an element: the new node is used without a check. *)
Theorem list_push_oom {A} (indet : A) junk_size junk_next oom ch data cs g m a :
  chain_data indet ch data -> data <> [] -> rep (chain_cells ch NULL ++ cs) g (lcells m) ->
  oom (lcalls m) = true ->
  list_push indet junk_size junk_next oom (chain_head ch NULL) a m = Undef.
Proof.
  intros Hd Hne Hr Ho. destruct data as [|a0 data]; [done|]. destruct Hd as [Hd Hs].
  destruct ch as [|[l [b z]] ch] using rev_ind; [done|]. clear IHch. unfold list_push.
  assert (exists n, (n_size n =? 0) = false /\ lload (chain_head (ch ++ [(l, (b, z))]) NULL) m = Ret n m) as (n & Hn & Hl).
  { destruct ch as [|[l0 [b0 z0]] ch]; simpl in *; eexists;
      (split; [|by eapply lload_elem; [exact Hr|left]]); simpl; lia. }
  rewrite (bind_ret_eq _ _ _ _ _ Hl), Hn. unfold mbind at 1, M_bind at 1, get.
  pose proof (rep_size _ _ _ Hr) as Hsz. rewrite length_app, length_chain_cells, length_app in Hsz. simpl in Hsz.
  rewrite (bind_ret_eq _ _ _ _ _ (find_last_chain ch l b z cs g m (walk_fuel m) Hr ltac:(unfold walk_fuel; lia))).
  assert (lmalloc indet junk_size junk_next oom m = Ret NULL (LMem (lcells m) (S (lcalls m)))) as Hm
    by (unfold lmalloc; by rewrite Ho).
  rewrite (bind_ret_eq _ _ _ _ _ Hm). rewrite chain_cells_app in Hr. simpl in Hr.
  assert (rep ((l, LNode b z NULL) :: chain_cells ch (Some l) ++ cs) g (lcells m)) as Hr'
    by (eapply rep_proper; [|done..|exact Hr]; solve_Permutation).
  destruct (lstore_head _ _ (LMem (lcells m) (S (lcalls m))) _ _ (put_next NULL) Hr') as (m2 & He2 & Hr2 & _).
  rewrite (bind_ret_eq _ _ _ _ _ He2).
  by rewrite (bind_ret_eq _ _ _ _ _ (lload_elem _ _ _ _ _ Hr2 ltac:(left))).
Qed.

Definition one_cell : lmem Z := LMem {[1%positive := LNode 10 1 NULL]} 0.

Lemma list_push_oom_witness :
  chain_data 0 [(1%positive, (10, 1))] [10] /\
  list_push 0 7 NULL (fun _ => true) (chain_head [(1%positive, (10, 1))] NULL) 20 one_cell = Undef.
Proof.
  split; [split; reflexivity|]. apply (list_push_oom 0 7 NULL (fun _ => true) _ [10] [] ∅).
  - split; reflexivity.
  - discriminate.
  - split; [repeat constructor; set_solver|]. split; [vm_compute; reflexivity|apply map_disjoint_empty_r].
  - reflexivity.
Defined.

(** C13. A database built with the interface of switch.h: printing it gives the
    report of its switches, ports and values in order, and is undefined exactly
    when the report would need an unwritten field. *)
Theorem database_print junk_size junk_next oom db s :
  (forall n, oom n = false) ->
  exists head s', build_db junk_size junk_next oom db s = Ret head s' /\
    switch_print_list head s' = match show_db db with Some text => Ret text s' | None => Undef end.
Proof.
  intros Ho. destruct (build_db_spec junk_size junk_next oom Ho db s) as (head & s' & He & Hdb).
  exists head, s'. split; [done|]. rewrite (print_db_spec _ _ _ (db_readable _ _ _ _ _ _ _ _ Hdb)).
  by destruct (show_db db).
Qed.

Definition empty_db : smem := SMem (LMem ∅ 0) (LMem ∅ 0) (LMem ∅ 0).
Definition sample_db : list aswitch :=
  [(lit "alpha", [(1, [PortValues (Some 5) (Some 10); PortValues (Some 7) (Some 1)]); (2, [PortValues (Some 9) (Some 0)])]);
   (lit "beta", [(4, [PortValues (Some 100) (Some 11)])])].

Lemma database_print_witness :
  is_Some (show_db sample_db) /\
  exists head s', build_db 7 (Some 5%positive) (fun _ => false) sample_db empty_db = Ret head s' /\
    switch_print_list head s' = match show_db sample_db with Some text => Ret text s' | None => Undef end.
Proof. split; [vm_compute; eauto|]. apply database_print. reflexivity. Defined.

(** C14. free_switch_list releases exactly the lists of the database: built in any
    state and freed, it leaves the three heaps as they were, provided the database
    has a switch and every switch a port. *)
Theorem database_free junk_size junk_next oom db s :
  (forall n, oom n = false) -> db <> [] -> Forall (fun sw : aswitch => snd sw <> []) db ->
  exists head s' s'', build_db junk_size junk_next oom db s = Ret head s' /\
    free_switch_list head s' = Ret tt s'' /\
    lcells (values_heap s'') = lcells (values_heap s) /\
    lcells (ports_heap s'') = lcells (ports_heap s) /\
    lcells (switches_heap s'') = lcells (switches_heap s).
Proof.
  intros Ho Hne Hps. destruct (build_db_spec junk_size junk_next oom Ho db s) as (head & s' & He & Hdb).
  destruct (free_db _ _ _ _ _ _ Hdb Hne Hps) as (s'' & Hf & [Hv Hp Hs]).
  exists head, s', s''. split_and!; [done..|by apply rep_nil_inv|by apply rep_nil_inv|by apply rep_nil_inv].
Qed.

Lemma database_free_witness :
  exists head s' s'', build_db 7 (Some 5%positive) (fun _ => false) sample_db empty_db = Ret head s' /\
    free_switch_list head s' = Ret tt s'' /\
    lcells (values_heap s'') = lcells (values_heap empty_db) /\
    lcells (ports_heap s'') = lcells (ports_heap empty_db) /\
    lcells (switches_heap s'') = lcells (switches_heap empty_db).
Proof. apply database_free; [reflexivity|discriminate|repeat constructor; discriminate]. Defined.
