(* ===== verification/Client.v ===== *)
(** * App/Client/Main.c: from the JSON configuration to NETCONF instance files

    The whole client: reading and parsing the configuration, filling the switch
    database from the document (read_json, read_values), printing it, and writing
    one IEEE 802.1Qbv instance file per switch. *)

From Stdlib Require Import SpecFloat.
From S2P Require Import Prelude CLib Utils JsonLex JsonMem JsonApi LinkedList Switch.

(** The state of the process: the node heap, the database heaps, the stdio
    handles, the files written and the standard output. *)
Record world := World {
  w_json : jmem;
  w_db : smem;
  w_io : uio;
  w_files : gmap (list ascii) (list ascii);
  w_out : list ascii }.

#[global] Program Instance lens_json : Lens world jmem := {|
  view := w_json;
  upd v s := World v (w_db s) (w_io s) (w_files s) (w_out s) |}.
Solve All Obligations with by intros; repeat match goal with s : world |- _ => destruct s end.

#[global] Program Instance lens_db : Lens world smem := {|
  view := w_db;
  upd v s := World (w_json s) v (w_io s) (w_files s) (w_out s) |}.
Solve All Obligations with by intros; repeat match goal with s : world |- _ => destruct s end.

#[global] Program Instance lens_io : Lens world uio := {|
  view := w_io;
  upd v s := World (w_json s) (w_db s) v (w_files s) (w_out s) |}.
Solve All Obligations with by intros; repeat match goal with s : world |- _ => destruct s end.

Definition print_out (text : list ascii) : M world unit := modify (fun s =>
  World (w_json s) (w_db s) (w_io s) (w_files s) (w_out s ++ text)).

Definition write_file (path text : list ascii) : M world unit := modify (fun s =>
  World (w_json s) (w_db s) (w_io s) (<[path := text]> (w_files s)) (w_out s)).

(** A line of output: [n] tabs, the text, a newline. *)
Definition line (n : nat) (s : list ascii) : list ascii := replicate n tab ++ s ++ [newline].

(** An element with text content: <tag>text</tag> *)
Definition elem (tag : string) (text : list ascii) : list ascii :=
  lit "<" ++ lit tag ++ lit ">" ++ text ++ lit "</" ++ lit tag ++ lit ">".

(** ** The environment: readable files, allocation failures, unwritten memory,
    and the paths fopen can create. *)
Record env := Env {
  fs : list ascii -> option stream;
  malloc_text : bool;
  json_oom : nat -> bool;
  db_oom : nat -> bool;
  junk_size : Z;
  junk_next : ptr;
  can_write : list ascii -> bool }.

Section Client.
Context (e : env).

(** Main.c: parse *)
Definition parse (path : list ascii) : M world ptr :=
  buf ← lift (file_read (fs e) (malloc_text e) path);
  match buf with
  | None => exit_with 1
  | Some b =>
      match buffer_string b with
      | None => undef
      | Some text =>
          node ← lift (json_parse (json_oom e) text);
          match node with
          | None => exit_with 1
          | Some _ => mret node
          end
      end
  end.

(** data = json_item(node, i); if (json_is_real(data)) field = json_real(data); *)
Definition read_item (node : ptr) (i : nat) (assign : Z -> t_port_values) (current : t_port_values)
  : M world t_port_values :=
  data ← lift (json_item node i);
  real ← lift (json_is_real data);
  if real : bool then v ← lift (json_real data); mret (assign v) else mret current.

(** Main.c: read_values; [current] is the local struct, uninitialised at first
    and reused by every iteration. *)
Fixpoint read_values_loop (fuel : nat) (node : ptr) (current : t_port_values) (list : ptr)
  : M world unit :=
  match fuel with
  | O => no_fuel
  | S fuel =>
      match node with
      | None => mret tt
      | Some _ =>
          current ← read_item node 0 (fun v => PortValues (Some v) (gate_states current)) current;
          current ← read_item node 1 (fun v => PortValues (period current) (Some (wrap_int v))) current;
          node ← lift (json_next node);
          _ ← lift (port_values_push (junk_size e) (junk_next e) (db_oom e) list current);
          read_values_loop fuel node current list
      end
  end.

Definition read_values (node list : ptr) : M world unit :=
  node ← lift (json_item node 0);
  s ← get;
  read_values_loop (chain_fuel (w_json s)) node no_values list.

(** The body of the loop over the port list. *)
Definition read_port (ports n_port : ptr) : M world unit :=
  vals ← lift (switch_create_port_values_list (junk_size e) (junk_next e) (db_oom e));
  p ← lift (json_node n_port (lit "port_number"));
  num ← lift (json_real p);
  v ← lift (json_node n_port (lit "values"));
  _ ← read_values v vals;
  lift (port_push (junk_size e) (junk_next e) (db_oom e) ports (Port (wrap_int num) vals)).

Fixpoint port_loop (fuel : nat) (i : nat) (ports data_port_list : ptr) : M world unit :=
  match fuel with
  | O => no_fuel
  | S fuel =>
      n ← lift (json_items data_port_list);
      if (i <? n)%nat then
        n_port ← lift (json_item data_port_list i);
        _ ← read_port ports n_port;
        port_loop fuel (S i) ports data_port_list
      else mret tt
  end.

(** strcpy into char name[MAX_SWITCH_NAME_LENGTH] *)
Definition strcpy_name {S} (src : option (list ascii)) : M S (list ascii) :=
  match src with
  | None => undef
  | Some s => if (length s <? MAX_SWITCH_NAME_LENGTH)%nat then mret s else undef
  end.

(** Main.c: read_json *)
Definition read_json (list node : ptr) : M world unit :=
  data_switch ← lift (json_node node (lit "switch"));
  is_str ← lift (json_is_string data_switch);
  if is_str : bool then
    ports ← lift (switch_create_port_list (junk_size e) (junk_next e) (db_oom e));
    s ← lift (json_string data_switch);
    name ← strcpy_name s;
    data_port_list ← lift (json_node node (lit "port_list"));
    is_arr ← lift (json_is_array data_port_list);
    _ ← (if is_arr : bool then
           w ← get; port_loop (chain_fuel (w_json w)) 0 ports data_port_list
         else
           _ ← print_out (lit "[ERROR]Missing port list in switch [" ++ printf_s s ++ lit "]..." ++ [newline]);
           exit_with 1);
    lift (switch_push (junk_size e) (junk_next e) (db_oom e) list (Switch name ports))
  else mret tt.

(** ** Writing the instance *)
Definition max_sdu_entry (i : Z) : list ascii :=
  line 2 (qt "<sched:max-sdu-table xmlns:sched='urn:ieee:std:802.1Q:yang:ieee802-dot1q-sched'>") ++
  line 3 (elem "sched:traffic-class" (show_Z i)) ++
  line 3 (elem "sched:queue-max-sdu" (lit "0")) ++
  line 2 (lit "</sched:max-sdu-table>").

(** Main.c: xml_write_port *)
Definition xml_write_port (port_number admin_control_list_length : Z) : list ascii :=
  line 1 (lit "<if:interface>") ++
  line 2 (elem "if:name" (show_Z port_number)) ++
  line 2 (qt "<if:type xmlns:iftype='urn:ietf:params:xml:ns:yang:iana-if-type'>iftype:ethernetCsmacd</if:type>") ++
  concat (map max_sdu_entry (map Z.of_nat (seq 0 8))) ++
  line 2 (qt "<sched:gate-parameters xmlns:sched='urn:ieee:std:802.1Q:yang:ieee802-dot1q-sched'>") ++
  line 3 (elem "sched:gate-enabled" (lit "true")) ++
  line 3 (elem "sched:admin-gate-states" (lit "0")) ++
  line 3 (elem "sched:admin-control-list-length" (show_Z admin_control_list_length)).

(** Main.c: xml_write_values *)
Definition xml_write_values (period gate_states index : Z) : list ascii :=
  line 3 (lit "<sched:admin-control-list>") ++
  line 4 (elem "sched:index" (show_Z index)) ++
  line 4 (elem "sched:operation-name" (lit "sched:set-gate-states")) ++
  line 4 (lit "<sched:sgs-params>") ++
  line 5 (elem "sched:gate-states-value" (show_Z gate_states)) ++
  line 5 (elem "sched:time-interval-value" (show_Z period)) ++
  line 4 (lit "</sched:sgs-params>") ++
  line 3 (lit "</sched:admin-control-list>").

(** Main.c: xml_write_values_end; the conversion of the quotient to int is
    undefined when it is out of range. *)
Definition xml_write_values_end (hypercycle : float) : option (list ascii) :=
  match int_of_float (float_div (float_of_Z 500) hypercycle) with
  | None => None
  | Some denominator =>
      Some (line 3 (lit "<sched:admin-cycle-time>") ++
            line 4 (elem "sched:numerator" (lit "500")) ++
            line 4 (elem "sched:denominator" (show_Z denominator)) ++
            line 3 (lit "</sched:admin-cycle-time>") ++
            line 3 (lit "<sched:admin-base-time>") ++
            line 4 (elem "sched:seconds" (lit "0")) ++
            line 4 (elem "sched:fractional-seconds" (lit "0")) ++
            line 3 (lit "</sched:admin-base-time>") ++
            line 3 (elem "sched:config-change" (lit "true")) ++
            line 2 (lit "</sched:gate-parameters>") ++
            line 1 (lit "</if:interface>"))
  end.

(** The two loops that compute hypercycle: each value assigns it. *)
Fixpoint hypercycle_values (vs : list t_port_values) (h : float) : M world float :=
  match vs with
  | [] => mret h
  | v :: vs => p ← determinate (period v); hypercycle_values vs (float_of_Z p)
  end.

Fixpoint hypercycle_ports (ps : list (option t_port)) (h : float) : M world float :=
  match ps with
  | [] => mret h
  | o :: ps =>
      pt ← determinate o;
      vs ← lift (lift (walk_list (port_values pt)) : M smem _);
      h ← hypercycle_values vs h;
      hypercycle_ports ps h
  end.

(** The loop that writes the control list of a port. *)
Fixpoint xml_values (vs : list t_port_values) (index : Z) : M world (list ascii) :=
  match vs with
  | [] => mret []
  | v :: vs =>
      p ← determinate (period v);
      g ← determinate (gate_states v);
      match binaryToDecimal g with
      | None => no_fuel
      | Some None => undef
      | Some (Some d) =>
          rest ← xml_values vs (index + 1);
          mret (xml_write_values p d index ++ rest)
      end
  end.

Definition xml_port (hypercycle : float) (o : option t_port) : M world (list ascii) :=
  pt ← determinate o;
  vs ← lift (lift (walk_list (port_values pt)) : M smem _);
  if negb (in_int (Z.of_nat (length vs))) then undef
  else
    body ← xml_values vs 0;
    match xml_write_values_end hypercycle with
    | None => undef
    | Some tail => mret (xml_write_port (number pt) (Z.of_nat (length vs)) ++ body ++ tail)
    end.

(** sprintf(name_file, "%s.xml", name); strcat(path, name_file): name_file has
    MAX_SWITCH_NAME_LENGTH + 4 bytes, path 10 more. *)
Definition output_path {S} (name : list ascii) : M S (list ascii) :=
  let name_file := name ++ lit ".xml" in
  if negb (length name_file <? MAX_SWITCH_NAME_LENGTH + 4)%nat then undef
  else
    let path := lit "../Output/" ++ name_file in
    if negb (length path <? 10 + MAX_SWITCH_NAME_LENGTH + 4)%nat then undef
    else mret path.

(** The body of the loop over the switches. *)
Definition xml_switch (o : option t_switch) : M world (list ascii) :=
  sw ← determinate o;
  path ← output_path (sw_name sw);
  if negb (can_write e path) then undef
  else
    ps ← lift (lift (walk_list (port_list sw)) : M smem _);
    h ← hypercycle_ports ps (float_of_Z 0);
    body ← for_each (xml_port h) ps;
    _ ← write_file path
          (line 0 (qt "<?xml version='1.0' encoding='UTF-8'?>") ++
           line 0 (qt "<if:interfaces xmlns:if='urn:ietf:params:xml:ns:yang:ietf-interfaces'>") ++
           body ++ line 0 (lit "</if:interfaces>"));
    mret [].

(** Main.c: xml_write_instance *)
Definition xml_write_instance (list : ptr) : M world unit :=
  sws ← lift (lift (walk_list list) : M smem _);
  _ ← for_each xml_switch sws;
  print_out (lit "XML instance generated correctly..." ++ [newline]).

(** Main.c: main *)
Definition main : M world Z :=
  switch_list ← lift (switch_create_list (junk_size e) (junk_next e) (db_oom e));
  node ← parse (lit "../config.json");
  _ ← json_foreach (read_json switch_list) node;
  w ← get;
  _ ← lift (json_free (free_fuel (w_json w)) node);
  out ← lift (switch_print_list switch_list);
  _ ← print_out out;
  _ ← xml_write_instance switch_list;
  _ ← lift (free_switch_list switch_list);
  mret 0.
End Client.
