(* ===== verification/ClientParse.v ===== *)
(** * parse: reading and parsing a file

    The function parse, which Main.c, Main-david.c and json/main.c share: on a file
    that can be read it returns the document of its text, or exits with status 1. *)

From S2P Require Import Prelude HeapRep CLib JsonLex JsonTree JsonWf JsonMem JsonRep JsonApi.
From S2P Require Import JsonRefine JsonView JsonThms LinkedList Utils UtilsThms Switch SwitchRep Client.

(** ** The environment of a normal run: the file at [path] can be
    read and holds [text], and memory does not run out. *)
Record normal_env (e : env) (path text : list ascii) : Prop := NormalEnv {
  config_file : exists f, fs e path = Some f /\ cstr (contents f) = text /\ sound_stream f 0;
  config_malloc : malloc_text e = true;
  json_never : forall n, json_oom e n = false;
  db_never : forall n, db_oom e n = false }.

(** No node is lost while the text is parsed: it never reopens a container, or it
    is accepted without dropping a node. *)
Definition lossless (text : list ascii) : Prop :=
  reopen_free text = true \/ exists t, spec_parse_full text = Some (t, 0%nat).

(** ** Lemmas *)
Lemma json_run {A} (m : M jmem A) w a j :
  m (w_json w) = Ret a j -> lift m w = Ret a (World j (w_db w) (w_io w) (w_files w) (w_out w)).
Proof. intros H. exact (lift_ret_eq (T := jmem) m w a j H). Qed.

Lemma parse_text e path text w k : normal_env e path text ->
  parse e path w = k ->
  (node ← lift (json_parse (json_oom e) text);
   match node with None => exit_with 1 | Some _ => mret node end) w = k.
Proof.
  intros [(f & Hf & Ht & Hs) Hm _ _] <-. unfold parse. rewrite Hm.
  pose proof (file_data_buffer (fs e) _ f None None (w_io w) Hf Hs (or_introl eq_refl)) as Hr.
  cbn [affix default from_option id app] in Hr. rewrite app_nil_r in Hr.
  assert (lift (file_read (fs e) true path) w
    = Ret (Some ((Some <$> contents f) ++ [Some NUL])) w) as Hl.
  { exact (lift_read (T := uio) (file_read (fs e) true path) w _ Hr). }
  rewrite (bind_ret_eq _ _ _ _ _ Hl). by rewrite buffer_string_full, Ht.
Qed.

Lemma lossless_frame text (g g' : gmap loc json) t k :
  lossless text -> g' ⊆ g -> (reopen_free text = true -> g = g') ->
  spec_parse_full text = Some (t, k) -> k = (size g - size g')%nat -> g = g'.
Proof.
  intros [Hrf|(t' & Ht)] Hs Hg Hsp ->; [by apply Hg|]. rewrite Ht in Hsp. injection Hsp as _ Hk.
  symmetry. apply map_subseteq_size_eq; [done|]. lia.
Qed.

(** parse, when the configuration can be read. *)
Lemma parse_spec e path text w : normal_env e path text -> lossless text ->
  match spec_parse text with
  | Some t => exists p j, parse e path w
      = Ret p (World j (w_db w) (w_io w) (w_files w) (w_out w)) /\ stored (nodes (w_json w)) j p t
  | None => exists j, parse e path w
      = Exit 1 (World j (w_db w) (w_io w) (w_files w) (w_out w)) /\ nodes j = nodes (w_json w)
  end.
Proof.
  intros Hn Hrf. pose proof (parse_text e path text w _ Hn eq_refl) as Hp.
  destruct (parse_cases (json_oom e) text (w_json w)) as (p & j & g & He & Hs & Hg & Hc).
  rewrite (bind_ret_eq _ _ _ _ _ (json_run _ _ _ _ He)) in Hp. destruct p as [l|].
  - destruct Hc as (t & Hst & Hsp). rewrite (lossless_frame _ _ _ _ _ Hrf Hs Hg Hsp eq_refl) in Hst. rewrite (spec_full_parse _ _ _ Hsp). exists (Some l), j. by rewrite <- Hp.
  - destruct Hc as [Hnj [(i & _ & Ho)|Hsp]]; [by rewrite (json_never _ _ _ Hn) in Ho|].
    destruct Hrf as [Hrf|(t & Ht)]; [|congruence]. rewrite Hg in Hnj by done.
    rewrite (spec_none_parse _ Hsp). exists j. by rewrite <- Hp.
Qed.
