(* ===== verification/ClientRead.v ===== *)
(** * Reading the configuration: the document against the database

    [tree_switch] says what read_json of Main.c takes from a node of the document.
    The lemmas relate the code to it, using of json.c only the interface [DocApi]
    and of switch.c only the representation lemmas of SwitchRep. *)

From S2P Require Import Prelude HeapRep CLib Utils JsonLex JsonTree JsonWf JsonMem JsonApi.
From S2P Require Import JsonView LinkedList Switch SwitchRep Client.

(** ** The specification *)

(** The number in a node json_is_real accepts. *)
Definition read_real (o : option jtree) : option Z :=
  if from_option tree_is_real false o then Some (from_option (tree_convert 0 strtoul) 0 o) else None.

(** One round of read_values: a field keeps its previous value, or stays
    unwritten, when the item is missing or is not a natural number. *)
Definition next_values (cur : t_port_values) (t : jtree) : t_port_values :=
  PortValues
    (match read_real (tree_item 0 t) with Some v => Some v | None => period cur end)
    (match read_real (tree_item 1 t) with Some v => Some (wrap_int v) | None => gate_states cur end).

Fixpoint values_from (cur : t_port_values) (ts : list jtree) : list t_port_values :=
  match ts with
  | [] => []
  | t :: ts => next_values cur t :: values_from (next_values cur t) ts
  end.

Definition tree_values (o : option jtree) : list t_port_values :=
  values_from no_values (from_option kids [] o).

Definition tree_port (t : jtree) : aport :=
  (wrap_int (from_option (tree_convert 0 strtoul) 0 (tree_node (lit "port_number") t)),
   tree_values (tree_node (lit "values") t)).

Inductive reading :=
| Ignored                       (** not the description of a switch *)
| Added (sw : aswitch)
| Rejected (name : list ascii)  (** no list of ports: the process exits *)
| Overflow.                     (** the name does not fit in its buffer *)

Definition tree_switch (t : jtree) : reading :=
  match tree_node (lit "switch") t with
  | None => Ignored
  | Some ts =>
      if tree_has_type JSON_STRING ts then
        match d_value (label ts) with
        | None => Overflow
        | Some name =>
            if (length name <? MAX_SWITCH_NAME_LENGTH)%nat then
              match tree_node (lit "port_list") t with
              | Some tp => if tree_has_type JSON_ARRAY tp then Added (name, map tree_port (kids tp))
                           else Rejected name
              | None => Rejected name
              end
            else Overflow
        end
      else Ignored
  end.

Definition missing_ports (name : list ascii) : list ascii :=
  lit "[ERROR]Missing port list in switch [" ++ name ++ lit "]..." ++ [newline].

(** The world with another database. *)
Definition set_db (d : smem) (w : world) : world := upd d w.

Lemma set_db_id w : set_db (w_db w) w = w.
Proof. apply (upd_view (Lens := lens_db)). Qed.

Lemma json_read {A} (m : M jmem A) w a :
  m (w_json w) = Ret a (w_json w) -> lift m w = Ret a w.
Proof. intros H. exact (lift_read (T := jmem) m w a H). Qed.

Lemma db_run {A} (m : M smem A) w a d :
  m (w_db w) = Ret a d -> lift m w = Ret a (set_db d w).
Proof. intros H. exact (lift_ret_eq (T := smem) m w a d H). Qed.

Section Read.
Context {doc : jmem -> ptr -> option jtree -> Prop} {chain : jmem -> ptr -> list jtree -> Prop}
  {api : DocApi doc chain}.
Context (e : env) (no_oom : forall n, db_oom e n = false).
Context (gv : gmap positive t_port_values_list) (gp : gmap positive t_port_list)
  (gs : gmap positive t_switch_list).

Lemma read_item_spec node t i assign cur w :
  doc (w_json w) node (Some t) ->
  read_item node i assign cur w =
  Ret (match read_real (tree_item i t) with Some v => assign v | None => cur end) w.
Proof.
  intros Hd. destruct (api_item _ _ _ i Hd) as (data & He & Hdata). unfold read_item, read_real.
  rewrite (bind_ret_eq _ _ _ _ _ (json_read _ _ _ He)).
  rewrite (bind_ret_eq _ _ _ _ _ (json_read _ _ _ (api_is_real _ _ _ Hdata))).
  change (Some t ≫= tree_item i) with (tree_item i t) in *.
  destruct (from_option tree_is_real false (tree_item i t)); [|done].
  by rewrite (bind_ret_eq _ _ _ _ _ (json_read _ _ _ (api_real _ _ _ Hdata))).
Qed.

Lemma read_values_loop_spec ts : forall fuel node w cur xs data vs ps ss,
  (length ts < fuel)%nat -> chain (w_json w) node ts -> chain_data no_values xs data ->
  holds gv gp gs (w_db w) (chain_cells xs NULL ++ vs) ps ss ->
  exists xs' d, read_values_loop e fuel node cur (chain_head xs NULL) w = Ret tt (set_db d w) /\
    chain_head xs' NULL = chain_head xs NULL /\ chain_data no_values xs' (data ++ values_from cur ts) /\
    holds gv gp gs d (chain_cells xs' NULL ++ vs) ps ss.
Proof.
  induction ts as [|t ts IH]; intros fuel node w cur xs data vs ps ss Hf Hc Hd Hh;
    (destruct fuel as [|fuel]; [simpl in Hf; lia|]).
  { apply api_chain_nil in Hc as ->. exists xs, (w_db w). simpl. rewrite app_nil_r, set_db_id. done. }
  destruct (api_chain_cons _ _ _ _ Hc) as [l Hl]. destruct (api_next _ _ _ _ Hc) as [Hdoc (nxt & Hn & Hc')].
  cbn [read_values_loop]. rewrite Hl, <- Hl.
  rewrite (bind_ret_eq _ _ _ _ _ (read_item_spec _ _ 0 _ _ _ Hdoc)).
  rewrite (bind_ret_eq _ _ _ _ _ (read_item_spec _ _ 1 _ _ _ Hdoc)).
  match goal with |- context [read_values_loop e fuel _ ?c _] => replace c with (next_values cur t) end.
  2:{ unfold next_values. destruct (read_real (tree_item 0 t)), (read_real (tree_item 1 t)); try done; by destruct cur. }
  rewrite (bind_ret_eq _ _ _ _ _ (json_read _ _ _ Hn)).
  destruct (push_values (junk_size e) (junk_next e) (db_oom e) no_oom gv gp gs _ _ (next_values cur t) _ _ _ _ Hd Hh)
    as (xs1 & d1' & Hp & Hh1 & Hcd1 & Hhold1).
  rewrite (bind_ret_eq _ _ _ _ _ (db_run _ _ _ _ Hp)), <- Hh1.
  destruct (IH fuel nxt (set_db d1' w) (next_values cur t) xs1 _ vs ps ss ltac:(simpl in Hf; lia) Hc' Hcd1 Hhold1)
    as (xs2 & d2 & He2 & Hh2 & Hcd2 & Hhold2).
  exists xs2, d2. rewrite He2. unfold set_db. rewrite upd_upd. split; [done|]. split; [congruence|].
  split; [|done]. by rewrite <- app_assoc in Hcd2.
Qed.

Lemma read_values_spec node o w xs vs ps ss :
  doc (w_json w) node o -> chain_data no_values xs [] ->
  holds gv gp gs (w_db w) (chain_cells xs NULL ++ vs) ps ss ->
  exists xs' d, read_values e node (chain_head xs NULL) w = Ret tt (set_db d w) /\
    chain_head xs' NULL = chain_head xs NULL /\ chain_data no_values xs' (tree_values o) /\
    holds gv gp gs d (chain_cells xs' NULL ++ vs) ps ss.
Proof.
  intros Hd Hc Hh. destruct (api_children _ _ _ Hd) as (first & He & Hch). unfold read_values.
  rewrite (bind_ret_eq _ _ _ _ _ (json_read _ _ _ He)). unfold mbind at 1, M_bind at 1, get.
  eapply (read_values_loop_spec _ _ _ _ no_values _ []); [|done..]. by eapply api_chain_length.
Qed.

(** The ports under construction: a chain of ports and their values. *)
Definition ports_at (d : smem) (pxs : list (positive * (option t_port * Z))) (lps : list lport) vs ps ss : Prop :=
  chain_data None pxs (map port_payload lps) /\ Forall wf_port lps /\
  holds gv gp gs d (vcells lps ++ vs) (chain_cells pxs NULL ++ ps) ss.

Lemma read_port_spec n_port t w pxs lps vs ps ss :
  doc (w_json w) n_port (Some t) -> ports_at (w_db w) pxs lps vs ps ss ->
  exists pxs' p d, read_port e (chain_head pxs NULL) n_port w = Ret tt (set_db d w) /\
    chain_head pxs' NULL = chain_head pxs NULL /\ abs_port p = tree_port t /\
    ports_at d pxs' (lps ++ [p]) vs ps ss.
Proof.
  intros Hd (Hc & Hw & Hh). unfold read_port.
  destruct (create_values (junk_size e) (junk_next e) (db_oom e) no_oom gv gp gs _ _ _ _ Hh)
    as (xs & d1 & He1 & Hc1 & Hh1).
  rewrite (bind_ret_eq _ _ _ _ _ (db_run _ _ _ _ He1)). set (w1 := set_db d1 w).
  assert (doc (w_json w1) n_port (Some t)) as Hd1 by done.
  destruct (api_node _ _ _ (lit "port_number") Hd1) as (pn & Hpn & Hdpn).
  rewrite (bind_ret_eq _ _ _ _ _ (json_read _ _ _ Hpn)).
  rewrite (bind_ret_eq _ _ _ _ _ (json_read _ _ _ (api_real _ _ _ Hdpn))).
  destruct (api_node _ _ _ (lit "values") Hd1) as (vn & Hvn & Hdvn).
  rewrite (bind_ret_eq _ _ _ _ _ (json_read _ _ _ Hvn)).
  destruct (read_values_spec vn _ w1 xs _ _ _ Hdvn Hc1 Hh1) as (xs2 & d2 & He2 & Hx2 & Hc2 & Hh2).
  rewrite (bind_ret_eq _ _ _ _ _ He2), <- Hx2.
  destruct (push_ports (junk_size e) (junk_next e) (db_oom e) no_oom gv gp gs pxs _
    (Port (fst (tree_port t)) (chain_head xs2 NULL)) _ _ _ _ Hc Hh2) as (pxs3 & d3 & He3 & Hx3 & Hc3 & Hh3).
  exists pxs3, (LPort (fst (tree_port t)) (snd (tree_port t)) xs2), d3.
  split; [|split; [done|]; split; [done|]; split; [|split]].
  - etrans; [exact (db_run _ (set_db d2 w1) _ _ He3)|]. unfold w1, set_db. by rewrite !upd_upd.
  - by rewrite map_app.
  - apply Forall_app. split; [done|]. by apply Forall_singleton.
  - unfold vcells. rewrite map_app, concat_app. cbn [map concat lp_chain]. rewrite app_nil_r.
    eapply holds_proper; [|reflexivity|reflexivity|exact Hh3]. unfold vcells. solve_Permutation.
Qed.

Lemma port_loop_spec node tp fuel : forall i w pxs lps vs ps ss,
  (length (kids tp) - i < fuel)%nat -> (i <= length (kids tp))%nat ->
  doc (w_json w) node (Some tp) -> ports_at (w_db w) pxs lps vs ps ss ->
  exists pxs' lps' d, port_loop e fuel i (chain_head pxs NULL) node w = Ret tt (set_db d w) /\
    chain_head pxs' NULL = chain_head pxs NULL /\ map abs_port lps' = map tree_port (drop i (kids tp)) /\
    ports_at d pxs' (lps ++ lps') vs ps ss.
Proof.
  induction fuel as [|fuel IH]; intros i w pxs lps vs ps ss Hf Hi Hd Hp; [lia|]. cbn [port_loop].
  rewrite (bind_ret_eq _ _ _ _ _ (json_read _ _ _ (api_items _ _ _ Hd))). cbn [from_option].
  unfold tree_items. destruct (Nat.ltb_spec i (length (kids tp))).
  2:{ exists pxs, [], (w_db w). rewrite drop_ge, app_nil_r, set_db_id by lia. done. }
  - destruct (lookup_lt_is_Some_2 (kids tp) i) as [t Ht]; [done|].
    destruct (api_item _ _ _ i Hd) as (n_port & Hn & Hdn). cbn in Hdn. unfold tree_item in Hdn. rewrite Ht in Hdn.
    rewrite (bind_ret_eq _ _ _ _ _ (json_read _ _ _ Hn)).
    destruct (read_port_spec _ _ _ _ _ _ _ _ Hdn Hp) as (pxs1 & p & d1 & He1 & Hx1 & Hp1 & Hps1).
    rewrite (bind_ret_eq _ _ _ _ _ He1), <- Hx1.
    destruct (IH (S i) (set_db d1 w) pxs1 _ vs ps ss ltac:(lia) ltac:(lia) Hd Hps1)
      as (pxs2 & lps2 & d2 & He2 & Hx2 & Hp2 & Hps2).
    exists pxs2, (p :: lps2), d2. rewrite He2. unfold set_db. rewrite upd_upd. split; [done|].
    split; [congruence|]. split; [|by rewrite <- app_assoc in Hps2].
    rewrite (drop_S _ _ _ Ht). simpl. by rewrite Hp1, Hp2.
Qed.

(** What read_json does with one node of the document. *)
Definition read_spec (r : reading) (w : world) (head : ptr) (db : list aswitch) (out : outcome world unit) : Prop :=
  match r with
  | Ignored => out = Ret tt w
  | Added sw => exists d, out = Ret tt (set_db d w) /\ db_at gv gp gs d head (db ++ [sw]) [] []
  | Rejected name => exists d, out = Exit 1 (World (w_json w) d (w_io w) (w_files w) (w_out w ++ missing_ports name))
  | Overflow => out = Undef
  end.

(** The branch of read_json for a switch with a list of ports. *)
Lemma read_ports_spec node tp w head db :
  doc (w_json w) node (Some tp) -> db_at gv gp gs (w_db w) head db [] [] ->
  exists ports d, lift (switch_create_port_list (junk_size e) (junk_next e) (db_oom e)) w = Ret ports (set_db d w) /\
    exists d', port_loop e (chain_fuel (w_json w)) 0 ports node (set_db d w) = Ret tt (set_db d' w) /\
    forall name, exists d'', switch_push (junk_size e) (junk_next e) (db_oom e) head (Switch name ports) d' = Ret tt d'' /\
      db_at gv gp gs d'' head (db ++ [(name, map tree_port (kids tp))]) [] [].
Proof.
  intros Hd (sxs & sws & Hhd & Hdb & Hcd & Hwf & Hh).
  destruct (create_ports (junk_size e) (junk_next e) (db_oom e) no_oom gv gp gs _ _ _ _ Hh)
    as (pxs & d1 & He1 & Hc1 & Hh1).
  exists (chain_head pxs NULL), d1. split; [exact (db_run _ _ _ _ He1)|].
  destruct (api_children _ _ _ Hd) as (first & _ & Hch). apply api_chain_length in Hch. cbn [from_option] in Hch.
  destruct (port_loop_spec node tp (chain_fuel (w_json w)) 0 (set_db d1 w) pxs []
    (db_vcells sws) (db_pcells sws) (chain_cells sxs NULL) ltac:(lia) ltac:(lia) Hd) as (pxs' & lps & d2 & He2 & Hx2 & Ha2 & Hc2 & Hw2 & Hh2).
  { split; [done|]. split; [done|]. exact Hh1. }
  exists d2. split; [by rewrite He2; unfold set_db; rewrite upd_upd|]. intros name. cbn [app] in *.
  destruct (push_switch (junk_size e) (junk_next e) (db_oom e) no_oom gv gp gs d2 head db (LSwitch name lps pxs') [] [])
    as (d3 & He3 & Hdb3).
  { by split. }
  { exists sxs, sws. split; [done|]. split; [done|]. split; [done|]. split; [done|]. cbn [ls_ports ls_chain].
    rewrite !app_nil_r. exact Hh2. }
  exists d3. cbn [ls_name ls_chain] in He3. rewrite Hx2 in He3. split; [done|].
  unfold abs_switch in Hdb3. cbn [ls_name ls_ports] in Hdb3. rewrite drop_0 in Ha2. by rewrite Ha2 in Hdb3.
Qed.

Lemma read_json_spec node t w head db :
  doc (w_json w) node (Some t) -> db_at gv gp gs (w_db w) head db [] [] ->
  read_spec (tree_switch t) w head db (read_json e head node w).
Proof.
  intros Hd Hdb. unfold read_json, tree_switch.
  destruct (api_node _ _ _ (lit "switch") Hd) as (sw & Hsw & Hdsw). cbn [mbind option_bind] in Hdsw.
  rewrite (bind_ret_eq _ _ _ _ _ (json_read _ _ _ Hsw)). unfold json_is_string.
  rewrite (bind_ret_eq _ _ _ _ _ (json_read _ _ _ (api_type _ _ _ JSON_STRING Hdsw))).
  destruct (tree_node (lit "switch") t) as [ts|] eqn:Ets; [|done]. cbn [from_option].
  destruct (tree_has_type JSON_STRING ts) eqn:Estr; [|done].
  destruct (api_node _ _ _ (lit "port_list") Hd) as (pl & Hpl & Hdpl). cbn [mbind option_bind] in Hdpl.
  pose proof (api_string _ _ _ Hdsw) as Hstr. cbn [mbind option_bind] in Hstr.
  destruct Hdb as (sxs & sws & Hhd & Hab & Hcd & Hwf & Hh).
  destruct (create_ports (junk_size e) (junk_next e) (db_oom e) no_oom gv gp gs _ _ _ _ Hh)
    as (pxs & d1 & He1 & Hc1 & Hh1).
  rewrite (bind_ret_eq _ _ _ _ _ (db_run _ _ _ _ He1)).
  rewrite (bind_ret_eq _ _ _ _ _ (json_read _ (set_db d1 w) _ Hstr)).
  unfold strcpy_name. destruct (d_value (label ts)) as [name|]; [|done].
  destruct (Nat.ltb_spec (length name) MAX_SWITCH_NAME_LENGTH); [|done].
  erewrite bind_ret_eq by reflexivity.
  rewrite (bind_ret_eq _ _ _ _ _ (json_read _ (set_db d1 w) _ Hpl)). unfold json_is_array.
  rewrite (bind_ret_eq _ _ _ _ _ (json_read _ (set_db d1 w) _ (api_type _ _ _ JSON_ARRAY Hdpl))).
  destruct (tree_node (lit "port_list") t) as [tp|] eqn:Etp; cbn [from_option]; [|by exists d1].
  destruct (tree_has_type JSON_ARRAY tp) eqn:Earr; [|by exists d1].
  destruct (read_ports_spec pl tp w head db Hdpl) as (ports & d & Hports & d' & Hloop & Hpush).
  { by exists sxs, sws. }
  rewrite (db_run _ _ _ _ He1) in Hports. injection Hports as <- <-.
  destruct (Hpush name) as (d'' & Hp & Hdb'). exists d''. split; [|done].
  assert ((v ← get; port_loop e (chain_fuel (w_json v)) 0 (chain_head pxs NULL) pl) (set_db d1 w)
    = Ret tt (set_db d' w)) as Hl by exact Hloop.
  rewrite (bind_ret_eq _ _ _ _ _ Hl), (db_run _ (set_db d' w) _ _ Hp). unfold set_db. by rewrite upd_upd.
Qed.
End Read.

(** ** The callback does not change the document

    Queries return the state they got; hence read_json, which only queries the
    document, keeps it. *)
Definition query {S A} (m : M S A) : Prop := forall s a s', m s = Ret a s' -> s' = s.
Definition keeps_json {A} (m : M world A) : Prop :=
  forall w a w', m w = Ret a w' -> w_json w' = w_json w.

Section Query.
Context {S A B : Type}.

Lemma query_ret (a : A) : query (S := S) (mret a).
Proof. by intros s b s' [= _ <-]. Qed.
Lemma query_get : query (S := S) get.
Proof. by intros s b s' [= _ <-]. Qed.
Lemma query_undef : query (S := S) (A := A) undef.
Proof. by intros s b s' H. Qed.
Lemma query_no_fuel : query (S := S) (A := A) no_fuel.
Proof. by intros s b s' H. Qed.
Lemma query_bind (m : M S A) (k : A -> M S B) : query m -> (forall a, query (k a)) -> query (m ≫= k).
Proof.
  intros Hm Hk s b s'. unfold mbind, M_bind. destruct (m s) as [a s1| | |] eqn:E; try done.
  intros H1%Hk. apply Hm in E. congruence.
Qed.
End Query.

Lemma query_load p : query (load p).
Proof. intros m n m'. unfold load. destruct p; [|done]. destruct (_ !! _); [|done]. by intros [= _ <-]. Qed.

Create HintDb queries.
#[export] Hint Resolve query_ret query_get query_undef query_no_fuel query_bind query_load : queries.

(** Split a monadic expression into its queries. *)
Ltac solve_query :=
  repeat first
    [ apply query_bind; [|intros ?] | solve [auto with queries] | progress cbn beta iota
    | match goal with |- query (match ?x with _ => _ end) => destruct x end
    | match goal with |- query (if ?x then _ else _) => destruct x end ].

Lemma query_item_loop fuel i c p : query (item_loop fuel i c p).
Proof. revert c p. induction fuel as [|fuel IH]; intros c p; simpl; [solve_query|]. destruct p; solve_query; apply IH. Qed.
Lemma query_node_loop fuel s p : query (node_loop fuel s p).
Proof. revert p. induction fuel as [|fuel IH]; intros p; simpl; [solve_query|]. destruct p; solve_query; apply IH. Qed.
Lemma query_items_loop fuel c p : query (items_loop fuel c p).
Proof. revert c p. induction fuel as [|fuel IH]; intros c p; simpl; [solve_query|]. destruct p; solve_query; apply IH. Qed.
Lemma query_value_buffer n : query (value_buffer n).
Proof. unfold value_buffer. solve_query. Qed.
#[export] Hint Resolve query_item_loop query_node_loop query_items_loop query_value_buffer : queries.

Lemma query_first_child p : query (first_child p).
Proof. unfold first_child. solve_query. Qed.
#[export] Hint Resolve query_first_child : queries.

Lemma query_json_item p i : query (json_item p i).
Proof. unfold json_item. solve_query. Qed.
Lemma query_json_node p s : query (json_node p s).
Proof. unfold json_node. solve_query. Qed.
Lemma query_json_items p : query (json_items p).
Proof. unfold json_items. solve_query. Qed.
Lemma query_json_next p : query (json_next p).
Proof. unfold json_next. solve_query. Qed.
Lemma query_json_real p : query (json_real p).
Proof. unfold json_real, convert. solve_query. Qed.
Lemma query_json_string p : query (json_string p).
Proof. unfold json_string. solve_query. Qed.
Lemma query_has_type ty p : query (has_type ty p).
Proof. unfold has_type. solve_query. Qed.
Lemma query_json_is_real p : query (json_is_real p).
Proof. unfold json_is_real. solve_query. Qed.
#[export] Hint Resolve query_json_item query_json_node query_json_items query_json_next query_json_real
  query_json_string query_has_type query_json_is_real : queries.

Section Keeps.
Context {A B : Type}.

Lemma keeps_query (m : M world A) : query m -> keeps_json m.
Proof. by intros Hq w a w' ->%Hq. Qed.
Lemma keeps_lift (m : M jmem A) : query m -> keeps_json (lift m).
Proof.
  intros Hq w a w'. unfold lift. simpl. destruct (m (w_json w)) as [b j| | |] eqn:E; try done.
  intros [= _ <-]. apply Hq in E. by subst j.
Qed.
Lemma keeps_db (m : M smem A) : keeps_json (lift m).
Proof. intros w a w'. unfold lift. simpl. destruct (m (w_db w)); try done. by intros [= _ <-]. Qed.
Lemma keeps_bind (m : M world A) (k : A -> M world B) :
  keeps_json m -> (forall a, keeps_json (k a)) -> keeps_json (m ≫= k).
Proof.
  intros Hm Hk w b w'. unfold mbind, M_bind. destruct (m w) as [a w1| | |] eqn:E; try done.
  intros ->%Hk. by apply Hm in E.
Qed.
Lemma keeps_exit c : keeps_json (A := A) (exit_with c).
Proof. by intros w a w' H. Qed.
Lemma keeps_print s : keeps_json (print_out s).
Proof. by intros w a w' [= _ <-]. Qed.
End Keeps.

#[export] Hint Resolve keeps_lift keeps_db keeps_exit keeps_print : queries.

Ltac solve_keeps :=
  repeat first
    [ solve [auto with queries] | apply keeps_bind; [|intros ?] | solve [apply keeps_query; solve_query]
    | match goal with |- keeps_json (match ?x with _ => _ end) => destruct x end ].

Lemma keeps_read_values_loop e fuel : forall node cur list, keeps_json (read_values_loop e fuel node cur list).
Proof.
  induction fuel as [|fuel IH]; intros node cur list; simpl; [solve_keeps|].
  destruct node; [|solve_keeps]. unfold read_item. solve_keeps; apply IH.
Qed.
#[export] Hint Resolve keeps_read_values_loop : queries.

Lemma keeps_port_loop e fuel : forall i ports node, keeps_json (port_loop e fuel i ports node).
Proof.
  induction fuel as [|fuel IH]; intros i ports node; simpl; [solve_keeps|].
  unfold read_port, read_values. solve_keeps; apply IH.
Qed.
#[export] Hint Resolve keeps_port_loop : queries.

Lemma keeps_read_json e list node : keeps_json (read_json e list node).
Proof.
  unfold read_json, strcpy_name, json_is_string, json_is_array. solve_keeps.
Qed.

(** ** The whole document *)
Inductive doc_reading :=
| DocRead (db : list aswitch)
| DocRejected (name : list ascii)
| DocOverflow.

(** read_json on a list of nodes, with the switches found so far. *)
Fixpoint read_doc (ts : list jtree) (db : list aswitch) : doc_reading :=
  match ts with
  | [] => DocRead db
  | t :: ts =>
      match tree_switch t with
      | Ignored => read_doc ts db
      | Added sw => read_doc ts (db ++ [sw])
      | Rejected name => DocRejected name
      | Overflow => DocOverflow
      end
  end.

Definition doc_spec gv gp gs (r : doc_reading) (w : world) (head : ptr) (out : outcome world unit) : Prop :=
  match r with
  | DocRead db => exists d, out = Ret tt (set_db d w) /\ db_at gv gp gs d head db [] []
  | DocRejected name => exists d, out = Exit 1 (World (w_json w) d (w_io w) (w_files w) (w_out w ++ missing_ports name))
  | DocOverflow => out = Undef
  end.

Lemma visit_read_spec e (no_oom : forall n, db_oom e n = false) gv gp gs head ps : forall ts w db,
  Forall2 (fun p t => doc_heap (w_json w) p (Some t)) ps ts ->
  db_at gv gp gs (w_db w) head db [] [] ->
  doc_spec gv gp gs (read_doc ts db) w head (visit (read_json e head) ps w).
Proof.
  induction ps as [|p ps IH]; intros ts w db H Hdb;
    inversion H as [|? t ? ts' Hp Hps]; subst; simpl.
  { exists (w_db w). by rewrite set_db_id. }
  pose proof (read_json_spec e no_oom gv gp gs p t w head db Hp Hdb) as Hr.
  unfold mbind, M_bind. destruct (tree_switch t) as [|sw|name|]; simpl in Hr.
  - rewrite Hr. by apply IH.
  - destruct Hr as (d & -> & Hdb'). specialize (IH ts' (set_db d w) (db ++ [sw]) Hps Hdb').
    destruct (read_doc ts' (db ++ [sw])) as [db2|nm|]; simpl in *; [|exact IH..].
    destruct IH as (d2 & -> & ?). exists d2. split; [|done]. unfold set_db. by rewrite upd_upd.
  - destruct Hr as (d & ->). by exists d.
  - by rewrite Hr.
Qed.
