(* ===== verification/ClientWrite.v ===== *)
(** * Writing the instance files: the database against the XML text

    [switch_xml] is the text of the instance file of a switch as a function of
    the abstract database; [None] stands for the inputs on which the code has
    undefined behaviour (an unwritten field, a cycle time out of the range of
    int). The lemmas relate xml_write_instance of Main.c to it. *)

From Stdlib Require Import SpecFloat.
From S2P Require Import Prelude HeapRep CLib Utils JsonLex JsonMem LinkedList Switch SwitchRep.
From S2P Require Import Client JsonTree JsonView ClientRead.

(** ** The specification *)

(** The value of hypercycle after the loop over the values of a port, and after
    the loop over the ports. *)
Fixpoint cycle_values (vs : list t_port_values) (h : float) : option float :=
  match vs with
  | [] => Some h
  | v :: vs => p ← period v; cycle_values vs (float_of_Z p)
  end.

Fixpoint cycle_ports (ps : list (option aport)) (h : float) : option float :=
  match ps with
  | [] => Some h
  | o :: ps => p ← o; h ← cycle_values (seen no_values (snd p)) h; cycle_ports ps h
  end.

Definition gate_value (g : Z) : option Z := binaryToDecimal g ≫= fun r => r.

Fixpoint values_xml (vs : list t_port_values) (index : Z) : option (list ascii) :=
  match vs with
  | [] => Some []
  | v :: vs =>
      p ← period v; g ← gate_states v; d ← gate_value g;
      rest ← values_xml vs (index + 1);
      Some (xml_write_values p d index ++ rest)
  end.

Definition port_xml (h : float) (o : option aport) : option (list ascii) :=
  p ← o;
  let vs := seen no_values (snd p) in
  if negb (in_int (Z.of_nat (length vs))) then None
  else
    body ← values_xml vs 0;
    tail ← xml_write_values_end h;
    Some (xml_write_port (fst p) (Z.of_nat (length vs)) ++ body ++ tail).

Definition xml_header : list ascii :=
  line 0 (qt "<?xml version='1.0' encoding='UTF-8'?>") ++
  line 0 (qt "<if:interfaces xmlns:if='urn:ietf:params:xml:ns:yang:ietf-interfaces'>").

Definition switch_xml (sw : aswitch) : option (list ascii) :=
  let ports := seen None (map Some (snd sw)) in
  h ← cycle_ports ports (float_of_Z 0);
  body ← mapM (port_xml h) ports;
  Some (xml_header ++ concat body ++ line 0 (lit "</if:interfaces>")).

Definition instance_path (name : list ascii) : list ascii := lit "../Output/" ++ name ++ lit ".xml".

(** The file of one switch, and the files of a database in the order written. *)
Definition file_of (can : list ascii -> bool) (o : option aswitch) : option (list ascii * list ascii) :=
  sw ← o;
  if can (instance_path (fst sw)) then
    text ← switch_xml sw; Some (instance_path (fst sw), text)
  else None.

Definition instances (can : list ascii -> bool) (db : list aswitch) : option (list (list ascii * list ascii)) :=
  mapM (file_of can) (seen None (map Some db)).

Definition write_all (files : gmap (list ascii) (list ascii)) (new : list (list ascii * list ascii)) :
  gmap (list ascii) (list ascii) :=
  fold_left (fun fs pt => <[fst pt := snd pt]> fs) new files.

(** The typing of the C structs: gate_states is an int, names fit their buffer. *)
Definition typed_values (v : t_port_values) : Prop :=
  match gate_states v with Some g => INT_MIN <= g <= INT_MAX | None => True end.
Definition typed_port (p : aport) : Prop := Forall typed_values (snd p).
Definition typed_switch (sw : aswitch) : Prop :=
  (length (fst sw) < MAX_SWITCH_NAME_LENGTH)%nat /\ Forall typed_port (snd sw).

(** ** The documents give typed databases *)
Lemma next_values_typed cur t : typed_values cur -> typed_values (next_values cur t).
Proof.
  unfold typed_values, next_values. simpl. destruct (read_real (tree_item 1 t)); [|done].
  intros _. apply wrap_int_range.
Qed.

Lemma values_from_typed ts : forall cur, typed_values cur -> Forall typed_values (values_from cur ts).
Proof.
  induction ts as [|t ts IH]; intros cur Hc; simpl; constructor; auto using next_values_typed.
Qed.

Lemma tree_port_typed t : typed_port (tree_port t).
Proof. apply values_from_typed. done. Qed.

Lemma tree_switch_typed t sw : tree_switch t = Added sw -> typed_switch sw.
Proof.
  unfold tree_switch. intros H.
  destruct (tree_node (lit "switch") t) as [ts|]; [|done]. destruct (tree_has_type _ ts); [|done].
  destruct (d_value (label ts)) as [name|]; [|done].
  destruct (Nat.ltb_spec (length name) MAX_SWITCH_NAME_LENGTH); [|done].
  destruct (tree_node (lit "port_list") t) as [tp|]; [|done]. destruct (tree_has_type _ tp); [|done].
  injection H as <-. split; [done|]. cbn [snd]. induction (kids tp); constructor; auto using tree_port_typed.
Qed.

Lemma read_doc_typed ts : forall db db',
  read_doc ts db = DocRead db' -> Forall typed_switch db -> Forall typed_switch db'.
Proof.
  induction ts as [|t ts IH]; intros db db' H Hdb; simpl in H; [by simplify_eq|].
  destruct (tree_switch t) as [|sw|name|] eqn:E; try done; [by eapply IH|].
  eapply IH; [exact H|]. apply Forall_app. split; [done|]. apply Forall_singleton.
  by eapply tree_switch_typed.
Qed.

(** ** The code against the specification *)
Lemma gate_value_total g : INT_MIN <= g <= INT_MAX -> exists d, binaryToDecimal g = Some (Some d).
Proof.
  intros Hg. unfold INT_MIN, INT_MAX in Hg.
  destruct (binary_loop_bounds 10 g 0 1) as (v & Hv & _); [|by exists v].
  split; [simpl; lia|]. simpl. lia.
Qed.

Lemma xml_values_spec vs : forall i w, Forall typed_values vs -> xml_values vs i w = determinate (values_xml vs i) w.
Proof.
  induction vs as [|v vs IH]; intros i w Ht; [done|]. inversion_clear Ht as [|? ? Hv Hvs].
  cbn [xml_values values_xml]. unfold typed_values in Hv.
  destruct (period v) as [p|], (gate_states v) as [g|]; try done.
  cbn [determinate]. do 2 (erewrite bind_ret_eq by reflexivity).
  destruct (gate_value_total g Hv) as [d Hd]. rewrite Hd. cbn [mbind option_bind].
  unfold gate_value. rewrite Hd. unfold mbind at 1, M_bind at 1. rewrite IH by done. by destruct (values_xml vs (i + 1)).
Qed.

Lemma hypercycle_values_spec vs : forall h w, hypercycle_values vs h w = determinate (cycle_values vs h) w.
Proof.
  induction vs as [|v vs IH]; intros h w; [done|]. cbn [hypercycle_values cycle_values].
  apply determinate_bind. intros p. apply IH.
Qed.

(** The walks of the writer, in the world. *)
Lemma world_read {A} (m : M smem A) w a : m (w_db w) = Ret a (w_db w) -> lift m w = Ret a w.
Proof. intros H. exact (lift_read (T := smem) m w a H). Qed.

(** A payload found by the walk of a port list, and the port it stands for. *)
Definition port_seen (d : smem) (o : option t_port) (a : option aport) : Prop :=
  match o, a with
  | None, None => True
  | Some pt, Some (n, vs) => number pt = n /\
      lift (walk_list (A := t_port_values) (port_values pt)) d = Ret (seen no_values vs) d
  | _, _ => False
  end.

Lemma ports_seen d sw : readable_switch d sw ->
  Forall2 (port_seen d) (seen None (map port_payload (ls_ports sw)))
    (seen None (map Some (snd (abs_switch sw)))).
Proof.
  intros [_ Hp]. apply Forall2_seen; [done|]. unfold abs_switch. cbn [snd]. rewrite map_map.
  apply Forall2_maps. eapply Forall_impl; [exact Hp|]. intros p Hr. by split.
Qed.

Lemma hypercycle_ports_spec w os as' : Forall2 (port_seen (w_db w)) os as' -> forall h,
  hypercycle_ports os h w = determinate (cycle_ports as' h) w.
Proof.
  induction 1 as [|o a os as' Ho _ IH]; intros h; [done|]. cbn [hypercycle_ports cycle_ports].
  destruct o as [pt|], a as [[n vs]|]; try done. cbn [determinate snd]. erewrite bind_ret_eq by reflexivity.
  destruct Ho as [_ Hw]. rewrite (bind_ret_eq _ _ _ _ _ (world_read _ _ _ Hw)).
  unfold mbind at 1, M_bind at 1. rewrite hypercycle_values_spec.
  cbn [mbind option_bind snd]. destruct (cycle_values (seen no_values vs) h); [apply IH|done].
Qed.

Lemma typed_seen vs : Forall typed_values vs -> Forall typed_values (seen no_values vs).
Proof. intros [|v vs' Hv Hvs]; repeat constructor; done. Qed.

Lemma xml_port_spec w h o a :
  port_seen (w_db w) o a -> from_option typed_port True a ->
  xml_port h o w = determinate (port_xml h a) w.
Proof.
  destruct o as [pt|], a as [[n vs]|]; try done. intros [<- Hw] Ht. unfold xml_port, port_xml.
  cbn [determinate]. erewrite bind_ret_eq by reflexivity.
  rewrite (bind_ret_eq _ _ _ _ _ (world_read _ _ _ Hw)). cbn [mbind option_bind snd fst].
  destruct (negb (in_int _)); [done|]. unfold mbind at 1, M_bind at 1.
  rewrite xml_values_spec by by apply typed_seen.
  destruct (values_xml (seen no_values vs) 0); [|done]. cbn [determinate mbind option_bind].
  by destruct (xml_write_values_end h).
Qed.

Lemma instance_path_ok {S} name (s : S) :
  (length name < MAX_SWITCH_NAME_LENGTH)%nat -> output_path name s = Ret (instance_path name) s.
Proof.
  unfold MAX_SWITCH_NAME_LENGTH. intros Hn. unfold output_path, MAX_SWITCH_NAME_LENGTH.
  rewrite (proj2 (Nat.ltb_lt (length (name ++ lit ".xml")) _)) by (rewrite length_app; simpl; lia).
  rewrite (proj2 (Nat.ltb_lt _ _)) by (rewrite length_app; simpl; rewrite length_app; simpl; lia). done.
Qed.

Definition add_file (w : world) (pt : list ascii * list ascii) : world :=
  World (w_json w) (w_db w) (w_io w) (<[fst pt := snd pt]> (w_files w)) (w_out w).

Lemma xml_switch_spec e w sw :
  readable_switch (w_db w) sw -> typed_switch (abs_switch sw) ->
  xml_switch e (switch_payload sw) w =
  match file_of (can_write e) (Some (abs_switch sw)) with
  | Some pt => Ret [] (add_file w pt)
  | None => Undef
  end.
Proof.
  intros Hr [Hn Ht]. pose proof (ports_seen _ _ Hr) as Hps. unfold xml_switch, file_of, switch_payload.
  cbn [determinate]. erewrite bind_ret_eq by reflexivity. cbn [sw_name port_list].
  rewrite (bind_ret_eq _ _ _ _ _ (instance_path_ok _ w Hn)). cbn [mbind option_bind abs_switch fst].
  destruct (can_write e _); [|done]. cbn [negb].
  rewrite (bind_ret_eq _ _ _ _ _ (world_read _ _ _ (proj1 Hr))). unfold switch_xml.
  unfold mbind at 1, M_bind at 1. rewrite (hypercycle_ports_spec _ _ _ Hps).
  change (abs_switch sw).2 with (map abs_port (ls_ports sw)) in *.
  destruct (cycle_ports _ _) as [h|]; [|done]. cbn [determinate mbind option_bind].
  unfold mret at 1, M_ret at 1. unfold mbind at 1, M_bind at 1.
  rewrite (for_each_spec _ (port_xml h) _ (seen None (map Some (map abs_port (ls_ports sw))))).
  - cbn [abs_switch snd]. destruct (mapM _ _); [|done].
    cbn [mbind option_bind]. unfold xml_header. by rewrite <- app_assoc.
  - assert (Forall (from_option typed_port True) (seen None (map Some (map abs_port (ls_ports sw))))) as Hts.
    { cbn [snd] in Ht. destruct Ht; simpl; repeat constructor; [done|]. by apply Forall_map. }
    clear -Hps Hts. induction Hps as [|o a os as' Ho _ IH]; [constructor|].
    inversion_clear Hts. constructor; auto using xml_port_spec.
Qed.

Lemma xml_switches_spec e sws : forall w,
  Forall (readable_switch (w_db w)) sws -> Forall typed_switch (map abs_switch sws) ->
  for_each (xml_switch e) (map switch_payload sws) w =
  match mapM (file_of (can_write e)) (map Some (map abs_switch sws)) with
  | Some new => Ret [] (fold_left add_file new w)
  | None => Undef
  end.
Proof.
  induction sws as [|sw sws IH]; intros w Hr Ht; [done|]. inversion_clear Hr as [|? ? Hr1 Hr2].
  cbn [map] in Ht. inversion_clear Ht as [|? ? Ht1 Ht2]. cbn [map for_each mapM].
  unfold mbind at 1, M_bind at 1. rewrite xml_switch_spec by done.
  destruct (file_of _ _) as [pt|]; [|done]. unfold mbind at 1, M_bind at 1.
  rewrite (IH (add_file w pt)) by done. cbn [mbind option_bind].
  by destruct (mapM _ _).
Qed.

Lemma fold_add_file new : forall w,
  fold_left add_file new w = World (w_json w) (w_db w) (w_io w) (write_all (w_files w) new) (w_out w).
Proof. induction new as [|pt new IH]; intros w; simpl; [by destruct w|]. by rewrite IH. Qed.

Definition done_message : list ascii := lit "XML instance generated correctly..." ++ [newline].

Lemma xml_write_instance_spec e w head db :
  readable_db (w_db w) head db -> Forall typed_switch db ->
  xml_write_instance e head w =
  match instances (can_write e) db with
  | Some new => Ret tt (World (w_json w) (w_db w) (w_io w) (write_all (w_files w) new) (w_out w ++ done_message))
  | None => Undef
  end.
Proof.
  intros (sws & <- & Hr & Hw) Ht. unfold xml_write_instance, instances.
  rewrite (bind_ret_eq _ _ _ _ _ (world_read _ _ _ Hw)).
  destruct sws as [|sw sws]; [done|]. unfold mbind at 1, M_bind at 1.
  change (seen None (map switch_payload (sw :: sws))) with (map switch_payload (sw :: sws)).
  change (seen None (map Some (map abs_switch (sw :: sws)))) with (map Some (map abs_switch (sw :: sws))).
  rewrite xml_switches_spec by done. destruct (mapM _ _) as [new|]; [|done].
  by rewrite fold_add_file.
Qed.

(** ** The control list and the cycle time of the instance files *)

(** The period of the last value of the last port. *)
Lemma cycle_values_last vs h :
  cycle_values vs h =
  if forallb (fun v => bool_decide (is_Some (period v))) vs
  then match last vs with Some v => float_of_Z <$> period v | None => Some h end
  else None.
Proof.
  revert h. induction vs as [|v vs IH]; intros h; [done|]. cbn [cycle_values forallb].
  destruct (period v) as [p|] eqn:E; [|done]. cbn [mbind option_bind]. rewrite IH.
  rewrite bool_decide_eq_true_2 by by eexists. cbn [andb]. destruct (forallb _ vs); [|done].
  rewrite last_cons. destruct (last vs); [done|]. by rewrite E.
Qed.
