(* ===== verification/ClientConfig.v ===== *)
(** * Configurations as JSON documents

    [config_tree] writes a database as the document the client expects. Reading
    that document gives the database back. *)

From S2P Require Import Prelude CLib Utils JsonLex JsonTree JsonWf JsonEncode JsonPrint JsonMem.
From S2P Require Import JsonApi JsonView LinkedList Switch SwitchRep Client ClientRead.

Definition number_node (name : option (list ascii)) (z : Z) : jtree :=
  Node (JData JSON_NUMBER name (Some (show_Z z))) [].

Definition value_tree (v : t_port_values) : jtree :=
  Node (JData JSON_ARRAY None None)
    [number_node None (default 0 (period v)); number_node None (default 0 (gate_states v))].

Definition port_tree (p : aport) : jtree :=
  Node (JData JSON_OBJECT None None)
    [number_node (Some (lit "port_number")) (fst p);
     Node (JData JSON_ARRAY (Some (lit "values")) None) (map value_tree (snd p))].

Definition switch_tree (sw : aswitch) : jtree :=
  Node (JData JSON_OBJECT None None)
    [Node (JData JSON_STRING (Some (lit "switch")) (Some (fst sw))) [];
     Node (JData JSON_ARRAY (Some (lit "port_list")) None) (map port_tree (snd sw))].

Definition config_tree (db : list aswitch) : jtree :=
  Node (JData JSON_ARRAY None None) (map switch_tree db).

(** The databases a configuration can describe: every list has an element, every
    field is a number of its C type that is not negative, names fit their buffer. *)
Definition valid_values (v : t_port_values) : bool :=
  match period v, gate_states v with
  | Some p, Some g => (0 <=? p) && (p <=? ULONG_MAX) && (0 <=? g) && (g <=? INT_MAX)
  | _, _ => false
  end.
Definition nonempty {A} (xs : list A) : bool := match xs with [] => false | _ => true end.
Definition valid_port (p : aport) : bool :=
  (0 <=? fst p) && (fst p <=? INT_MAX) && nonempty (snd p) && forallb valid_values (snd p).
Definition valid_switch (sw : aswitch) : bool :=
  nul_free (fst sw) && (length (fst sw) <? MAX_SWITCH_NAME_LENGTH)%nat && nonempty (snd sw) &&
  forallb valid_port (snd sw).
Definition valid_db (db : list aswitch) : bool := nonempty db && forallb valid_switch db.

(** Turn the boolean conditions of the context into propositions. *)
Ltac bools :=
  repeat match goal with
  | H : (_ && _) = true |- _ => apply andb_true_iff in H as [? ?]
  | H : (_ <=? _) = true |- _ => apply Z.leb_le in H
  | H : (_ <? _)%nat = true |- _ => apply Nat.ltb_lt in H
  end.

(** ** The document is well formed and printable *)
Lemma forallb_map_impl {A B} (p : A -> bool) (q : B -> bool) (f : A -> B) xs :
  (forall x, p x = true -> q (f x) = true) -> forallb p xs = true -> forallb q (map f xs) = true.
Proof.
  intros Hpq. induction xs as [|x xs IH]; simpl; [done|]. intros [Hx Hxs]%andb_true_iff.
  by rewrite Hpq, IH.
Qed.

Lemma number_ok name z obj :
  0 <= z -> obj = bool_decide (is_Some name) -> match name with Some s => nul_free s | None => true end = true ->
  wf_elem obj (number_node name z) = true /\ printable (number_node name z) = true.
Proof.
  intros (Hd & Hne & _)%show_digits -> Hn. unfold number_node. split.
  - simpl. unfold named, unnamed. simpl. by destruct name.
  - simpl. unfold scalar_ok. simpl. rewrite Hn. rewrite digits_number; [done|]. unfold is_digits. rewrite Hd.
    by rewrite bool_decide_eq_false_2 by done.
Qed.

Lemma container_ok ty name ks obj :
  is_container ty -> obj = bool_decide (is_Some name) ->
  match name with Some s => nul_free s | None => true end = true -> ks <> [] ->
  forallb (wf_elem (bool_decide (ty = JSON_OBJECT))) ks = true -> forallb printable ks = true ->
  wf_elem obj (Node (JData ty name None) ks) = true /\ printable (Node (JData ty name None) ks) = true.
Proof.
  intros Hty -> Hn Hks Hw Hp. cbn [wf_elem printable d_type d_value]. unfold scalar_ok. cbn [d_name d_type d_value].
  rewrite Hn, Hp. unfold is_object in *. cbn [d_type]. split; [|by destruct Hty as [->| ->]].
  rewrite Hw, (bool_decide_eq_false_2 (ks = [])) by done. unfold named, unnamed. cbn [d_name].
  rewrite orb_true_r. by destruct Hty as [->| ->], name.
Qed.

Lemma value_tree_ok v : valid_values v = true ->
  wf_elem false (value_tree v) = true /\ printable (value_tree v) = true.
Proof.
  unfold valid_values, value_tree. destruct (period v) as [p|], (gate_states v) as [g|]; try done. intros H. bools.
  destruct (number_ok None p false) as [Hp1 Hp2]; [done..|].
  destruct (number_ok None g false) as [Hg1 Hg2]; [done..|].
  apply container_ok; [by right|done|done|done| |]; cbn [forallb default from_option id].
  - rewrite bool_decide_eq_false_2 by done. by rewrite Hp1, Hg1.
  - by rewrite Hp2, Hg2.
Qed.

Lemma port_tree_ok p : valid_port p = true ->
  wf_elem false (port_tree p) = true /\ printable (port_tree p) = true.
Proof.
  unfold valid_port. intros H. bools.
  destruct (number_ok (Some (lit "port_number")) (fst p) true) as [Hw1 Hp1]; [done..|].
  destruct (container_ok JSON_ARRAY (Some (lit "values")) (map value_tree (snd p)) true) as [Hw2 Hp2]; try done.
  { by right. } { by destruct (snd p). }
  { eapply forallb_map_impl; [|done]. intros v Hv. exact (proj1 (value_tree_ok _ Hv)). }
  { eapply forallb_map_impl; [|done]. intros v Hv. exact (proj2 (value_tree_ok _ Hv)). }
  apply container_ok; [by left|done|done|done| |]; cbn [forallb].
  - rewrite bool_decide_eq_true_2 by done. by rewrite Hw1, Hw2.
  - by rewrite Hp1, Hp2.
Qed.

Lemma switch_tree_ok sw : valid_switch sw = true ->
  wf_elem false (switch_tree sw) = true /\ printable (switch_tree sw) = true.
Proof.
  unfold valid_switch. intros H. bools.
  destruct (container_ok JSON_ARRAY (Some (lit "port_list")) (map port_tree (snd sw)) true) as [Hw2 Hp2]; try done.
  { by right. } { by destruct (snd sw). }
  { eapply forallb_map_impl; [|done]. intros p Hp. exact (proj1 (port_tree_ok _ Hp)). }
  { eapply forallb_map_impl; [|done]. intros p Hp. exact (proj2 (port_tree_ok _ Hp)). }
  apply container_ok; [by left|done|done|done| |]; cbn [forallb].
  - rewrite bool_decide_eq_true_2 by done. by rewrite Hw2.
  - rewrite Hp2, andb_true_r. cbn [printable forallb]. unfold scalar_ok. cbn [d_name d_type d_value].
    rewrite andb_true_r. by apply andb_true_iff.
Qed.

Lemma config_tree_ok db : valid_db db = true ->
  wf_elem false (config_tree db) = true /\ printable (config_tree db) = true.
Proof.
  unfold valid_db. intros H. bools. apply container_ok; [by right|done|done|by destruct db| |].
  - eapply forallb_map_impl; [|done]. intros p Hp. exact (proj1 (switch_tree_ok _ Hp)).
  - eapply forallb_map_impl; [|done]. intros p Hp. exact (proj2 (switch_tree_ok _ Hp)).
Qed.

(** ** Reading the document back *)
Lemma convert_show z name : 0 <= z <= ULONG_MAX -> tree_convert 0 strtoul (number_node name z) = z.
Proof.
  intros [Hz Hm]. destruct (show_digits z Hz) as (Hd & Hne & Hv).
  unfold tree_convert, number_node. cbn [label d_value]. rewrite strtoul_digits, Hv by done. lia.
Qed.

Lemma read_show z name : 0 <= z <= ULONG_MAX -> read_real (Some (number_node name z)) = Some z.
Proof.
  intros [Hz Hm]. destruct (show_digits z Hz) as (Hd & Hne & Hv). unfold read_real. cbn [from_option].
  assert (forall c, isdigit c = false -> strchr_found (show_Z z) c = false) as Hno.
  { intros c Hc. unfold strchr_found. apply bool_decide_eq_false. intros Hin%list_elem_of_In.
    rewrite forallb_forall in Hd. rewrite (Hd c Hin) in Hc. done. }
  rewrite convert_show by done. unfold tree_is_real, tree_has_type, number_node. cbn [label d_type d_value].
  by rewrite (Hno "."%char), (Hno "-"%char), bool_decide_eq_true_2 by done.
Qed.

Lemma int_max_ulong : INT_MAX <= ULONG_MAX.
Proof. unfold INT_MAX, ULONG_MAX. lia. Qed.

Lemma next_value_tree cur v : valid_values v = true -> next_values cur (value_tree v) = v.
Proof.
  unfold valid_values. destruct v as [[p|] [g|]]; try done. cbn [period gate_states]. intros H. bools.
  pose proof int_max_ulong. unfold next_values.
  change (tree_item 0 (value_tree (PortValues (Some p) (Some g)))) with (Some (number_node None p)).
  change (tree_item 1 (value_tree (PortValues (Some p) (Some g)))) with (Some (number_node None g)).
  rewrite !read_show by lia. rewrite wrap_int_id; [done|]. unfold INT_MIN. lia.
Qed.

Lemma values_tree vs : forall cur, forallb valid_values vs = true -> values_from cur (map value_tree vs) = vs.
Proof.
  induction vs as [|v vs IH]; intros cur; simpl; [done|]. intros [Hv Hvs]%andb_true_iff.
  by rewrite next_value_tree, IH.
Qed.

Lemma read_port_tree p : valid_port p = true -> tree_port (port_tree p) = p.
Proof.
  destruct p as [n vs]. unfold valid_port. cbn [fst snd]. intros H. bools. unfold tree_port.
  change (tree_node (lit "port_number") (port_tree (n, vs))) with (Some (number_node (Some (lit "port_number")) n)).
  change (tree_node (lit "values") (port_tree (n, vs)))
    with (Some (Node (JData JSON_ARRAY (Some (lit "values")) None) (map value_tree vs))).
  unfold tree_values. cbn [from_option kids]. rewrite values_tree by done. f_equal.
  pose proof int_max_ulong. rewrite convert_show by lia. apply wrap_int_id. unfold INT_MIN. lia.
Qed.

Lemma read_switch_tree sw : valid_switch sw = true -> tree_switch (switch_tree sw) = Added sw.
Proof.
  destruct sw as [name ps]. unfold valid_switch. cbn [fst snd]. intros H. bools. unfold tree_switch.
  change (tree_node (lit "switch") (switch_tree (name, ps)))
    with (Some (Node (JData JSON_STRING (Some (lit "switch")) (Some name)) [] : jtree)).
  change (tree_node (lit "port_list") (switch_tree (name, ps)))
    with (Some (Node (JData JSON_ARRAY (Some (lit "port_list")) None) (map port_tree ps))).
  cbn [label d_value]. rewrite (proj2 (Nat.ltb_lt _ _)) by done. cbn [kids]. rewrite map_map.
  replace (map (fun x => tree_port (port_tree x)) ps) with ps; [done|].
  clear -H0. induction ps as [|p ps IH]; [done|]. cbn [forallb map] in *. bools. by rewrite read_port_tree, <- IH.
Qed.

(** Nodes without a member "switch" are ignored. *)
Definition no_switch (t : jtree) : Prop :=
  Forall (fun k => d_name (label k) <> Some (lit "switch")) (kids t).

Lemma no_switch_ignored t : no_switch t -> tree_switch t = Ignored.
Proof.
  intros Hn. unfold tree_switch, tree_node.
  destruct (list_find _ (kids t)) as [[i k]|] eqn:E; [|done].
  apply list_find_Some in E as (Hl & Hk & _). unfold no_switch in Hn. rewrite Forall_forall in Hn.
  by apply list_elem_of_lookup_2, Hn in Hl.
Qed.

Lemma read_doc_ignored ts ts' : Forall no_switch ts -> forall db, read_doc (ts ++ ts') db = read_doc ts' db.
Proof. induction 1 as [|t ts Ht _ IH]; intros db; simpl; [done|]. by rewrite no_switch_ignored. Qed.

Lemma no_switch_unnamed ks : Forall (fun k : jtree => d_name (label k) = None) ks ->
  Forall (fun k => d_name (label k) <> Some (lit "switch")) ks.
Proof. intros H. eapply Forall_impl; [exact H|]. by intros k ->. Qed.

Lemma map_unnamed {A} (f : A -> jtree) xs : (forall x, d_name (label (f x)) = None) ->
  Forall (fun k : jtree => d_name (label k) = None) (map f xs).
Proof. intros Hf. induction xs; constructor; auto. Qed.

Lemma Forall_concat_map {A B} (P : B -> Prop) (f : A -> list B) xs :
  (forall x, Forall P (f x)) -> Forall P (concat (map f xs)).
Proof. intros Hf. induction xs; simpl; [constructor|]. apply Forall_app. auto. Qed.

Lemma value_tree_ignored v : Forall no_switch (preorder (value_tree v)).
Proof. repeat constructor; done. Qed.

Lemma port_tree_ignored p : Forall no_switch (preorder (port_tree p)).
Proof.
  unfold port_tree. rewrite preorder_node. constructor; [by repeat constructor|].
  cbn [map concat app]. rewrite app_nil_r, (preorder_node (JData JSON_ARRAY _ _)). cbn [number_node preorder kids app].
  constructor; [constructor|]. constructor; [by apply no_switch_unnamed, map_unnamed|].
  rewrite map_map. apply Forall_concat_map, value_tree_ignored.
Qed.

Lemma switch_tree_rest sw : exists rest, preorder (switch_tree sw) = switch_tree sw :: rest /\ Forall no_switch rest.
Proof.
  unfold switch_tree at 1. rewrite preorder_node. eexists. split; [done|].
  cbn [map concat app]. rewrite app_nil_r, (preorder_node (JData JSON_ARRAY _ _)). cbn [preorder kids app].
  constructor; [constructor|]. constructor; [by apply no_switch_unnamed, map_unnamed|].
  rewrite map_map. apply Forall_concat_map, port_tree_ignored.
Qed.

Lemma read_switches_tree db : forall db0, forallb valid_switch db = true ->
  read_doc (concat (map preorder (map switch_tree db))) db0 = DocRead (db0 ++ db).
Proof.
  induction db as [|sw db IH]; intros db0 H; [simpl; by rewrite app_nil_r|].
  cbn [forallb] in H. cbn [map concat]. apply andb_true_iff in H as [Hsw Hdb].
  destruct (switch_tree_rest sw) as (rest & -> & Hr). cbn [app read_doc]. rewrite read_switch_tree by done.
  rewrite read_doc_ignored, IH by done. by rewrite <- app_assoc.
Qed.

Lemma read_config_tree db : valid_db db = true -> read_doc (preorder (config_tree db)) [] = DocRead db.
Proof.
  intros [_ Hv]%andb_true_iff. unfold config_tree. rewrite preorder_node. cbn [read_doc].
  rewrite no_switch_ignored by by apply no_switch_unnamed, map_unnamed.
  by rewrite (read_switches_tree db []).
Qed.

(** ** A valid database has a report *)
Lemma mapM_total {A B} (p : A -> bool) (f : A -> option B) xs :
  (forall x, p x = true -> is_Some (f x)) -> forallb p xs = true -> is_Some (mapM f xs).
Proof.
  intros Hf Hp. apply mapM_is_Some, Forall_forall. intros x Hx%list_elem_of_In. apply Hf.
  rewrite forallb_forall in Hp. by apply Hp.
Qed.

Lemma mapM_some {A B} (p : A -> bool) (f : A -> option B) xs :
  (forall x, p x = true -> is_Some (f x)) -> forallb p xs = true -> is_Some (mapM (fun o => o ≫= f) (map Some xs)).
Proof.
  intros Hf. induction xs as [|x xs IH]; [by eexists|]. cbn [forallb map mapM]. intros [Hx Hxs]%andb_true_iff.
  destruct (Hf x Hx) as [y Hy]. destruct (IH Hxs) as [ys Hys]. cbn [mbind option_bind].
  rewrite Hy. cbn [mbind option_bind]. rewrite Hys. by eexists.
Qed.

Lemma seen_nonempty {A} (indet : A) xs : nonempty xs = true -> seen indet xs = xs.
Proof. by destruct xs. Qed.

Lemma nonempty_map {A B} (f : A -> B) xs : nonempty (map f xs) = nonempty xs.
Proof. by destruct xs. Qed.

Lemma show_values_total v : valid_values v = true -> is_Some (show_values v).
Proof. unfold valid_values, show_values. destruct (period v), (gate_states v); done. Qed.

Lemma show_port_total p : valid_port p = true -> is_Some (show_port p).
Proof.
  unfold valid_port, show_port. intros H. bools. rewrite seen_nonempty by done.
  destruct (mapM_total _ show_values (snd p) show_values_total) as [ys ->]; [done|]. by eexists.
Qed.

Lemma show_switch_total sw : valid_switch sw = true -> is_Some (show_switch sw).
Proof.
  unfold valid_switch, show_switch. intros H. bools. rewrite seen_nonempty by by rewrite nonempty_map.
  destruct (mapM_some _ show_port (snd sw) show_port_total) as [ys ->]; [done|]. by eexists.
Qed.

Lemma show_db_total db : valid_db db = true -> is_Some (show_db db).
Proof.
  unfold valid_db, show_db. intros H. bools. rewrite seen_nonempty by by rewrite nonempty_map.
  destruct (mapM_some _ show_switch db show_switch_total) as [ys ->]; [done|]. by eexists.
Qed.
