(* ===== verification/ClientThms.v ===== *)
(** * The client as a whole

    The theorems about the database, the utilities and the complete run of
    Main.c: what the program computes from the text of the configuration. *)

From Stdlib Require Import SpecFloat.
From S2P Require Import Prelude HeapRep CLib JsonLex JsonTree JsonWf JsonMem JsonRep JsonApi.
From S2P Require Import JsonRefine JsonView JsonPrint JsonThms LinkedList Utils UtilsThms.
From S2P Require Import Switch SwitchRep SwitchThms Client ClientParse ClientRead ClientWrite ClientConfig.

(** ** The specification of the run *)
Inductive run_result :=
| Finished (files : list (list ascii * list ascii)) (report : list ascii)
| Failed (message : list ascii)
| Undefined.

Definition client_run (can : list ascii -> bool) (text : list ascii) : run_result :=
  match spec_parse text with
  | None => Failed []
  | Some t =>
      match read_doc (preorder t) [] with
      | DocRejected name => Failed (missing_ports name)
      | DocOverflow => Undefined
      | DocRead db =>
          match show_db db, instances can db with
          | Some report, Some files => Finished files report
          | _, _ => Undefined
          end
      end
  end.

(** All the memory of the run was given back. *)
Record restored (w w' : world) : Prop := Restored {
  restored_json : nodes (w_json w') = nodes (w_json w);
  restored_values : lcells (values_heap (w_db w')) = lcells (values_heap (w_db w));
  restored_ports : lcells (ports_heap (w_db w')) = lcells (ports_heap (w_db w));
  restored_switches : lcells (switches_heap (w_db w')) = lcells (switches_heap (w_db w));
  restored_io : w_io w' = w_io w }.

Definition run_spec (r : run_result) (w : world) (out : outcome world Z) : Prop :=
  match r with
  | Finished files report => exists w', out = Ret 0 w' /\ restored w w' /\
      w_files w' = write_all (w_files w) files /\ w_out w' = w_out w ++ report ++ done_message
  | Failed message => exists w', out = Exit 1 w' /\ w_files w' = w_files w /\ w_out w' = w_out w ++ message
  | Undefined => out = Undef
  end.

(** ** Helper lemmas *)
Lemma show_db_ports db report : show_db db = Some report ->
  db <> [] /\ Forall (fun sw : aswitch => snd sw <> []) db.
Proof.
  unfold show_db. intros H. destruct db as [|sw0 db0]; [done|]. split; [done|].
  apply fmap_Some in H as (outs & H & _). apply mapM_Some in H.
  change (seen None (map Some (sw0 :: db0))) with (map Some (sw0 :: db0)) in H.
  remember (sw0 :: db0) as db eqn:E. clear E. revert outs H.
  induction db as [|sw db IH]; intros outs H; [constructor|]. inversion H as [|? out ? outs' Hsw Hr]; subst.
  constructor; [|by eapply IH]. intros Hnil. simpl in Hsw. unfold show_switch in Hsw. by rewrite Hnil in Hsw.
Qed.

(** The run after the configuration was read into the database. *)
Lemma finish_spec e head db w node t w0 :
  stored (nodes (w_json w0)) (w_json w) node t ->
  db_at (lcells (values_heap (w_db w0))) (lcells (ports_heap (w_db w0))) (lcells (switches_heap (w_db w0)))
    (w_db w) head db [] [] ->
  Forall typed_switch db -> w_io w = w_io w0 -> w_files w = w_files w0 -> w_out w = w_out w0 ->
  run_spec
    match show_db db, instances (can_write e) db with
    | Some report, Some files => Finished files report
    | _, _ => Undefined
    end w0
    ((v ← get;
      _ ← lift (json_free (free_fuel (w_json v)) node);
      out ← lift (switch_print_list head);
      _ ← print_out out;
      _ ← xml_write_instance e head;
      _ ← lift (free_switch_list head);
      mret 0) w).
Proof.
  intros Hst Hdb Ht Hio Hfiles Hout. unfold get. unfold mbind at 1, M_bind at 1.
  destruct (free_stored _ _ _ _ Hst) as (j & Hfree & Hnodes).
  rewrite (bind_ret_eq _ _ _ _ _ (json_run _ _ _ _ Hfree)).
  set (w1 := World j (w_db w) (w_io w) (w_files w) (w_out w)).
  pose proof (db_readable _ _ _ _ _ _ _ _ Hdb) as Hrd.
  pose proof (print_db_spec _ _ _ Hrd) as Hpr.
  destruct (show_db db) as [report|] eqn:Eshow.
  2:{ apply bind_undef_eq. unfold lift. change (view w1) with (w_db w). by rewrite Hpr. }
  rewrite (bind_ret_eq _ _ w1 _ _ (world_read _ w1 _ Hpr)).
  erewrite bind_ret_eq by reflexivity.
  match goal with |- context [(xml_write_instance e head ≫= ?k) ?w2] =>
    pose proof (xml_write_instance_spec e w2 head db Hrd Ht) as Hx end.
  destruct (instances (can_write e) db) as [files|]; [|by apply bind_undef_eq].
  rewrite (bind_ret_eq _ _ _ _ _ Hx). destruct (show_db_ports _ _ Eshow) as [Hne Hps].
  destruct (free_db _ _ _ _ _ _ Hdb Hne Hps) as (d & Hfr & [Hv Hp Hs]).
  match goal with |- context [(lift _ ≫= ?k) ?w3] => rewrite (bind_ret_eq _ _ w3 _ _ (db_run _ w3 _ _ Hfr)) end.
  eexists. split; [done|]. simpl. rewrite Hfiles, Hout, <- app_assoc. split; [|done].
  split; simpl; [done|by apply rep_nil_inv..|done].
Qed.

Lemma main_spec e text w : normal_env e (lit "../config.json") text -> lossless text ->
  run_spec (client_run (can_write e) text) w (main e w).
Proof.
  intros Hn Hrf. unfold main.
  destruct (create_db (junk_size e) (junk_next e) (db_oom e) (db_never _ _ _ Hn) (lcells (values_heap (w_db w)))
    (lcells (ports_heap (w_db w))) (lcells (switches_heap (w_db w))) (w_db w)) as (head & d0 & He0 & Hdb0).
  { split; apply rep_nil. }
  rewrite (bind_ret_eq _ _ _ _ _ (db_run _ _ _ _ He0)).
  pose proof (parse_spec e _ text (set_db d0 w) Hn Hrf) as Hp. unfold client_run.
  destruct (spec_parse text) as [t|] eqn:Esp.
  2:{ destruct Hp as (j & He & Hj). rewrite (bind_exit_eq _ _ _ _ _ He). eexists. split; [done|].
      simpl. by rewrite app_nil_r. }
  destruct Hp as (node & j & He & Hst). rewrite (bind_ret_eq _ _ _ _ _ He).
  set (w1 := World j d0 (w_io w) (w_files w) (w_out w)).
  destruct (@foreach_stored world lens_json (read_json e head)
    (fun p s u s' E => f_equal nodes (keeps_read_json e head p s u s' E)) _ _ _ _ w1 Hst
    (spec_parse_wf_elem _ _ Esp) eq_refl) as (ps & Hps & Hfe).
  pose proof (visit_read_spec e (db_never _ _ _ Hn) _ _ _ head ps (preorder t) w1 [] Hps Hdb0) as Hv.
  unfold mbind at 1, M_bind at 1.
  change (World j (w_db (set_db d0 w)) (w_io (set_db d0 w)) (w_files (set_db d0 w)) (w_out (set_db d0 w)))
    with w1. rewrite Hfe.
  destruct (read_doc (preorder t) []) as [db|name|] eqn:Erd; simpl in Hv.
  - destruct Hv as (d & -> & Hdb). apply (finish_spec e head db (set_db d w1) node t w); try done.
    by eapply read_doc_typed.
  - destruct Hv as (d & ->). by eexists.
  - by rewrite Hv.
Qed.


(** ** The cycle time *)
Definition has_values (a : aport) : bool := nonempty (snd a) && forallb valid_values (snd a).

Lemma valid_values_period v : valid_values v = true -> is_Some (period v).
Proof. unfold valid_values. by destruct (period v). Qed.

Lemma cycle_port_last (a : aport) h : has_values a = true ->
  exists v p, last (snd a) = Some v /\ period v = Some p /\ cycle_values (seen no_values (snd a)) h = Some (float_of_Z p).
Proof.
  unfold has_values. intros [Hne Hv]%andb_true_iff. rewrite seen_nonempty, cycle_values_last by done.
  assert (forallb (fun v => bool_decide (is_Some (period v))) (snd a) = true) as ->.
  { rewrite forallb_forall in *. intros v Hin. by apply bool_decide_eq_true, valid_values_period, Hv. }
  destruct (snd a) as [|v0 vs] eqn:E using rev_ind; [done|]. rewrite last_snoc. rewrite forallb_app in Hv.
  apply andb_true_iff in Hv as [_ Hv]. simpl in Hv. rewrite andb_true_r in Hv.
  destruct (valid_values_period _ Hv) as [p Hp]. exists v0, p. by rewrite Hp.
Qed.

Lemma cycle_ports_last ports n vs v h : forallb has_values (ports ++ [(n, vs ++ [v])]) = true ->
  cycle_ports (map Some (ports ++ [(n, vs ++ [v])])) h = float_of_Z <$> period v.
Proof.
  revert h. induction ports as [|a ports IH]; intros h; cbn [app map forallb cycle_ports]; intros [Ha Hr]%andb_true_iff.
  - destruct (cycle_port_last (n, vs ++ [v]) h Ha) as (v' & p & Hl & Hp & Hc). cbn [snd] in Hl.
    rewrite last_snoc in Hl. injection Hl as <-. cbn [mbind option_bind]. rewrite Hc. by rewrite Hp.
  - destruct (cycle_port_last a h Ha) as (v' & p & _ & _ & Hc). cbn [mbind option_bind]. rewrite Hc. by apply IH.
Qed.

(** ** The theorems *)

(** C20. The client computes [client_run] of the text of its configuration: with
    the file readable and memory available, main finishes with the report on the
    standard output, one instance file per switch, exit code 0 and all memory and
    handles given back; it exits with status 1, writing no file, when the text is
    not a document or a switch has no list of ports; and its behaviour is undefined
    exactly when a name overflows its buffer, a file cannot be created, or a field
    that was never written would be used. The condition [lossless] is that parsing the
    text loses no node: it never opens a container directly behind a closed one, or it
    is accepted without dropping a node; otherwise the parser leaks (C4). *)
Theorem main_refines e text w :
  normal_env e (lit "../config.json") text -> lossless text -> run_spec (client_run (can_write e) text) w (main e w).
Proof. apply main_spec. Qed.

Definition env_of (text : list ascii) : env :=
  Env (fun _ => Some (Stream text true true true 0)) true (fun _ => false) (fun _ => false) 7 (Some 3%positive) (fun _ => true).
Definition world0 : world := World (mk_jmem ∅ 0) (SMem (LMem ∅ 0) (LMem ∅ 0) (LMem ∅ 0)) (UIO 0) ∅ [].

(** A configuration with one switch, in the format of App/config.json-11-4. *)
Definition small_config : list ascii :=
  qt "[{'switch':'alpha','port_list':[{'port_number':1,'values':[[5,10],[7,1]]}]}]".

Lemma main_refines_witness :
  (exists files report, client_run (can_write (env_of small_config)) small_config = Finished files report) /\
  run_spec (client_run (can_write (env_of small_config)) small_config) world0 (main (env_of small_config) world0).
Proof.
  split; [eexists _, _; vm_compute; reflexivity|]. apply main_refines.
  - split; [|reflexivity..]. eexists. split; [reflexivity|]. split; [vm_compute; reflexivity|]. split; reflexivity.
  - left. vm_compute. reflexivity.
Defined.

(** C21. Every valid configuration is processed: for a database whose lists are
    not empty and whose numbers are in range, running the client on the JSON text
    of that database prints its report and, when the cycle times are representable
    and the files can be created, writes exactly the instance files of the
    database and gives all memory back. *)
Theorem main_valid_config e db files w :
  valid_db db = true -> normal_env e (lit "../config.json") (render (config_tree db)) -> instances (can_write e) db = Some files ->
  exists report w', show_db db = Some report /\ main e w = Ret 0 w' /\ restored w w' /\
    w_files w' = write_all (w_files w) files /\ w_out w' = w_out w ++ report ++ done_message.
Proof.
  intros Hv Hn Hi. destruct (config_tree_ok db Hv) as [Hw Hp]. pose proof (render_parse _ Hw Hp) as Hsp.
  pose proof (main_spec e _ w Hn (or_intror (ex_intro _ _ Hsp))) as Hm. unfold client_run in Hm.
  rewrite (spec_full_parse _ _ _ Hsp), (read_config_tree db Hv), Hi in Hm.
  destruct (show_db_total db Hv) as [report Hr]. rewrite Hr in Hm. destruct Hm as (w' & He & ?).
  by exists report, w'.
Qed.

Definition tiny_db : list aswitch := [(lit "alpha", [(1, [PortValues (Some 5) (Some 10)])])].

Lemma main_valid_config_witness :
  exists files, valid_db tiny_db = true /\ instances (fun _ => true) tiny_db = Some files /\
  exists report w', show_db tiny_db = Some report /\ main (env_of (render (config_tree tiny_db))) world0 = Ret 0 w' /\
    restored world0 w' /\ w_files w' = write_all (w_files world0) files /\
    w_out w' = w_out world0 ++ report ++ done_message.
Proof.
  eexists. split; [vm_compute; reflexivity|]. split; [vm_compute; reflexivity|]. apply main_valid_config.
  - vm_compute. reflexivity.
  - split; [|reflexivity..]. eexists. split; [reflexivity|]. split; [vm_compute; reflexivity|]. split; vm_compute; reflexivity.
  - vm_compute. reflexivity.
Defined.

(** The cycle time of an instance file is the period of the last value of the
    last port: "hypercycle =+ period" assigns where the sum of the periods is
    meant. *)
Theorem hypercycle_last w os ports n vs v p h :
  Forall2 (port_seen (w_db w)) os (map Some (ports ++ [(n, vs ++ [v])])) ->
  forallb has_values (ports ++ [(n, vs ++ [v])]) = true ->
  period v = Some p -> hypercycle_ports os h w = Ret (float_of_Z p) w.
Proof.
  intros Hos Hv Hp. rewrite (hypercycle_ports_spec _ _ _ Hos), cycle_ports_last, Hp by done. done.
Qed.

Lemma hypercycle_last_witness :
  exists head d, build_db 7 NULL (fun _ => false) tiny_db (w_db world0) = Ret head d /\
  let w := set_db d world0 in
  hypercycle_ports [Some (Port 1 (Some 1%positive))] (float_of_Z 0) w = Ret (float_of_Z 5) w.
Proof.
  eexists _, _. split; [vm_compute; reflexivity|].
  apply (hypercycle_last _ _ [] 1 [] (PortValues (Some 5) (Some 10)) 5).
  - repeat constructor; vm_compute; reflexivity.
  - vm_compute. reflexivity.
  - reflexivity.
Defined.

(** ** The instance files in integers *)

(** The end of a port: 500 over the denominator. *)
Definition cycle_text (denominator : Z) : list ascii :=
  line 3 (lit "<sched:admin-cycle-time>") ++ line 4 (elem "sched:numerator" (lit "500")) ++
  line 4 (elem "sched:denominator" (show_Z denominator)) ++ line 3 (lit "</sched:admin-cycle-time>") ++
  line 3 (lit "<sched:admin-base-time>") ++ line 4 (elem "sched:seconds" (lit "0")) ++
  line 4 (elem "sched:fractional-seconds" (lit "0")) ++ line 3 (lit "</sched:admin-base-time>") ++
  line 3 (elem "sched:config-change" (lit "true")) ++ line 2 (lit "</sched:gate-parameters>") ++ line 1 (lit "</if:interface>").

Definition value_doc (index : nat) (v : t_port_values) : list ascii :=
  match period v, gate_states v with
  | Some p, Some g => xml_write_values p (default 0 (gate_value g)) (Z.of_nat index)
  | _, _ => []
  end.
Definition port_doc (denominator : Z) (p : aport) : list ascii :=
  xml_write_port (fst p) (Z.of_nat (length (snd p))) ++ concat (imap value_doc (snd p)) ++ cycle_text denominator.
Definition switch_doc (denominator : Z) (sw : aswitch) : list ascii :=
  xml_header ++ concat (map (port_doc denominator) (snd sw)) ++ line 0 (lit "</if:interfaces>").

(** The period of the last value of the last port. *)
Definition last_period (sw : aswitch) : option Z := last (snd sw) ≫= fun p => last (snd p) ≫= period.

Lemma quotient_check : forallb (fun k => bool_decide (int_of_float (float_div (float_of_Z 500) (float_of_Z (Z.of_nat k)))
  = (if Z.of_nat k =? 0 then None else Some (500 / Z.of_nat k)))) (seq 0 1001) = true.
Proof. vm_compute. reflexivity. Qed.

Lemma values_end_text p : 0 <= p <= 1000 -> xml_write_values_end (float_of_Z p) = if p =? 0 then None else Some (cycle_text (500 / p)).
Proof.
  intros Hp. pose proof quotient_check as Hf. rewrite forallb_forall in Hf. specialize (Hf (Z.to_nat p)). rewrite in_seq in Hf. specialize (Hf ltac:(lia)).
  apply bool_decide_eq_true in Hf. rewrite Z2Nat.id in Hf by lia. unfold xml_write_values_end. rewrite Hf. by destruct (p =? 0).
Qed.

Lemma gate_value_valid g : 0 <= g <= INT_MAX -> exists d, gate_value g = Some d.
Proof.
  intros Hg. destruct (gate_value_total g) as [d Hd]; [unfold INT_MIN, INT_MAX in *; lia|]. exists d. unfold gate_value. by rewrite Hd.
Qed.

Lemma values_xml_doc vs : forall i, forallb valid_values vs = true -> values_xml vs (Z.of_nat i) = Some (concat (imap (fun j => value_doc (i + j)) vs)).
Proof.
  induction vs as [|v vs IH]; intros i; [done|]. cbn [forallb values_xml]. intros [Hv Hvs]%andb_true_iff. unfold valid_values in Hv.
  rewrite imap_cons. cbn [concat]. unfold value_doc at 1. destruct (period v) as [p|]; [|done]. destruct (gate_states v) as [g|]; [|done]. bools. cbn [mbind option_bind].
  destruct (gate_value_valid g) as [d ->]; [done|]. replace (Z.of_nat i + 1) with (Z.of_nat (S i)) by lia. cbn [mbind option_bind]. rewrite IH by done.
  cbn [mbind option_bind default]. rewrite Nat.add_0_r. do 3 f_equal. apply imap_ext. intros j x _. cbn. by rewrite Nat.add_succ_r.
Qed.

(** Lists that a C int can count. *)
Definition countable_port (p : aport) : bool := in_int (Z.of_nat (length (snd p))).

Lemma port_xml_doc h p q : valid_port p = true -> countable_port p = true -> xml_write_values_end h = (if q =? 0 then None else Some (cycle_text (500 / q))) ->
  port_xml h (Some p) = if q =? 0 then None else Some (port_doc (500 / q) p).
Proof.
  unfold valid_port, countable_port. intros Hv Hc Hh. bools. unfold port_xml. cbn [mbind option_bind]. rewrite seen_nonempty, Hc, Hh by done. cbn [negb].
  change 0 with (Z.of_nat 0). rewrite values_xml_doc by done. cbn [mbind option_bind]. by destruct (q =? Z.of_nat 0).
Qed.

Lemma mapM_none_one {A B C} (f : C -> option B) (h : A -> C) xs : Exists (fun x => f (h x) = None) xs -> mapM f (map h xs) = None.
Proof. intros H. apply mapM_None, Exists_exists. apply Exists_exists in H as (x & Hx & Hf). exists (h x). split; [|done]. by apply list_elem_of_fmap_2. Qed.

Lemma mapM_some_all {A B C} (f : C -> option B) (h : A -> C) (g : A -> B) xs : Forall (fun x => f (h x) = Some (g x)) xs -> mapM f (map h xs) = Some (map g xs).
Proof. induction 1 as [|x xs Hx _ IH]; [done|]. cbn. rewrite Hx. cbn. by rewrite IH. Qed.

Lemma cycle_of_switch ports p : forallb valid_port ports = true -> (last ports ≫= fun a => last (snd a) ≫= period) = Some p ->
  cycle_ports (map Some ports) (float_of_Z 0) = Some (float_of_Z p).
Proof.
  intros Hv Hp. destruct ports as [|[n vs] ports _] using rev_ind; [done|]. rewrite last_snoc in Hp. cbn in Hp.
  destruct vs as [|v vs _] using rev_ind; [done|]. rewrite last_snoc in Hp. cbn in Hp. rewrite cycle_ports_last, Hp; [done|].
  rewrite forallb_forall in *. intros a Ha. specialize (Hv a Ha). unfold valid_port in Hv. bools. unfold has_values. by apply andb_true_iff.
Qed.

Lemma switch_xml_doc sw p : valid_switch sw = true -> forallb countable_port (snd sw) = true -> last_period sw = Some p -> 0 <= p <= 1000 ->
  switch_xml sw = if p =? 0 then None else Some (switch_doc (500 / p) sw).
Proof.
  unfold valid_switch, last_period. intros Hv Hc Hp Hr. bools. unfold switch_xml. rewrite seen_nonempty by by rewrite nonempty_map.
  rewrite (cycle_of_switch (snd sw) p) by done. cbn [mbind option_bind]. rewrite forallb_forall in *.
  assert (Forall (fun a => port_xml (float_of_Z p) (Some a) = if p =? 0 then None else Some (port_doc (500 / p) a)) (snd sw)) as Hports.
  { apply Forall_forall. intros a Ha%list_elem_of_In. apply port_xml_doc; [auto|auto|by apply values_end_text]. }
  destruct (p =? 0).
  - rewrite mapM_none_one; [done|]. destruct (snd sw); [done|]. apply Exists_cons_hd. by inversion Hports.
  - by rewrite (mapM_some_all _ _ (port_doc (500 / p))).
Qed.

(** A database whose files can be written: the cycle of every switch is at most 1000. *)
Definition cycles_known (can : list ascii -> bool) (sw : aswitch) : Prop :=
  can (instance_path (fst sw)) = true /\ forallb countable_port (snd sw) = true /\ exists p, last_period sw = Some p /\ 0 <= p <= 1000.

Definition instance_of (sw : aswitch) : list ascii * list ascii :=
  (instance_path (fst sw), switch_doc (500 / default 0 (last_period sw)) sw).

Lemma instances_doc can db : valid_db db = true -> Forall (cycles_known can) db ->
  instances can db = if existsb (fun sw => bool_decide (last_period sw = Some 0)) db then None else Some (map instance_of db).
Proof.
  unfold valid_db. intros Hv Hk. bools. unfold instances. rewrite seen_nonempty by by rewrite nonempty_map.
  assert (Forall (fun sw => file_of can (Some sw) = if bool_decide (last_period sw = Some 0) then None else Some (instance_of sw)) db) as Hf.
  { apply Forall_forall. intros sw Hin. rewrite Forall_forall in Hk. destruct (Hk sw Hin) as (Hcan & Hc & p & Hp & Hr).
    assert (valid_switch sw = true) as Hsw by (by eapply forallb_forall; [|by apply list_elem_of_In]).
    unfold file_of, instance_of. cbn [mbind option_bind]. rewrite Hcan, (switch_xml_doc sw p Hsw Hc Hp Hr), Hp.
    destruct (Z.eqb_spec p 0) as [->|Hne]; [by rewrite bool_decide_eq_true_2|]. by rewrite bool_decide_eq_false_2 by congruence. }
  destruct (existsb _ db) eqn:He.
  - apply existsb_exists in He as (sw & Hin%list_elem_of_In & Hz). apply mapM_none_one, Exists_exists. exists sw. split; [done|].
    rewrite Forall_forall in Hf. by rewrite Hf, Hz.
  - apply mapM_some_all, Forall_forall. intros sw Hin. rewrite Forall_forall in Hf. rewrite Hf by done.
    destruct (bool_decide _) eqn:Hz; [|done]. assert (existsb (fun sw => bool_decide (last_period sw = Some 0)) db = true) as Ht; [|congruence].
    apply existsb_exists. exists sw. by split; [apply list_elem_of_In|].
Qed.

(** C23. The files the client writes for a valid configuration, in integers: the instance
    file of a switch holds every port with its control list and, for the cycle time of
    every port, the numerator 500 and as denominator the integer quotient of 500 by the
    period of the last value of the last port of the switch. It holds for periods of 1 to
    1000 there, although the code divides in single precision; above 500 the denominator is 0.
    When that period is 0 in some switch the run is undefined, since the quotient is
    infinite and is converted to int. The files can be created and int can count the
    values of a port. *)
Theorem cycle_denominator e db w :
  valid_db db = true -> normal_env e (lit "../config.json") (render (config_tree db)) -> Forall (cycles_known (can_write e)) db ->
  if existsb (fun sw => bool_decide (last_period sw = Some 0)) db then main e w = Undef
  else exists w', main e w = Ret 0 w' /\ w_files w' = write_all (w_files w) (map instance_of db).
Proof.
  intros Hv Hn Hk. destruct (config_tree_ok db Hv) as [Hw Hp]. pose proof (render_parse _ Hw Hp) as Hsp.
  pose proof (main_spec e _ w Hn (or_intror (ex_intro _ _ Hsp))) as Hm. unfold client_run in Hm.
  rewrite (spec_full_parse _ _ _ Hsp), (read_config_tree db Hv), (instances_doc _ _ Hv Hk) in Hm.
  destruct (show_db_total db Hv) as [report Hr]. rewrite Hr in Hm. destruct (existsb _ db); [exact Hm|]. destruct Hm as (w' & He & _ & Hf & _).
  by exists w'.
Qed.

(** The cycle is 9, of the second port: the denominator is 55. *)
Definition cycle_db : list aswitch := [(lit "alpha", [(1, [PortValues (Some 5) (Some 10)]); (2, [PortValues (Some 0) (Some 1); PortValues (Some 9) (Some 11)])])].

Lemma cycle_denominator_witness :
  exists w', main (env_of (render (config_tree cycle_db))) world0 = Ret 0 w' /\
    w_files w' = write_all (w_files world0) [(lit "../Output/alpha.xml", switch_doc 55 (default ([], []) (head cycle_db)))].
Proof.
  apply (cycle_denominator (env_of (render (config_tree cycle_db))) cycle_db world0).
  - vm_compute. reflexivity.
  - split; [|reflexivity..]. eexists. split; [reflexivity|]. split; [vm_compute; reflexivity|]. split; vm_compute; reflexivity.
  - constructor; [|constructor]. split; [reflexivity|]. split; [vm_compute; reflexivity|]. exists 9. split; [reflexivity|lia].
Defined.
