(* ===== verification/Tools.v ===== *)
(** * The two small programs around the JSON library

    App/json/main.c prints the tree of a file; App/Client/Main-david.c lists the
    switches of a flat configuration. Both share [parse] with Main.c. *)

From S2P Require Import Prelude CLib Utils JsonLex JsonMem JsonApi LinkedList Switch Client.

(** ** App/json/main.c *)
Module JsonMain.
Section JsonMain.
Context (e : env).

(** parse: the text of the function of Main.c. *)
Definition json_main_parse (path : list ascii) : M world ptr := parse e path.

(** json_print, on the standard output. *)
Definition print_tree (node : ptr) : M world unit :=
  out ← lift (json_print node); print_out out.

Definition json_main : M world Z :=
  node ← json_main_parse (lit "test.json");
  _ ← print_tree node;
  w ← get;
  _ ← lift (json_free (free_fuel (w_json w)) node);
  mret 0.
End JsonMain.
End JsonMain.

(** ** App/Client/Main-david.c *)
Module David.
Section David.
Context (e : env).

(** printf(" %lu ", json_real(data)) when the item is a natural number. *)
Definition print_item (node : ptr) (i : nat) : M world unit :=
  data ← lift (json_item node i);
  real ← lift (json_is_real data);
  if real : bool then
    v ← lift (json_real data);
    print_out (lit " " ++ show_Z v ++ lit " ")
  else mret tt.

Fixpoint values_loop (fuel : nat) (node : ptr) : M world unit :=
  match fuel with
  | O => no_fuel
  | S fuel =>
      match node with
      | None => mret tt
      | Some _ =>
          _ ← print_out ([tab] ++ lit "[");
          _ ← print_item node 0;
          _ ← print_item node 1;
          node ← lift (json_next node);
          _ ← print_out (lit "]" ++ [newline]);
          values_loop fuel node
      end
  end.

Definition david_read_values (node : ptr) : M world unit :=
  node ← lift (json_item node 0);
  _ ← print_out (lit "values: [" ++ [newline]);
  w ← get;
  _ ← values_loop (chain_fuel (w_json w)) node;
  print_out (lit "]" ++ [newline]).

Definition print_name (data : ptr) : M world unit :=
  str ← lift (json_is_string data);
  if str : bool then s ← lift (json_string data); print_out (printf_s s ++ [newline]) else mret tt.

Definition print_port_number (data : ptr) : M world unit :=
  real ← lift (json_is_real data);
  if real : bool then v ← lift (json_real data); print_out (show_Z v ++ [newline]) else mret tt.

Fixpoint switch_loop (fuel : nat) (node : ptr) : M world unit :=
  match fuel with
  | O => no_fuel
  | S fuel =>
      match node with
      | None => mret tt
      | Some _ =>
          data ← lift (json_node node (lit "switch"));
          _ ← print_name data;
          data ← lift (json_node node (lit "port_number"));
          _ ← print_port_number data;
          data ← lift (json_node node (lit "values"));
          _ ← david_read_values data;
          node ← lift (json_next node);
          _ ← print_out (lit "--------------" ++ [newline]);
          switch_loop fuel node
      end
  end.

Definition read_switch (node : ptr) : M world unit :=
  node ← lift (json_item node 0);
  w ← get;
  switch_loop (chain_fuel (w_json w)) node.

(** parse: the text of the function of Main.c. *)
Definition david_parse (path : list ascii) : M world ptr := parse e path.

Definition david_main : M world Z :=
  node ← david_parse (lit "../config.json");
  _ ← read_switch node;
  w ← get;
  _ ← lift (json_free (free_fuel (w_json w)) node);
  mret 0.
End David.
End David.
