(* ===== verification/ToolsThms.v ===== *)
(** * What the small programs print *)

From S2P Require Import Prelude HeapRep CLib JsonLex JsonTree JsonWf JsonMem JsonRep JsonApi.
From S2P Require Import JsonRefine JsonView JsonThms LinkedList Utils UtilsThms Switch SwitchRep Client.
From S2P Require Import ClientParse ClientRead Tools.

(** ** The specifications *)
Definition item_text (o : option jtree) : list ascii :=
  match read_real o with Some v => lit " " ++ show_Z v ++ lit " " | None => [] end.

Definition value_line (t : jtree) : list ascii :=
  [tab] ++ lit "[" ++ item_text (tree_item 0 t) ++ item_text (tree_item 1 t) ++ lit "]" ++ [newline].

Definition values_text (o : option jtree) : list ascii :=
  lit "values: [" ++ [newline] ++ concat (map value_line (from_option kids [] o)) ++ lit "]" ++ [newline].

Definition name_text (o : option jtree) : list ascii :=
  match o with
  | Some t => if tree_has_type JSON_STRING t then printf_s (d_value (label t)) ++ [newline] else []
  | None => []
  end.

Definition port_text (o : option jtree) : list ascii :=
  match read_real o with Some v => show_Z v ++ [newline] | None => [] end.

Definition entry_text (t : jtree) : list ascii :=
  name_text (tree_node (lit "switch") t) ++ port_text (tree_node (lit "port_number") t) ++
  values_text (tree_node (lit "values") t) ++ lit "--------------" ++ [newline].

(** The listing of a document: one entry per child of the root. *)
Definition listing (t : jtree) : list ascii := concat (map entry_text (kids t)).

(** ** Output *)
Definition say (text : list ascii) (w : world) : world :=
  World (w_json w) (w_db w) (w_io w) (w_files w) (w_out w ++ text).

Lemma say_say a b w : say b (say a w) = say (a ++ b) w.
Proof. unfold say. simpl. by rewrite app_assoc. Qed.

Lemma say_nil w : say [] w = w.
Proof. unfold say. rewrite app_nil_r. by destruct w. Qed.

Lemma print_bind {B} text (k : unit -> M world B) w : (print_out text ≫= k) w = k tt (say text w).
Proof. done. Qed.

(** A program whose result state carries the text [a] and then [b]. *)
Lemma say_bind {B} (m : M world unit) (k : unit -> M world B) a w :
  m w = Ret tt (say a w) -> (m ≫= k) w = k tt (say a w).
Proof. intros H. by rewrite (bind_ret_eq _ _ _ _ _ H). Qed.

Section Listing.
Context {doc : jmem -> ptr -> option jtree -> Prop} {chain : jmem -> ptr -> list jtree -> Prop}
  {api : DocApi doc chain}.

Lemma print_item_spec node t i w :
  doc (w_json w) node (Some t) -> David.print_item node i w = Ret tt (say (item_text (tree_item i t)) w).
Proof.
  intros Hd. destruct (api_item _ _ _ i Hd) as (data & He & Hdata). unfold David.print_item, item_text, read_real.
  rewrite (bind_ret_eq _ _ _ _ _ (json_read _ _ _ He)).
  rewrite (bind_ret_eq _ _ _ _ _ (json_read _ _ _ (api_is_real _ _ _ Hdata))).
  change (Some t ≫= tree_item i) with (tree_item i t) in *.
  destruct (from_option tree_is_real false (tree_item i t)); [|by rewrite say_nil].
  by rewrite (bind_ret_eq _ _ _ _ _ (json_read _ _ _ (api_real _ _ _ Hdata))).
Qed.

Lemma values_loop_spec ts : forall fuel node w,
  (length ts < fuel)%nat -> chain (w_json w) node ts ->
  David.values_loop fuel node w = Ret tt (say (concat (map value_line ts)) w).
Proof.
  induction ts as [|t ts IH]; intros fuel node w Hf Hc; (destruct fuel as [|fuel]; [simpl in Hf; lia|]).
  { apply api_chain_nil in Hc as ->. simpl. by rewrite say_nil. }
  destruct (api_chain_cons _ _ _ _ Hc) as [l Hl]. destruct (api_next _ _ _ _ Hc) as [Hdoc (nxt & Hn & Hc')].
  cbn [David.values_loop]. rewrite Hl, <- Hl, print_bind.
  rewrite (say_bind _ _ _ _ (print_item_spec node t 0 (say _ w) Hdoc)).
  rewrite (say_bind _ _ _ _ (print_item_spec node t 1 (say _ (say _ w)) Hdoc)).
  rewrite (bind_ret_eq _ _ _ _ _ (json_read _ (say _ (say _ (say _ w))) _ Hn)), print_bind.
  rewrite (IH fuel nxt (say _ (say _ (say _ (say _ w)))) ltac:(simpl in Hf; lia) Hc').
  rewrite !say_say. unfold value_line. cbn [map concat]. by rewrite <- !app_assoc.
Qed.

Lemma read_values_text node o w :
  doc (w_json w) node o -> David.david_read_values node w = Ret tt (say (values_text o) w).
Proof.
  intros Hd. destruct (api_children _ _ _ Hd) as (first & He & Hch). unfold David.david_read_values, values_text.
  rewrite (bind_ret_eq _ _ _ _ _ (json_read _ _ _ He)), print_bind. unfold mbind at 1, M_bind at 1, get.
  rewrite (say_bind _ _ _ _ (values_loop_spec _ _ first (say _ w) (api_chain_length _ _ _ Hch) Hch)).
  unfold print_out, modify. rewrite !say_say. unfold say. simpl. by rewrite <- !app_assoc.
Qed.

Lemma print_name_spec data o w :
  doc (w_json w) data o -> David.print_name data w = Ret tt (say (name_text o) w).
Proof.
  intros Hd. unfold David.print_name, name_text, json_is_string.
  rewrite (bind_ret_eq _ _ _ _ _ (json_read _ _ _ (api_type _ _ _ JSON_STRING Hd))).
  destruct o as [t|]; cbn [from_option]; [|by rewrite say_nil].
  destruct (tree_has_type JSON_STRING t); [|by rewrite say_nil].
  by rewrite (bind_ret_eq _ _ _ _ _ (json_read _ _ _ (api_string _ _ _ Hd))).
Qed.

Lemma print_port_number_spec data o w :
  doc (w_json w) data o -> David.print_port_number data w = Ret tt (say (port_text o) w).
Proof.
  intros Hd. unfold David.print_port_number, port_text, read_real.
  rewrite (bind_ret_eq _ _ _ _ _ (json_read _ _ _ (api_is_real _ _ _ Hd))).
  destruct (from_option tree_is_real false o); [|by rewrite say_nil].
  by rewrite (bind_ret_eq _ _ _ _ _ (json_read _ _ _ (api_real _ _ _ Hd))).
Qed.

Lemma switch_loop_spec ts : forall fuel node w,
  (length ts < fuel)%nat -> chain (w_json w) node ts ->
  David.switch_loop fuel node w = Ret tt (say (concat (map entry_text ts)) w).
Proof.
  induction ts as [|t ts IH]; intros fuel node w Hf Hc; (destruct fuel as [|fuel]; [simpl in Hf; lia|]).
  { apply api_chain_nil in Hc as ->. simpl. by rewrite say_nil. }
  destruct (api_chain_cons _ _ _ _ Hc) as [l Hl]. destruct (api_next _ _ _ _ Hc) as [Hdoc (nxt & Hn & Hc')].
  cbn [David.switch_loop]. rewrite Hl, <- Hl.
  destruct (api_node _ _ _ (lit "switch") Hdoc) as (sw & Hsw & Hdsw).
  rewrite (bind_ret_eq _ _ _ _ _ (json_read _ _ _ Hsw)), (say_bind _ _ _ _ (print_name_spec _ _ _ Hdsw)).
  destruct (api_node _ _ _ (lit "port_number") Hdoc) as (pn & Hpn & Hdpn).
  rewrite (bind_ret_eq _ _ _ _ _ (json_read _ (say _ w) _ Hpn)).
  rewrite (say_bind _ _ _ _ (print_port_number_spec _ _ (say _ w) Hdpn)).
  destruct (api_node _ _ _ (lit "values") Hdoc) as (vn & Hvn & Hdvn).
  rewrite (bind_ret_eq _ _ _ _ _ (json_read _ (say _ (say _ w)) _ Hvn)).
  rewrite (say_bind _ _ _ _ (read_values_text _ _ (say _ (say _ w)) Hdvn)).
  rewrite (bind_ret_eq _ _ _ _ _ (json_read _ (say _ (say _ (say _ w))) _ Hn)), print_bind.
  rewrite (IH fuel nxt (say _ (say _ (say _ (say _ w)))) ltac:(simpl in Hf; lia) Hc').
  rewrite !say_say. unfold entry_text. cbn [map concat mbind option_bind]. by rewrite <- !app_assoc.
Qed.

Lemma read_switch_text node t w :
  doc (w_json w) node (Some t) -> David.read_switch node w = Ret tt (say (listing t) w).
Proof.
  intros Hd. destruct (api_children _ _ _ Hd) as (first & He & Hch). unfold David.read_switch, listing.
  rewrite (bind_ret_eq _ _ _ _ _ (json_read _ _ _ He)). unfold mbind at 1, M_bind at 1, get.
  apply switch_loop_spec; [by eapply api_chain_length|done].
Qed.
End Listing.

(** A program that parses a file, prints a text computed from the document and
    frees it. *)
Lemma tool_spec e path text w (body : ptr -> M world unit) (report : jtree -> list ascii) :
  normal_env e path text -> lossless text ->
  (forall w' node t, doc_heap (w_json w') node (Some t) -> wf_elem false t = true ->
     stored (nodes (w_json w)) (w_json w') node t -> body node w' = Ret tt (say (report t) w')) ->
  let out := (node ← parse e path; _ ← body node; v ← get;
              _ ← lift (json_free (free_fuel (w_json v)) node); mret 0) w in
  match spec_parse text with
  | Some t => exists w', out = Ret 0 w' /\ w_out w' = w_out w ++ report t /\
      nodes (w_json w') = nodes (w_json w) /\ w_io w' = w_io w /\ w_files w' = w_files w
  | None => exists w', out = Exit 1 w' /\ w_out w' = w_out w /\ nodes (w_json w') = nodes (w_json w)
  end.
Proof.
  intros Hn Hl Hb out. pose proof (parse_spec e path text w Hn Hl) as Hp. subst out.
  destruct (spec_parse text) as [t|] eqn:Esp.
  - destruct Hp as (p & j & He & Hst). rewrite (bind_ret_eq _ _ _ _ _ He).
    apply spec_parse_wf_elem in Esp as Hw.
    rewrite (bind_ret_eq _ _ _ _ _ (Hb (World j (w_db w) (w_io w) (w_files w) (w_out w)) p t
      (stored_values _ _ _ _ Hst Hw) Hw Hst)).
    unfold get. unfold mbind at 1, M_bind at 1.
    destruct (free_stored _ _ _ _ Hst) as (j' & Hf & Hnn).
    rewrite (bind_ret_eq _ _ _ _ _ (json_run _ (say _ (World j (w_db w) (w_io w) (w_files w) (w_out w))) _ _ Hf)).
    by eexists.
  - destruct Hp as (j & He & Hj). rewrite (bind_exit_eq _ _ _ _ _ He). by eexists.
Qed.

(** ** The theorems *)

(** App/json/main.c prints the tree of test.json, one line per node, frees
    everything and returns 0; on a text that is not a document it exits with
    status 1 without printing. *)
Theorem json_main_correct e text w :
  normal_env e (lit "test.json") text -> lossless text ->
  match spec_parse text with
  | Some t => exists w', JsonMain.json_main e w = Ret 0 w' /\ w_out w' = w_out w ++ tree_print 0 t /\
      nodes (w_json w') = nodes (w_json w) /\ w_io w' = w_io w /\ w_files w' = w_files w
  | None => exists w', JsonMain.json_main e w = Exit 1 w' /\ w_out w' = w_out w /\ nodes (w_json w') = nodes (w_json w)
  end.
Proof.
  intros Hn Hl.
  apply (tool_spec e _ text w JsonMain.print_tree (tree_print 0) Hn Hl).
  intros w' node t Hd Hw Hst. unfold JsonMain.print_tree.
  by rewrite (bind_ret_eq _ _ _ _ _ (json_read _ _ _ (print_stored _ _ _ _ Hst Hw))).
Qed.

Definition tool_env (text : list ascii) : env :=
  Env (fun _ => Some (Stream text true true true 0)) true (fun _ => false) (fun _ => false) 7 (Some 3%positive) (fun _ => true).
Definition tool_world : world := World (mk_jmem ∅ 0) (SMem (LMem ∅ 0) (LMem ∅ 0) (LMem ∅ 0)) (UIO 0) ∅ [].

Lemma json_main_correct_witness :
  is_Some (spec_parse sample) /\
  match spec_parse sample with
  | Some t => exists w', JsonMain.json_main (tool_env sample) tool_world = Ret 0 w' /\
      w_out w' = w_out tool_world ++ tree_print 0 t /\ nodes (w_json w') = nodes (w_json tool_world) /\
      w_io w' = w_io tool_world /\ w_files w' = w_files tool_world
  | None => exists w', JsonMain.json_main (tool_env sample) tool_world = Exit 1 w' /\ w_out w' = w_out tool_world /\
      nodes (w_json w') = nodes (w_json tool_world)
  end.
Proof.
  split; [vm_compute; eauto|]. apply json_main_correct.
  - split; [|reflexivity..]. eexists. split; [reflexivity|]. split; [vm_compute; reflexivity|]. split; vm_compute; reflexivity.
  - left. vm_compute. reflexivity.
Defined.

(** App/Client/Main-david.c prints the listing of the document: for every
    child of the root its name, its port number and its pairs of natural numbers;
    it frees everything and returns 0, and exits with status 1 on a text that is
    not a document. *)
Theorem david_main_correct e text w :
  normal_env e (lit "../config.json") text -> lossless text ->
  match spec_parse text with
  | Some t => exists w', David.david_main e w = Ret 0 w' /\ w_out w' = w_out w ++ listing t /\
      nodes (w_json w') = nodes (w_json w) /\ w_io w' = w_io w /\ w_files w' = w_files w
  | None => exists w', David.david_main e w = Exit 1 w' /\ w_out w' = w_out w /\ nodes (w_json w') = nodes (w_json w)
  end.
Proof.
  intros Hn Hl. apply (tool_spec e _ text w David.read_switch listing Hn Hl).
  intros w' node t Hd _ _. by apply read_switch_text.
Qed.

Definition david_config : list ascii := qt "[{'switch':'64','port_number':1,'values':[[5,10],[7,x]]}]".
Definition david_ok : list ascii := qt "[{'switch':'64','port_number':1,'values':[[5,10],[7,'x']]}]".

Lemma david_main_correct_witness :
  spec_parse david_config = None /\ is_Some (spec_parse david_ok) /\
  match spec_parse david_ok with
  | Some t => exists w', David.david_main (tool_env david_ok) tool_world = Ret 0 w' /\
      w_out w' = w_out tool_world ++ listing t /\ nodes (w_json w') = nodes (w_json tool_world) /\
      w_io w' = w_io tool_world /\ w_files w' = w_files tool_world
  | None => exists w', David.david_main (tool_env david_ok) tool_world = Exit 1 w' /\ w_out w' = w_out tool_world /\
      nodes (w_json w') = nodes (w_json tool_world)
  end.
Proof.
  split; [vm_compute; reflexivity|]. split; [vm_compute; eauto|]. apply david_main_correct.
  - split; [|reflexivity..]. eexists. split; [reflexivity|]. split; [vm_compute; reflexivity|]. split; vm_compute; reflexivity.
  - left. vm_compute. reflexivity.
Defined.
