(* ===== verification/Bytes.v ===== *)
(** * Bytes, machine integers as bytes, and blocks of memory

    What the libssh modules share: unsigned integers as little-endian byte
    sequences (the layout of the x86-64 target), the byte-order conversions of
    arpa/inet.h, and reads, writes and clears in a block of memory, [None] outside
    the block. A byte that was never written is [None] in the block. *)

From S2P Require Import Prelude Utils.

(** ** Integers as bytes *)
Fixpoint le_bytes (n : nat) (z : Z) : list ascii :=
  match n with
  | O => []
  | S n => chr (z mod 256) :: le_bytes n (z / 256)
  end.

Fixpoint le_val (bs : list ascii) : Z :=
  match bs with
  | [] => 0
  | b :: bs => ord b + 256 * le_val bs
  end.

(** Reverse the order of the [n] bytes of an unsigned integer. *)
Definition swap_bytes (n : nat) (z : Z) : Z := le_val (rev (le_bytes n z)).

Definition htons : Z -> Z := swap_bytes 2.
Definition ntohs : Z -> Z := swap_bytes 2.
Definition htonl : Z -> Z := swap_bytes 4.
Definition ntohl : Z -> Z := swap_bytes 4.
Definition htonll : Z -> Z := swap_bytes 8.
Definition ntohll : Z -> Z := swap_bytes 8.

(** The bytes of an integer in network order. *)
Definition be_bytes (n : nat) (z : Z) : list ascii := rev (le_bytes n z).

(** ** Blocks of memory *)

(** memcpy or memmove of the bytes [src] to the offset [off]. *)
Definition blit (buf : buffer) (off : nat) (src : buffer) : option buffer :=
  if (off + length src <=? length buf)%nat
  then Some (take off buf ++ src ++ drop (off + length src) buf)
  else None.

(** explicit_bzero(buf + off, n) *)
Definition bzero (buf : buffer) (off n : nat) : option buffer := blit buf off (replicate n (Some NUL)).

(** The [n] bytes at the offset [off]. *)
Definition sub_block (buf : buffer) (off n : nat) : option buffer :=
  if (off + n <=? length buf)%nat then Some (take n (drop off buf)) else None.

(** The integer stored in a block, when all its bytes were written. *)
Definition block_val (b : buffer) : option Z := le_val <$> mapM id b.

(** ** Lemmas *)
Lemma ord_range c : 0 <= ord c < 256.
Proof.
  unfold ord. split; [lia|]. pose proof (Ascii.N_ascii_bounded c). lia.
Qed.

Lemma chr_ord c : chr (ord c) = c.
Proof. unfold chr, ord. rewrite N2Z.id. apply ascii_N_embedding. Qed.

Lemma ord_chr z : 0 <= z < 256 -> ord (chr z) = z.
Proof. intros Hz. unfold chr, ord. rewrite N_ascii_embedding by lia. lia. Qed.

Lemma length_le_bytes n z : length (le_bytes n z) = n.
Proof. revert z. induction n as [|n IH]; intros z; simpl; [done|]. by rewrite IH. Qed.

Lemma le_val_range bs : 0 <= le_val bs < 256 ^ Z.of_nat (length bs).
Proof.
  induction bs as [|b bs IH]; [simpl; lia|]. cbn [le_val length].
  rewrite Nat2Z.inj_succ, Z.pow_succ_r by lia. pose proof (ord_range b). lia.
Qed.

Lemma le_bytes_val bs : le_bytes (length bs) (le_val bs) = bs.
Proof.
  induction bs as [|b bs IH]; [done|]. cbn [length le_bytes le_val]. pose proof (ord_range b).
  rewrite Z.mul_comm, Z.mod_add, Z.mod_small, chr_ord by lia.
  rewrite Z.div_add, Z.div_small by lia. by rewrite Z.add_0_l, IH.
Qed.

Lemma le_val_bytes n z : 0 <= z < 256 ^ Z.of_nat n -> le_val (le_bytes n z) = z.
Proof.
  revert z. induction n as [|n IH]; intros z Hz; [simpl in *; lia|]. cbn [le_bytes le_val].
  rewrite Nat2Z.inj_succ, Z.pow_succ_r in Hz by lia.
  pose proof (Z.mod_pos_bound z 256 ltac:(lia)). rewrite ord_chr by lia.
  rewrite IH; [pose proof (Z.div_mod z 256); lia|]. split; [apply Z.div_pos; lia|].
  apply Z.div_lt_upper_bound; lia.
Qed.

Lemma swap_bytes_range n z : 0 <= swap_bytes n z < 256 ^ Z.of_nat n.
Proof.
  unfold swap_bytes. pose proof (le_val_range (rev (le_bytes n z))) as H.
  by rewrite length_rev, length_le_bytes in H.
Qed.

Lemma le_bytes_swap n z : le_bytes n (swap_bytes n z) = be_bytes n z.
Proof.
  unfold swap_bytes, be_bytes. rewrite <- (le_bytes_val (rev (le_bytes n z))) at 2.
  by rewrite length_rev, length_le_bytes.
Qed.

Lemma swap_swap n z : 0 <= z < 256 ^ Z.of_nat n -> swap_bytes n (swap_bytes n z) = z.
Proof.
  intros Hz. unfold swap_bytes at 1. rewrite le_bytes_swap. unfold be_bytes.
  rewrite rev_involutive. by apply le_val_bytes.
Qed.

Lemma length_be_bytes n z : length (be_bytes n z) = n.
Proof. unfold be_bytes. by rewrite length_rev, length_le_bytes. Qed.

Lemma blit_length buf off src b : blit buf off src = Some b -> length b = length buf.
Proof.
  unfold blit. destruct (Nat.leb_spec (off + length src) (length buf)); [|done].
  intros [= <-]. rewrite !length_app, length_take, length_drop. lia.
Qed.

Lemma blit_app (a b c src : buffer) :
  length b = length src -> blit (a ++ b ++ c) (length a) src = Some (a ++ src ++ c).
Proof.
  intros Hl. unfold blit. rewrite !length_app, (proj2 (Nat.leb_le _ _)) by lia.
  by rewrite take_app_length, <- drop_drop, drop_app_length, <- Hl, drop_app_length.
Qed.

Lemma sub_block_app (a b c : buffer) : sub_block (a ++ b ++ c) (length a) (length b) = Some b.
Proof.
  unfold sub_block. rewrite !length_app, (proj2 (Nat.leb_le _ _)) by lia.
  by rewrite drop_app_length, take_app_length.
Qed.

Lemma mapM_some_id {A} (xs : list A) : mapM id (Some <$> xs) = Some xs.
Proof. apply mapM_Some, Forall2_fmap_l. by apply Forall_Forall2_diag, Forall_true. Qed.

Lemma block_val_bytes bs : block_val (Some <$> bs) = Some (le_val bs).
Proof. unfold block_val. by rewrite mapM_some_id. Qed.
