(* ===== verification/SshString.v ===== *)
(** * libssh/src/string.c: length-prefixed strings

    An ssh_string is one allocation: a 32-bit size in network order and the bytes,
    one more than the size so that a NUL can be put after them. NULL arguments are
    [None]; the boolean argument [ok] says whether the malloc of a function
    succeeds; an outer [None] is undefined behaviour. *)

From S2P Require Import Prelude Utils Bytes.

Definition STRING_SIZE_MAX : Z := 0x10000000.

(** struct ssh_string_struct: the size field as stored, and the data block. *)
Record ssh_string := SshString { s_size : Z; s_data : buffer }.

Section SshString.
Context (ok : bool).

Definition ssh_string_new (size : Z) : option ssh_string :=
  if size >? STRING_SIZE_MAX then None
  else if negb ok then None
  else Some (SshString (htonl size) (Some NUL :: replicate (Z.to_nat size) None)).

Definition ssh_string_len (s : option ssh_string) : Z :=
  match s with
  | None => 0
  | Some s =>
      let size := ntohl (s_size s) in
      if (0 <? size) && (size <=? STRING_SIZE_MAX) then size else 0
  end.

(** The result code and the string after the call. *)
Definition ssh_string_fill (s : option ssh_string) (data : option buffer) (len : Z)
  : option (Z * option ssh_string) :=
  match s, data with
  | Some str, Some bytes =>
      if (len =? 0) || (len >? ssh_string_len s) then Some (-1, s)
      else
        src ← sub_block bytes 0 (Z.to_nat len);
        d ← blit (s_data str) 0 src;
        Some (0, Some (SshString (s_size str) d))
  | _, _ => Some (-1, s)
  end.

Definition ssh_string_from_char (what : option (list ascii)) : option (option ssh_string) :=
  match what with
  | None => Some None
  | Some w =>
      match ssh_string_new (Z.of_nat (length w)) with
      | None => Some None
      | Some str =>
          d ← blit (s_data str) 0 (Some <$> w);
          Some (Some (SshString (s_size str) d))
      end
  end.

(** The string with a NUL after its bytes. *)
Definition ssh_string_get_char (s : option ssh_string) : option (option ssh_string) :=
  match s with
  | None => Some None
  | Some str =>
      d ← blit (s_data str) (Z.to_nat (ssh_string_len s)) [Some NUL];
      Some (Some (SshString (s_size str) d))
  end.

(** The fresh C buffer. *)
Definition ssh_string_to_char (s : option ssh_string) : option (option buffer) :=
  match s with
  | None => Some None
  | Some str =>
      let len := ssh_string_len s in
      if wrap_u64 (len + 1) <? len then Some None
      else if negb ok then Some None
      else
        src ← sub_block (s_data str) 0 (Z.to_nat len);
        b ← blit (replicate (Z.to_nat (len + 1)) None) 0 src;
        b ← blit b (Z.to_nat len) [Some NUL];
        Some (Some b)
  end.

Definition ssh_string_copy (s : option ssh_string) : option (option ssh_string) :=
  match s with
  | None => Some None
  | Some str =>
      let len := ssh_string_len s in
      if len =? 0 then Some None
      else
        match ssh_string_new len with
        | None => Some None
        | Some new =>
            src ← sub_block (s_data str) 0 (Z.to_nat len);
            d ← blit (s_data new) 0 src;
            Some (Some (SshString (s_size new) d))
        end
  end.

Definition ssh_string_burn (s : option ssh_string) : option (option ssh_string) :=
  match s with
  | None => Some None
  | Some str =>
      if s_size str =? 0 then Some s
      else
        d ← bzero (s_data str) 0 (Z.to_nat (ssh_string_len s));
        Some (Some (SshString (s_size str) d))
  end.

Definition ssh_string_data (s : option ssh_string) : option buffer := s_data <$> s.
End SshString.

(** ** The strings libssh builds *)
Definition wf_string (s : ssh_string) : Prop :=
  exists n, 0 <= n <= STRING_SIZE_MAX /\ s_size s = htonl n /\ length (s_data s) = S (Z.to_nat n).

(** The bytes of a string; unwritten ones included. *)
Definition string_bytes (s : ssh_string) : buffer :=
  take (Z.to_nat (ssh_string_len (Some s))) (s_data s).

(** The string with the bytes [bs], as it is in memory; the last byte is free. *)
Definition is_string (s : ssh_string) (bs : buffer) : Prop :=
  wf_string s /\ ntohl (s_size s) = Z.of_nat (length bs) /\ string_bytes s = bs.

Lemma ntohl_htonl n : 0 <= n < 2 ^ 32 -> ntohl (htonl n) = n.
Proof. intros Hn. apply swap_swap. simpl. lia. Qed.

Lemma len_htonl n d : 0 <= n <= STRING_SIZE_MAX -> ssh_string_len (Some (SshString (htonl n) d)) = n.
Proof.
  unfold STRING_SIZE_MAX. intros Hn. cbn [ssh_string_len s_size]. rewrite ntohl_htonl by lia.
  unfold STRING_SIZE_MAX. destruct (Z.ltb_spec 0 n), (Z.leb_spec n 0x10000000); simpl; lia.
Qed.

Lemma is_string_len s bs : is_string s bs -> ssh_string_len (Some s) = Z.of_nat (length bs).
Proof.
  intros [(n & Hn & Hs & _) [He _]]. destruct s as [sz d]. cbn [s_size] in *. subst sz. rewrite len_htonl by done.
  rewrite ntohl_htonl in He; [done|]. unfold STRING_SIZE_MAX in Hn. lia.
Qed.

(** The data block of a string: its bytes and one more. *)
Lemma is_string_data s bs : is_string s bs ->
  exists last, s_data s = bs ++ [last] /\ s_size s = htonl (Z.of_nat (length bs)) /\
    Z.of_nat (length bs) <= STRING_SIZE_MAX.
Proof.
  intros H. pose proof (is_string_len _ _ H) as Hl. destruct H as [(n & Hn & Hs & Hlen) [He Hb]].
  rewrite Hs, ntohl_htonl in He by (unfold STRING_SIZE_MAX in Hn; lia). subst n. unfold string_bytes in Hb.
  rewrite Hl, Nat2Z.id in Hb. rewrite Nat2Z.id in Hlen.
  rewrite <- (take_drop (length bs) (s_data s)), Hb.
  destruct (drop (length bs) (s_data s)) as [|last [|? ?]] eqn:E;
    apply (f_equal length) in E; rewrite length_drop in E; simpl in E; [lia| |lia].
  exists last. split; [done|]. split; [done|lia].
Qed.

Lemma is_string_intro bs last :
  Z.of_nat (length bs) <= STRING_SIZE_MAX -> is_string (SshString (htonl (Z.of_nat (length bs))) (bs ++ [last])) bs.
Proof.
  intros Hm. split; [|split].
  - exists (Z.of_nat (length bs)). split; [lia|]. split; [done|]. simpl. rewrite length_app. simpl. lia.
  - simpl. apply ntohl_htonl. unfold STRING_SIZE_MAX in Hm. lia.
  - unfold string_bytes. rewrite len_htonl by lia. cbn [s_data]. by rewrite Nat2Z.id, take_app_length.
Qed.
