(* ===== verification/SshBuffer.v ===== *)
(** * libssh/src/buffer.c: growing byte buffers

    The operations on the buffer a pointer designates. The state holds the buffer
    ([None] for a NULL pointer), the number of allocations requested, which may
    fail according to [oom], and the blocks given back to the allocator with their
    contents, so that what a secure buffer leaves behind can be stated. Sizes are
    size_t values in [Z]; an access outside the data block is [Undef]. *)

From S2P Require Import Prelude Utils Bytes SshString.

Definition BUFFER_SIZE_MAX : Z := 0x10000000.

Definition SSH_OK : Z := 0.
Definition SSH_ERROR : Z := -1.

(** struct ssh_buffer_struct *)
Record ssh_buffer := SshBuffer {
  secure : bool; used : Z; allocated : Z; pos : Z; data : buffer }.

Record bstate := BState {
  target : option ssh_buffer; mcalls : nat; freed : list buffer }.

Definition set_used (n : Z) (b : ssh_buffer) := SshBuffer (secure b) n (allocated b) (pos b) (data b).
Definition set_pos (n : Z) (b : ssh_buffer) := SshBuffer (secure b) (used b) (allocated b) n (data b).
Definition set_data (d : buffer) (b : ssh_buffer) := SshBuffer (secure b) (used b) (allocated b) (pos b) d.
Definition set_secure (s : bool) (b : ssh_buffer) := SshBuffer s (used b) (allocated b) (pos b) (data b).

(** The buffer behind the pointer, which must not be NULL. *)
Definition deref : M bstate ssh_buffer := fun s =>
  match target s with Some b => Ret b s | None => Undef end.
Definition assign (b : ssh_buffer) : M bstate unit := modify (fun s => BState (Some b) (mcalls s) (freed s)).
Definition clear : M bstate unit := modify (fun s => BState None (mcalls s) (freed s)).
Definition is_null : M bstate bool := fun s => Ret (bool_decide (target s = None)) s.

(** free of a block with these contents. *)
Definition release (block : buffer) : M bstate unit := modify (fun s =>
  BState (target s) (mcalls s) (freed s ++ [block])).

(** An access to memory that must be inside its block. *)
Definition mem {A} (o : option A) : M bstate A := match o with Some a => mret a | None => undef end.

Section SshBuffer.
Context (oom : nat -> bool).

Definition malloc_ok : M bstate bool := fun s =>
  Ret (negb (oom (mcalls s))) (BState (target s) (S (mcalls s)) (freed s)).

(** while (smallest <= needed) { if (smallest == 0) return -1; smallest <<= 1; }:
    [Some None] is the early return. *)
Fixpoint grow (fuel : nat) (smallest needed : Z) : option (option Z) :=
  match fuel with
  | O => None
  | S fuel =>
      if smallest <=? needed then
        if smallest =? 0 then Some None else grow fuel (wrap_u64 (smallest * 2)) needed
      else Some (Some smallest)
  end.

(** A size_t has 64 bits. *)
Definition grow_fuel : nat := 66.

Definition realloc_buffer (needed : Z) : M bstate Z :=
  match grow grow_fuel 1 needed with
  | None => no_fuel
  | Some None => mret (-1)
  | Some (Some needed) =>
      if needed >? BUFFER_SIZE_MAX then mret (-1)
      else
        b ← deref;
        ok ← malloc_ok;
        if negb (ok : bool) then mret (-1)
        else
          new ← (if secure b then
                   src ← mem (sub_block (data b) 0 (Z.to_nat (used b)));
                   new ← mem (blit (replicate (Z.to_nat needed) None) 0 src);
                   burnt ← mem (bzero (data b) 0 (Z.to_nat (used b)));
                   _ ← release burnt;
                   mret new
                 else
                   _ ← release (data b);
                   mret (take (Z.to_nat needed) (data b ++ replicate (Z.to_nat needed) None)));
          _ ← assign (SshBuffer (secure b) (used b) needed (pos b) new);
          mret 0
  end.

Definition buffer_shift : M bstate unit :=
  b ← deref;
  if pos b =? 0 then mret tt
  else
    let burn_pos := pos b in
    let n := used b - pos b in
    src ← mem (sub_block (data b) (Z.to_nat (pos b)) (Z.to_nat n));
    d ← mem (blit (data b) 0 src);
    d ← (if secure b then mem (bzero d (Z.to_nat n) (Z.to_nat burn_pos)) else mret d);
    assign (SshBuffer (secure b) n (allocated b) 0 d).

(** Make room when [room] bytes are not allocated; the buffer is shifted first. *)
Definition make_room (total : ssh_buffer -> Z) : M bstate bool :=
  b ← deref;
  if allocated b <? total b then
    _ ← (if 0 <? pos b then buffer_shift else mret tt);
    b ← deref;
    rc ← realloc_buffer (total b);
    mret (negb (rc <? 0))
  else mret true.

Definition ssh_buffer_allocate_size (len : Z) : M bstate Z :=
  ok ← make_room (fun _ => len);
  mret (if ok : bool then 0 else -1).

(** Whether the pointer returned is not NULL. *)
Definition ssh_buffer_new : M bstate bool :=
  ok ← malloc_ok;
  if negb (ok : bool) then _ ← clear; mret false
  else
    _ ← assign (SshBuffer false 0 0 0 []);
    rc ← ssh_buffer_allocate_size (64 - 1);
    if negb (rc =? 0) then _ ← clear; mret false else mret true.

Definition ssh_buffer_free : M bstate unit :=
  null ← is_null;
  if null : bool then mret tt
  else
    b ← deref;
    _ ← (if secure b && (0 <? allocated b)
         then d ← mem (bzero (data b) 0 (Z.to_nat (allocated b))); release d
         else release (data b));
    clear.

Definition ssh_buffer_set_secure : M bstate unit := b ← deref; assign (set_secure true b).

Definition ssh_buffer_reinit : M bstate Z :=
  null ← is_null;
  if null : bool then mret (-1)
  else
    b ← deref;
    d ← (if secure b && (0 <? allocated b) then mem (bzero (data b) 0 (Z.to_nat (allocated b))) else mret (data b));
    _ ← assign (SshBuffer (secure b) 0 (allocated b) 0 d);
    if allocated b >? 65536 then
      rc ← realloc_buffer (65536 - 1);
      mret (if negb (rc =? 0) then -1 else 0)
    else mret 0.

(** [bytes] is the memory at the data pointer, [None] for NULL; [len] is a
    uint32_t. *)
Definition ssh_buffer_add_data (bytes : option buffer) (len : Z) : M bstate Z :=
  null ← is_null;
  if null : bool then mret (-1)
  else
    match bytes with
    | None => mret (-1)
    | Some bytes =>
        b ← deref;
        if wrap_u64 (used b + len) <? len then mret (-1)
        else
          ok ← make_room (fun b => used b + len);
          if negb (ok : bool) then mret (-1)
          else
            b ← deref;
            src ← mem (sub_block bytes 0 (Z.to_nat len));
            d ← mem (blit (data b) (Z.to_nat (used b)) src);
            _ ← assign (SshBuffer (secure b) (used b + len) (allocated b) (pos b) d);
            mret 0
    end.

(** The offset of the allocated space, [None] for NULL. *)
Definition ssh_buffer_allocate (len : Z) : M bstate (option Z) :=
  b ← deref;
  if wrap_u64 (used b + len) <? len then mret None
  else
    ok ← make_room (fun b => used b + len);
    if negb (ok : bool) then mret None
    else
      b ← deref;
      _ ← assign (set_used (used b + len) b);
      mret (Some (used b)).

(** The memory of an ssh_string: the size field and the data. *)
Definition string_memory (s : ssh_string) : buffer := (Some <$> le_bytes 4 (s_size s)) ++ s_data s.

Definition ssh_buffer_add_ssh_string (s : option ssh_string) : M bstate Z :=
  match s with
  | None => mret (-1)
  | Some str =>
      let len := wrap_u32 (ssh_string_len s) in
      rc ← ssh_buffer_add_data (Some (string_memory str)) (wrap_u32 (len + 4));
      mret (if rc <? 0 then -1 else 0)
  end.

(** An unsigned integer of [n] bytes, as it is in memory. *)
Definition add_int (n : nat) (z : Z) : M bstate Z :=
  rc ← ssh_buffer_add_data (Some (Some <$> le_bytes n z)) (Z.of_nat n);
  mret (if rc <? 0 then -1 else 0).

Definition ssh_buffer_add_u8 : Z -> M bstate Z := add_int 1.
Definition ssh_buffer_add_u16 : Z -> M bstate Z := add_int 2.
Definition ssh_buffer_add_u32 : Z -> M bstate Z := add_int 4.
Definition ssh_buffer_add_u64 : Z -> M bstate Z := add_int 8.

Definition ssh_buffer_prepend_data (bytes : buffer) (len : Z) : M bstate Z :=
  b ← deref;
  if len <=? pos b then
    src ← mem (sub_block bytes 0 (Z.to_nat len));
    d ← mem (blit (data b) (Z.to_nat (pos b - len)) src);
    _ ← assign (SshBuffer (secure b) (used b) (allocated b) (pos b - len) d);
    mret 0
  else
    let total := wrap_u64 (used b - pos b + len) in
    if total <? len then mret (-1)
    else
      ok ← (if allocated b <? total then rc ← realloc_buffer total; mret (negb (rc <? 0)) else mret true);
      if negb (ok : bool) then mret (-1)
      else
        b ← deref;
        tail ← mem (sub_block (data b) (Z.to_nat (pos b)) (Z.to_nat (used b - pos b)));
        d ← mem (blit (data b) (Z.to_nat len) tail);
        src ← mem (sub_block bytes 0 (Z.to_nat len));
        d ← mem (blit d 0 src);
        _ ← assign (SshBuffer (secure b) (used b + (len - pos b)) (allocated b) 0 d);
        mret 0.

Definition ssh_buffer_get_len : M bstate Z := b ← deref; mret (wrap_u32 (used b - pos b)).

(** The memory at the current position. *)
Definition ssh_buffer_get : M bstate buffer := b ← deref; mret (drop (Z.to_nat (pos b)) (data b)).

(** The source is another buffer. *)
Definition ssh_buffer_add_buffer (source : ssh_buffer) : M bstate Z :=
  rc ← ssh_buffer_add_data (Some (drop (Z.to_nat (pos source)) (data source)))
         (wrap_u32 (used source - pos source));
  mret (if rc <? 0 then -1 else 0).

Definition ssh_buffer_pass_bytes (len : Z) : M bstate Z :=
  b ← deref;
  if (wrap_u64 (pos b + len) <? len) || (used b <? wrap_u64 (pos b + len)) then mret 0
  else
    let p := pos b + len in
    _ ← assign (if p =? used b then SshBuffer (secure b) 0 (allocated b) 0 (data b) else set_pos p b);
    mret len.

Definition ssh_buffer_pass_bytes_end (len : Z) : M bstate Z :=
  b ← deref;
  if used b <? len then mret 0
  else _ ← assign (set_used (used b - len) b); mret len.

Definition ssh_buffer_validate_length (len : Z) : M bstate Z :=
  b ← deref;
  mret (if (wrap_u64 (pos b + len) <? len) || (wrap_u64 (pos b + len) >? used b) then SSH_ERROR else SSH_OK).

(** The result and the bytes copied to the caller's memory. *)
Definition ssh_buffer_get_data (len : Z) : M bstate (Z * buffer) :=
  rc ← ssh_buffer_validate_length len;
  if negb (rc =? SSH_OK) then mret (0, [])
  else
    b ← deref;
    src ← mem (sub_block (data b) (Z.to_nat (pos b)) (Z.to_nat len));
    _ ← assign (set_pos (pos b + len) b);
    mret (len, src).

Definition ssh_buffer_get_u8 : M bstate (Z * buffer) := ssh_buffer_get_data 1.
Definition ssh_buffer_get_u32 : M bstate (Z * buffer) := ssh_buffer_get_data 4.
Definition ssh_buffer_get_u64 : M bstate (Z * buffer) := ssh_buffer_get_data 8.

Definition ssh_buffer_get_ssh_string : M bstate (option ssh_string) :=
  r ← ssh_buffer_get_u32;
  let '(rc, bytes) := r in
  if rc =? 0 then mret None
  else
    stringlen ← mem (block_val bytes);
    let hostlen := ntohl stringlen in
    rc ← ssh_buffer_validate_length hostlen;
    if negb (rc =? SSH_OK) then mret None
    else
      ok ← malloc_ok;
      match ssh_string_new ok hostlen with
      | None => mret None
      | Some str =>
          r ← ssh_buffer_get_data hostlen;
          let '(n, bytes) := r in
          if negb (n =? hostlen) then mret None
          else d ← mem (blit (s_data str) 0 bytes); mret (Some (SshString (s_size str) d))
      end.
End SshBuffer.
