(* ===== verification/SshQueue.v ===== *)
(** * The byte buffers of libssh are queues

    The invariant of ssh_buffer_struct and what every operation of buffer.c does
    to the bytes between the position and the end, the content of the buffer. *)

From S2P Require Import Prelude Utils Bytes SshString SshBuffer.

(** What buffer_verify checks, and the size of the data block. *)
Definition wf_buffer (b : ssh_buffer) : Prop :=
  0 <= pos b <= used b /\ used b <= allocated b <= BUFFER_SIZE_MAX /\
  length (data b) = Z.to_nat (allocated b).

Definition content (b : ssh_buffer) : buffer :=
  take (Z.to_nat (used b - pos b)) (drop (Z.to_nat (pos b)) (data b)).

(** The pointer designates a well-formed buffer with this content. *)
Definition holds (q : buffer) (s : bstate) : Prop :=
  exists b, target s = Some b /\ wf_buffer b /\ content b = q.

(** The layout of a well-formed buffer: consumed bytes, content, spare room. *)
Lemma wf_layout b : wf_buffer b ->
  exists pre post, data b = pre ++ content b ++ post /\
    pos b = Z.of_nat (length pre) /\ used b = Z.of_nat (length pre + length (content b)) /\
    allocated b = Z.of_nat (length pre + length (content b) + length post).
Proof.
  intros (Hp & Hu & Hd). unfold content.
  exists (take (Z.to_nat (pos b)) (data b)), (drop (Z.to_nat (used b - pos b)) (drop (Z.to_nat (pos b)) (data b))).
  rewrite take_drop, take_drop. split; [done|].
  rewrite !length_take, !length_drop, Hd. lia.
Qed.

Lemma layout_wf sec pre q post :
  let n := Z.of_nat (length pre + length q + length post) in
  n <= BUFFER_SIZE_MAX ->
  let b := SshBuffer sec (Z.of_nat (length pre + length q)) n (Z.of_nat (length pre)) (pre ++ q ++ post) in
  wf_buffer b /\ content b = q.
Proof.
  intros n Hn b. split.
  - unfold wf_buffer, b, n in *. simpl. rewrite !length_app. lia.
  - unfold content, b. simpl.
    replace (Z.to_nat (Z.of_nat (length pre + length q) - Z.of_nat (length pre))) with (length q) by lia.
    by rewrite Nat2Z.id, drop_app_length, take_app_length.
Qed.

Lemma content_length b : wf_buffer b -> Z.of_nat (length (content b)) = used b - pos b.
Proof.
  intros (Hp & Hu & Hd). unfold content. rewrite length_take, length_drop. lia.
Qed.

(** ** The loop of realloc_buffer *)
Lemma wrap_u64_small z : 0 <= z < 2 ^ 64 -> wrap_u64 z = z.
Proof. intros Hz. unfold wrap_u64. by apply Z.mod_small. Qed.

Lemma grow_power i fuel needed :
  0 <= i -> 2 ^ i <= 2 * needed \/ i = 0 -> 0 <= needed < 2 ^ (i + Z.of_nat fuel - 1) ->
  i + Z.of_nat fuel <= 64 ->
  exists k, 0 <= k < 64 /\ grow fuel (2 ^ i) needed = Some (Some (2 ^ k)) /\
    needed < 2 ^ k /\ (2 ^ k <= 2 * needed \/ k = 0).
Proof.
  revert i. induction fuel as [|fuel IH]; intros i Hi Hlow Hn Hf.
  - exfalso. assert (2 ^ (i + Z.of_nat 0 - 1) <= 2 ^ i) by (apply Z.pow_le_mono_r; lia).
    destruct Hlow as [Hl| ->]; [|simpl in Hn; lia].
    destruct (Z.eq_dec i 0) as [-> |Hnz]; [simpl in Hn; lia|].
    assert (2 ^ i = 2 * 2 ^ (i - 1)) by (rewrite <- Z.pow_succ_r by lia; f_equal; lia).
    replace (i + Z.of_nat 0 - 1) with (i - 1) in Hn by lia. lia.
  - cbn [grow]. assert (0 < 2 ^ i) by (apply Z.pow_pos_nonneg; lia).
    destruct (Z.leb_spec (2 ^ i) needed) as [Hle|Hgt]; [|exists i; repeat split; [lia|lia|done|done]].
    rewrite (proj2 (Z.eqb_neq _ _)) by lia.
    assert (2 ^ (i + 1) = 2 * 2 ^ i) as Hs by (rewrite <- Z.pow_succ_r by lia; f_equal; lia).
    assert (i + 1 < 64).
    { destruct fuel; [|lia]. replace (i + Z.of_nat 1 - 1) with i in Hn by lia. lia. }
    assert (2 ^ (i + 1) < 2 ^ 64) by (apply Z.pow_lt_mono_r; lia).
    rewrite wrap_u64_small, Z.mul_comm, <- Hs by lia.
    apply IH; [lia|lia| |lia]. by replace (i + 1 + Z.of_nat fuel - 1) with (i + Z.of_nat (S fuel) - 1) by lia.
Qed.

Lemma grow_more fuel fuel' z needed r : (fuel <= fuel')%nat -> grow fuel z needed = Some r -> grow fuel' z needed = Some r.
Proof.
  revert fuel' z. induction fuel as [|fuel IH]; intros fuel' z Hf H; [done|].
  destruct fuel' as [|fuel']; [lia|]. cbn [grow] in *. repeat case_match; try done. apply IH; [lia|done].
Qed.

(** The block requested is the smallest power of two above the size needed. *)
Lemma grow_spec needed : 0 <= needed < 2 ^ 63 ->
  exists k, 0 <= k < 64 /\ grow grow_fuel 1 needed = Some (Some (2 ^ k)) /\
    needed < 2 ^ k /\ (2 ^ k <= 2 * needed \/ k = 0).
Proof.
  intros Hn. destruct (grow_power 0 64 needed) as (k & Hk & Hg & Hrest); [lia|by right|exact Hn|lia|].
  exists k. split; [done|]. split; [|done]. revert Hg. apply grow_more. unfold grow_fuel. lia.
Qed.

(** ** Blocks *)
Lemma blit_ok buf off src : (off + length src <= length buf)%nat ->
  blit buf off src = Some (take off buf ++ src ++ drop (off + length src) buf).
Proof. intros H. unfold blit. by rewrite (proj2 (Nat.leb_le _ _)). Qed.

Lemma bzero_ok buf off n : (off + n <= length buf)%nat ->
  bzero buf off n = Some (take off buf ++ replicate n (Some NUL) ++ drop (off + n) buf).
Proof. intros H. unfold bzero. by rewrite blit_ok, length_replicate by (by rewrite length_replicate). Qed.

Lemma sub_block_ok buf off n : (off + n <= length buf)%nat -> sub_block buf off n = Some (take n (drop off buf)).
Proof. intros H. unfold sub_block. by rewrite (proj2 (Nat.leb_le _ _)). Qed.

Lemma content_alt b : wf_buffer b -> content b = drop (Z.to_nat (pos b)) (take (Z.to_nat (used b)) (data b)).
Proof.
  intros (Hp & Hu & Hd). unfold content. rewrite take_drop_commute. do 2 f_equal. lia.
Qed.

(** ** Reasoning about runs *)
Lemma returns_deref s b (Q : ssh_buffer -> bstate -> Prop) : target s = Some b -> Q b s -> returns deref s Q.
Proof. unfold returns, deref. by intros ->. Qed.

Lemma returns_is_null s b (Q : bool -> bstate -> Prop) : target s = Some b -> Q false s -> returns is_null s Q.
Proof. unfold returns, is_null. intros ->. by rewrite bool_decide_eq_false_2. Qed.

Lemma returns_mem {A} (o : option A) a s (Q : A -> bstate -> Prop) : o = Some a -> Q a s -> returns (mem o) s Q.
Proof. by intros ->. Qed.

Lemma returns_malloc oom s (Q : bool -> bstate -> Prop) :
  Q (negb (oom (mcalls s))) (BState (target s) (S (mcalls s)) (freed s)) -> returns (malloc_ok oom) s Q.
Proof. done. Qed.

Lemma returns_assign b s (Q : unit -> bstate -> Prop) :
  Q tt (BState (Some b) (mcalls s) (freed s)) -> returns (assign b) s Q.
Proof. done. Qed.

Lemma returns_release d s (Q : unit -> bstate -> Prop) :
  Q tt (BState (target s) (mcalls s) (freed s ++ [d])) -> returns (release d) s Q.
Proof. done. Qed.

Lemma returns_clear s (Q : unit -> bstate -> Prop) :
  Q tt (BState None (mcalls s) (freed s)) -> returns clear s Q.
Proof. done. Qed.

(** Run the next primitive of a buffer operation. *)
Ltac buf_step :=
  match goal with
  | |- returns (_ ≫= _) _ _ => rewrite returns_bind
  | |- returns (mret _) _ _ => rewrite returns_ret
  | |- returns (assign _) _ _ => apply returns_assign; cbn [target mcalls freed]
  | |- returns (release _) _ _ => apply returns_release; cbn [target mcalls freed]
  | |- returns clear _ _ => apply returns_clear; cbn [target mcalls freed]
  | |- returns (malloc_ok _) _ _ => apply returns_malloc
  | H : target ?s = Some _ |- returns deref ?s _ => apply (returns_deref _ _ _ H)
  | |- returns deref (BState (Some _) _ _) _ => eapply returns_deref; [reflexivity|]
  | H : target ?s = Some _ |- returns is_null ?s _ => apply (returns_is_null _ _ _ H)
  end.
Ltac buf_steps := repeat buf_step.

Section Ops.
Context (oom : nat -> bool).

(** Some allocation may fail. *)
Definition may_fail : Prop := exists n, oom n = true.

(** What a change of the block leaves as it was. *)
Definition same_bytes (b b' : ssh_buffer) : Prop :=
  secure b' = secure b /\ content b' = content b /\ used b' - pos b' = used b - pos b.

Lemma same_bytes_refl b : same_bytes b b.
Proof. done. Qed.

Lemma same_bytes_trans a b c : same_bytes a b -> same_bytes b c -> same_bytes a c.
Proof. unfold same_bytes. intros (?&?&?) (?&?&?). split; [congruence|]. split; [congruence|lia]. Qed.

(** A block with the same bytes up to the end of the content. *)
Lemma same_take b n d : wf_buffer b -> used b <= n <= BUFFER_SIZE_MAX -> length d = Z.to_nat n ->
  take (Z.to_nat (used b)) d = take (Z.to_nat (used b)) (data b) ->
  let b' := SshBuffer (secure b) (used b) n (pos b) d in wf_buffer b' /\ same_bytes b b'.
Proof.
  intros Hwf Hn Hd Ht b'. assert (wf_buffer b') as Hwf'.
  { destruct Hwf as (Hp & Hu & _). unfold wf_buffer, b'. simpl. lia. }
  split; [done|]. split; [done|]. split; [|done].
  rewrite !content_alt by done. unfold b'. cbn [used pos data]. by rewrite Ht.
Qed.

Lemma realloc_spec needed s b :
  target s = Some b -> wf_buffer b -> used b <= needed < 2 ^ 63 ->
  returns (realloc_buffer oom needed) s (fun rc s' =>
    (rc = 0 /\ exists b', target s' = Some b' /\ wf_buffer b' /\ same_bytes b b' /\
       pos b' = pos b /\ needed < allocated b') \/
    (rc = -1 /\ target s' = Some b /\ (may_fail \/ BUFFER_SIZE_MAX <= needed))).
Proof.
  intros Ht Hwf Hn. pose proof Hwf as (Hp & Hu & Hd).
  destruct (grow_spec needed) as (k & Hk & Hg & Hlt & Hle); [lia|].
  unfold realloc_buffer. rewrite Hg. destruct (Z.gtb_spec (2 ^ k) BUFFER_SIZE_MAX) as [Hbig|Hsmall].
  { buf_steps. right. split; [done|]. split; [done|]. right. unfold BUFFER_SIZE_MAX in *.
    destruct (Z.le_gt_cases 0x10000000 needed) as [|Hs]; [done|]. exfalso.
    assert (28 < k) by (apply (Z.pow_lt_mono_r_iff 2); [lia|lia|exact Hbig]).
    assert (2 ^ 29 <= 2 ^ k) by (apply Z.pow_le_mono_r; lia). lia. }
  buf_steps. destruct (oom (mcalls s)) eqn:Ho; cbn [negb]; buf_steps.
  { right. split; [done|]. split; [done|]. left. by exists (mcalls s). }
  destruct (secure b) eqn:Hs.
  - buf_steps. eapply returns_mem; [apply sub_block_ok; lia|]. cbn [Nat.add].
    rewrite drop_0. buf_steps.
    assert (length (take (Z.to_nat (used b)) (data b)) = Z.to_nat (used b)) as Hl by (rewrite length_take; lia).
    eapply returns_mem; [apply blit_ok; rewrite length_replicate; lia|]. buf_steps.
    eapply returns_mem; [apply bzero_ok; lia|]. buf_steps. left. split; [done|].
    eexists. split; [reflexivity|]. rewrite <- Hs.
    edestruct (same_take b (2 ^ k)) as [Hwf' Hsame]; [done|lia| | |by split; [|split; [|split; [|exact Hlt]]]].
    + rewrite length_app, length_take, length_app, length_drop, length_replicate. lia.
    + rewrite take_0, app_nil_l, take_app_le by lia. by rewrite take_take, Nat.min_id.
  - buf_steps. left. split; [done|]. eexists. split; [reflexivity|]. rewrite <- Hs.
    edestruct (same_take b (2 ^ k)) as [Hwf' Hsame]; [done|lia| | |by split; [|split; [|split; [|exact Hlt]]]].
    + rewrite length_take, length_app, length_replicate. lia.
    + rewrite take_take, Nat.min_l by lia. apply take_app_le. lia.
Qed.

Lemma shift_spec s b : target s = Some b -> wf_buffer b ->
  returns buffer_shift s (fun _ s' => exists b', target s' = Some b' /\ wf_buffer b' /\ same_bytes b b' /\
    pos b' = 0 /\ allocated b' = allocated b).
Proof.
  intros Ht Hwf. pose proof Hwf as (Hp & Hu & Hd). unfold buffer_shift. buf_steps.
  destruct (Z.eqb_spec (pos b) 0) as [H0|H0].
  { buf_steps. exists b. split; [done|]. split; [done|]. by split. }
  buf_steps. eapply returns_mem; [apply sub_block_ok; lia|]. fold (content b). buf_steps.
  pose proof (content_length b Hwf) as Hl.
  eapply returns_mem; [apply blit_ok; lia|]. buf_steps. rewrite take_0, app_nil_l. cbn [Nat.add].
  set (d := content b ++ drop (length (content b)) (data b)).
  assert (length d = Z.to_nat (allocated b)) as Hld by (unfold d; rewrite length_app, length_drop; lia).
  assert (take (Z.to_nat (used b - pos b)) d = content b) as Htd.
  { unfold d. rewrite take_app_le, take_ge by lia. done. }
  assert (forall d', length d' = Z.to_nat (allocated b) -> take (Z.to_nat (used b - pos b)) d' = content b ->
    exists b', Some (SshBuffer (secure b) (used b - pos b) (allocated b) 0 d') = Some b' /\ wf_buffer b' /\
      same_bytes b b' /\ pos b' = 0 /\ allocated b' = allocated b) as Hfin.
  { intros d' Hl' Ht'. eexists. split; [reflexivity|]. split; [unfold wf_buffer; simpl; lia|].
    split; [|done]. split; [done|]. split; [|simpl; lia]. unfold content at 1. simpl. by rewrite drop_0, Z.sub_0_r. }
  destruct (secure b) eqn:Hs.
  - eapply returns_mem; [apply bzero_ok; lia|]. buf_steps. cbn [target]. apply Hfin.
    + rewrite length_app, length_take, length_app, length_replicate, length_drop. lia.
    + rewrite Htd. rewrite take_app_le, take_ge by lia. done.
  - buf_steps. cbn [target]. by apply Hfin.
Qed.

(** ** Room at the end of the content

    [T] is the size a buffer with these bytes needs when it starts at the
    position 0. *)
Lemma make_room_spec total T s b :
  target s = Some b -> wf_buffer b ->
  (forall b', same_bytes b b' -> pos b' = 0 -> total b' = T) ->
  (allocated b < total b -> used b - pos b <= T) -> T < 2 ^ 63 ->
  returns (make_room oom total) s (fun ok s' => exists b', target s' = Some b' /\ wf_buffer b' /\ same_bytes b b' /\
    if ok : bool then total b' <= allocated b' else may_fail \/ BUFFER_SIZE_MAX <= T).
Proof.
  intros Ht Hwf Htot Hused HT. unfold make_room. buf_steps.
  destruct (Z.ltb_spec (allocated b) (total b)) as [Hlt|Hge];
    [|buf_steps; exists b; repeat split; done || apply Hwf].
  specialize (Hused Hlt). buf_steps.
  assert (returns (if 0 <? pos b then buffer_shift else mret tt) s (fun _ s' => exists b', target s' = Some b' /\
    wf_buffer b' /\ same_bytes b b' /\ pos b' = 0)) as Hshift.
  { destruct (Z.ltb_spec 0 (pos b)) as [Hpos|Hpos].
    - eapply returns_mono; [by apply shift_spec|]. cbn beta. intros _ s' (b' & H). exists b'. tauto.
    - buf_steps. exists b. split; [done|]. split; [done|]. split; [done|]. destruct Hwf. lia. }
  eapply returns_mono; [exact Hshift|]. cbn beta. intros _ s1 (b1 & Ht1 & Hwf1 & Hs1 & Hp1). buf_steps.
  pose proof (Htot b1 Hs1 Hp1) as HT1. eapply returns_mono; [apply (realloc_spec _ _ b1 Ht1 Hwf1)|].
  { destruct Hs1 as (_ & _ & Hu1). destruct Hwf1. lia. }
  cbn beta. intros rc s2 [(-> & b2 & Ht2 & Hwf2 & Hs2 & Hp2 & Ha2)|(-> & Ht2 & Hf)]; buf_steps.
  - pose proof (same_bytes_trans _ _ _ Hs1 Hs2) as Hs12. exists b2. do 3 (split; [done|]). cbn [Z.ltb Z.compare negb].
    rewrite (Htot b2 Hs12) by congruence. lia.
  - exists b1. do 3 (split; [done|]). cbn. destruct Hf; [by left|right; lia].
Qed.

(** ** The operations *)

(** What an operation that may fail to get memory for [n] bytes leaves: the new
    content on success, the old one on failure, which needs a reason. *)
Definition grows (ok : bool) (n : Z) (q q' : buffer) (s : bstate) : Prop :=
  if ok then holds q' s else holds q s /\ (may_fail \/ BUFFER_SIZE_MAX <= n).

Lemma used_small b : wf_buffer b -> 0 <= used b <= BUFFER_SIZE_MAX.
Proof. intros (? & ? & _). lia. Qed.

Lemma add_data_spec q s bytes len :
  holds q s -> 0 <= len < 2 ^ 32 -> (Z.to_nat len <= length bytes)%nat ->
  returns (ssh_buffer_add_data oom (Some bytes) len) s (fun rc s' => (rc = 0 \/ rc = -1) /\
    grows (rc =? 0) (Z.of_nat (length q) + len) q (q ++ take (Z.to_nat len) bytes) s').
Proof.
  intros (b & Ht & Hwf & Hq) Hlen Hb. pose proof (used_small b Hwf) as Hu. unfold BUFFER_SIZE_MAX in Hu.
  unfold ssh_buffer_add_data. buf_steps. rewrite wrap_u64_small by lia.
  destruct (Z.ltb_spec (used b + len) len); [lia|]. buf_steps.
  pose proof (content_length b Hwf) as Hl. rewrite Hq in Hl.
  eapply returns_mono; [apply (make_room_spec (fun b => used b + len) (Z.of_nat (length q) + len) s b Ht Hwf)|].
  { intros b' (_ & _ & ?) ?. lia. } { lia. } { destruct Hwf. lia. }
  cbn beta. intros ok s' (b' & Ht' & Hwf' & (Hs' & Hc' & Hu') & Hok). rewrite Hq in Hc'.
  destruct ok; cbn [negb]; buf_steps.
  2: { split; [by right|]. split; [|done]. by exists b'. }
  eapply returns_mem; [apply sub_block_ok; lia|]. buf_steps. rewrite drop_0.
  destruct (wf_layout b' Hwf') as (pre & post & Hd & Hp & Hus & Ha). rewrite Hc' in *.
  assert (length (take (Z.to_nat len) bytes) = Z.to_nat len) as Htl by (rewrite length_take; lia).
  eapply returns_mem.
  { rewrite Hd, app_assoc, Hus, Nat2Z.id, <- length_app.
    rewrite <- (take_drop (Z.to_nat len) post) at 1. apply blit_app. rewrite Htl, length_take. lia. }
  buf_steps. split; [by left|]. eexists. split; [reflexivity|].
  pose proof (layout_wf (secure b') pre (q ++ take (Z.to_nat len) bytes) (drop (Z.to_nat len) post)) as Hw.
  cbn zeta in Hw. rewrite length_app, Htl, length_drop in Hw.
  rewrite <- app_assoc in Hw |- *. rewrite Hp.
  replace (used b' + len) with (Z.of_nat (length pre + (length q + Z.to_nat len))) by lia.
  replace (allocated b') with (Z.of_nat (length pre + (length q + Z.to_nat len) + (length post - Z.to_nat len))) by lia.
  apply Hw. destruct Hwf' as (_ & ? & _). lia.
Qed.

(** The space given out holds whatever was in the block. *)
Lemma allocate_spec q s len :
  holds q s -> 0 <= len < 2 ^ 32 ->
  returns (ssh_buffer_allocate oom len) s (fun r s' => exists junk, length junk = Z.to_nat len /\
    grows (bool_decide (is_Some r)) (Z.of_nat (length q) + len) q (q ++ junk) s').
Proof.
  intros (b & Ht & Hwf & Hq) Hlen. pose proof (used_small b Hwf) as Hu. unfold BUFFER_SIZE_MAX in Hu.
  unfold ssh_buffer_allocate. buf_steps. rewrite wrap_u64_small by lia.
  destruct (Z.ltb_spec (used b + len) len); [lia|]. buf_steps.
  pose proof (content_length b Hwf) as Hl. rewrite Hq in Hl.
  eapply returns_mono; [apply (make_room_spec (fun b => used b + len) (Z.of_nat (length q) + len) s b Ht Hwf)|].
  { intros b' (_ & _ & ?) ?. lia. } { lia. } { destruct Hwf. lia. }
  cbn beta. intros ok s' (b' & Ht' & Hwf' & (Hs' & Hc' & Hu') & Hok). rewrite Hq in Hc'.
  destruct ok; cbn [negb]; buf_steps.
  2: { exists (replicate (Z.to_nat len) None). rewrite length_replicate. split; [done|].
       rewrite bool_decide_eq_false_2 by by intros []. split; [by exists b'|done]. }
  destruct (wf_layout b' Hwf') as (pre & post & Hd & Hp & Hus & Ha). rewrite Hc' in *.
  exists (take (Z.to_nat len) post). rewrite length_take. split; [lia|].
  rewrite bool_decide_eq_true_2 by by eexists. eexists. split; [reflexivity|]. unfold set_used.
  pose proof (layout_wf (secure b') pre (q ++ take (Z.to_nat len) post) (drop (Z.to_nat len) post)) as Hw.
  cbn zeta in Hw. rewrite <- app_assoc, take_drop, <- Hd in Hw.
  rewrite length_app, length_take, length_drop in Hw. rewrite Hp.
  replace (used b' + len) with (Z.of_nat (length pre + (length q + Z.to_nat len `min` length post))) by lia.
  replace (allocated b') with (Z.of_nat
    (length pre + (length q + Z.to_nat len `min` length post) + (length post - Z.to_nat len))) by lia.
  apply Hw. destruct Hwf' as (_ & ? & _). lia.
Qed.

Lemma allocate_size_spec q s len :
  holds q s -> len < 2 ^ 32 ->
  returns (ssh_buffer_allocate_size oom len) s (fun rc s' => (rc = 0 \/ rc = -1) /\ grows (rc =? 0) len q q s').
Proof.
  intros (b & Ht & Hwf & Hq) Hlen. unfold ssh_buffer_allocate_size. buf_steps.
  eapply returns_mono; [apply (make_room_spec (fun _ => len) len s b Ht Hwf)|].
  { done. } { destruct Hwf. lia. } { lia. }
  cbn beta. intros ok s' (b' & Ht' & Hwf' & (Hs' & Hc' & Hu') & Hok). rewrite Hq in Hc'. buf_steps.
  destruct ok; (split; [tauto|]); cbn; [by exists b'|split; [by exists b'|done]].
Qed.

(** Room for [len] more bytes, without moving the content. *)
Lemma prepend_room s b len : target s = Some b -> wf_buffer b -> 0 <= len < 2 ^ 32 ->
  returns (if allocated b <? used b - pos b + len
           then rc ← realloc_buffer oom (used b - pos b + len); mret (negb (rc <? 0)) else mret true) s
    (fun ok s' => exists b', target s' = Some b' /\ wf_buffer b' /\ same_bytes b b' /\ pos b' = pos b /\
      if ok : bool then used b - pos b + len <= allocated b' else may_fail \/ BUFFER_SIZE_MAX <= used b - pos b + len).
Proof.
  intros Ht Hwf Hlen. pose proof (used_small b Hwf) as Hu. unfold BUFFER_SIZE_MAX in Hu.
  destruct (Z.ltb_spec (allocated b) (used b - pos b + len)); buf_steps; [|exists b; repeat split; done || apply Hwf].
  eapply returns_mono; [apply (realloc_spec _ s b Ht Hwf); destruct Hwf; lia|]. cbn beta.
  intros rc s' [(-> & b' & Ht' & Hwf' & Hs' & Hp' & Ha')|(-> & Ht' & Hf)]; buf_steps.
  - exists b'. do 4 (split; [done|]). cbn. lia.
  - exists b. do 4 (split; [done|]). cbn. done.
Qed.

Lemma prepend_spec q s bytes len :
  holds q s -> 0 <= len < 2 ^ 32 -> (Z.to_nat len <= length bytes)%nat ->
  returns (ssh_buffer_prepend_data oom bytes len) s (fun rc s' => (rc = 0 \/ rc = -1) /\
    grows (rc =? 0) (Z.of_nat (length q) + len) q (take (Z.to_nat len) bytes ++ q) s').
Proof.
  intros (b & Ht & Hwf & Hq) Hlen Hb. pose proof (used_small b Hwf) as Hu. unfold BUFFER_SIZE_MAX in Hu.
  unfold ssh_buffer_prepend_data. buf_steps. pose proof (content_length b Hwf) as Hl. rewrite Hq in Hl.
  assert (length (take (Z.to_nat len) bytes) = Z.to_nat len) as Htl by (rewrite length_take; lia).
  set (new := take (Z.to_nat len) bytes) in *. destruct (Z.leb_spec len (pos b)) as [Hin|Hout].
  - buf_steps. eapply returns_mem; [apply sub_block_ok; lia|]. buf_steps. rewrite drop_0. fold new.
    destruct (wf_layout b Hwf) as (pre & post & Hd & Hp & Hus & Ha). rewrite Hq in *.
    set (cut := (length pre - Z.to_nat len)%nat).
    assert (length (take cut pre) = cut) as Hcut by (rewrite length_take; lia).
    eapply returns_mem.
    { rewrite Hd, Hp. replace (Z.to_nat (Z.of_nat (length pre) - len)) with (length (take cut pre)) by lia.
      rewrite <- (take_drop cut pre) at 1. rewrite <- app_assoc. apply blit_app. rewrite length_drop. lia. }
    buf_steps. split; [by left|]. eexists. split; [reflexivity|].
    pose proof (layout_wf (secure b) (take cut pre) (new ++ q) post) as Hw. cbn zeta in Hw.
    rewrite <- app_assoc, length_app, Htl, Hcut in Hw.
    replace (used b) with (Z.of_nat (cut + (Z.to_nat len + length q))) by lia.
    replace (allocated b) with (Z.of_nat (cut + (Z.to_nat len + length q) + length post)) by lia.
    replace (pos b - len) with (Z.of_nat cut) by lia. apply Hw. destruct Hwf as (_ & ? & _). lia.
  - rewrite !wrap_u64_small by (destruct Hwf; lia). destruct (Z.ltb_spec (used b - pos b + len) len); [destruct Hwf; lia|].
    buf_steps.
    eapply returns_mono; [apply (prepend_room s b len Ht Hwf); lia|]. cbn beta. intros ok s' (b' & Ht' & Hwf' & (Hs' & Hc' & Hu') & Hp' & Hok).
    rewrite Hq in Hc'. destruct ok; cbn [negb]; buf_steps.
    2: { split; [by right|]. split; [by exists b'|]. by rewrite Hl. }
    pose proof Hwf' as (Hpp & Huu & Hdd).
    eapply returns_mem; [apply sub_block_ok; lia|]. fold (content b'). rewrite Hc'. buf_steps.
    eapply returns_mem; [apply blit_ok; lia|]. buf_steps.
    eapply returns_mem; [apply sub_block_ok; lia|]. buf_steps. rewrite drop_0. fold new.
    eapply returns_mem; [apply blit_ok; rewrite length_app, length_take; lia|]. buf_steps.
    split; [by left|]. eexists. split; [reflexivity|].
    rewrite take_0, app_nil_l. cbn [Nat.add]. rewrite Htl, drop_app_le, drop_ge, app_nil_l by (rewrite length_take; lia).
    pose proof (layout_wf (secure b') [] (new ++ q) (drop (Z.to_nat len + length q) (data b'))) as Hw. cbn zeta in Hw.
    rewrite <- app_assoc, length_app, Htl, length_drop in Hw. cbn [app length Nat.add] in Hw.
    replace (used b' + (len - pos b')) with (Z.of_nat (Z.to_nat len + length q)) by lia.
    replace (allocated b') with (Z.of_nat (Z.to_nat len + length q + (length (data b') - (Z.to_nat len + length q)))) by lia.
    apply Hw. lia.
Qed.

Lemma new_spec s : returns (ssh_buffer_new oom) s (fun ok s' =>
  if ok : bool then holds [] s' else target s' = None /\ may_fail).
Proof.
  unfold ssh_buffer_new. buf_steps. destruct (oom (mcalls s)) eqn:Ho; cbn [negb]; buf_steps.
  { split; [done|by exists (mcalls s)]. }
  eapply returns_mono; [apply (allocate_size_spec [])|].
  - eexists. split; [reflexivity|]. split; [|done]. unfold wf_buffer, BUFFER_SIZE_MAX. simpl. lia.
  - lia.
  - cbn beta. intros rc s' [[-> | ->] H]; cbn in H |- *; buf_steps; [done|]. split; [done|].
    destruct H as [_ [?|Hb]]; [done|]. unfold BUFFER_SIZE_MAX in Hb. lia.
Qed.

Lemma free_spec q s : holds q s -> returns ssh_buffer_free s (fun _ s' => target s' = None).
Proof.
  intros (b & Ht & (_ & Ha & Hd) & _). unfold ssh_buffer_free. buf_steps.
  destruct (secure b && (0 <? allocated b)); buf_steps; [|done].
  eapply returns_mem; [apply bzero_ok; lia|]. by buf_steps.
Qed.

Lemma set_secure_spec q s : holds q s -> returns ssh_buffer_set_secure s (fun _ s' => holds q s').
Proof. intros (b & Ht & Hwf & Hq). unfold ssh_buffer_set_secure. buf_steps. by eexists. Qed.

Lemma reinit_spec q s : holds q s -> returns (ssh_buffer_reinit oom) s (fun rc s' =>
  holds [] s' /\ (rc = 0 \/ rc = -1 /\ may_fail)).
Proof.
  intros (b & Ht & (Hp & Ha & Hd) & _). unfold ssh_buffer_reinit. buf_steps.
  set (m := if _ : bool then mem _ else mret (data b)).
  assert (returns m s (fun d s' => length d = Z.to_nat (allocated b) /\ s' = s)) as Hm.
  { unfold m. destruct (secure b && (0 <? allocated b)); [|by buf_steps].
    eapply returns_mem; [apply bzero_ok; lia|]. split; [|done].
    rewrite !length_app, length_replicate, length_take, length_drop. lia. }
  eapply returns_mono; [exact Hm|]. cbn beta. intros d s' [Hld ->]. buf_steps.
  set (b' := SshBuffer (secure b) 0 (allocated b) 0 d).
  assert (wf_buffer b') as Hwf' by (unfold wf_buffer, b'; simpl; lia).
  destruct (allocated b >? 65536); buf_steps; [|split; [by exists b'|by left]].
  eapply returns_mono; [apply (realloc_spec (65536 - 1) _ b'); [done|done|simpl; lia]|]. cbn beta.
  intros rc s1 [(-> & b1 & Ht1 & Hwf1 & (_ & Hc1 & _) & _)|(-> & Ht1 & Hf)]; buf_steps.
  - split; [exists b1; by rewrite Hc1|by left].
  - split; [by exists b'|]. right. split; [done|]. destruct Hf as [|Hf]; [done|]. unfold BUFFER_SIZE_MAX in Hf. lia.
Qed.

(** ** Reading *)
Lemma get_len_spec q s : holds q s -> ssh_buffer_get_len s = Ret (Z.of_nat (length q)) s.
Proof.
  intros (b & Ht & Hwf & <-). unfold ssh_buffer_get_len, mbind, M_bind, deref. rewrite Ht.
  rewrite (content_length b Hwf). unfold wrap_u32. rewrite Z.mod_small; [done|].
  destruct Hwf as (? & ? & _). unfold BUFFER_SIZE_MAX in *. lia.
Qed.

Lemma get_spec q s : holds q s -> returns ssh_buffer_get s (fun p s' => s' = s /\ take (length q) p = q).
Proof.
  intros (b & Ht & Hwf & <-). unfold ssh_buffer_get. buf_steps. split; [done|].
  pose proof (content_length b Hwf). unfold content at 2. f_equal. lia.
Qed.

Lemma validate_spec q s len : holds q s -> 0 <= len < 2 ^ 64 ->
  ssh_buffer_validate_length len s = Ret (if len <=? Z.of_nat (length q) then SSH_OK else SSH_ERROR) s.
Proof.
  intros (b & Ht & Hwf & <-) Hlen. unfold ssh_buffer_validate_length, mbind, M_bind, deref. rewrite Ht.
  rewrite (content_length b Hwf). pose proof (used_small b Hwf) as Hu. unfold BUFFER_SIZE_MAX in Hu.
  destruct Hwf as (? & _ & _). unfold mret, M_ret. f_equal.
  assert (wrap_u64 (pos b + len) = pos b + len \/ wrap_u64 (pos b + len) = pos b + len - 2 ^ 64 /\ 2 ^ 63 < len)
    as [-> |[-> ?]].
  { unfold wrap_u64. destruct (Z.lt_ge_cases (pos b + len) (2 ^ 64)); [left; apply Z.mod_small; lia|right].
    split; [|lia]. symmetry. apply Z.mod_unique with 1; lia. }
  all: destruct (Z.ltb_spec (pos b + len) len); destruct (Z.leb_spec len (used b - pos b)); try lia.
  - destruct (Z.gtb_spec (pos b + len) (used b)); [lia|done].
  - destruct (Z.gtb_spec (pos b + len) (used b)); [done|lia].
  - destruct (Z.ltb_spec (pos b + len - 2 ^ 64) len); [done|lia].
Qed.

(** Moving the position forward inside the content. *)
Lemma advance b n : wf_buffer b -> 0 <= n <= used b - pos b ->
  wf_buffer (set_pos (pos b + n) b) /\ content (set_pos (pos b + n) b) = drop (Z.to_nat n) (content b).
Proof.
  intros Hwf Hn. pose proof Hwf as (Hp & Hu & Hd).
  assert (wf_buffer (set_pos (pos b + n) b)) as Hwf' by (unfold wf_buffer; simpl; lia). split; [done|].
  rewrite !content_alt by done. simpl. rewrite drop_drop. f_equal. lia.
Qed.

Lemma get_data_spec q s len : holds q s -> 0 <= len < 2 ^ 63 ->
  returns (ssh_buffer_get_data len) s (fun r s' =>
    if len <=? Z.of_nat (length q) then r = (len, take (Z.to_nat len) q) /\ holds (drop (Z.to_nat len) q) s'
    else r = (0, []) /\ s' = s).
Proof.
  intros Hh Hlen. unfold ssh_buffer_get_data. rewrite returns_bind. unfold returns at 1.
  rewrite (validate_spec q s len Hh) by lia. destruct Hh as (b & Ht & Hwf & Hq).
  pose proof (content_length b Hwf) as Hl. rewrite Hq in Hl.
  destruct (Z.leb_spec len (Z.of_nat (length q))) as [Hle|Hgt]; cbn; buf_steps; [|done].
  pose proof Hwf as (Hp & Hu & Hd). eapply returns_mem; [apply sub_block_ok; lia|]. buf_steps. split.
  - f_equal. rewrite <- Hq. unfold content. rewrite take_take. f_equal. lia.
  - destruct (advance b len Hwf) as [Hw Hc]; [lia|]. eexists. split; [reflexivity|]. by rewrite Hc, Hq.
Qed.

Lemma pass_bytes_spec q s len : holds q s -> 0 <= len < 2 ^ 32 ->
  returns (ssh_buffer_pass_bytes len) s (fun r s' =>
    if len <=? Z.of_nat (length q) then r = len /\ holds (drop (Z.to_nat len) q) s' else r = 0 /\ s' = s).
Proof.
  intros (b & Ht & Hwf & Hq) Hlen. pose proof (content_length b Hwf) as Hl. rewrite Hq in Hl.
  pose proof Hwf as (Hp & Hu & Hd). pose proof (used_small b Hwf) as Hsm. unfold BUFFER_SIZE_MAX in Hsm.
  unfold ssh_buffer_pass_bytes. buf_steps. rewrite wrap_u64_small by lia.
  destruct (Z.ltb_spec (pos b + len) len), (Z.ltb_spec (used b) (pos b + len)), (Z.leb_spec len (Z.of_nat (length q)));
    cbn [orb]; try lia; buf_steps; try done.
  split; [done|]. destruct (Z.eqb_spec (pos b + len) (used b)) as [He|Hne].
  - eexists. split; [reflexivity|]. split; [unfold wf_buffer; simpl; lia|].
    rewrite drop_ge by lia. done.
  - destruct (advance b len Hwf) as [Hw Hc]; [lia|]. eexists. split; [reflexivity|]. by rewrite Hc, Hq.
Qed.

Lemma pass_bytes_end_spec q s len : holds q s -> 0 <= len <= Z.of_nat (length q) ->
  returns (ssh_buffer_pass_bytes_end len) s (fun r s' =>
    r = len /\ holds (take (length q - Z.to_nat len) q) s').
Proof.
  intros (b & Ht & Hwf & Hq) Hlen. pose proof (content_length b Hwf) as Hl. rewrite Hq in Hl.
  pose proof Hwf as (Hp & Hu & Hd). unfold ssh_buffer_pass_bytes_end. buf_steps.
  destruct (Z.ltb_spec (used b) len); [lia|]. buf_steps. split; [done|].
  eexists. split; [reflexivity|]. split; [unfold wf_buffer; simpl; lia|].
  rewrite <- Hq. unfold content. simpl. rewrite take_take. f_equal. rewrite length_take, length_drop. lia.
Qed.
End Ops.
