(* ===== verification/SshQueueThms.v ===== *)
(** * Sequences of operations on a libssh buffer

    Integers and strings in a buffer, and the refinement theorem: any sequence of
    buffer operations behaves as the same sequence on a plain queue of bytes. *)

From S2P Require Import Prelude Utils Bytes SshString SshBuffer SshQueue.

Lemma Forall_is_Some_fmap (q : buffer) : Forall (fun c => is_Some c) q -> exists h, q = Some <$> h.
Proof.
  induction 1 as [|x q [c ->] _ [h ->]]; [by exists []|]. by exists (c :: h).
Qed.

Section Strings.
Context (oom : nat -> bool).

(** ** Integers and strings *)
Lemma add_int_spec q s n z : holds q s -> (n <= 8)%nat ->
  returns (add_int oom n z) s (fun rc s' => (rc = 0 \/ rc = -1) /\
    grows oom (rc =? 0) (Z.of_nat (length q + n)) q (q ++ (Some <$> le_bytes n z)) s').
Proof.
  intros Hh Hn. unfold add_int. buf_steps.
  eapply returns_mono; [apply (add_data_spec oom q s _ _ Hh); [lia|rewrite length_fmap, length_le_bytes; lia]|].
  cbn beta. intros rc s' [Hrc Hg]. buf_steps. rewrite Nat2Z.id, take_ge in Hg by (rewrite length_fmap, length_le_bytes; lia).
  rewrite Nat2Z.inj_add. destruct Hrc; subst rc; (split; [tauto|]); exact Hg.
Qed.

(** A string on the wire: its length in network order and its bytes. *)
Definition wire_string (bs : buffer) : buffer := (Some <$> be_bytes 4 (Z.of_nat (length bs))) ++ bs.

Lemma length_wire_string bs : length (wire_string bs) = (4 + length bs)%nat.
Proof. unfold wire_string. by rewrite length_app, length_fmap, length_be_bytes. Qed.

Lemma string_memory_wire str bs : is_string str bs -> exists last, string_memory str = wire_string bs ++ [last].
Proof.
  intros H. destruct (is_string_data _ _ H) as (last & Hd & Hs & _). exists last.
  unfold string_memory, wire_string. rewrite Hd, Hs. unfold htonl. by rewrite le_bytes_swap, <- app_assoc.
Qed.

Lemma add_ssh_string_spec q s str bs : holds q s -> is_string str bs ->
  returns (ssh_buffer_add_ssh_string oom (Some str)) s (fun rc s' => (rc = 0 \/ rc = -1) /\
    grows oom (rc =? 0) (Z.of_nat (length q + length (wire_string bs))) q (q ++ wire_string bs) s').
Proof.
  intros Hh Hs. unfold ssh_buffer_add_ssh_string. rewrite (is_string_len _ _ Hs).
  destruct (is_string_data _ _ Hs) as (_ & _ & _ & Hmax). unfold STRING_SIZE_MAX in Hmax.
  destruct (string_memory_wire _ _ Hs) as [last ->]. unfold wrap_u32.
  rewrite (Z.mod_small (Z.of_nat (length bs))), Z.mod_small by lia.
  replace (Z.of_nat (length bs) + 4) with (Z.of_nat (length (wire_string bs))) by (rewrite length_wire_string; lia).
  buf_steps. eapply returns_mono; [apply (add_data_spec oom q s _ _ Hh)|].
  { rewrite length_wire_string. lia. } { rewrite length_app. lia. }
  cbn beta. intros rc s' [Hrc Hg]. buf_steps. rewrite Nat2Z.id, take_app_length in Hg.
  rewrite Nat2Z.inj_add. destruct Hrc; subst rc; (split; [tauto|]); exact Hg.
Qed.

Lemma add_buffer_spec q s source bs : holds q s -> wf_buffer source -> content source = bs ->
  returns (ssh_buffer_add_buffer oom source) s (fun rc s' => (rc = 0 \/ rc = -1) /\
    grows oom (rc =? 0) (Z.of_nat (length q + length bs)) q (q ++ bs) s').
Proof.
  intros Hh Hw Hc. unfold ssh_buffer_add_buffer. pose proof (content_length _ Hw) as Hl. rewrite Hc in Hl.
  pose proof Hw as (Hp & Hu & Hd). unfold BUFFER_SIZE_MAX in Hu. unfold wrap_u32. rewrite Z.mod_small by lia.
  buf_steps. eapply returns_mono; [apply (add_data_spec oom q s _ _ Hh); [lia|rewrite length_drop; lia]|].
  cbn beta. intros rc s' [Hrc Hg]. fold (content source) in Hg. rewrite Hc, <- Hl in Hg. buf_steps.
  rewrite Nat2Z.inj_add. destruct Hrc; subst rc; (split; [tauto|]); exact Hg.
Qed.

(** The length field at the head of the queue. *)
Definition wire_len (h : list ascii) : Z := ntohl (le_val h).

Lemma wire_len_range h : 0 <= wire_len h < 2 ^ 32.
Proof. apply (swap_bytes_range 4). Qed.

Lemma wire_len_be n : 0 <= n < 2 ^ 32 -> wire_len (be_bytes 4 n) = n.
Proof.
  intros Hn. unfold wire_len. rewrite <- le_bytes_swap, le_val_bytes by apply swap_bytes_range. by apply ntohl_htonl.
Qed.

Lemma get_string_short q s : holds q s -> (length q < 4)%nat ->
  returns (ssh_buffer_get_ssh_string oom) s (fun r s' => r = None /\ s' = s).
Proof.
  intros Hh Hl. unfold ssh_buffer_get_ssh_string, ssh_buffer_get_u32. buf_steps.
  eapply returns_mono; [apply (get_data_spec q s 4 Hh); lia|]. cbn beta.
  destruct (Z.leb_spec 4 (Z.of_nat (length q))); [lia|]. intros r s' [-> ->]. cbn. by buf_steps.
Qed.

Lemma string_new_ok n : 0 <= n <= STRING_SIZE_MAX ->
  ssh_string_new true n = Some (SshString (htonl n) (Some NUL :: replicate (Z.to_nat n) None)).
Proof. intros Hn. unfold ssh_string_new. by destruct (Z.gtb_spec n STRING_SIZE_MAX); [lia|]. Qed.

Lemma get_string_spec h rest s : holds ((Some <$> h) ++ rest) s -> length h = 4%nat ->
  let n := wire_len h in
  returns (ssh_buffer_get_ssh_string oom) s (fun r s' =>
    if n <=? Z.of_nat (length rest) then
      (r = None /\ may_fail oom /\ holds rest s') \/
      (exists str, r = Some str /\ is_string str (take (Z.to_nat n) rest) /\ holds (drop (Z.to_nat n) rest) s')
    else r = None /\ holds rest s').
Proof.
  intros Hh Hl n. unfold ssh_buffer_get_ssh_string, ssh_buffer_get_u32. buf_steps.
  eapply returns_mono; [apply (get_data_spec _ s 4 Hh); lia|]. cbn beta.
  assert (length (Some <$> h) = 4%nat) as Hl' by by rewrite length_fmap.
  rewrite length_app, Hl'. destruct (Z.leb_spec 4 (Z.of_nat (4 + length rest))); [|lia].
  change (Z.to_nat 4) with 4%nat. rewrite <- Hl', take_app_length, drop_app_length.
  intros r s1 [-> Hh1]. cbn [Z.eqb]. buf_steps. eapply returns_mem; [apply block_val_bytes|]. fold (wire_len h). fold n.
  pose proof (wire_len_range h) as Hn. fold n in Hn. buf_steps. unfold returns at 1.
  rewrite (validate_spec rest s1 n Hh1) by lia.
  destruct (Z.leb_spec n (Z.of_nat (length rest))) as [Hle|Hgt]; cbn [Z.eqb SSH_OK SSH_ERROR negb]; buf_steps; [|done].
  assert (n <= STRING_SIZE_MAX) as Hmax.
  { destruct Hh1 as (b & _ & Hwf & Hc). pose proof (content_length b Hwf) as Hcl. rewrite Hc in Hcl.
    destruct Hwf as (? & ? & _). unfold BUFFER_SIZE_MAX, STRING_SIZE_MAX in *. lia. }
  destruct (oom (mcalls s1)) eqn:Ho; cbn [negb].
  { unfold ssh_string_new.
    destruct (n >? STRING_SIZE_MAX); buf_steps; left; (split; [done|]); (split; [by exists (mcalls s1)|done]). }
  rewrite string_new_ok by lia. buf_steps.
  eapply returns_mono; [apply (get_data_spec rest _ n); [|lia]|].
  { destruct Hh1 as (b & Ht & Hb). by exists b. }
  cbn beta. destruct (Z.leb_spec n (Z.of_nat (length rest))); [|lia]. intros r s2 [-> Hh2].
  rewrite Z.eqb_refl. cbn [negb s_data s_size]. buf_steps.
  assert (length (take (Z.to_nat n) rest) = Z.to_nat n) as Ht by (rewrite length_take; lia).
  eapply returns_mem; [apply blit_ok; rewrite Ht; simpl; rewrite length_replicate; lia|]. buf_steps.
  right. eexists. split; [reflexivity|]. split; [|done]. rewrite take_0, app_nil_l, Ht.
  destruct (drop (0 + Z.to_nat n) (Some NUL :: replicate (Z.to_nat n) None)) as [|last [|? ?]] eqn:E;
    apply (f_equal length) in E; rewrite length_drop in E; cbn [length Nat.add] in E; rewrite length_replicate in E; try lia.
  pose proof (is_string_intro (take (Z.to_nat n) rest) last) as Hi. rewrite Ht, Z2Nat.id in Hi by lia. apply Hi. lia.
Qed.
End Strings.

(** ** Sequences of operations *)
Inductive bop :=
| OAddData (bs : list ascii)
| OAddU8 (z : Z) | OAddU16 (z : Z) | OAddU32 (z : Z) | OAddU64 (z : Z)
| OAddString (bs : list ascii) (str : ssh_string)
| OAddBuffer (source : ssh_buffer)
| OPrepend (bs : list ascii)
| OAllocate (n : Z)
| OAllocateSize (n : Z)
| OGetData (n : Z)
| OGetString
| OGetLen
| OPassBytes (n : Z)
| OPassBytesEnd (n : Z)
| OReinit
| OSetSecure.

Inductive bres :=
| RInt (rc : Z) | RBytes (rc : Z) (bs : buffer) | RString (s : option ssh_string)
| RPtr (p : option Z) | RUnit.

#[export] Instance M_fmap {S} : FMap (M S) := fun A B f m => a ← m; mret (f a).

Lemma returns_fmap {S A B} (f : A -> B) (m : M S A) s (Q : B -> S -> Prop) :
  returns m s (fun a s' => Q (f a) s') -> returns (f <$> m) s Q.
Proof. unfold returns, fmap, M_fmap, mbind, M_bind. by destruct (m s). Qed.

Section Machine.
Context (oom : nat -> bool).

Definition run_op (o : bop) : M bstate bres :=
  match o with
  | OAddData bs => RInt <$> ssh_buffer_add_data oom (Some (Some <$> bs)) (Z.of_nat (length bs))
  | OAddU8 z => RInt <$> ssh_buffer_add_u8 oom z
  | OAddU16 z => RInt <$> ssh_buffer_add_u16 oom z
  | OAddU32 z => RInt <$> ssh_buffer_add_u32 oom z
  | OAddU64 z => RInt <$> ssh_buffer_add_u64 oom z
  | OAddString bs str => RInt <$> ssh_buffer_add_ssh_string oom (Some str)
  | OAddBuffer source => RInt <$> ssh_buffer_add_buffer oom source
  | OPrepend bs => RInt <$> ssh_buffer_prepend_data oom (Some <$> bs) (Z.of_nat (length bs))
  | OAllocate n => RPtr <$> ssh_buffer_allocate oom n
  | OAllocateSize n => RInt <$> ssh_buffer_allocate_size oom n
  | OGetData n => (fun r => RBytes r.1 r.2) <$> ssh_buffer_get_data n
  | OGetString => RString <$> ssh_buffer_get_ssh_string oom
  | OGetLen => RInt <$> ssh_buffer_get_len
  | OPassBytes n => RInt <$> ssh_buffer_pass_bytes n
  | OPassBytesEnd n => RInt <$> ssh_buffer_pass_bytes_end n
  | OReinit => RInt <$> ssh_buffer_reinit oom
  | OSetSecure => (fun _ => RUnit) <$> ssh_buffer_set_secure
  end.

Fixpoint run_ops (os : list bop) : M bstate (list bres) :=
  match os with
  | [] => mret []
  | o :: os => r ← run_op o; rs ← run_ops os; mret (r :: rs)
  end.

(** *** The queue *)

(** Adding [new] at one end of the queue: it succeeds, or nothing changes, for want
    of memory or at the size limit. *)
Definition q_add (new q q' : buffer) (r : bres) (grown : buffer) : Prop :=
  (r = RInt 0 /\ q' = grown) \/
  (r = RInt (-1) /\ q' = q /\ (may_fail oom \/ BUFFER_SIZE_MAX <= Z.of_nat (length q + length new))).

(** One operation on a queue of bytes: the result and the queue after it. *)
Definition q_step (o : bop) (q : buffer) (r : bres) (q' : buffer) : Prop :=
  let add new := q_add new q q' r (q ++ new) in
  match o with
  | OAddData bs => add (Some <$> bs)
  | OAddU8 z => add (Some <$> le_bytes 1 z)
  | OAddU16 z => add (Some <$> le_bytes 2 z)
  | OAddU32 z => add (Some <$> le_bytes 4 z)
  | OAddU64 z => add (Some <$> le_bytes 8 z)
  | OAddString bs _ => add (wire_string (Some <$> bs))
  | OAddBuffer source => add (content source)
  | OPrepend bs => q_add (Some <$> bs) q q' r ((Some <$> bs) ++ q)
  | OAllocate n =>
      exists junk, length junk = Z.to_nat n /\
        ((exists p, r = RPtr (Some p) /\ q' = q ++ junk) \/
         (r = RPtr None /\ q' = q /\ (may_fail oom \/ BUFFER_SIZE_MAX <= Z.of_nat (length q) + n)))
  | OAllocateSize n => q' = q /\ (r = RInt 0 \/ r = RInt (-1) /\ (may_fail oom \/ BUFFER_SIZE_MAX <= n))
  | OGetData n =>
      if n <=? Z.of_nat (length q) then r = RBytes n (take (Z.to_nat n) q) /\ q' = drop (Z.to_nat n) q
      else r = RBytes 0 [] /\ q' = q
  | OGetString =>
      if (length q <? 4)%nat then r = RString None /\ q' = q
      else exists h, take 4 q = Some <$> h /\
        let rest := drop 4 q in let n := wire_len h in
        if n <=? Z.of_nat (length rest) then
          (r = RString None /\ may_fail oom /\ q' = rest) \/
          (exists str, r = RString (Some str) /\ is_string str (take (Z.to_nat n) rest) /\ q' = drop (Z.to_nat n) rest)
        else r = RString None /\ q' = rest
  | OGetLen => r = RInt (Z.of_nat (length q)) /\ q' = q
  | OPassBytes n =>
      if n <=? Z.of_nat (length q) then r = RInt n /\ q' = drop (Z.to_nat n) q else r = RInt 0 /\ q' = q
  | OPassBytesEnd n => r = RInt n /\ q' = take (length q - Z.to_nat n) q
  | OReinit => q' = [] /\ (r = RInt 0 \/ r = RInt (-1) /\ may_fail oom)
  | OSetSecure => r = RUnit /\ q' = q
  end.

(** What a caller owes: arguments of their types, well-formed strings and buffers,
    a length field that was written, and not cutting more than the content. *)
Definition q_pre (o : bop) (q : buffer) : Prop :=
  match o with
  | OAddData bs | OPrepend bs => Z.of_nat (length bs) < 2 ^ 32
  | OAddString bs str => is_string str (Some <$> bs)
  | OAddBuffer source => wf_buffer source
  | OAllocate n | OAllocateSize n | OGetData n | OPassBytes n => 0 <= n < 2 ^ 32
  | OGetString => Forall (fun c => is_Some c) (take 4 q)
  | OPassBytesEnd n => 0 <= n <= Z.of_nat (length q)
  | _ => True
  end.

Fixpoint q_steps (os : list bop) (q : buffer) (rs : list bres) (q' : buffer) : Prop :=
  match os, rs with
  | [], [] => q' = q
  | o :: os, r :: rs => exists q1, q_step o q r q1 /\ q_steps os q1 rs q'
  | _, _ => False
  end.

(** The caller keeps to the preconditions whatever the results are. *)
Fixpoint q_allowed (os : list bop) (q : buffer) : Prop :=
  match os with
  | [] => True
  | o :: os => q_pre o q /\ forall r q', q_step o q r q' -> q_allowed os q'
  end.

Lemma grows_q_add rc n new q q' s :
  (rc = 0 \/ rc = -1) -> grows oom (rc =? 0) n q q' s -> n = Z.of_nat (length q + length new) ->
  exists q1, q_add new q q1 (RInt rc) q' /\ holds q1 s.
Proof.
  unfold q_add. intros [-> | ->] Hg Hn; cbn in Hg.
  - exists q'. split; [by left|done].
  - destruct Hg as [Hg Hf]. exists q. split; [|done]. right. by rewrite Hn in Hf.
Qed.

(** One operation of the code is one step of the queue. *)
Lemma run_op_step o q s : holds q s -> q_pre o q ->
  returns (run_op o) s (fun r s' => exists q', q_step o q r q' /\ holds q' s').
Proof.
  intros Hh Hpre. destruct o; cbn [run_op q_step q_pre] in *; apply returns_fmap.
  2-5: (eapply returns_mono; [apply add_int_spec; [exact Hh|lia]|]; cbn beta; intros rc s' [Hrc Hg];
        by eapply grows_q_add).
  - eapply returns_mono; [apply (add_data_spec oom q s _ _ Hh); [lia|rewrite length_fmap; lia]|].
    cbn beta. intros rc s' [Hrc Hg]. rewrite Nat2Z.id, take_ge in Hg by (by rewrite length_fmap).
    eapply grows_q_add; [done..|]. rewrite length_fmap. lia.
  - eapply returns_mono; [by apply (add_ssh_string_spec oom q s _ _ Hh Hpre)|]. cbn beta. intros rc s' [Hrc Hg].
    by eapply grows_q_add.
  - eapply returns_mono; [apply (add_buffer_spec oom q s source (content source) Hh Hpre eq_refl)|]. cbn beta. intros rc s' [Hrc Hg].
    by eapply grows_q_add.
  - eapply returns_mono; [apply (prepend_spec oom q s _ _ Hh); [lia|rewrite length_fmap; lia]|].
    cbn beta. intros rc s' [Hrc Hg]. rewrite Nat2Z.id, take_ge in Hg by (by rewrite length_fmap).
    eapply grows_q_add; [done..|]. rewrite length_fmap. lia.
  - eapply returns_mono; [by apply (allocate_spec oom q s _ Hh)|]. cbn beta. intros [p|] s' (junk & Hj & Hg).
    + rewrite bool_decide_eq_true_2 in Hg by by eexists. exists (q ++ junk). split; [|done]. exists junk. eauto.
    + rewrite bool_decide_eq_false_2 in Hg by by intros []. destruct Hg as [Hg Hf]. exists q. split; [|done]. exists junk. eauto.
  - eapply returns_mono; [apply (allocate_size_spec oom q s _ Hh); lia|]. cbn beta.
    intros rc s' [[-> | ->] Hg]; cbn in Hg; exists q; [|destruct Hg as [? ?]]; eauto 6.
  - eapply returns_mono; [apply (get_data_spec q s _ Hh); lia|]. cbn beta.
    intros r s' Hr. destruct (n <=? Z.of_nat (length q)); destruct Hr as [-> Hs']; [by eauto|]. exists q. by subst s'.
  - destruct (Nat.ltb_spec (length q) 4) as [Hs|Hs].
    { eapply returns_mono; [by apply (get_string_short oom q s Hh)|]. cbn beta. intros r s' [-> ->]. by exists q. }
    destruct (Forall_is_Some_fmap _ Hpre) as [h Hf].
    pose proof (f_equal length Hf) as Hl. rewrite length_fmap, length_take in Hl.
    rewrite <- (take_drop 4 q), Hf in Hh. eapply returns_mono; [apply (get_string_spec oom h _ s Hh); lia|].
    cbn beta zeta. intros r s' Hr. destruct (wire_len h <=? Z.of_nat (length (drop 4 q))) eqn:E.
    + destruct Hr as [(-> & Hm & Hh')|(str & -> & Hi & Hh')].
      * exists (drop 4 q). split; [|done]. exists h. split; [done|]. rewrite E. by left.
      * eexists. split; [|exact Hh']. exists h. split; [done|]. rewrite E. right. by exists str.
    + destruct Hr as [-> Hh']. exists (drop 4 q). split; [|done]. exists h. split; [done|]. by rewrite E.
  - unfold returns. rewrite (get_len_spec q s Hh). by exists q.
  - eapply returns_mono; [by apply (pass_bytes_spec q s _ Hh)|]. cbn beta.
    intros r s' Hr. destruct (n <=? Z.of_nat (length q)); destruct Hr as [-> Hs']; [by eauto|]. exists q. by subst s'.
  - eapply returns_mono; [by apply (pass_bytes_end_spec q s _ Hh)|]. cbn beta. intros r s' [-> Hs']. eauto.
  - eapply returns_mono; [by apply (reinit_spec oom q s Hh)|]. cbn beta. intros r s' [Hs' Hr]. exists []. split; [|done].
    split; [done|]. destruct Hr as [-> |[-> ?]]; eauto.
  - eapply returns_mono; [by apply (set_secure_spec q s Hh)|]. cbn beta. intros r s' Hs'. eauto.
Qed.

Lemma run_ops_steps os q s : holds q s -> q_allowed os q ->
  returns (run_ops os) s (fun rs s' => exists q', q_steps os q rs q' /\ holds q' s').
Proof.
  revert q s. induction os as [|o os IH]; intros q s Hh Ha; cbn [run_ops q_allowed] in *; [by exists q|].
  destruct Ha as [Hp Ha]. rewrite returns_bind. eapply returns_mono; [by apply run_op_step|]. cbn beta.
  intros r s1 (q1 & Hs1 & Hh1). rewrite returns_bind. eapply returns_mono; [apply (IH q1 s1 Hh1); eauto|]. cbn beta.
  intros rs s2 (q2 & Hs2 & Hh2). exists q2. split; [|done]. exists q1. by split.
Qed.
End Machine.

(** ** The theorems *)

(** The life of a buffer: create it, use it, free it. *)
Definition buffer_life (oom : nat -> bool) (os : list bop) : M bstate (option (list bres)) :=
  ok ← ssh_buffer_new oom;
  if ok : bool then rs ← run_ops oom os; _ ← ssh_buffer_free; mret (Some rs) else mret None.

(** C26. Refinement of buffer.c. Whatever allocations fail, a buffer that is
    created, used by any sequence of the operations (additions of data, integers,
    strings and other buffers at the end, prepending, allocation, reads, skips,
    cuts, reinitialisation) whose preconditions are kept, and freed, never touches
    memory outside its block and always terminates; the result of each operation is
    the one a plain queue of bytes gives: added bytes come out in order, a read or a
    skip of more than the content returns 0 and changes nothing, and an addition
    fails, leaving the queue as it was, only when an allocation can fail or the
    queue would reach 256 MB. Creation fails only when an allocation can fail. As in the
    code and against its comments, a skip or a cut returns the number of bytes it removed
    and not the new size, and another buffer is appended from its read position on. *)
Theorem buffer_refines_queue (oom : nat -> bool) (os : list bop) (s : bstate) :
  q_allowed oom os [] ->
  returns (buffer_life oom os) s (fun r s' => target s' = None /\
    match r with
    | Some rs => exists q, q_steps oom os [] rs q
    | None => may_fail oom
    end).
Proof.
  intros Ha. unfold buffer_life. buf_steps. eapply returns_mono; [apply new_spec|]. cbn beta. intros [] s1 H1; buf_steps.
  2: { done. }
  eapply returns_mono; [by apply run_ops_steps|]. cbn beta. intros rs s2 (q & Hq & Hh). buf_steps.
  eapply returns_mono; [by apply (free_spec q)|]. cbn beta. intros _ s3 H3. buf_steps. eauto.
Qed.

Definition sample_ops : list bop :=
  [OAddU32 7; OAddData (lit "abc"); OPrepend (lit "x"); OSetSecure; OAllocateSize 200; OPassBytes 1; OGetData 4;
   OGetLen; OReinit].

Lemma buffer_refines_queue_witness :
  q_allowed (fun n => (n =? 3)%nat) sample_ops [] /\
  returns (buffer_life (fun n => (n =? 3)%nat) sample_ops) (BState None 0 []) (fun r s' => target s' = None /\
    match r with
    | Some rs => exists q, q_steps (fun n => (n =? 3)%nat) sample_ops [] rs q
    | None => may_fail (fun n => (n =? 3)%nat)
    end).
Proof.
  assert (q_allowed (fun n => (n =? 3)%nat) sample_ops []) as H
    by (cbn [q_allowed sample_ops q_pre]; repeat (split; [cbn; lia || done|intros ? ? _]); done).
  split; [exact H|]. apply (buffer_refines_queue _ _ _ H).
Defined.

(** What a secure buffer gives back to the allocator. The block freed by
    ssh_buffer_free holds only zero bytes, and the block that a growing secure
    buffer leaves behind is zero wherever the buffer had bytes in use. *)
Theorem secure_blocks_zeroed (oom : nat -> bool) (s : bstate) (b : ssh_buffer) (n : Z) :
  target s = Some b -> wf_buffer b -> secure b = true -> 0 < allocated b -> used b <= n < 2 ^ 63 ->
  returns ssh_buffer_free s (fun _ s' =>
    freed s' = freed s ++ [replicate (Z.to_nat (allocated b)) (Some NUL)]) /\
  returns (realloc_buffer oom n) s (fun rc s' =>
    if rc =? 0 then exists rest, freed s' = freed s ++ [replicate (Z.to_nat (used b)) (Some NUL) ++ rest]
    else s' = BState (Some b) (mcalls s') (freed s)).
Proof.
  intros Ht Hwf Hs Ha Hn. pose proof Hwf as (Hp & Hu & Hd). split.
  - unfold ssh_buffer_free. buf_steps. rewrite Hs. destruct (Z.ltb_spec 0 (allocated b)); [|lia]. cbn [andb]. buf_steps.
    eapply returns_mem; [apply bzero_ok; lia|]. buf_steps. cbn [freed].
    by rewrite take_0, app_nil_l, Nat.add_0_l, drop_ge, app_nil_r by lia.
  - destruct (grow_spec n) as (k & Hk & Hg & Hlt & _); [lia|]. unfold realloc_buffer. rewrite Hg.
    destruct (2 ^ k >? BUFFER_SIZE_MAX); [buf_steps; by destruct s as [? ? ?]; cbn in *; subst|]. buf_steps.
    destruct (oom (mcalls s)) eqn:Ho; cbn [negb]; buf_steps; [cbn; by rewrite Ht|]. rewrite Hs. buf_steps.
    eapply returns_mem; [apply sub_block_ok; lia|]. buf_steps.
    eapply returns_mem; [apply blit_ok; rewrite length_replicate, length_take; lia|]. buf_steps.
    eapply returns_mem; [apply bzero_ok; lia|]. buf_steps. cbn [freed Z.eqb]. rewrite take_0, app_nil_l. eauto.
Qed.

Definition secure_sample : ssh_buffer :=
  SshBuffer true 3 8 1 ((Some <$> lit "key") ++ replicate 5 None).

Lemma secure_blocks_zeroed_witness :
  returns ssh_buffer_free (BState (Some secure_sample) 0 []) (fun _ s' =>
    freed s' = [] ++ [replicate 8 (Some NUL)]) /\
  returns (realloc_buffer (fun _ => false) 20) (BState (Some secure_sample) 0 []) (fun rc s' =>
    if rc =? 0 then exists rest, freed s' = [] ++ [replicate 3 (Some NUL) ++ rest]
    else s' = BState (Some secure_sample) (mcalls s') []).
Proof.
  apply (secure_blocks_zeroed (fun _ => false) (BState (Some secure_sample) 0 []) secure_sample 20);
    [done| |done|cbn; lia|cbn; lia].
  unfold wf_buffer, BUFFER_SIZE_MAX. cbn. lia.
Defined.

(** The limit of that protection: when ssh_buffer_pass_bytes consumes the whole
    content of a secure buffer it resets the end to 0 without clearing the block, so
    the next growth gives a block back to the allocator that still holds the
    consumed bytes in clear, which ssh_buffer_set_secure says never happens. *)
Theorem secure_stale_block (s : bstate) (b : ssh_buffer) (bs : list ascii) (n : Z) :
  target s = Some b -> wf_buffer b -> secure b = true -> pos b = 0 -> content b = Some <$> bs -> bs <> [] ->
  allocated b < n < BUFFER_SIZE_MAX ->
  returns (_ ← ssh_buffer_pass_bytes (Z.of_nat (length bs)); ssh_buffer_allocate_size (fun _ => false) n) s
    (fun rc s' => rc = 0 /\ exists block, freed s' = freed s ++ [block] /\ take (length bs) block = Some <$> bs).
Proof.
  intros Ht Hwf Hs H0 Hc Hne Hn. pose proof Hwf as (Hp & Hu & Hd).
  pose proof (content_length b Hwf) as Hl. rewrite Hc, length_fmap in Hl. unfold BUFFER_SIZE_MAX in *.
  unfold ssh_buffer_pass_bytes. buf_steps. rewrite H0, wrap_u64_small by lia.
  destruct (Z.ltb_spec (0 + Z.of_nat (length bs)) (Z.of_nat (length bs))); [lia|].
  destruct (Z.ltb_spec (used b) (0 + Z.of_nat (length bs))); [lia|]. cbn [orb]. buf_steps.
  destruct (Z.eqb_spec (0 + Z.of_nat (length bs)) (used b)); [|lia].
  unfold ssh_buffer_allocate_size, make_room. buf_steps. cbn [allocated pos].
  destruct (Z.ltb_spec (allocated b) n); [|lia]. buf_steps. cbn [Z.ltb Z.compare]. buf_steps.
  destruct (grow_spec n) as (k & Hk & Hg & Hlt & Hle); [lia|]. unfold realloc_buffer. rewrite Hg.
  destruct (Z.gtb_spec (2 ^ k) BUFFER_SIZE_MAX) as [Hbig|_].
  { exfalso. assert (28 < k) by (apply (Z.pow_lt_mono_r_iff 2); [lia|lia|exact Hbig]).
    assert (2 ^ 29 <= 2 ^ k) by (apply Z.pow_le_mono_r; lia). lia. }
  buf_steps. cbn [negb secure data used]. buf_steps. rewrite Hs. buf_steps.
  eapply returns_mem; [apply sub_block_ok; simpl; lia|]. buf_steps.
  eapply returns_mem; [apply blit_ok; rewrite length_replicate, length_take; simpl; lia|]. buf_steps.
  eapply returns_mem; [apply bzero_ok; simpl; lia|]. buf_steps. split; [done|].
  eexists. split; [reflexivity|]. cbn [Z.to_nat Nat.add replicate app]. rewrite take_0, drop_0. cbn [app].
  rewrite <- Hc. unfold content. rewrite H0, drop_0. f_equal. lia.
Qed.

Definition stale_sample : ssh_buffer := SshBuffer true 3 8 0 ((Some <$> lit "key") ++ replicate 5 None).

Lemma secure_stale_block_witness :
  returns (_ ← ssh_buffer_pass_bytes 3; ssh_buffer_allocate_size (fun _ => false) 100) (BState (Some stale_sample) 0 [])
    (fun rc s' => rc = 0 /\ exists block, freed s' = [] ++ [block] /\ take 3 block = Some <$> lit "key").
Proof.
  apply (secure_stale_block (BState (Some stale_sample) 0 []) stale_sample (lit "key") 100);
    [done| |done|done|done|done|unfold BUFFER_SIZE_MAX; cbn; lia].
  unfold wf_buffer, BUFFER_SIZE_MAX. cbn. lia.
Defined.
