(* ===== verification/SshStringThms.v ===== *)
(** * Theorems on length-prefixed strings *)

From S2P Require Import Prelude Utils Bytes SshString SshBuffer SshQueue SshQueueThms.

Lemma from_char_spec w : Z.of_nat (length w) <= STRING_SIZE_MAX ->
  exists str, ssh_string_from_char true (Some w) = Some (Some str) /\ is_string str (Some <$> w).
Proof.
  intros Hl. unfold ssh_string_from_char. rewrite string_new_ok by lia. cbn [s_data s_size]. rewrite Nat2Z.id.
  rewrite blit_ok by (cbn [length]; rewrite length_fmap, length_replicate; lia). cbn [mbind option_bind].
  eexists. split; [reflexivity|]. rewrite take_0, app_nil_l, length_fmap. cbn [Nat.add].
  destruct (drop (length w) (Some NUL :: replicate (length w) None)) as [|last [|? ?]] eqn:E;
    apply (f_equal length) in E; rewrite length_drop in E; cbn [length] in E; rewrite length_replicate in E; try lia.
  pose proof (is_string_intro (Some <$> w) last) as Hi. rewrite length_fmap in Hi. by apply Hi.
Qed.

Section Strings.
Context (str : ssh_string) (bs : buffer).
Hypothesis Hs : is_string str bs.

Lemma to_char_spec : ssh_string_to_char true (Some str) = Some (Some (bs ++ [Some NUL])).
Proof.
  destruct (is_string_data _ _ Hs) as (last & Hd & _ & Hmax). unfold STRING_SIZE_MAX in Hmax.
  unfold ssh_string_to_char. rewrite (is_string_len _ _ Hs), Nat2Z.id, wrap_u64_small by lia.
  destruct (Z.ltb_spec (Z.of_nat (length bs) + 1) (Z.of_nat (length bs))); [lia|]. cbn [negb].
  rewrite sub_block_ok by (rewrite Hd, length_app; simpl; lia). cbn [mbind option_bind].
  rewrite Hd, drop_0, take_app_length.
  replace (Z.to_nat (Z.of_nat (length bs) + 1)) with (S (length bs)) by lia. rewrite replicate_S_end.
  pose proof (blit_app [] (replicate (length bs) None) [None] bs) as Hb. cbn [app length] in Hb.
  rewrite Hb by apply length_replicate. pose proof (blit_app bs [None] [] [Some NUL] eq_refl) as Hz.
  cbn [app mbind option_bind] in Hz |- *. by rewrite Hz.
Qed.

Lemma get_char_spec : exists str', ssh_string_get_char (Some str) = Some (Some str') /\
  s_data str' = bs ++ [Some NUL] /\ is_string str' bs.
Proof.
  destruct (is_string_data _ _ Hs) as (last & Hd & Hz & Hmax). unfold ssh_string_get_char.
  rewrite (is_string_len _ _ Hs), Nat2Z.id, Hd. pose proof (blit_app bs [last] [] [Some NUL] eq_refl) as Hb.
  cbn [app] in Hb. rewrite Hb. cbn [mbind option_bind]. eexists. split; [reflexivity|]. split; [done|]. rewrite Hz.
  by apply is_string_intro.
Qed.

Lemma copy_spec : bs <> [] -> exists str', ssh_string_copy true (Some str) = Some (Some str') /\ is_string str' bs.
Proof.
  intros Hne. destruct (is_string_data _ _ Hs) as (last & Hd & Hz & Hmax). unfold ssh_string_copy.
  assert (length bs <> 0%nat) by by destruct bs.
  rewrite (is_string_len _ _ Hs), (proj2 (Z.eqb_neq _ _)), string_new_ok by lia. cbn [s_data s_size]. rewrite Nat2Z.id.
  rewrite sub_block_ok by (rewrite Hd, length_app; simpl; lia). cbn [mbind option_bind].
  rewrite Hd, drop_0, take_app_length, blit_ok by (cbn [length]; rewrite length_replicate; lia). cbn [mbind option_bind].
  eexists. split; [reflexivity|]. rewrite take_0, app_nil_l. cbn [Nat.add].
  destruct (drop (length bs) (Some NUL :: replicate (length bs) None)) as [|l [|? ?]] eqn:E;
    apply (f_equal length) in E; rewrite length_drop in E; cbn [length] in E; rewrite length_replicate in E; try lia.
  by apply is_string_intro.
Qed.

Lemma copy_empty : bs = [] -> ssh_string_copy true (Some str) = Some None.
Proof. intros ->. unfold ssh_string_copy. by rewrite (is_string_len _ _ Hs). Qed.

Lemma burn_spec : exists str', ssh_string_burn (Some str) = Some (Some str') /\
  is_string str' (replicate (length bs) (Some NUL)).
Proof.
  destruct (is_string_data _ _ Hs) as (last & Hd & Hz & Hmax). unfold ssh_string_burn.
  destruct (decide (bs = [])) as [-> |Hne].
  - replace (s_size str =? 0) with true by (rewrite Hz; reflexivity). by exists str.
  - assert (s_size str <> 0) as Hsz.
    { rewrite Hz. intros H0. apply (f_equal ntohl) in H0. unfold STRING_SIZE_MAX in Hmax.
      rewrite ntohl_htonl in H0 by lia. change (ntohl 0) with 0 in H0. destruct bs; [done|simpl in H0; lia]. }
    rewrite (proj2 (Z.eqb_neq _ _) Hsz), (is_string_len _ _ Hs), Nat2Z.id, Hd.
    rewrite bzero_ok by (rewrite length_app; simpl; lia). cbn [mbind option_bind]. eexists. split; [reflexivity|].
    rewrite take_0, app_nil_l. cbn [Nat.add]. rewrite drop_app_length, Hz.
    pose proof (is_string_intro (replicate (length bs) (Some NUL)) last) as Hi. rewrite length_replicate in Hi. by apply Hi.
Qed.
End Strings.

(** ssh strings hold what was put in them. For every C string of at most 256 MB,
    when the allocations succeed, ssh_string_from_char gives a string from which
    ssh_string_to_char and ssh_string_get_char give back the characters with their
    NUL, whose copy holds the same bytes, and whose bytes are all zero after
    ssh_string_burn; but the copy of an empty string is NULL, as if it had failed. *)
Theorem ssh_string_roundtrip (w : list ascii) :
  Z.of_nat (length w) <= STRING_SIZE_MAX ->
  exists str, ssh_string_from_char true (Some w) = Some (Some str) /\
    ssh_string_len (Some str) = Z.of_nat (length w) /\
    ssh_string_to_char true (Some str) = Some (Some ((Some <$> w) ++ [Some NUL])) /\
    (exists str', ssh_string_get_char (Some str) = Some (Some str') /\ s_data str' = (Some <$> w) ++ [Some NUL]) /\
    match ssh_string_copy true (Some str) with
    | Some (Some str') => w <> [] /\ is_string str' (Some <$> w)
    | Some None => w = []
    | None => False
    end /\
    (exists str', ssh_string_burn (Some str) = Some (Some str') /\ is_string str' (replicate (length w) (Some NUL))).
Proof.
  intros Hl. destruct (from_char_spec w Hl) as (str & Hf & Hs). exists str. split; [done|].
  split; [by rewrite (is_string_len _ _ Hs), length_fmap|]. split; [by apply to_char_spec|].
  destruct (get_char_spec str _ Hs) as (str1 & Hg & Hd & _). split; [by exists str1|].
  destruct (burn_spec str _ Hs) as (str2 & Hb & Hz). rewrite length_fmap in Hz. split; [|by exists str2].
  destruct (decide (w = [])) as [-> |Hne]; [by rewrite (copy_empty str _ Hs)|].
  destruct (copy_spec str _ Hs) as (str3 & -> & Hc); [by destruct w|]. done.
Qed.

Lemma ssh_string_roundtrip_witness :
  exists str, ssh_string_from_char true (Some (lit "ssh-userauth")) = Some (Some str) /\
    ssh_string_len (Some str) = 12 /\
    ssh_string_to_char true (Some str) = Some (Some ((Some <$> lit "ssh-userauth") ++ [Some NUL])) /\
    (exists str', ssh_string_get_char (Some str) = Some (Some str') /\
       s_data str' = (Some <$> lit "ssh-userauth") ++ [Some NUL]) /\
    match ssh_string_copy true (Some str) with
    | Some (Some str') => lit "ssh-userauth" <> [] /\ is_string str' (Some <$> lit "ssh-userauth")
    | Some None => lit "ssh-userauth" = []
    | None => False
    end /\
    (exists str', ssh_string_burn (Some str) = Some (Some str') /\ is_string str' (replicate 12 (Some NUL))).
Proof.
  assert (Z.of_nat (length (lit "ssh-userauth")) <= STRING_SIZE_MAX) as Hl by (vm_compute; discriminate).
  exact (ssh_string_roundtrip (lit "ssh-userauth") Hl).
Defined.
