(* ===== verification/SshPack.v ===== *)
(** * libssh/src/buffer.c: packing and unpacking by a format string

    ssh_buffer_pack and ssh_buffer_unpack with their variable arguments. A va_list
    is the list of the arguments that are left; reading an argument at another type
    than the one passed, or past the last one, is [Undef]. The numbers of the
    cryptographic library are a parameter, with the operations bignum.c uses. *)

From S2P Require Import Prelude Utils Bytes SshString SshBuffer.

Definition SSH_BUFFER_PACK_END : Z := 0x4f65feb3.

(** abort() *)
Definition abort {A} : M bstate A := exit_with 134.

(** BIGNUM of OpenSSL: BN_num_bytes, BN_num_bits, BN_is_bit_set, BN_bn2bin and
    BN_bin2bn. [bin2bn] gets the bytes and may fail. *)
Class Bignum (bn : Type) := {
  bn_num_bytes : bn -> Z;
  bn_num_bits : bn -> Z;
  bn_is_bit_set : bn -> Z -> bool;
  bn_bn2bin : bn -> list ascii;
  bn_bin2bn : list ascii -> option bn }.

Section Pack.
Context {bn : Type} `{Bignum bn}.
Context (oom : nat -> bool).

(** ** bignum.c *)
Definition ssh_make_bignum_string (num : bn) : M bstate (option ssh_string) :=
  let len := bn_num_bytes num in
  let bits := bn_num_bits num in
  if len =? 0 then mret None
  else
    let pad := if (bits mod 8 =? 0) && bn_is_bit_set num (bits - 1) then 1 else 0 in
    ok ← malloc_ok oom;
    match ssh_string_new ok (len + pad) with
    | None => mret None
    | Some ptr =>
        d ← (if negb (pad =? 0) then mem (blit (s_data ptr) 0 [Some NUL]) else mret (s_data ptr));
        d ← mem (blit d (Z.to_nat pad) (Some <$> bn_bn2bin num));
        mret (Some (SshString (s_size ptr) d))
    end.

Definition ssh_make_string_bn (string : ssh_string) : M bstate (option bn) :=
  bytes ← mem (sub_block (s_data string) 0 (Z.to_nat (ssh_string_len (Some string))));
  bytes ← mem (mapM id bytes);
  mret (bn_bin2bn bytes).

(** ** Variable arguments *)
Inductive arg :=
| AInt (z : Z)                     (* unsigned int, uint32_t *)
| ALong (z : Z)                    (* uint64_t, size_t *)
| AString (s : option ssh_string)
| ACString (s : list ascii)        (* char * to a C string *)
| AData (p : option buffer)        (* void * *)
| ABignum (n : bn).

(** The end of a loop over the format: [None] for the early return of SSH_ERROR, or
    the values of rc and count with the arguments left. *)
Definition loop_end : Type := option (Z * Z * list arg).

(** *** ssh_buffer_pack_allocate_va *)

(** The body of the switch: the size a letter adds, with the arguments left and the
    increment of count; [None] for an unknown letter. *)
Definition allocate_letter (p : ascii) (ap : list arg) : M bstate (option (Z * list arg * Z)) :=
  if Ascii.eqb p "b" then
    match ap with AInt _ :: ap => mret (Some (1, ap, 0)) | _ => undef end
  else if Ascii.eqb p "w" then
    match ap with AInt _ :: ap => mret (Some (2, ap, 0)) | _ => undef end
  else if Ascii.eqb p "d" then
    match ap with AInt _ :: ap => mret (Some (4, ap, 0)) | _ => undef end
  else if Ascii.eqb p "q" then
    match ap with ALong _ :: ap => mret (Some (8, ap, 0)) | _ => undef end
  else if Ascii.eqb p "S" then
    match ap with AString s :: ap => mret (Some (4 + ssh_string_len s, ap, 0)) | _ => undef end
  else if Ascii.eqb p "s" then
    match ap with ACString s :: ap => mret (Some (4 + Z.of_nat (length s), ap, 0)) | _ => undef end
  else if Ascii.eqb p "P" then
    match ap with ALong len :: AData _ :: ap => mret (Some (len, ap, 1)) | _ => undef end
  else if Ascii.eqb p "B" then
    match ap with ABignum _ :: ap => mret (Some (64, ap, 0)) | _ => undef end
  else if Ascii.eqb p "t" then
    match ap with ACString s :: ap => mret (Some (Z.of_nat (length s), ap, 0)) | _ => undef end
  else mret None.

Fixpoint allocate_loop (format : list ascii) (argc count needed_size : Z) (ap : list arg)
  : M bstate (option (Z * Z * Z * list arg)) :=
  match format with
  | [] => mret (Some (SSH_OK, count, needed_size, ap))
  | p :: format =>
      if count >? argc then mret None
      else
        r ← allocate_letter p ap;
        match r with
        | Some (n, ap, extra) =>
            allocate_loop format argc (count + extra + 1) (wrap_u64 (needed_size + n)) ap
        | None => mret (Some (SSH_ERROR, count, needed_size, ap))
        end
  end.

(** if (canary != SSH_BUFFER_PACK_END) abort(); *)
Definition check_canary (ap : list arg) : M bstate unit :=
  match ap with
  | AInt canary :: _ => if negb (canary =? SSH_BUFFER_PACK_END) then abort else mret tt
  | _ => undef
  end.

Definition ssh_buffer_pack_allocate_va (format : list ascii) (argc : Z) (ap : list arg) : M bstate Z :=
  r ← allocate_loop format argc 0 0 ap;
  match r with
  | None => mret SSH_ERROR
  | Some (rc, count, needed_size, ap) =>
      if negb (argc =? count) then mret SSH_ERROR
      else
        _ ← (if negb (rc =? SSH_ERROR) then check_canary ap else mret tt);
        rc ← ssh_buffer_allocate_size oom (wrap_u32 needed_size);
        mret (if negb (rc =? 0) then SSH_ERROR else SSH_OK)
  end.

(** *** ssh_buffer_pack_va *)

(** The body of the switch: rc, the arguments left and the increment of count. *)
Definition pack_letter (p : ascii) (ap : list arg) : M bstate (Z * list arg * Z) :=
  if Ascii.eqb p "b" then
    match ap with
    | AInt z :: ap => rc ← ssh_buffer_add_u8 oom (z mod 2 ^ 8); mret (rc, ap, 0)
    | _ => undef
    end
  else if Ascii.eqb p "w" then
    match ap with
    | AInt z :: ap => rc ← ssh_buffer_add_u16 oom (htons (z mod 2 ^ 16)); mret (rc, ap, 0)
    | _ => undef
    end
  else if Ascii.eqb p "d" then
    match ap with
    | AInt z :: ap => rc ← ssh_buffer_add_u32 oom (htonl z); mret (rc, ap, 0)
    | _ => undef
    end
  else if Ascii.eqb p "q" then
    match ap with
    | ALong z :: ap => rc ← ssh_buffer_add_u64 oom (htonll z); mret (rc, ap, 0)
    | _ => undef
    end
  else if Ascii.eqb p "S" then
    match ap with
    | AString s :: ap => rc ← ssh_buffer_add_ssh_string oom s; mret (rc, ap, 0)
    | _ => undef
    end
  else if Ascii.eqb p "s" then
    match ap with
    | ACString s :: ap =>
        let len := Z.of_nat (length s) in
        rc ← ssh_buffer_add_u32 oom (htonl (wrap_u32 len));
        rc ← (if rc =? SSH_OK then ssh_buffer_add_data oom (Some (Some <$> s)) (wrap_u32 len) else mret rc);
        mret (rc, ap, 0)
    | _ => undef
    end
  else if Ascii.eqb p "P" then
    match ap with
    | ALong len :: AData d :: ap => rc ← ssh_buffer_add_data oom d (wrap_u32 len); mret (rc, ap, 1)
    | _ => undef
    end
  else if Ascii.eqb p "B" then
    match ap with
    | ABignum n :: ap =>
        s ← ssh_make_bignum_string n;
        match s with
        | None => mret (SSH_ERROR, ap, 0)
        | Some str =>
            rc ← ssh_buffer_add_ssh_string oom s;
            _ ← release (s_data str);
            mret (rc, ap, 0)
        end
    | _ => undef
    end
  else if Ascii.eqb p "t" then
    match ap with
    | ACString s :: ap =>
        rc ← ssh_buffer_add_data oom (Some (Some <$> s)) (wrap_u32 (Z.of_nat (length s))); mret (rc, ap, 0)
    | _ => undef
    end
  else mret (SSH_ERROR, ap, 0).

Fixpoint pack_loop (format : list ascii) (argc count rc : Z) (ap : list arg) : M bstate loop_end :=
  match format with
  | [] => mret (Some (rc, count, ap))
  | p :: format =>
      if count >? argc then mret None
      else
        r ← pack_letter p ap;
        let '(rc, ap, extra) := r in
        if negb (rc =? SSH_OK) then mret (Some (rc, count + extra, ap))
        else pack_loop format argc (count + extra + 1) rc ap
  end.

Definition ssh_buffer_pack_va (format : list ascii) (argc : Z) (ap : list arg) : M bstate Z :=
  if argc >? 256 then mret SSH_ERROR
  else
    r ← pack_loop format argc 0 SSH_ERROR ap;
    match r with
    | None => mret SSH_ERROR
    | Some (rc, count, ap) =>
        if negb (argc =? count) then mret SSH_ERROR
        else _ ← (if negb (rc =? SSH_ERROR) then check_canary ap else mret tt); mret rc
    end.

Definition _ssh_buffer_pack (format : list ascii) (argc : Z) (ap : list arg) : M bstate Z :=
  if argc >? 256 then mret SSH_ERROR
  else
    rc ← ssh_buffer_pack_allocate_va format argc ap;
    if negb (rc =? SSH_OK) then mret rc else ssh_buffer_pack_va format argc ap.

(** ** Unpacking

    The arguments are pointers to objects of the caller, named by numbers; [outs]
    holds the value of each object that was written. A byte of the content that was
    never written is indeterminate, and reading a number from it is [Undef]. *)
Inductive uarg :=
| UByte (i : nat) | UWord (i : nat) | UDword (i : nat) | UQword (i : nat)
| UBignum (i : nat) | UString (i : nat) | UCString (i : nat) | UData (i : nat)
| ULen (z : Z)                     (* size_t *)
| UCanary (z : Z).                 (* uint32_t *)

Inductive uval :=
| VInt (z : Z)
| VBignum (n : option bn)
| VString (s : option ssh_string)
| VBlock (b : option buffer).

Abbreviation outs := (gmap nat uval).

(** What one pass through the switch leaves: rc, the arguments left, the increment
    of count and the objects. *)
Definition letter_end : Type := Z * list uarg * Z * outs.

(** (p != NULL) ? SSH_OK : SSH_ERROR *)
Definition not_null {A} (p : option A) : Z := match p with Some _ => SSH_OK | None => SSH_ERROR end.

(** An integer of [n] bytes read into the object [i]. *)
Definition unpack_int (n : nat) (conv : Z -> Z) (i : nat) (ap : list uarg) (o : outs) : M bstate letter_end :=
  r ← ssh_buffer_get_data (Z.of_nat n);
  let '(rlen, bytes) := r in
  if rlen =? Z.of_nat n then
    v ← mem (block_val bytes);
    mret (SSH_OK, ap, 0, <[i := VInt (conv v)]> o)
  else mret (SSH_ERROR, ap, 0, o).

Definition unpack_bignum (i : nat) (ap : list uarg) (o : outs) : M bstate letter_end :=
  tmp_string ← ssh_buffer_get_ssh_string oom;
  match tmp_string with
  | None => mret (SSH_ERROR, ap, 0, <[i := VBignum None]> o)
  | Some str =>
      n ← ssh_make_string_bn str;
      burnt ← mem (ssh_string_burn tmp_string);
      _ ← release (default [] (ssh_string_data burnt));
      mret (not_null n, ap, 0, <[i := VBignum n]> o)
  end.

Definition unpack_string (i : nat) (ap : list uarg) (o : outs) : M bstate letter_end :=
  s ← ssh_buffer_get_ssh_string oom;
  mret (not_null s, ap, 0, <[i := VString s]> o).

Definition unpack_cstring (max_len : Z) (i : nat) (ap : list uarg) (o : outs) : M bstate letter_end :=
  let o := <[i := VBlock None]> o in
  r ← ssh_buffer_get_u32;
  let '(rlen, bytes) := r in
  if negb (rlen =? 4) then mret (SSH_ERROR, ap, 0, o)
  else
    u32len ← mem (block_val bytes);
    let len := ntohl u32len in
    if len >? wrap_u64 (max_len - 1) then mret (SSH_ERROR, ap, 0, o)
    else
      rc ← ssh_buffer_validate_length len;
      if negb (rc =? SSH_OK) then mret (rc, ap, 0, o)
      else
        ok ← malloc_ok oom;
        if negb (ok : bool) then mret (SSH_ERROR, ap, 0, o)
        else
          r ← ssh_buffer_get_data len;
          let '(rlen, bytes) := r in
          let block := replicate (Z.to_nat (len + 1)) None in
          if negb (rlen =? len) then _ ← release block; mret (SSH_ERROR, ap, 0, o)
          else
            block ← mem (blit block 0 bytes);
            block ← mem (blit block (Z.to_nat len) [Some NUL]);
            mret (SSH_OK, ap, 0, <[i := VBlock (Some block)]> o).

Definition unpack_data (max_len len : Z) (ap : list uarg) (o : outs) : M bstate letter_end :=
  if len >? wrap_u64 (max_len - 1) then mret (SSH_ERROR, ap, 0, o)
  else
    rc ← ssh_buffer_validate_length len;
    if negb (rc =? SSH_OK) then mret (rc, ap, 0, o)
    else
      match ap with
      | UData i :: ap =>
          ok ← malloc_ok oom;
          if negb (ok : bool) then mret (SSH_ERROR, ap, 1, <[i := VBlock None]> o)
          else
            r ← ssh_buffer_get_data (wrap_u32 len);
            let '(rlen, bytes) := r in
            let block := replicate (Z.to_nat len) None in
            if negb (rlen =? len) then _ ← release block; mret (SSH_ERROR, ap, 1, <[i := VBlock None]> o)
            else
              block ← mem (blit block 0 bytes);
              mret (SSH_OK, ap, 1, <[i := VBlock (Some block)]> o)
      | _ => undef
      end.

Definition unpack_letter (p : ascii) (max_len : Z) (ap : list uarg) (o : outs) : M bstate letter_end :=
  if Ascii.eqb p "b" then
    match ap with UByte i :: ap => unpack_int 1 id i ap o | _ => undef end
  else if Ascii.eqb p "w" then
    match ap with UWord i :: ap => unpack_int 2 ntohs i ap o | _ => undef end
  else if Ascii.eqb p "d" then
    match ap with UDword i :: ap => unpack_int 4 ntohl i ap o | _ => undef end
  else if Ascii.eqb p "q" then
    match ap with UQword i :: ap => unpack_int 8 ntohll i ap o | _ => undef end
  else if Ascii.eqb p "B" then
    match ap with UBignum i :: ap => unpack_bignum i ap o | _ => undef end
  else if Ascii.eqb p "S" then
    match ap with UString i :: ap => unpack_string i ap o | _ => undef end
  else if Ascii.eqb p "s" then
    match ap with UCString i :: ap => unpack_cstring max_len i ap o | _ => undef end
  else if Ascii.eqb p "P" then
    match ap with ULen len :: ap => unpack_data max_len len ap o | _ => undef end
  else mret (SSH_ERROR, ap, 0, o).

(** The end of the loop: rc, whether the check of the argument count follows (it
    does not after the goto), count, the number of letters before p, the arguments
    left and the objects. *)
Fixpoint unpack_loop (format : list ascii) (done : nat) (argc count rc max_len : Z) (ap : list uarg) (o : outs)
  : M bstate (Z * bool * Z * nat * list uarg * outs) :=
  match format with
  | [] => mret (rc, true, count, done, ap, o)
  | p :: format =>
      if count >? argc then mret (SSH_ERROR, false, count, done, ap, o)
      else
        r ← unpack_letter p max_len ap o;
        let '(rc, ap, extra, o) := r in
        if negb (rc =? SSH_OK) then mret (rc, true, count + extra, done, ap, o)
        else unpack_loop format (S done) argc (count + extra + 1) rc max_len ap o
  end.

(** The object a pointer designates, which must have been written. *)
Definition out_val (o : outs) (i : nat) : M bstate uval := mem (o !! i).

(** One pass through the switch of the cleanup loop. *)
Definition cleanup_letter (p : ascii) (sec : bool) (ap : list uarg) (o : outs) : M bstate (list uarg * outs) :=
  let burn_int i := if sec then <[i := VInt 0]> o else o in
  match ap with
  | UByte i :: ap => if Ascii.eqb p "b" then mret (ap, burn_int i) else undef
  | UWord i :: ap => if Ascii.eqb p "w" then mret (ap, burn_int i) else undef
  | UDword i :: ap => if Ascii.eqb p "d" then mret (ap, burn_int i) else undef
  | UQword i :: ap => if Ascii.eqb p "q" then mret (ap, burn_int i) else undef
  | UBignum i :: ap => if Ascii.eqb p "B" then mret (ap, <[i := VBignum None]> o) else undef
  | UString i :: ap =>
      if negb (Ascii.eqb p "S") then undef
      else
        v ← out_val o i;
        match v with
        | VString s =>
            s ← (if sec then mem (ssh_string_burn s) else mret s);
            _ ← release (default [] (ssh_string_data s));
            mret (ap, <[i := VString None]> o)
        | _ => undef
        end
  | UCString i :: ap =>
      if negb (Ascii.eqb p "s") then undef
      else
        v ← out_val o i;
        match v with
        | VBlock (Some block) =>
            block ← (if sec then
                       s ← mem (buffer_string block);
                       mem (bzero block 0 (length s))
                     else mret block);
            _ ← release block;
            mret (ap, <[i := VBlock None]> o)
        | _ => undef
        end
  | ULen len :: UData i :: ap =>
      if negb (Ascii.eqb p "P") then undef
      else
        v ← out_val o i;
        match v with
        | VBlock (Some block) =>
            block ← (if sec then mem (bzero block 0 (Z.to_nat len)) else mret block);
            _ ← release block;
            mret (ap, <[i := VBlock None]> o)
        | _ => undef
        end
  | _ => undef
  end.

Fixpoint cleanup_loop (format : list ascii) (sec : bool) (ap : list uarg) (o : outs) : M bstate outs :=
  match format with
  | [] => mret o
  | p :: format => r ← cleanup_letter p sec ap o; cleanup_loop format sec r.1 r.2
  end.

Definition check_ucanary (ap : list uarg) : M bstate unit :=
  match ap with
  | UCanary canary :: _ => if negb (canary =? SSH_BUFFER_PACK_END) then abort else mret tt
  | _ => undef
  end.

Definition ssh_buffer_unpack_va (format : list ascii) (argc : Z) (ap : list uarg) (o : outs) : M bstate (Z * outs) :=
  max_len ← ssh_buffer_get_len;
  r ← (if argc >? 256 then mret (SSH_ERROR, false, 0, O, ap, o)
       else unpack_loop format 0 argc 0 SSH_ERROR max_len ap o);
  let '(rc, counted, count, last, ap_left, o) := r in
  let rc := if (counted : bool) && negb (argc =? count) then SSH_ERROR else rc in
  _ ← (if negb (rc =? SSH_ERROR) then check_ucanary ap_left else mret tt);
  if negb (rc =? SSH_OK) then
    b ← deref;
    o ← cleanup_loop (take last format) (secure b) ap o;
    mret (rc, o)
  else mret (rc, o).

Definition _ssh_buffer_unpack (format : list ascii) (argc : Z) (ap : list uarg) (o : outs) : M bstate (Z * outs) :=
  ssh_buffer_unpack_va format argc ap o.
End Pack.
