(* ===== verification/SshUnpack.v ===== *)
(** * Unpacking a buffer refines a parser of its content

    The reference parser takes the fields off a byte string; ssh_buffer_unpack
    agrees with it on any content, and on an error it clears what it had stored. *)

From S2P Require Import Prelude Utils Bytes SshString SshBuffer SshQueue SshQueueThms SshPack.

(** What the model relies on of the cryptographic library (BN_bn2bin(3)): the
    big-endian form has BN_num_bytes bytes, BN_bin2bn inverts it, and a leading zero
    byte does not change the number. [bn] stands for the non-negative numbers, the only
    ones of the protocol: BN_bn2bin drops the sign; allocations of the library itself
    do not fail. *)
Class BignumLaws (bn : Type) `{Bignum bn} := {
  bn_bytes_length : forall n, Z.of_nat (length (bn_bn2bin n)) = bn_num_bytes n;
  bn_bin2bn_bn2bin : forall n, bn_bin2bn (bn_bn2bin n) = Some n;
  bn_bin2bn_zero : forall bs, bn_bin2bn (NUL :: bs) = bn_bin2bn bs }.

Section Unpack.
Context {bn : Type} `{Bignum bn}.
Context (oom : nat -> bool).

Abbreviation outs := (gmap nat (uval (bn := bn))).

(** The destinations of an unpack call. *)
Inductive dest :=
| DByte (i : nat) | DWord (i : nat) | DDword (i : nat) | DQword (i : nat)
| DBignum (i : nat) | DString (i : nat) | DCString (i : nat) | DData (len : Z) (i : nat).

Definition dest_letter (d : dest) : ascii :=
  match d with
  | DByte _ => "b" | DWord _ => "w" | DDword _ => "d" | DQword _ => "q"
  | DBignum _ => "B" | DString _ => "S" | DCString _ => "s" | DData _ _ => "P"
  end.

Definition dest_object (d : dest) : nat :=
  match d with
  | DByte i | DWord i | DDword i | DQword i | DBignum i | DString i | DCString i | DData _ i => i
  end.

Definition dest_args (d : dest) : list uarg :=
  match d with
  | DByte i => [UByte i] | DWord i => [UWord i] | DDword i => [UDword i] | DQword i => [UQword i]
  | DBignum i => [UBignum i] | DString i => [UString i] | DCString i => [UCString i]
  | DData len i => [ULen len; UData i]
  end.

Definition dest_ok (d : dest) : Prop := match d with DData len _ => 0 <= len < 2 ^ 64 | _ => True end.

(** The number of arguments beyond the first. *)
Definition dest_extra (d : dest) : Z := match d with DData _ _ => 1 | _ => 0 end.

Fixpoint dests_argc (ds : list dest) : Z :=
  match ds with [] => 0 | d :: ds => 1 + dest_extra d + dests_argc ds end.

(** ** The reference parser *)
Inductive field := FInt (z : Z) | FBytes (bs : list ascii) | FNum (n : bn).

Definition take_int (n : nat) (bs : list ascii) : option (Z * list ascii) :=
  if (n <=? length bs)%nat then Some (le_val (rev (take n bs)), drop n bs) else None.

Definition take_string (bs : list ascii) : option (list ascii * list ascii) :=
  '(n, bs) ← take_int 4 bs;
  if n <=? Z.of_nat (length bs) then Some (take (Z.to_nat n) bs, drop (Z.to_nat n) bs) else None.

(** [max_len] is the length of the whole content: a field given by its length must be
    shorter than that, unless the content is empty. *)
Definition take_field (max_len : Z) (d : dest) (bs : list ascii) : option (field * list ascii) :=
  match d with
  | DByte _ => '(z, r) ← take_int 1 bs; Some (FInt z, r)
  | DWord _ => '(z, r) ← take_int 2 bs; Some (FInt z, r)
  | DDword _ => '(z, r) ← take_int 4 bs; Some (FInt z, r)
  | DQword _ => '(z, r) ← take_int 8 bs; Some (FInt z, r)
  | DString _ | DCString _ => '(s, r) ← take_string bs; Some (FBytes s, r)
  | DBignum _ => '(s, r) ← take_string bs; n ← bn_bin2bn s; Some (FNum n, r)
  | DData len _ =>
      if (len <=? Z.of_nat (length bs)) && ((len <? max_len) || (max_len =? 0))
      then Some (FBytes (take (Z.to_nat len) bs), drop (Z.to_nat len) bs) else None
  end.

Fixpoint take_fields (max_len : Z) (ds : list dest) (bs : list ascii) : option (list field * list ascii) :=
  match ds with
  | [] => Some ([], bs)
  | d :: ds => '(f, bs) ← take_field max_len d bs; '(fs, bs) ← take_fields max_len ds bs; Some (f :: fs, bs)
  end.

(** The value of an object that represents a field. *)
Definition represents (d : dest) (f : field) (v : uval (bn := bn)) : Prop :=
  match d, f with
  | (DByte _ | DWord _ | DDword _ | DQword _), FInt z => v = VInt z
  | DBignum _, FNum n => v = VBignum (Some n)
  | DString _, FBytes bs => exists str, v = VString (Some str) /\ is_string str (Some <$> bs)
  | DCString _, FBytes bs => v = VBlock (Some ((Some <$> bs) ++ [Some NUL]))
  | DData len _, FBytes bs => v = VBlock (Some (Some <$> bs)) /\ Z.of_nat (length bs) = len
  | _, _ => False
  end.

(** The value of an object after an error: a NULL pointer. *)
Definition cleared (d : dest) (v : uval (bn := bn)) : Prop :=
  match d with
  | DBignum _ => v = VBignum None
  | DString _ => v = VString None
  | DCString _ | DData _ _ => v = VBlock None
  | _ => True
  end.

(** ** One field *)

(** What unpacking one destination [d] leaves, against the parser's result [r]. *)
Definition field_end (d : dest) (ap : list uarg) (o : outs) (bs : list ascii)
    (r : option (field * list ascii)) (e : letter_end) (s' : bstate) : Prop :=
  let '(rc, ap', extra, o') := e in
  (exists f rest v, r = Some (f, rest) /\ rc = SSH_OK /\ ap' = ap /\ extra = dest_extra d /\
     o' = <[dest_object d := v]> o /\ represents d f v /\ holds (Some <$> rest) s') \/
  (rc = SSH_ERROR /\ (r = None \/ may_fail oom) /\ (exists rest, holds (Some <$> rest) s') /\
   (o' = o \/ exists v, o' = <[dest_object d := v]> o /\ cleared d v)).

Lemma swap_rev bs : swap_bytes (length bs) (le_val bs) = le_val (rev bs).
Proof. unfold swap_bytes. by rewrite le_bytes_val. Qed.

Lemma rev_singleton (bs : list ascii) : length bs = 1%nat -> rev bs = bs.
Proof. destruct bs as [|? [|? ?]]; done. Qed.

Lemma unpack_int_spec n conv i ap o s bs d :
  holds (Some <$> bs) s -> (0 < n <= 8)%nat -> dest_object d = i -> dest_extra d = 0 ->
  (forall z, represents d (FInt z) (VInt z)) ->
  (forall h, length h = n -> conv (le_val h) = le_val (rev h)) ->
  returns (unpack_int n conv i ap o) s
    (field_end d ap o bs ('(z, r) ← take_int n bs; Some (FInt z, r))).
Proof.
  intros Hh Hn Hi He Hr Hconv. unfold unpack_int. buf_steps.
  eapply returns_mono; [apply (get_data_spec _ s (Z.of_nat n) Hh); lia|]. cbn beta. rewrite length_fmap, Nat2Z.id.
  unfold take_int. intros r s'. destruct (Nat.leb_spec n (length bs)) as [Hle|Hgt].
  - destruct (Z.leb_spec (Z.of_nat n) (Z.of_nat (length bs))); [|lia]. intros [-> Hh'].
    rewrite Z.eqb_refl, <- fmap_take. buf_steps. eapply returns_mem; [apply block_val_bytes|]. buf_steps.
    cbn. left. eexists _, _, _. split; [reflexivity|]. rewrite <- Hi, He, <- fmap_drop in *.
    rewrite Hconv by (rewrite length_take; lia). eauto 10.
  - destruct (Z.leb_spec (Z.of_nat n) (Z.of_nat (length bs))); [lia|]. intros [-> ->].
    rewrite (proj2 (Z.eqb_neq _ _)) by lia. buf_steps. cbn. right. eauto 10.
Qed.

(** The string at the head of the content, as ssh_buffer_get_ssh_string reads it. *)
Lemma wire_len_rev h : length h = 4%nat -> wire_len h = le_val (rev h).
Proof. intros Hl. unfold wire_len, ntohl. by rewrite <- swap_rev, Hl. Qed.

Lemma get_string_field s bs : holds (Some <$> bs) s ->
  returns (ssh_buffer_get_ssh_string oom) s (fun r s' =>
    (exists str body rest, r = Some str /\ take_string bs = Some (body, rest) /\ is_string str (Some <$> body) /\
       holds (Some <$> rest) s') \/
    (r = None /\ (take_string bs = None \/ may_fail oom) /\ exists rest, holds (Some <$> rest) s')).
Proof.
  intros Hh. unfold take_string, take_int. destruct (Nat.leb_spec 4 (length bs)) as [Hle|Hgt].
  - rewrite <- (take_drop 4 bs), fmap_app in Hh.
    assert (length (take 4 bs) = 4%nat) as Hl by (rewrite length_take; lia).
    eapply returns_mono; [apply (get_string_spec oom _ _ s Hh Hl)|]. cbn beta zeta. rewrite length_fmap.
    intros r s'. cbn [mbind option_bind]. rewrite (wire_len_rev _ Hl). set (n := le_val _).
    destruct (n <=? Z.of_nat (length (drop 4 bs))).
    + rewrite <- fmap_take, <- fmap_drop. intros [(-> & Hf & Hh')|(str & -> & Hs & Hh')]; [right|left]; eauto 10.
    + intros [-> Hh']. right. eauto.
  - eapply returns_mono; [apply (get_string_short oom _ s Hh); rewrite length_fmap; lia|]. cbn beta.
    intros r s' [-> ->]. right. eauto.
Qed.

Lemma unpack_string_spec i ap o s bs : holds (Some <$> bs) s ->
  returns (unpack_string oom i ap o) s
    (field_end (DString i) ap o bs ('(b, r) ← take_string bs; Some (FBytes b, r))).
Proof.
  intros Hh. unfold unpack_string. buf_steps. eapply returns_mono; [by apply get_string_field|]. cbn beta.
  intros r s' [(str & body & rest & -> & Ht & Hs & Hh')|(-> & Hf & rest & Hh')]; buf_steps; cbn.
  - left. rewrite Ht. cbn. eauto 15.
  - right. split; [done|]. split; [destruct Hf as [-> |]; eauto|]. eauto 10.
Qed.

Lemma string_burn_ok str bs : is_string str bs -> exists r, ssh_string_burn (Some str) = Some r.
Proof.
  intros Hs. destruct (is_string_data _ _ Hs) as (last & Hd & _). unfold ssh_string_burn.
  destruct (s_size str =? 0); [eauto|]. rewrite (is_string_len _ _ Hs), Nat2Z.id, bzero_ok; [cbn; eauto|].
  rewrite Hd, length_app. simpl. lia.
Qed.

Lemma make_string_bn_spec str bs s : is_string str (Some <$> bs) -> ssh_make_string_bn str s = Ret (bn_bin2bn bs) s.
Proof.
  intros Hs. destruct (is_string_data _ _ Hs) as (last & Hd & _). unfold ssh_make_string_bn.
  rewrite (is_string_len _ _ Hs), Nat2Z.id, Hd, sub_block_ok by (rewrite length_app; simpl; lia).
  rewrite drop_0, take_app_length. cbn [mem]. unfold mbind at 1, M_bind at 1, mret at 1, M_ret at 1.
  by rewrite mapM_some_id.
Qed.

Lemma unpack_bignum_spec i ap o s bs : holds (Some <$> bs) s ->
  returns (unpack_bignum oom i ap o) s
    (field_end (DBignum i) ap o bs ('(b, r) ← take_string bs; n ← bn_bin2bn b; Some (FNum n, r))).
Proof.
  intros Hh. unfold unpack_bignum. buf_steps. eapply returns_mono; [by apply get_string_field|]. cbn beta.
  intros r s' [(str & body & rest & -> & Ht & Hs & Hh')|(-> & Hf & rest & Hh')]; buf_steps.
  - unfold returns at 1. rewrite (make_string_bn_spec _ _ _ Hs).
    destruct (string_burn_ok _ _ Hs) as [burnt Hb]. buf_steps. eapply returns_mem; [exact Hb|]. buf_steps.
    rewrite Ht. cbn [mbind option_bind].
    assert (holds (Some <$> rest)
      (BState (target s') (mcalls s') (freed s' ++ [default [] (ssh_string_data burnt)]))) as Hh''.
    { destruct Hh' as (b & ? & ?). by exists b. }
    destruct (bn_bin2bn body) as [n|] eqn:En; cbn [mbind option_bind not_null field_end].
    + left. eexists _, _, _. split; [reflexivity|]. repeat (split; [reflexivity|]). done.
    + right. split; [done|]. split; [by left|]. split; [eauto|]. right. eexists. by split.
  - cbn. right. split; [done|]. split; [destruct Hf as [-> |]; eauto|]. eauto 10.
Qed.

(** A block filled with bytes read from the content. *)
Lemma blit_fill n (bs : buffer) : length bs = n -> blit (replicate n None) 0 bs = Some bs.
Proof.
  intros <-. rewrite blit_ok by by rewrite length_replicate.
  rewrite drop_ge by (rewrite length_replicate; lia). by rewrite app_nil_r.
Qed.

Lemma blit_terminate n (bs : buffer) : length bs = n ->
  blit (replicate (S n) None) 0 bs = Some (bs ++ [None]) /\ blit (bs ++ [None]) n [Some NUL] = Some (bs ++ [Some NUL]).
Proof.
  intros Hl. split.
  - rewrite replicate_S_end. pose proof (blit_app [] (replicate n None) [None] bs) as Hb. cbn in Hb. apply Hb.
    by rewrite length_replicate.
  - rewrite <- Hl. pose proof (blit_app bs [None] [] [Some NUL]) as Hb. cbn in Hb. by apply Hb.
Qed.

Lemma unpack_cstring_spec max_len i ap o s bs : holds (Some <$> bs) s -> Z.of_nat (length bs) <= max_len < 2 ^ 32 ->
  returns (unpack_cstring oom max_len i ap o) s
    (field_end (DCString i) ap o bs ('(b, r) ← take_string bs; Some (FBytes b, r))).
Proof.
  intros Hh Hmax. unfold unpack_cstring, ssh_buffer_get_u32, take_string, take_int. buf_steps.
  eapply returns_mono; [apply (get_data_spec _ s 4 Hh); lia|]. cbn beta. rewrite length_fmap. intros r s1.
  destruct (Nat.leb_spec 4 (length bs)) as [Hle|Hgt].
  2: { destruct (Z.leb_spec 4 (Z.of_nat (length bs))); [lia|]. intros [-> ->]. cbn. right. eauto 12. }
  destruct (Z.leb_spec 4 (Z.of_nat (length bs))); [|lia]. intros [-> Hh1]. cbn [Z.eqb Pos.eqb negb].
  change (Z.to_nat 4) with 4%nat in *. rewrite <- fmap_take. rewrite <- fmap_drop in Hh1. buf_steps.
  assert (length (take 4 bs) = 4%nat) as Hl by (rewrite length_take; lia).
  eapply returns_mem; [apply block_val_bytes|]. fold (wire_len (take 4 bs)). cbn [mbind option_bind].
  pose proof (wire_len_range (take 4 bs)) as Hn. rewrite <- (wire_len_rev _ Hl). set (n := wire_len _) in *.
  set (rest := drop 4 bs) in *. assert (length bs = 4 + length rest)%nat as Hlr by (unfold rest; rewrite length_drop; lia).
  rewrite wrap_u64_small by lia. destruct (Z.gtb_spec n (max_len - 1)) as [Hgt|_].
  { buf_steps. destruct (Z.leb_spec n (Z.of_nat (length rest))); [lia|]. cbn. right. eauto 12. }
  buf_steps. unfold returns at 1. rewrite (validate_spec _ s1 n Hh1), length_fmap by lia.
  destruct (Z.leb_spec n (Z.of_nat (length rest))) as [Hin|_]; cbn [Z.eqb SSH_OK SSH_ERROR negb].
  2: { buf_steps. cbn. right. eauto 12. }
  buf_steps. destruct (oom (mcalls s1)) eqn:Ho; cbn [negb].
  { buf_steps. cbn. right. split; [done|]. split; [right; by exists (mcalls s1)|]. split; [|by eauto].
    exists rest. destruct Hh1 as (b & ? & ?). by exists b. }
  buf_steps. eapply returns_mono; [apply (get_data_spec (Some <$> rest) _ n); [|lia]|].
  { destruct Hh1 as (b & ? & ?). by exists b. }
  cbn beta. rewrite length_fmap. destruct (Z.leb_spec n (Z.of_nat (length rest))); [|lia]. intros r s2 [-> Hh2].
  rewrite Z.eqb_refl. cbn [negb]. buf_steps. rewrite <- fmap_take. rewrite <- fmap_drop in Hh2.
  destruct (blit_terminate (Z.to_nat n) (Some <$> take (Z.to_nat n) rest)) as [Hb1 Hb2];
    [rewrite length_fmap, length_take; lia|].
  replace (Z.to_nat (n + 1)) with (S (Z.to_nat n)) by lia.
  eapply returns_mem; [exact Hb1|]. buf_steps. eapply returns_mem; [exact Hb2|]. buf_steps.
  left. eexists _, _, _. split; [reflexivity|]. do 3 (split; [done|]). split; [exact (insert_insert_eq (M := gmap nat) o i _ _)|done].
Qed.

Lemma unpack_data_spec max_len len i ap o s bs :
  holds (Some <$> bs) s -> Z.of_nat (length bs) <= max_len < 2 ^ 32 -> 0 <= len < 2 ^ 64 ->
  returns (unpack_data oom max_len len (UData i :: ap) o) s
    (field_end (DData len i) ap o bs (take_field max_len (DData len i) bs)).
Proof.
  intros Hh Hmax Hlen. unfold unpack_data, take_field.
  destruct (Z.gtb_spec len (wrap_u64 (max_len - 1))) as [Hgt|Hle].
  { buf_steps. right. split; [done|]. split; [left|by eauto].
    destruct (Z.eq_dec max_len 0) as [-> |Hnz]; [change (wrap_u64 (0 - 1)) with (2 ^ 64 - 1) in Hgt; lia|].
    rewrite wrap_u64_small in Hgt by lia.
    destruct (Z.ltb_spec len max_len); [lia|]. destruct (Z.eqb_spec max_len 0); [done|]. by rewrite andb_false_r. }
  assert ((len <? max_len) || (max_len =? 0) = true) as ->.
  { destruct (Z.eqb_spec max_len 0) as [|Hnz]; [by rewrite orb_true_r|].
    rewrite wrap_u64_small in Hle by lia. destruct (Z.ltb_spec len max_len); [done|lia]. }
  rewrite andb_true_r. buf_steps. unfold returns at 1. rewrite (validate_spec _ s len Hh), length_fmap by lia.
  destruct (Z.leb_spec len (Z.of_nat (length bs))) as [Hin|_]; cbn [Z.eqb SSH_OK SSH_ERROR negb].
  2: { buf_steps. right. eauto 12. }
  buf_steps. destruct (oom (mcalls s)) eqn:Ho; cbn [negb].
  { buf_steps. right. split; [done|]. split; [right; by exists (mcalls s)|]. split; [|by right; eexists].
    exists bs. destruct Hh as (b & ? & ?). by exists b. }
  buf_steps. unfold wrap_u32. rewrite Z.mod_small by lia.
  eapply returns_mono; [apply (get_data_spec (Some <$> bs) _ len); [|lia]|].
  { destruct Hh as (b & ? & ?). by exists b. }
  cbn beta. rewrite length_fmap. destruct (Z.leb_spec len (Z.of_nat (length bs))); [|lia]. intros r s2 [-> Hh2].
  rewrite Z.eqb_refl. cbn [negb]. buf_steps. rewrite <- fmap_take. rewrite <- fmap_drop in Hh2.
  eapply returns_mem; [apply blit_fill; rewrite length_fmap, length_take; lia|]. buf_steps.
  left. eexists _, _, _. split; [reflexivity|]. cbn. do 4 (split; [done|]). split; [|done]. split; [done|].
  rewrite length_take. lia.
Qed.

(** Every destination. *)
Lemma unpack_letter_spec max_len d ap o s bs :
  holds (Some <$> bs) s -> Z.of_nat (length bs) <= max_len < 2 ^ 32 -> dest_ok d ->
  returns (unpack_letter oom (dest_letter d) max_len (dest_args d ++ ap) o) s
    (field_end d ap o bs (take_field max_len d bs)).
Proof.
  intros Hh Hmax Hd. destruct d; cbn [dest_letter dest_args app take_field].
  - apply unpack_int_spec; [done|lia|done|done|done|]. intros h Hl. by rewrite (rev_singleton _ Hl).
  - apply unpack_int_spec; [done|lia|done|done|done|]. intros h Hl. by rewrite <- swap_rev, Hl.
  - apply unpack_int_spec; [done|lia|done|done|done|]. intros h Hl. by rewrite <- swap_rev, Hl.
  - apply unpack_int_spec; [done|lia|done|done|done|]. intros h Hl. by rewrite <- swap_rev, Hl.
  - by apply unpack_bignum_spec.
  - by apply unpack_string_spec.
  - by apply unpack_cstring_spec.
  - by apply unpack_data_spec.
Qed.

(** ** The loop *)
Definition obj_field (o : outs) (d : dest) (f : field) : Prop :=
  exists v, o !! dest_object d = Some v /\ represents d f v.

Definition unchanged_or_cleared (o o' : outs) (d : dest) : Prop :=
  o' !! dest_object d = o !! dest_object d \/ exists v, o' !! dest_object d = Some v /\ cleared d v.

(** The objects after the loop stopped before the letter [k]. *)
Definition stopped (ds : list dest) (k : nat) (o o' : outs) : Prop :=
  (k < length ds)%nat /\ Forall (fun d => exists f, obj_field o' d f) (take k ds) /\
  Forall (unchanged_or_cleared o o') (drop k ds).

Definition loop_post (max_len : Z) (ds : list dest) (bs : list ascii) (before : nat) (argc : Z) (ap : list uarg) (o : outs)
    (e : Z * bool * Z * nat * list uarg * outs) (s' : bstate) : Prop :=
  let '(rc, counted, count, last, ap', o') := e in
  (forall i, i ∉ (dest_object <$> ds) -> o' !! i = o !! i) /\
  ((exists fs rest, take_fields max_len ds bs = Some (fs, rest) /\ rc = SSH_OK /\ counted = true /\ count = argc /\
      ap' = ap /\ holds (Some <$> rest) s' /\ Forall2 (obj_field o') ds fs) \/
   (rc = SSH_ERROR /\ (take_fields max_len ds bs = None \/ may_fail oom) /\ (exists rest, holds (Some <$> rest) s') /\
    exists k, last = (before + k)%nat /\ stopped ds k o o')).

Lemma take_int_length n bs z r : take_int n bs = Some (z, r) -> (length r <= length bs)%nat.
Proof. unfold take_int. case_match; [|done]. intros [= _ <-]. rewrite length_drop. lia. Qed.

Lemma take_string_length bs b r : take_string bs = Some (b, r) -> (length r <= length bs)%nat.
Proof.
  unfold take_string. destruct (take_int 4 bs) as [[n r']|] eqn:E; [|done]. cbn [mbind option_bind]. case_match; [|done].
  intros [= _ <-]. apply take_int_length in E. rewrite length_drop. lia.
Qed.

Lemma take_field_length max_len d bs f r : take_field max_len d bs = Some (f, r) -> (length r <= length bs)%nat.
Proof.
  destruct d; cbn [take_field]; intros E;
    try (case_match; [|done]; injection E as _ <-; rewrite length_drop; lia);
    apply bind_Some in E as ([? ?] & E & E'); simplify_option_eq;
    solve [by eapply take_int_length | by eapply take_string_length].
Qed.

Lemma dests_argc_nonneg ds : 0 <= dests_argc ds.
Proof. induction ds as [|[] ds IH]; cbn [dests_argc dest_extra] in *; lia. Qed.

Lemma not_head d d' (ds : list dest) : NoDup (dest_object <$> d :: ds) -> d' ∈ ds -> dest_object d' <> dest_object d.
Proof.
  rewrite fmap_cons. intros Hnd Hin Heq. apply NoDup_cons in Hnd as [Hni _]. apply Hni. rewrite <- Heq.
  by apply list_elem_of_fmap_2.
Qed.

(** A stop later in the list is a stop of the whole list. *)
Lemma stopped_cons d ds k o o' v f :
  NoDup (dest_object <$> d :: ds) -> represents d f v -> o' !! dest_object d = Some v ->
  stopped ds k (<[dest_object d := v]> o) o' -> stopped (d :: ds) (S k) o o'.
Proof.
  intros Hnd Hr Hv (Hk & Hs & Hd). split; [simpl; lia|]. split.
  - cbn [firstn]. apply Forall_cons. split; [by exists f, v|done].
  - cbn [skipn]. rewrite Forall_forall in Hd |- *. intros d' Hin. specialize (Hd d' Hin).
    unfold unchanged_or_cleared in Hd |- *. rewrite lookup_insert_ne in Hd; [done|].
    intros He. apply (not_head d d' ds Hnd); [|done]. apply list_elem_of_In. apply list_elem_of_In in Hin.
    rewrite <- (take_drop k ds). apply in_or_app. by right.
Qed.

Lemma unpack_loop_spec max_len ds : forall o s bs before argc count rc ap,
  holds (Some <$> bs) s -> Z.of_nat (length bs) <= max_len < 2 ^ 32 -> Forall dest_ok ds ->
  NoDup (dest_object <$> ds) -> argc = count + dests_argc ds -> (ds = [] -> rc = SSH_OK) ->
  returns (unpack_loop oom (dest_letter <$> ds) before argc count rc max_len (concat (dest_args <$> ds) ++ ap) o) s
    (loop_post max_len ds bs before argc ap o).
Proof.
  induction ds as [|d ds IH]; intros o s bs before argc count rc ap Hh Hmax Hok Hnd -> Hrc.
  { cbn [fmap list_fmap unpack_loop]. buf_steps. split; [done|]. left. exists [], bs. rewrite Hrc by done.
    cbn [dests_argc]. rewrite Z.add_0_r. by repeat split. }
  apply Forall_cons in Hok as [Hd Hok]. cbn [fmap list_fmap unpack_loop concat dests_argc]. rewrite <- app_assoc.
  pose proof (dests_argc_nonneg ds) as Hpos. assert (0 <= dest_extra d) by (destruct d; simpl; lia).
  destruct (Z.gtb_spec count (count + (1 + dest_extra d + dests_argc ds))); [lia|]. buf_steps.
  eapply returns_mono; [by apply unpack_letter_spec|]. cbn beta. intros [[[rc' ap'] extra] o'] s1.
  intros [(f & rest & v & Hf & -> & -> & -> & -> & Hr & Hh1)|(-> & Hf & Hh1 & Ho)]; cbn [Z.eqb SSH_OK SSH_ERROR negb].
  - pose proof (take_field_length _ _ _ _ _ Hf) as Hl. eapply returns_mono.
    { apply (IH (<[dest_object d := v]> o) s1 rest (S before) _ (count + dest_extra d + 1) SSH_OK ap Hh1);
        [lia|done|by apply NoDup_cons in Hnd as [_ ?]|lia|done]. }
    cbn beta. intros [[[[[rc2 counted] count2] last] ap2] o2] s2 [Hframe Hpost].
    assert (o2 !! dest_object d = Some v) as Hv.
    { rewrite Hframe; [apply lookup_insert_eq|]. by apply NoDup_cons in Hnd as [? _]. }
    split.
    { intros i Hi. rewrite fmap_cons, not_elem_of_cons in Hi. destruct Hi as [Hi1 Hi2].
      rewrite (Hframe i Hi2). by apply lookup_insert_ne. }
    cbn [take_fields]. rewrite Hf. cbn [mbind option_bind].
    destruct Hpost as [(fs & rest2 & Ht & -> & -> & -> & -> & Hh2 & Hfs)|(-> & Ht & Hh2 & k & -> & Hst)].
    + left. exists (f :: fs), rest2. rewrite Ht. do 5 (split; [done|]). split; [done|].
      apply Forall2_cons. split; [by exists v|done].
    + right. split; [done|]. split; [destruct Ht as [-> |]; eauto|]. split; [done|].
      exists (S k). split; [lia|]. by eapply stopped_cons.
  - buf_steps. split.
    { intros i Hi. rewrite fmap_cons, not_elem_of_cons in Hi. destruct Ho as [-> |(v & -> & _)]; [done|].
      apply lookup_insert_ne. by destruct Hi. }
    right. split; [done|]. cbn [take_fields]. split; [destruct Hf as [-> |]; eauto|]. split; [done|].
    exists 0%nat. split; [lia|]. split; [simpl; lia|]. split; [done|]. cbn [skipn]. rewrite Forall_forall. intros d' Hin.
    destruct Ho as [-> |(v & -> & Hc)]; [by left|]. apply elem_of_cons in Hin as [-> |Hin].
    + right. exists v. by rewrite lookup_insert_eq.
    + left. apply lookup_insert_ne. intros He. by apply (not_head d d' ds Hnd).
Qed.
End Unpack.
