(* ===== verification/SshPackThms.v ===== *)
(** * Theorems on packing and unpacking

    Unpacking is correct on any content; packing appends the encoding of its
    arguments; what was packed can be unpacked. *)

From S2P Require Import Prelude Utils Bytes SshString SshBuffer SshQueue SshQueueThms SshPack SshUnpack.

Section Cleanup.
Context {bn : Type} `{Bignum bn}.
Context (oom : nat -> bool).
Abbreviation outs := (gmap nat (uval (bn := bn))).

(** ** The cleanup after an error *)
Lemma holds_release q s d : holds q s -> holds q (BState (target s) (mcalls s) (freed s ++ [d])).
Proof. intros (b & ? & ?). by exists b. Qed.

Lemma length_cstr s : (length (cstr s) <= length s)%nat.
Proof. induction s as [|c s IH]; [done|]. cbn [cstr]. destruct (Ascii.eqb c NUL); simpl; lia. Qed.

Lemma burn_cstring bs : exists r, buffer_string ((Some <$> bs) ++ [Some NUL]) = Some (cstr bs) /\
  bzero ((Some <$> bs) ++ [Some NUL]) 0 (length (cstr bs)) = Some r.
Proof.
  eexists. split; [apply buffer_string_full|]. apply bzero_ok. rewrite length_app, length_fmap.
  pose proof (length_cstr bs). lia.
Qed.

(** What cleaning one destination leaves. *)
Definition cleaned (q : buffer) (d : dest) (ap : list uarg) (o : outs) (r : list uarg * outs) (s' : bstate) : Prop :=
  r.1 = ap /\ holds q s' /\
  (exists v, r.2 !! dest_object d = Some v /\ cleared d v) /\
  (forall i, i <> dest_object d -> r.2 !! i = o !! i).

Lemma cleaned_insert q d ap o v s' : holds q s' -> cleared d v ->
  cleaned q d ap o (ap, <[dest_object d := v]> o) s'.
Proof.
  intros Hh Hc. split; [done|]. split; [done|]. split.
  - exists v. split; [apply lookup_insert_eq|done].
  - intros i Hi. cbn. apply lookup_insert_ne. congruence.
Qed.

Lemma cleaned_int q d i ap (o : outs) sec s' v : holds q s' -> dest_object d = i -> o !! i = Some v ->
  (forall v : uval (bn := bn), cleared d v) -> cleaned q d ap o (ap, if sec : bool then <[i := VInt 0]> o else o) s'.
Proof.
  intros Hh <- Hv Hc. destruct sec; [by apply cleaned_insert|]. split; [done|]. split; [done|]. split; [by exists v|done].
Qed.

Lemma cleanup_letter_spec d f v sec ap o q s : holds q s -> o !! dest_object d = Some v -> represents d f v ->
  returns (cleanup_letter (dest_letter d) sec (dest_args d ++ ap) o) s (cleaned q d ap o).
Proof.
  intros Hh Hv Hr. destruct d, f; try done; cbn [represents] in Hr;
    cbn [dest_letter dest_args app cleanup_letter dest_object] in *.
  1-4: (buf_steps; by eapply cleaned_int).
  - buf_steps. by apply (cleaned_insert q (DBignum i)).
  - destruct Hr as (str & -> & Hs). cbn [negb Ascii.eqb Bool.eqb]. buf_steps.
    eapply returns_mem; [exact Hv|]. buf_steps. destruct sec.
    + destruct (string_burn_ok _ _ Hs) as [burnt Hb]. buf_steps. eapply returns_mem; [exact Hb|]. buf_steps.
      apply (cleaned_insert q (DString i)); [by apply holds_release|done].
    + buf_steps. apply (cleaned_insert q (DString i)); [by apply holds_release|done].
  - subst v. cbn [negb Ascii.eqb Bool.eqb]. buf_steps. eapply returns_mem; [exact Hv|]. buf_steps. destruct sec.
    + destruct (burn_cstring bs) as (r & Hs & Hz). buf_steps. eapply returns_mem; [exact Hs|].
      eapply returns_mem; [exact Hz|]. buf_steps. apply (cleaned_insert q (DCString i)); [by apply holds_release|done].
    + buf_steps. apply (cleaned_insert q (DCString i)); [by apply holds_release|done].
  - destruct Hr as [-> <-]. cbn [negb Ascii.eqb Bool.eqb]. buf_steps. eapply returns_mem; [exact Hv|]. buf_steps.
    destruct sec.
    + buf_steps. eapply returns_mem; [apply bzero_ok; rewrite length_fmap; lia|]. buf_steps.
      apply (cleaned_insert q (DData (Z.of_nat (length bs)) i)); [by apply holds_release|done].
    + buf_steps. apply (cleaned_insert q (DData (Z.of_nat (length bs)) i)); [by apply holds_release|done].
Qed.

Lemma cleanup_loop_spec sec q ds : forall ap (o : outs) s, holds q s -> NoDup (dest_object <$> ds) ->
  Forall (fun d => exists f, obj_field o d f) ds ->
  returns (cleanup_loop (dest_letter <$> ds) sec (concat (dest_args <$> ds) ++ ap) o) s (fun (o' : outs) s' =>
    holds q s' /\ Forall (fun d => exists v, o' !! dest_object d = Some v /\ cleared d v) ds /\
    forall i, i ∉ (dest_object <$> ds) -> o' !! i = o !! i).
Proof.
  induction ds as [|d ds IH]; intros ap o s Hh Hnd Hf; cbn [fmap list_fmap cleanup_loop concat].
  { buf_steps. by repeat split. }
  apply Forall_cons in Hf as [(f & v & Hv & Hr) Hf]. rewrite <- app_assoc. buf_steps.
  eapply returns_mono; [by eapply cleanup_letter_spec|]. cbn beta. intros [ap1 o1] s1 (Hap & Hh1 & (v1 & Hv1 & Hc1) & Hfr).
  cbn [fst snd] in *. subst ap1. pose proof (not_head d) as Hne. eapply returns_mono.
  { apply (IH ap o1 s1 Hh1); [by apply NoDup_cons in Hnd as [_ ?]|]. rewrite Forall_forall in Hf |- *.
    intros d' Hin. destruct (Hf d' Hin) as (f' & v' & Hv' & Hr'). exists f', v'. split; [|done]. rewrite Hfr; [done|]. eauto. }
  cbn beta. intros o2 s2 (Hh2 & Hc2 & Hfr2). split; [done|]. split.
  - apply Forall_cons. split; [|done]. exists v1. split; [|done]. rewrite Hfr2; [done|]. by apply NoDup_cons in Hnd as [? _].
  - intros i Hi. apply not_elem_of_cons in Hi as [Hi1 Hi2]. by rewrite Hfr2, Hfr.
Qed.

(** ** The whole call *)
Definition unpack_args (ds : list dest) : list uarg := concat (dest_args <$> ds) ++ [UCanary SSH_BUFFER_PACK_END].

Lemma canary_ok s : check_ucanary [UCanary SSH_BUFFER_PACK_END] s = Ret tt s.
Proof. done. Qed.

(** The objects after a call that failed. *)
Lemma stopped_cleaned ds k (o o1 o2 : outs) : NoDup (dest_object <$> ds) -> stopped ds k o o1 ->
  Forall (fun d => exists v, o2 !! dest_object d = Some v /\ cleared d v) (take k ds) ->
  (forall i, i ∉ (dest_object <$> take k ds) -> o2 !! i = o1 !! i) ->
  Forall (unchanged_or_cleared o o2) ds.
Proof.
  intros Hnd (Hk & _ & Hd) Hc Hfr. rewrite <- (take_drop k ds), fmap_app, NoDup_app in Hnd.
  destruct Hnd as (_ & Hdis & _). rewrite <- (take_drop k ds). apply Forall_app. split.
  - eapply Forall_impl; [exact Hc|]. cbn beta. intros d Hcd. by right.
  - rewrite Forall_forall in Hd |- *. intros d Hin. specialize (Hd d Hin). unfold unchanged_or_cleared in *.
    rewrite Hfr; [done|]. intros Hin'. apply (Hdis _ Hin'). by apply list_elem_of_fmap_2.
Qed.

Lemma unpack_va_spec ds bs (o : outs) s :
  holds (Some <$> bs) s -> Forall dest_ok ds -> NoDup (dest_object <$> ds) -> ds <> [] -> dests_argc ds <= 256 ->
  returns (_ssh_buffer_unpack oom (dest_letter <$> ds) (dests_argc ds) (unpack_args ds) o) s (fun r s' =>
    (exists fs rest, take_fields (Z.of_nat (length bs)) ds bs = Some (fs, rest) /\ r.1 = SSH_OK /\
       Forall2 (obj_field r.2) ds fs /\ holds (Some <$> rest) s') \/
    ((take_fields (Z.of_nat (length bs)) ds bs = None \/ may_fail oom) /\ r.1 = SSH_ERROR /\
       Forall (unchanged_or_cleared o r.2) ds /\ exists rest, holds (Some <$> rest) s')).
Proof.
  intros Hh Hok Hnd Hne Hargc. unfold _ssh_buffer_unpack, ssh_buffer_unpack_va. buf_steps. unfold returns at 1.
  rewrite (get_len_spec _ s Hh), length_fmap. destruct (Z.gtb_spec (dests_argc ds) 256); [lia|]. buf_steps.
  assert (Z.of_nat (length bs) < 2 ^ 32).
  { destruct Hh as (b & _ & Hwf & Hc). pose proof (content_length b Hwf) as Hl. rewrite Hc, length_fmap in Hl.
    pose proof (used_small b Hwf). destruct Hwf. unfold BUFFER_SIZE_MAX in *. lia. }
  eapply returns_mono; [apply (unpack_loop_spec oom (Z.of_nat (length bs)) ds o s bs 0); [done|lia|done..]|].
  cbn beta. intros [[[[[rc counted] count] last] ap] o1] s1 [Hfr Hpost].
  destruct Hpost as [(fs & rest & Ht & -> & -> & -> & -> & Hh1 & Hfs)|(-> & Ht & Hh1 & k & -> & Hst)].
  - rewrite Z.eqb_refl. cbn [andb negb Z.eqb SSH_OK SSH_ERROR]. buf_steps. unfold returns at 1. rewrite canary_ok. buf_steps.
    left. by exists fs, rest.
  - assert ((if counted && negb (dests_argc ds =? count) then SSH_ERROR else SSH_ERROR) = SSH_ERROR) as -> by by destruct (_ && _).
    cbn [negb Z.eqb SSH_OK SSH_ERROR Pos.eqb]. buf_steps. destruct Hh1 as [rest Hh1]. pose proof Hh1 as (b & Hb & _). buf_steps.
    rewrite <- fmap_take. pose proof Hst as (Hk & Hpre & _). cbn [Nat.add].
    unfold unpack_args. rewrite <- (take_drop k ds) at 2. rewrite fmap_app, concat_app, <- app_assoc.
    eapply returns_mono; [apply (cleanup_loop_spec (secure b) _ (take k ds) _ o1 s1 Hh1)|].
    { rewrite <- (take_drop k ds), fmap_app, NoDup_app in Hnd. apply Hnd. }
    { done. }
    cbn beta. intros o2 s2 (Hh2 & Hc2 & Hfr2). buf_steps. right. split; [done|]. split; [done|]. split; [|by exists rest].
    by eapply stopped_cleaned.
Qed.
End Cleanup.
