(* ===== verification/SshRound.v ===== *)
(** * Packing, and the round trip *)

From S2P Require Import Prelude Utils Bytes SshString SshBuffer SshQueue SshQueueThms.
From S2P Require Import SshPack SshUnpack SshPackThms.

Section Round.
Context {bn : Type} `{BignumLaws bn}.
Context (oom : nat -> bool).

(** What can be packed and unpacked. *)
Inductive item :=
| IByte (z : Z) | IWord (z : Z) | IDword (z : Z) | IQword (z : Z)
| IString (bs : list ascii) (str : ssh_string)
| ICString (s : list ascii)
| IData (bs : list ascii)
| IBignum (n : bn).

Definition item_letter (it : item) : ascii :=
  match it with
  | IByte _ => "b" | IWord _ => "w" | IDword _ => "d" | IQword _ => "q"
  | IString _ _ => "S" | ICString _ => "s" | IData _ => "P" | IBignum _ => "B"
  end.

Definition item_args (it : item) : list (arg (bn := bn)) :=
  match it with
  | IByte z | IWord z | IDword z => [AInt z]
  | IQword z => [ALong z]
  | IString _ str => [AString (Some str)]
  | ICString s => [ACString s]
  | IData bs => [ALong (Z.of_nat (length bs)); AData (Some (Some <$> bs))]
  | IBignum n => [ABignum n]
  end.

(** The body of a number: big-endian, with a zero byte before a first bit set. *)
Definition mpint (n : bn) : list ascii :=
  (if (bn_num_bits n mod 8 =? 0) && bn_is_bit_set n (bn_num_bits n - 1) then [NUL] else []) ++ bn_bn2bin n.

Definition wire_bytes (bs : list ascii) : list ascii := be_bytes 4 (Z.of_nat (length bs)) ++ bs.

(** The encoding of RFC 4251. *)
Definition wire (it : item) : list ascii :=
  match it with
  | IByte z => be_bytes 1 z | IWord z => be_bytes 2 z | IDword z => be_bytes 4 z | IQword z => be_bytes 8 z
  | IString bs _ | ICString bs => wire_bytes bs
  | IData bs => bs
  | IBignum n => wire_bytes (mpint n)
  end.

Definition item_ok (it : item) : Prop :=
  match it with
  | IByte z => 0 <= z < 2 ^ 8 | IWord z => 0 <= z < 2 ^ 16
  | IDword z => 0 <= z < 2 ^ 32 | IQword z => 0 <= z < 2 ^ 64
  | IString bs str => is_string str (Some <$> bs)
  | IBignum n => bn_num_bytes n <> 0
  | ICString _ | IData _ => True
  end.

Definition item_extra (it : item) : Z := match it with IData _ => 1 | _ => 0 end.

Fixpoint items_argc (its : list item) : Z :=
  match its with [] => 0 | it :: its => 1 + item_extra it + items_argc its end.

Definition wires (its : list item) : list ascii := concat (wire <$> its).

(** What ssh_buffer_pack_allocate_va reserves. *)
Definition reserve (it : item) : Z :=
  match it with IBignum _ => 64 | it => Z.of_nat (length (wire it)) end.

Definition reserves (its : list item) : Z := foldr (fun it n => reserve it + n) 0 its.

(** ** One letter *)
Definition packed (q : buffer) (new : list ascii) (rc : Z) (s' : bstate) : Prop :=
  (rc = SSH_OK /\ holds (q ++ (Some <$> new)) s') \/
  (rc = SSH_ERROR /\ (exists q', holds q' s') /\
    (may_fail oom \/ BUFFER_SIZE_MAX <= Z.of_nat (length q + length new))).

Lemma packed_of_grows q new rc n s' : (rc = 0 \/ rc = -1) ->
  grows oom (rc =? 0) n q (q ++ (Some <$> new)) s' -> n = Z.of_nat (length q + length new) -> packed q new rc s'.
Proof.
  intros [-> | ->] Hg Hn; cbn in Hg; [by left|right]. destruct Hg as [Hg Hf]. split; [done|]. split; [by exists q|].
  by rewrite Hn in Hf.
Qed.

Definition letter_post (q : buffer) (it : item) (ap : list arg) (e : Z * list (arg (bn := bn)) * Z) (s' : bstate) : Prop :=
  let '(rc, ap', extra) := e in ap' = ap /\ extra = item_extra it /\ packed q (wire it) rc s'.

Lemma pack_int_spec n z v q s it ap :
  holds q s -> (n <= 8)%nat -> le_bytes n v = be_bytes n z -> wire it = be_bytes n z -> item_extra it = 0 ->
  returns (rc ← add_int oom n v; mret (rc, ap, 0)) s (letter_post q it ap).
Proof.
  intros Hh Hn Hv Hw He. buf_steps. eapply returns_mono; [by apply add_int_spec|]. cbn beta. intros rc s' [Hrc Hg]. buf_steps.
  split; [done|]. split; [done|]. rewrite Hw, <- Hv. eapply packed_of_grows; [done|exact Hg|]. by rewrite length_le_bytes.
Qed.

Lemma fmap_wire_bytes bs : Some <$> wire_bytes bs = wire_string (Some <$> bs).
Proof. unfold wire_bytes, wire_string. by rewrite fmap_app, length_fmap. Qed.

Lemma length_wire_bytes bs : length (wire_bytes bs) = (4 + length bs)%nat.
Proof. unfold wire_bytes. by rewrite length_app, length_be_bytes. Qed.

Lemma add_string_packed q s str bs : holds q s -> is_string str (Some <$> bs) ->
  returns (ssh_buffer_add_ssh_string oom (Some str)) s (fun rc s' => packed q (wire_bytes bs) rc s').
Proof.
  intros Hh Hs. eapply returns_mono; [by apply add_ssh_string_spec|]. cbn beta. intros rc s' [Hrc Hg].
  rewrite <- fmap_wire_bytes in Hg. eapply packed_of_grows; [done|exact Hg|]. by rewrite length_fmap.
Qed.

Lemma add_bytes_packed q s bs : holds q s -> Z.of_nat (length bs) < 2 ^ 32 ->
  returns (ssh_buffer_add_data oom (Some (Some <$> bs)) (Z.of_nat (length bs))) s (fun rc s' => packed q bs rc s').
Proof.
  intros Hh Hl. eapply returns_mono; [apply (add_data_spec oom q s _ _ Hh); [lia|rewrite length_fmap; lia]|].
  cbn beta. intros rc s' [Hrc Hg]. rewrite Nat2Z.id, take_ge in Hg by (by rewrite length_fmap).
  eapply packed_of_grows; [done|exact Hg|]. lia.
Qed.

(** The string made for a number. *)
Lemma make_bignum_spec n q s : holds q s -> bn_num_bytes n <> 0 -> Z.of_nat (length (mpint n)) < STRING_SIZE_MAX ->
  returns (ssh_make_bignum_string oom n) s (fun r s' => holds q s' /\
    match r with Some str => is_string str (Some <$> mpint n) | None => may_fail oom end).
Proof.
  intros Hh Hn Hmax. unfold ssh_make_bignum_string. rewrite (proj2 (Z.eqb_neq _ _)) by done. buf_steps.
  pose proof (bn_bytes_length n) as Hbl. unfold mpint in *.
  set (padded := (bn_num_bits n mod 8 =? 0) && bn_is_bit_set n (bn_num_bits n - 1)) in *.
  set (pad := if padded then 1 else 0). rewrite length_app in Hmax.
  assert (holds q (BState (target s) (S (mcalls s)) (freed s))) as Hh1 by (destruct Hh as (b & ? & ?); by exists b).
  assert (0 <= pad <= 1 /\ Z.of_nat (length (if padded then [NUL] else [])) = pad) as [Hp Hpl]
    by (unfold pad; destruct padded; simpl; lia).
  destruct (oom (mcalls s)) eqn:Ho; cbn [negb].
  { assert (ssh_string_new false (bn_num_bytes n + pad) = None) as -> by (unfold ssh_string_new; by destruct (_ >? _)).
    buf_steps. split; [done|by exists (mcalls s)]. }
  rewrite string_new_ok by lia. cbn [s_data s_size]. set (len := bn_num_bytes n) in *. set (bytes := bn_bn2bin n) in *.
  set (head := if padded then [NUL] else []) in *.
  set (free := replicate (Z.to_nat (len + pad)) (@None ascii)) in *.
  assert (exists d0, (if negb (pad =? 0) then mem (blit (Some NUL :: free) 0 [Some NUL]) else mret (Some NUL :: free))
    = (mret d0 : M bstate buffer) /\ length d0 = S (Z.to_nat (len + pad)) /\
      take (Z.to_nat pad) d0 = Some <$> head) as (d0 & -> & Hd0 & Ht0).
  { exists (Some NUL :: free). unfold free, pad, head. destruct padded; cbn [Z.eqb negb]; simpl; rewrite length_replicate.
    - rewrite drop_0. done.
    - done. }
  buf_steps. eapply returns_mem; [apply blit_ok; rewrite length_fmap, Hd0; lia|]. buf_steps. split; [done|].
  rewrite Ht0, app_assoc, <- fmap_app.
  destruct (drop _ d0) as [|last [|? ?]] eqn:E; apply (f_equal length) in E;
    rewrite length_drop, length_fmap in E; cbn [length] in E; try lia.
  pose proof (is_string_intro (Some <$> head ++ bytes) last) as Hi. rewrite length_fmap, length_app in Hi.
  replace (Z.of_nat (length head + length bytes)) with (len + pad) in Hi by lia. apply Hi. lia.
Qed.

Lemma pack_cstring_spec q s cs ap : holds q s -> Z.of_nat (length cs) < 2 ^ 28 ->
  returns (rc ← ssh_buffer_add_u32 oom (htonl (wrap_u32 (Z.of_nat (length cs))));
           rc ← (if rc =? SSH_OK then ssh_buffer_add_data oom (Some (Some <$> cs)) (wrap_u32 (Z.of_nat (length cs)))
                 else mret rc);
           mret (rc, ap, 0)) s (letter_post q (ICString cs) ap).
Proof.
  intros Hh Hl. unfold wrap_u32. rewrite Z.mod_small by lia. buf_steps.
  eapply returns_mono; [apply add_int_spec; [exact Hh|lia]|]. cbn beta. intros rc s1 [Hrc Hg].
  unfold htonl in Hg. rewrite le_bytes_swap in Hg. buf_steps.
  assert (packed q (be_bytes 4 (Z.of_nat (length cs))) rc s1) as Hp.
  { eapply packed_of_grows; [done|exact Hg|by rewrite length_be_bytes]. }
  destruct Hp as [[-> Hh1]|(-> & Hh1 & Hf)]; cbn [Z.eqb SSH_OK SSH_ERROR]; buf_steps.
  - eapply returns_mono; [by apply add_bytes_packed; [exact Hh1|lia]|]. cbn beta. intros rc s2 Hp. buf_steps.
    split; [done|]. split; [done|]. cbn [wire]. unfold wire_bytes. destruct Hp as [[-> Hh2]|(-> & Hh2 & Hf)].
    + left. split; [done|]. by rewrite fmap_app, app_assoc.
    + right. split; [done|]. split; [done|]. destruct Hf as [|Hf]; [by left|right].
      rewrite length_app, length_fmap in Hf. rewrite length_app. lia.
  - split; [done|]. split; [done|]. right. split; [done|]. split; [done|]. destruct Hf as [|Hf]; [by left|right].
    cbn [wire]. unfold wire_bytes. rewrite length_app. lia.
Qed.

Lemma pack_letter_spec q s it ap : holds q s -> item_ok it -> Z.of_nat (length (wire it)) < 2 ^ 28 ->
  returns (pack_letter oom (item_letter it) (item_args it ++ ap)) s (letter_post q it ap).
Proof.
  intros Hh Hok Hl. destruct it; cbn [item_ok wire] in *;
    cbn [item_letter item_args app]; unfold pack_letter; cbn [Ascii.eqb Bool.eqb].
  - apply (pack_int_spec 1 z); [done|lia| |done|done]. rewrite Z.mod_small by lia.
    unfold be_bytes. by rewrite (rev_singleton (le_bytes 1 z)) by apply length_le_bytes.
  - apply (pack_int_spec 2 z); [done|lia| |done|done]. rewrite Z.mod_small by lia. apply le_bytes_swap.
  - apply (pack_int_spec 4 z); [done|lia|apply le_bytes_swap|done|done].
  - apply (pack_int_spec 8 z); [done|lia|apply le_bytes_swap|done|done].
  - buf_steps. eapply returns_mono; [by apply add_string_packed|]. cbn beta. intros rc s' Hp. by buf_steps.
  - rewrite length_wire_bytes in Hl. apply pack_cstring_spec; [done|lia].
  - unfold wrap_u32. rewrite Z.mod_small by lia. buf_steps.
    eapply returns_mono; [by apply add_bytes_packed; [exact Hh|lia]|]. cbn beta. intros rc s' Hp. by buf_steps.
  - rewrite length_wire_bytes in Hl. buf_steps.
    eapply returns_mono; [apply (make_bignum_spec n q s Hh Hok); unfold STRING_SIZE_MAX; lia|].
    cbn beta. intros [str|] s1 [Hh1 Hs]; buf_steps.
    + eapply returns_mono; [by apply add_string_packed|]. cbn beta. intros rc s2 Hp. buf_steps.
      split; [done|]. split; [done|]. destruct Hp as [[-> Hh2]|(-> & [q' Hh2] & Hf)].
      * left. split; [done|]. by apply holds_release.
      * right. split; [done|]. split; [exists q'; by apply holds_release|done].
    + split; [done|]. split; [done|]. right. split; [done|]. split; [by exists q|by left].
Qed.

(** ** The loops *)
Lemma items_argc_nonneg its : 0 <= items_argc its.
Proof. induction its as [|[] its IH]; cbn [items_argc item_extra] in *; lia. Qed.

Lemma length_wires it its : length (wires (it :: its)) = (length (wire it) + length (wires its))%nat.
Proof. unfold wires. rewrite fmap_cons. cbn [concat]. apply length_app. Qed.

Lemma pack_loop_spec its : forall q s argc count rc ap,
  holds q s -> Forall item_ok its -> argc = count + items_argc its -> Z.of_nat (length (wires its)) < 2 ^ 28 ->
  (its = [] -> rc = SSH_OK) ->
  returns (pack_loop oom (item_letter <$> its) argc count rc (concat (item_args <$> its) ++ ap)) s (fun r s' =>
    exists rc count', packed q (wires its) rc s' /\
      if rc =? SSH_OK then r = Some (rc, argc, ap) else exists ap', r = Some (rc, count', ap')).
Proof.
  induction its as [|it its IH]; intros q s argc count rc ap Hh Hok -> Hsz Hrc; cbn [fmap list_fmap pack_loop concat items_argc].
  { buf_steps. rewrite Hrc by done. exists SSH_OK, count. split; [left|by rewrite Z.add_0_r].
    unfold wires. cbn. by rewrite app_nil_r. }
  apply Forall_cons in Hok as [Hi Hok]. rewrite <- app_assoc. rewrite length_wires in Hsz.
  pose proof (items_argc_nonneg its). assert (0 <= item_extra it) by (destruct it; simpl; lia).
  destruct (Z.gtb_spec count (count + (1 + item_extra it + items_argc its))); [lia|]. buf_steps.
  eapply returns_mono; [apply (pack_letter_spec q s it _ Hh Hi); lia|]. cbn beta. intros [[rc1 ap1] extra] s1 (-> & -> & Hp).
  destruct Hp as [[-> Hh1]|(-> & Hh1 & Hf)]; cbn [Z.eqb SSH_OK SSH_ERROR negb]; buf_steps.
  - eapply returns_mono.
    { apply (IH _ s1 _ (count + item_extra it + 1) SSH_OK ap Hh1 Hok); [lia|lia|done]. }
    cbn beta. intros r s2 (rc2 & count2 & Hp & Hr). exists rc2, count2. split.
    + destruct Hp as [[-> Hh2]|(-> & Hh2 & Hf)]; [left|right]; (split; [done|]).
      * unfold wires in *. rewrite fmap_cons. cbn [concat]. by rewrite fmap_app, app_assoc.
      * split; [done|]. destruct Hf as [|Hf]; [by left|right]. rewrite length_app, length_fmap in Hf.
        rewrite length_wires. lia.
    + done.
  - exists SSH_ERROR, (count + item_extra it). split; [|cbn; eauto]. right. split; [done|]. split; [done|].
    destruct Hf as [|Hf]; [by left|right]. rewrite length_wires. lia.
Qed.

Lemma allocate_letter_spec it ap s : item_ok it ->
  allocate_letter (item_letter it) (item_args it ++ ap) s = Ret (Some (reserve it, ap, item_extra it)) s.
Proof.
  intros Hok. destruct it; cbn [item_letter item_args app reserve wire item_extra]; unfold allocate_letter;
    cbn [Ascii.eqb Bool.eqb]; rewrite ?length_be_bytes, ?length_wire_bytes; try done.
  - cbn [item_ok] in Hok. rewrite (is_string_len _ _ Hok), length_fmap. unfold mret, M_ret. do 4 f_equal. lia.
  - unfold mret, M_ret. do 4 f_equal. lia.
Qed.

Lemma reserve_nonneg it : 0 <= reserve it.
Proof. destruct it; simpl; lia. Qed.

Lemma reserves_nonneg its : 0 <= reserves its.
Proof. induction its as [|it its IH]; simpl; [lia|]. pose proof (reserve_nonneg it). fold (reserves its). lia. Qed.

Lemma allocate_loop_spec its : forall argc count needed ap s,
  Forall item_ok its -> argc = count + items_argc its -> 0 <= needed -> needed + reserves its < 2 ^ 28 ->
  allocate_loop (item_letter <$> its) argc count needed (concat (item_args <$> its) ++ ap) s =
    Ret (Some (SSH_OK, argc, needed + reserves its, ap)) s.
Proof.
  induction its as [|it its IH]; intros argc count needed ap s Hok -> Hn Hsz;
    cbn [fmap list_fmap allocate_loop concat items_argc reserves foldr].
  { by rewrite !Z.add_0_r. }
  apply Forall_cons in Hok as [Hi Hok]. fold (reserves its). cbn [reserves foldr] in Hsz. fold (reserves its) in Hsz.
  pose proof (items_argc_nonneg its). assert (0 <= item_extra it) by (destruct it; simpl; lia).
  pose proof (reserve_nonneg it). pose proof (reserves_nonneg its).
  destruct (Z.gtb_spec count (count + (1 + item_extra it + items_argc its))); [lia|].
  rewrite <- app_assoc. erewrite bind_ret_eq by by apply allocate_letter_spec.
  cbn beta iota. rewrite wrap_u64_small by lia. rewrite IH; [|done|lia|lia|lia]. by rewrite <- (Z.add_assoc needed).
Qed.

(** ** The whole call *)
Definition pack_args (its : list item) : list (arg (bn := bn)) :=
  concat (item_args <$> its) ++ [AInt SSH_BUFFER_PACK_END].

Lemma pack_canary_ok s : check_canary (bn := bn) [AInt SSH_BUFFER_PACK_END] s = Ret tt s.
Proof. done. Qed.

Definition small_items (its : list item) : Prop :=
  its <> [] /\ items_argc its <= 256 /\ Forall item_ok its /\
  Z.of_nat (length (wires its)) < BUFFER_SIZE_MAX /\ reserves its < BUFFER_SIZE_MAX.

Lemma pack_spec q its s : holds q s -> small_items its ->
  returns (_ssh_buffer_pack oom (item_letter <$> its) (items_argc its) (pack_args its)) s
    (packed q (wires its)).
Proof.
  intros Hh (Hne & Hargc & Hok & Hsz & Hres). unfold BUFFER_SIZE_MAX in *. pose proof (reserves_nonneg its) as Hr0.
  unfold _ssh_buffer_pack. destruct (Z.gtb_spec (items_argc its) 256); [lia|].
  unfold ssh_buffer_pack_allocate_va, pack_args. buf_steps. unfold returns at 1.
  rewrite allocate_loop_spec by (done || lia). rewrite Z.eqb_refl. cbn [negb Z.eqb SSH_OK SSH_ERROR]. buf_steps.
  unfold returns at 1. rewrite pack_canary_ok. buf_steps. unfold wrap_u32.
  rewrite Z.add_0_l, Z.mod_small by lia.
  eapply returns_mono; [apply (allocate_size_spec oom q s _ Hh); lia|]. cbn beta.
  intros rc s1 [[-> | ->] Hg]; cbn [Z.eqb negb grows SSH_OK SSH_ERROR] in *; buf_steps;
    cbn [Z.eqb negb SSH_OK SSH_ERROR]; buf_steps.
  2: { destruct Hg as [Hg Hf]. right. split; [done|]. split; [by exists q|]. destruct Hf as [|Hf]; [by left|].
       unfold BUFFER_SIZE_MAX in Hf. lia. }
  unfold ssh_buffer_pack_va. destruct (Z.gtb_spec (items_argc its) 256); [lia|]. buf_steps.
  eapply returns_mono; [apply (pack_loop_spec its q s1 (items_argc its) 0 SSH_ERROR); [exact Hg|done|lia|lia|done]|].
  cbn beta. intros r s2 (rc & count & Hp & Hr). destruct (Z.eqb_spec rc SSH_OK) as [-> |Hrc].
  - subst r. rewrite Z.eqb_refl. cbn [negb Z.eqb SSH_OK SSH_ERROR]. buf_steps. unfold returns at 1.
    rewrite pack_canary_ok. by buf_steps.
  - destruct Hr as [ap' ->]. destruct Hp as [[-> _]|(-> & Hq & Hf)]; [done|].
    destruct (negb (items_argc its =? count)); cbn [negb Z.eqb SSH_OK SSH_ERROR Pos.eqb]; buf_steps; by right.
Qed.

(** ** Unpacking what was packed *)
Definition item_dest (i : nat) (it : item) : dest :=
  match it with
  | IByte _ => DByte i | IWord _ => DWord i | IDword _ => DDword i | IQword _ => DQword i
  | IString _ _ => DString i | ICString _ => DCString i
  | IData bs => DData (Z.of_nat (length bs)) i
  | IBignum _ => DBignum i
  end.

Definition item_field (it : item) : field (bn := bn) :=
  match it with
  | IByte z | IWord z | IDword z | IQword z => FInt z
  | IString bs _ | ICString bs | IData bs => FBytes bs
  | IBignum n => FNum n
  end.

(** One object per item, numbered from [i]. *)
Fixpoint item_dests (i : nat) (its : list item) : list dest :=
  match its with [] => [] | it :: its => item_dest i it :: item_dests (S i) its end.

Lemma take_int_be n z rest : 0 <= z < 256 ^ Z.of_nat n -> take_int n (be_bytes n z ++ rest) = Some (z, rest).
Proof.
  intros Hz. unfold take_int. rewrite length_app, length_be_bytes, (proj2 (Nat.leb_le _ _)) by lia.
  rewrite <- (length_be_bytes n z) at 1 3. rewrite take_app_length, drop_app_length. unfold be_bytes.
  by rewrite rev_involutive, le_val_bytes.
Qed.

Lemma take_string_wire bs rest : Z.of_nat (length bs) < 2 ^ 32 ->
  take_string (wire_bytes bs ++ rest) = Some (bs, rest).
Proof.
  intros Hl. unfold take_string, wire_bytes. rewrite <- app_assoc, take_int_be by (simpl; lia). cbn [mbind option_bind].
  rewrite length_app. destruct (Z.leb_spec (Z.of_nat (length bs)) (Z.of_nat (length bs + length rest))); [|lia].
  by rewrite Nat2Z.id, take_app_length, drop_app_length.
Qed.

Lemma bin2bn_mpint n : bn_bin2bn (mpint n) = Some n.
Proof. unfold mpint. case_match; cbn [app]; rewrite ?bn_bin2bn_zero; apply bn_bin2bn_bn2bin. Qed.

(** Data of a given length must not be the whole content. *)
Definition data_shorter (max_len : Z) (it : item) : Prop :=
  match it with IData bs => Z.of_nat (length bs) < max_len | _ => True end.

Lemma take_field_wire max_len i it rest : item_ok it -> data_shorter max_len it -> Z.of_nat (length (wire it)) < 2 ^ 32 ->
  take_field max_len (item_dest i it) (wire it ++ rest) = Some (item_field it, rest).
Proof.
  intros Hok Hd Hl. destruct it; cbn [item_ok data_shorter wire item_dest take_field item_field] in *;
    rewrite ?length_wire_bytes in Hl; try (rewrite take_int_be by (simpl; lia); done).
  - by rewrite take_string_wire by lia.
  - by rewrite take_string_wire by lia.
  - rewrite length_app. destruct (Z.leb_spec (Z.of_nat (length bs)) (Z.of_nat (length bs + length rest))); [|lia].
    destruct (Z.ltb_spec (Z.of_nat (length bs)) max_len); [|lia]. cbn [andb orb].
    by rewrite Nat2Z.id, take_app_length, drop_app_length.
  - rewrite take_string_wire by lia. cbn [mbind option_bind]. by rewrite bin2bn_mpint.
Qed.

Lemma take_fields_wires max_len its : forall i rest, Forall item_ok its -> Forall (data_shorter max_len) its ->
  Z.of_nat (length (wires its)) < 2 ^ 32 ->
  take_fields max_len (item_dests i its) (wires its ++ rest) = Some (item_field <$> its, rest).
Proof.
  induction its as [|it its IH]; intros i rest Hok Hd Hl; [done|].
  apply Forall_cons in Hok as [Hok1 Hok]. apply Forall_cons in Hd as [Hd1 Hd]. rewrite length_wires in Hl.
  cbn [item_dests take_fields]. replace (wires (it :: its) ++ rest) with (wire it ++ wires its ++ rest)
    by (unfold wires; rewrite fmap_cons; cbn [concat]; by rewrite app_assoc).
  rewrite take_field_wire by (done || lia). cbn [mbind option_bind]. by rewrite IH by (done || lia).
Qed.

Lemma item_dests_letters i its : dest_letter <$> item_dests i its = item_letter <$> its.
Proof. revert i. induction its as [|it its IH]; intros i; [done|]. cbn. rewrite IH. by destruct it. Qed.

Lemma item_dests_argc i its : dests_argc (item_dests i its) = items_argc its.
Proof. revert i. induction its as [|it its IH]; intros i; [done|]. cbn. rewrite IH. by destruct it. Qed.

Lemma item_dests_objects i its : dest_object <$> item_dests i its = seq i (length its).
Proof. revert i. induction its as [|it its IH]; intros i; [done|]. cbn. rewrite IH. by destruct it. Qed.

Lemma item_dests_ok i its : Z.of_nat (length (wires its)) < 2 ^ 32 -> Forall dest_ok (item_dests i its).
Proof.
  revert i. induction its as [|it its IH]; intros i Hl; [by apply Forall_nil|]. rewrite length_wires in Hl.
  apply Forall_cons. split; [|apply IH; lia]. destruct it; cbn; try done. cbn [wire] in Hl. lia.
Qed.
End Round.

(** ** Numbers in the witnesses *)
#[export] Instance N_bignum : Bignum N := {
  bn_num_bytes n := (Z.of_N (N.size n) + 7) / 8;
  bn_num_bits n := Z.of_N (N.size n);
  bn_is_bit_set n i := Z.testbit (Z.of_N n) i;
  bn_bn2bin n := be_bytes (Z.to_nat ((Z.of_N (N.size n) + 7) / 8)) (Z.of_N n);
  bn_bin2bn bs := Some (Z.to_N (le_val (rev bs))) }.

Lemma le_val_app_zero bs : le_val (bs ++ [NUL]) = le_val bs.
Proof. induction bs as [|b bs IH]; [done|]. cbn [app le_val]. by rewrite IH. Qed.

Lemma size_bytes n : 0 <= Z.of_N n < 256 ^ Z.of_nat (Z.to_nat ((Z.of_N (N.size n) + 7) / 8)).
Proof.
  split; [lia|]. pose proof (N.size_gt n) as Hs.
  assert (Z.of_N n < 2 ^ Z.of_N (N.size n)) as Hz.
  { rewrite <- (N2Z.inj_pow 2). lia. }
  rewrite Z2Nat.id by (apply Z.div_pos; lia). change 256 with (2 ^ 8). rewrite <- Z.pow_mul_r by (try apply Z.div_pos; lia).
  eapply Z.lt_le_trans; [exact Hz|]. apply Z.pow_le_mono_r; [lia|].
  pose proof (Z.div_mod (Z.of_N (N.size n) + 7) 8 ltac:(lia)).
  pose proof (Z.mod_pos_bound (Z.of_N (N.size n) + 7) 8 ltac:(lia)). lia.
Qed.

#[export] Instance N_bignum_laws : BignumLaws N.
Proof.
  split; cbn.
  - intros n. rewrite length_be_bytes. apply Z2Nat.id, Z.div_pos; lia.
  - intros n. unfold be_bytes. rewrite rev_involutive, le_val_bytes by apply size_bytes. by rewrite N2Z.id.
  - intros bs. by rewrite le_val_app_zero.
Qed.

(** ** The theorems *)

(** C29. ssh_buffer_unpack on any content, hostile ones included. For every format of
    the letters b w d q B S s P with arguments of the right types (at most 256, to
    distinct objects), whatever allocations fail, the call neither leaves its
    memory nor aborts, and it ends in one of two ways: SSH_OK, with every object
    holding the field a reference parser of the content gives and the fields removed
    from the buffer; or SSH_ERROR, only when the parser rejects the content or an
    allocation can fail, with every pointer object NULL or as it was before the call,
    so that nothing is leaked or freed twice. *)
Theorem unpack_correct {bn : Type} `{Bignum bn} (oom : nat -> bool) (ds : list dest) (bs : list ascii)
    (o : gmap nat (uval (bn := bn))) (s : bstate) :
  holds (Some <$> bs) s -> Forall dest_ok ds -> NoDup (dest_object <$> ds) -> ds <> [] -> dests_argc ds <= 256 ->
  returns (_ssh_buffer_unpack oom (dest_letter <$> ds) (dests_argc ds) (unpack_args ds) o) s (fun r s' =>
    (exists fs rest, take_fields (Z.of_nat (length bs)) ds bs = Some (fs, rest) /\ r.1 = SSH_OK /\
       Forall2 (obj_field r.2) ds fs /\ holds (Some <$> rest) s') \/
    ((take_fields (bn := bn) (Z.of_nat (length bs)) ds bs = None \/ may_fail oom) /\ r.1 = SSH_ERROR /\
       Forall (unchanged_or_cleared o r.2) ds /\ exists rest, holds (Some <$> rest) s')).
Proof. apply unpack_va_spec. Qed.

Definition hostile : list ascii := be_bytes 2 7 ++ be_bytes 4 0xffffffff ++ lit "ab".

Definition state_of (bs : list ascii) : bstate :=
  BState (Some (SshBuffer true (Z.of_nat (length bs)) (Z.of_nat (length bs)) 0 (Some <$> bs))) 0 [].

Lemma holds_state_of bs : Z.of_nat (length bs) <= BUFFER_SIZE_MAX -> holds (Some <$> bs) (state_of bs).
Proof.
  intros Hl. eexists. split; [reflexivity|]. pose proof (layout_wf true [] (Some <$> bs) []) as Hw. cbn zeta in Hw.
  rewrite app_nil_l, app_nil_r, length_fmap, Nat.add_0_r in Hw. by apply Hw.
Qed.

Lemma unpack_correct_witness :
  returns (_ssh_buffer_unpack (bn := N) (fun _ => false) (lit "ws") 2 (unpack_args [DWord 0; DCString 1]) ∅)
    (state_of hostile) (fun r s' =>
    (exists fs rest, take_fields 8 [DWord 0; DCString 1] hostile = Some (fs, rest) /\ r.1 = SSH_OK /\
       Forall2 (obj_field r.2) [DWord 0; DCString 1] fs /\ holds (Some <$> rest) s') \/
    ((take_fields (bn := N) 8 [DWord 0; DCString 1] hostile = None \/ may_fail (fun _ => false)) /\ r.1 = SSH_ERROR /\
       Forall (unchanged_or_cleared ∅ r.2) [DWord 0; DCString 1] /\ exists rest, holds (Some <$> rest) s')).
Proof.
  apply (unpack_correct (fun _ => false) [DWord 0; DCString 1] hostile ∅ (state_of hostile)).
  - apply holds_state_of. unfold BUFFER_SIZE_MAX. cbn. lia.
  - by repeat constructor.
  - exact (NoDup_seq 0 2).
  - done.
  - cbn. lia.
Defined.

(** C30. Round trip: when no allocation fails, packing a list of values (integers of
    8, 16, 32 and 64 bits, strings, C strings, raw data, numbers) into an empty buffer
    and unpacking it with the same format succeeds, gives back every value and leaves
    the buffer empty; raw data must be shorter than the whole packet. *)
Theorem pack_unpack_roundtrip {bn : Type} `{BignumLaws bn} (its : list item) (s : bstate)
    (o : gmap nat (uval (bn := bn))) :
  holds [] s -> small_items its -> Forall (data_shorter (Z.of_nat (length (wires its)))) its ->
  returns (rc ← _ssh_buffer_pack (fun _ => false) (item_letter <$> its) (items_argc its) (pack_args its);
           r ← _ssh_buffer_unpack (fun _ => false) (item_letter <$> its) (items_argc its) (unpack_args (item_dests 0 its)) o;
           mret (rc, r)) s (fun r s' =>
    r.1 = SSH_OK /\ r.2.1 = SSH_OK /\ Forall2 (obj_field r.2.2) (item_dests 0 its) (item_field <$> its) /\ holds [] s').
Proof.
  intros Hh Hsm Hd. pose proof Hsm as (Hne & Hargc & Hok & Hsz & _). unfold BUFFER_SIZE_MAX in Hsz. buf_steps.
  eapply returns_mono; [by apply pack_spec|]. cbn beta. intros rc s1 [[-> Hh1]|(_ & _ & [[? ?]|Hf])]; [|done|].
  2: { cbn [length Nat.add] in Hf. unfold BUFFER_SIZE_MAX in Hf. lia. }
  rewrite app_nil_l in Hh1. rewrite <- (item_dests_letters 0), <- (item_dests_argc 0). buf_steps.
  eapply returns_mono.
  { apply (unpack_va_spec (fun _ => false) (item_dests 0 its) _ o s1 Hh1).
    - apply item_dests_ok. lia.
    - rewrite item_dests_objects. apply NoDup_seq.
    - by destruct its.
    - by rewrite item_dests_argc. }
  cbn beta. pose proof (take_fields_wires (Z.of_nat (length (wires its))) its 0 [] Hok Hd) as Ht.
  rewrite app_nil_r in Ht. rewrite Ht by lia. intros [rc o'] s2.
  intros [(fs & rest & [= <- <-] & Hrc & Hfs & Hh2)|([?|[? ?]] & _)]; [|done|done]. by buf_steps.
Qed.

Definition sample_string : ssh_string := SshString (htonl 2) ((Some <$> lit "hi") ++ [None]).
Definition sample_items : list (item (bn := N)) :=
  [IByte 80; IWord 8080; IDword 0xdeadbeef; IQword (2 ^ 63 + 5); IString (lit "hi") sample_string;
   ICString (lit "ssh-rsa"); IData (lit "raw"); IBignum 0x80ff%N].

Lemma pack_unpack_roundtrip_witness :
  returns (rc ← _ssh_buffer_pack (bn := N) (fun _ => false) (lit "bwdqSsPB") 9 (pack_args sample_items);
           r ← _ssh_buffer_unpack (bn := N) (fun _ => false) (lit "bwdqSsPB") 9 (unpack_args (item_dests 0 sample_items)) ∅;
           mret (rc, r)) (state_of []) (fun r s' =>
    r.1 = SSH_OK /\ r.2.1 = SSH_OK /\
    Forall2 (obj_field r.2.2) (item_dests 0 sample_items) (item_field <$> sample_items) /\ holds [] s').
Proof.
  apply (pack_unpack_roundtrip sample_items (state_of []) ∅).
  - apply (holds_state_of []). unfold BUFFER_SIZE_MAX. cbn. lia.
  - split; [done|]. split; [cbn; lia|]. split.
    + repeat apply Forall_cons_2; cbn [item_ok]; try lia; try done; try apply Forall_nil_2.
      assert (Z.of_nat (length (Some <$> lit "hi")) <= STRING_SIZE_MAX) as Hl by (vm_compute; discriminate).
      exact (is_string_intro (Some <$> lit "hi") None Hl).
    + split; vm_compute; reflexivity.
  - repeat apply Forall_cons_2; try done; apply Forall_nil_2.
Defined.

(** The limit of the round trip: raw data that is the whole packet. Whatever
    non-empty data is packed alone with the letter P, unpacking it with the letter P
    and its exact length is refused with SSH_ERROR. *)
Theorem unpack_whole_data {bn : Type} `{BignumLaws bn} (bs : list ascii) (s : bstate) (o : gmap nat (uval (bn := bn))) :
  holds [] s -> bs <> [] -> Z.of_nat (length bs) < BUFFER_SIZE_MAX ->
  returns (rc ← _ssh_buffer_pack (bn := bn) (fun _ => false) (lit "P") 2
                  [ALong (Z.of_nat (length bs)); AData (Some (Some <$> bs)); AInt SSH_BUFFER_PACK_END];
           r ← _ssh_buffer_unpack (fun _ => false) (lit "P") 2
                  [ULen (Z.of_nat (length bs)); UData 0; UCanary SSH_BUFFER_PACK_END] o;
           mret (rc, r.1)) s (fun r _ => r = (SSH_OK, SSH_ERROR)).
Proof.
  intros Hh Hne Hl. pose proof Hl as Hl'. unfold BUFFER_SIZE_MAX in Hl'. buf_steps.
  assert (small_items [IData bs]) as Hsm.
  { split; [done|]. split; [cbn; lia|]. split; [by repeat constructor|].
    unfold wires. cbn. rewrite app_nil_r. split; lia. }
  eapply returns_mono; [by apply (pack_spec (bn := bn) _ [] [IData bs])|]. cbn beta.
  unfold packed, wires. cbn [fmap list_fmap concat wire]. rewrite app_nil_r, app_nil_l.
  intros rc s1 [[-> Hh1]|(_ & _ & [[? ?]|Hf])]; [|done|]. 2: { cbn [length Nat.add] in Hf. lia. }
  buf_steps. eapply returns_mono.
  { apply (unpack_va_spec (bn := bn) (fun _ => false) [DData (Z.of_nat (length bs)) 0] bs o s1 Hh1); [|apply NoDup_singleton|done|cbn; lia].
    apply Forall_singleton. cbn. lia. }
  cbn beta. assert (take_fields (bn := bn) (Z.of_nat (length bs)) [DData (Z.of_nat (length bs)) 0] bs = None) as Ht.
  { cbn [take_fields take_field]. rewrite Z.ltb_irrefl, (proj2 (Z.eqb_neq _ _)) by (destruct bs; [done|simpl; lia]).
    by rewrite andb_false_r. }
  rewrite Ht. intros [rc o'] s2 [(? & ? & ? & _)|(_ & Hrc & _)]; [done|]. buf_steps. by cbn in Hrc |- *; subst.
Qed.

Lemma unpack_whole_data_witness :
  returns (rc ← _ssh_buffer_pack (bn := N) (fun _ => false) (lit "P") 2
                  [ALong 3; AData (Some (Some <$> lit "raw")); AInt SSH_BUFFER_PACK_END];
           r ← _ssh_buffer_unpack (bn := N) (fun _ => false) (lit "P") 2 [ULen 3; UData 0; UCanary SSH_BUFFER_PACK_END] ∅;
           mret (rc, r.1)) (state_of []) (fun r _ => r = (SSH_OK, SSH_ERROR)).
Proof.
  apply (unpack_whole_data (lit "raw") (state_of []) ∅);
    [apply (holds_state_of []); unfold BUFFER_SIZE_MAX; cbn; lia|done|unfold BUFFER_SIZE_MAX; cbn; lia].
Defined.
