(* ===== verification/SshBase64.v ===== *)
(** * libssh/src/base64.c: base64 encoding and decoding

    The decoder fills a libssh buffer; the encoder writes a block of its own. *)

From S2P Require Import Prelude Utils Bytes SshString SshBuffer.

Definition alphabet : list ascii :=
  lit "ABCDEFGHIJKLMNOPQRSTUVWXYZabcdefghijklmnopqrstuvwxyz0123456789+/".

(** strchr(alphabet, c) - alphabet: the terminating NUL is part of the string. *)
Fixpoint index_of (c : ascii) (s : list ascii) : option nat :=
  match s with
  | [] => None
  | x :: s => if Ascii.eqb x c then Some O else S <$> index_of c s
  end.

Definition strchr_alphabet (c : ascii) : option Z := Z.of_nat <$> index_of c (alphabet ++ [NUL]).

Definition SET_A (n i : Z) : Z := Z.lor n (Z.shiftl (Z.land i 63) 18).
Definition SET_B (n i : Z) : Z := Z.lor n (Z.shiftl (Z.land i 63) 12).
Definition SET_C (n i : Z) : Z := Z.lor n (Z.shiftl (Z.land i 63) 6).
Definition SET_D (n i : Z) : Z := Z.lor n (Z.land i 63).

Definition GET_A (n : Z) : Z := Z.shiftr (Z.land n 0xff0000) 16.
Definition GET_B (n : Z) : Z := Z.shiftr (Z.land n 0xff00) 8.
Definition GET_C (n : Z) : Z := Z.land n 0xff.

(** BLOCK(letter, n): [None] is the return of -1. *)
Definition BLOCK (set : Z -> Z -> Z) (source : list ascii) (n : nat) (block : Z) : option Z :=
  i ← strchr_alphabet (char_at source n);
  Some (set block i).

(** [source] is the C string at the pointer. *)
Definition to_block4 (source : list ascii) (num : Z) : option Z :=
  let block := 0 in
  if num <? 1 then Some block
  else
    block ← BLOCK SET_A source 0 block;
    block ← BLOCK SET_B source 1 block;
    if num <? 2 then Some block
    else
      block ← BLOCK SET_C source 2 block;
      if num <? 3 then Some block
      else BLOCK SET_D source 3 block.

Definition _base64_to_bin (source : list ascii) (num : Z) : option (list ascii) :=
  block ← to_block4 source num;
  Some [chr (GET_A block); chr (GET_B block); chr (GET_C block)].

(** The number of equal signs, and the string with NULs in their place. *)
Fixpoint get_equals (string : list ascii) : Z * list ascii :=
  match string with
  | [] => (0, [])
  | c :: string =>
      let '(num, string) := get_equals string in
      if Ascii.eqb c "="%char then (num + 1, NUL :: string) else (num, c :: string)
  end.

Section Decode.
Context (oom : nat -> bool).

(** Decode the characters at the pointer to [num] bytes and add them; whether it
    succeeded. *)
Definition decode_block (ptr : list ascii) (num : Z) : M bstate bool :=
  match _base64_to_bin ptr num with
  | None => mret false
  | Some block =>
      rc ← ssh_buffer_add_data oom (Some (Some <$> block)) num;
      mret (negb (rc <? 0))
  end.

(** while (len > 4) *)
Fixpoint decode_loop (fuel : nat) (ptr : list ascii) (len : Z) : M bstate (option (list ascii * Z)) :=
  match fuel with
  | O => no_fuel
  | S fuel =>
      if len >? 4 then
        ok ← decode_block ptr 3;
        if negb (ok : bool) then mret None
        else decode_loop fuel (drop 4 ptr) (len - 4)
      else mret (Some (ptr, len))
  end.

(** The switch on the number of characters left. *)
Definition decode_last (ptr : list ascii) (len equals : Z) : M bstate bool :=
  if len =? 4 then if negb (equals =? 0) then mret false else decode_block ptr 3
  else if len =? 2 then if negb (equals =? 2) then mret false else decode_block ptr 1
  else if len =? 3 then if negb (equals =? 1) then mret false else decode_block ptr 2
  else mret false.

(** Whether the buffer returned is not NULL; it is the target of the state. *)
Definition base64_to_bin (source : list ascii) : M bstate bool :=
  ok ← malloc_ok oom;
  if negb (ok : bool) then _ ← clear; mret false
  else
    let '(equals, base64) := get_equals source in
    let copy := (Some <$> base64) ++ [Some NUL] in
    if equals >? 2 then _ ← release copy; _ ← clear; mret false
    else
      ok ← ssh_buffer_new oom;
      if negb (ok : bool) then _ ← release copy; mret false
      else
        _ ← ssh_buffer_set_secure;
        let ptr := cstr base64 in
        r ← decode_loop (S (length ptr)) ptr (Z.of_nat (length ptr));
        ok ← match r with
             | None => mret false
             | Some (ptr, len) => decode_last ptr len equals
             end;
        _ ← release copy;
        if negb (ok : bool) then _ ← ssh_buffer_free; mret false else mret true.
End Decode.

(** ** Encoding *)
Definition letter (i : Z) : ascii := nth (Z.to_nat i) alphabet NUL.

Definition BITS (n : Z) : Z := Z.shiftl 1 n - 1.

(** The four characters written for the first [len] bytes of the source. *)
Definition _bin_to_base64 (source : list ascii) (len : Z) : list ascii :=
  let src i := ord (char_at source i) in
  if len =? 1 then
    [letter (Z.shiftr (src 0%nat) 2); letter (Z.shiftl (Z.land (src 0%nat) (BITS 2)) 4); "="%char; "="%char]
  else if len =? 2 then
    [letter (Z.shiftr (src 0%nat) 2);
     letter (Z.lor (Z.shiftr (src 1%nat) 4) (Z.shiftl (Z.land (src 0%nat) (BITS 2)) 4));
     letter (Z.shiftl (Z.land (src 1%nat) (BITS 4)) 2); "="%char]
  else if len =? 3 then
    [letter (Z.shiftr (src 0%nat) 2);
     letter (Z.lor (Z.shiftr (src 1%nat) 4) (Z.shiftl (Z.land (src 0%nat) (BITS 2)) 4));
     letter (Z.lor (Z.shiftr (src 2%nat) 6) (Z.shiftl (Z.land (src 1%nat) (BITS 4)) 2));
     letter (Z.land (src 2%nat) (BITS 6))]
  else [].

(** The loop, on the block and the offset of ptr in it; [None] outside the block. *)
Fixpoint encode_loop (fuel : nat) (base64 : buffer) (ptr : nat) (source : list ascii) (len : Z) : option (option (buffer * nat)) :=
  match fuel with
  | O => None
  | S fuel =>
      if 0 <? len then
        match blit base64 ptr (Some <$> _bin_to_base64 source (if len >? 3 then 3 else len)) with
        | None => Some None
        | Some base64 =>
            if len <? 3 then Some (Some (base64, (ptr + 4)%nat))
            else encode_loop fuel base64 (ptr + 4) (drop 3 source) (len - 3)
        end
      else Some (Some (base64, ptr))
  end.

(** [Some None] when malloc fails, [None] for a write outside the block. *)
Definition bin_to_base64 (ok : bool) (source : list ascii) (len : Z) : option (option buffer) :=
  let flen := wrap_u64 (len + (3 - len mod 3)) in
  let flen := wrap_u64 (wrap_u64 (4 * flen) / 3 + 1) in
  if negb ok then Some None
  else
    '(base64, ptr) ← mjoin (encode_loop (S (Z.to_nat len)) (replicate (Z.to_nat flen) None) 0 source len);
    base64 ← blit base64 ptr [Some NUL];
    Some (Some base64).
