(* ===== verification/SshBase64Thms.v ===== *)
(** * Base64: the encoder against RFC 4648, and the round trip *)

From S2P Require Import Prelude Utils Bytes SshString SshBuffer SshQueue SshQueueThms SshBase64.

(** ** Bits *)
Lemma lor_add x y k : 0 <= k -> 0 <= x < 2 ^ k -> Z.lor x (y * 2 ^ k) = x + y * 2 ^ k.
Proof.
  intros Hk Hx. assert (Z.land x (y * 2 ^ k) = 0) as Hl.
  { rewrite <- (Z.mod_small x (2 ^ k)) by done. rewrite <- Z.land_ones, <- Z.shiftl_mul_pow2 by lia.
    apply Z.bits_inj'. intros n Hn. rewrite !Z.land_spec, Z.bits_0. destruct (Z.lt_ge_cases n k) as [Hlt|Hge].
    - by rewrite Z.shiftl_spec_low, andb_false_r by lia.
    - by rewrite Z.ones_spec_high, andb_false_r by lia. }
  by rewrite <- Z.lxor_lor, <- Z.add_nocarry_lxor.
Qed.

Lemma land_mod x k : 0 <= k -> Z.land x (Z.shiftl 1 k - 1) = x mod 2 ^ k.
Proof. intros Hk. rewrite Z.shiftl_1_l, <- Z.land_ones by lia. by rewrite Z.ones_equiv. Qed.

Lemma land63 x : Z.land x 63 = x mod 64.
Proof. exact (land_mod x 6 ltac:(lia)). Qed.

Lemma get_a_div n : GET_A n = (n / 65536) mod 256.
Proof.
  unfold GET_A. rewrite Z.shiftr_land, Z.shiftr_div_pow2 by lia. change (Z.shiftr 0xff0000 16) with (Z.shiftl 1 8 - 1).
  by rewrite land_mod by lia.
Qed.

Lemma get_b_div n : GET_B n = (n / 256) mod 256.
Proof.
  unfold GET_B. rewrite Z.shiftr_land, Z.shiftr_div_pow2 by lia. change (Z.shiftr 0xff00 8) with (Z.shiftl 1 8 - 1).
  by rewrite land_mod by lia.
Qed.

Lemma get_c_div n : GET_C n = n mod 256.
Proof. exact (land_mod n 8 ltac:(lia)). Qed.

(** Four sextets in a block. *)
Lemma set_ab i j : 0 <= i < 64 -> 0 <= j < 64 -> SET_B (SET_A 0 i) j = i * 2 ^ 18 + j * 2 ^ 12.
Proof.
  intros Hi Hj. unfold SET_A, SET_B. rewrite Z.lor_0_l, !land63, !Z.mod_small, !Z.shiftl_mul_pow2 by lia.
  rewrite Z.lor_comm, lor_add by lia. lia.
Qed.

Lemma set_c n k : 0 <= k < 64 -> SET_C (n * 2 ^ 12) k = n * 2 ^ 12 + k * 2 ^ 6.
Proof.
  intros Hk. unfold SET_C. rewrite land63, Z.mod_small, Z.shiftl_mul_pow2 by lia. rewrite Z.lor_comm, lor_add by lia. lia.
Qed.

Lemma set_d n l : 0 <= l < 64 -> SET_D (n * 2 ^ 6) l = n * 2 ^ 6 + l.
Proof. intros Hl. unfold SET_D. rewrite land63, Z.mod_small by lia. rewrite Z.lor_comm, lor_add by lia. lia. Qed.

(** ** Letters *)
Lemma sextet_cases i : 0 <= i < 64 -> i ∈ (Z.of_nat <$> seq 0 64).
Proof.
  intros Hi. apply list_elem_of_fmap. exists (Z.to_nat i). split; [lia|]. apply elem_of_seq. lia.
Qed.

(** What holds of each letter of the alphabet, by enumeration. *)
Definition letter_check (i : Z) : bool :=
  bool_decide (strchr_alphabet (letter i) = Some i) &&
  negb (Ascii.eqb (letter i) "="%char) && negb (Ascii.eqb (letter i) NUL).

Lemma letters_check : forallb letter_check (Z.of_nat <$> seq 0 64) = true.
Proof. vm_compute. reflexivity. Qed.

Lemma letter_spec i : 0 <= i < 64 ->
  strchr_alphabet (letter i) = Some i /\ Ascii.eqb (letter i) "="%char = false /\ Ascii.eqb (letter i) NUL = false.
Proof.
  intros Hi. pose proof letters_check as H. rewrite forallb_forall in H.
  specialize (H i). unfold letter_check in H. rewrite !andb_true_iff, bool_decide_eq_true, !negb_true_iff in H.
  destruct H as [[? ?] ?]; [|done]. apply list_elem_of_In. by apply sextet_cases.
Qed.

(** ** RFC 4648 *)
(** The sextet [k] of the 24 bits of three bytes. *)
Definition sextet (a b c : ascii) (k : Z) : Z :=
  (ord a * 65536 + ord b * 256 + ord c) / 2 ^ (18 - 6 * k) mod 64.

(** The characters before the padding. *)
Fixpoint encode_body (bs : list ascii) : list ascii :=
  match bs with
  | [] => []
  | [a] => [letter (sextet a NUL NUL 0); letter (sextet a NUL NUL 1)]
  | [a; b] => [letter (sextet a b NUL 0); letter (sextet a b NUL 1); letter (sextet a b NUL 2)]
  | a :: b :: c :: bs =>
      letter (sextet a b c 0) :: letter (sextet a b c 1) :: letter (sextet a b c 2) :: letter (sextet a b c 3) ::
      encode_body bs
  end.

Definition padding (bs : list ascii) : nat :=
  match (length bs mod 3)%nat with 1%nat => 2%nat | 2%nat => 1%nat | _ => O end.

Definition base64 (bs : list ascii) : list ascii := encode_body bs ++ replicate (padding bs) "="%char.

Lemma three_ind (P : list ascii -> Prop) :
  P [] -> (forall a, P [a]) -> (forall a b, P [a; b]) -> (forall a b c bs, P bs -> P (a :: b :: c :: bs)) ->
  forall bs, P bs.
Proof.
  intros H0 H1 H2 H3. fix IH 1. intros [|a [|b [|c bs]]]; [exact H0|apply H1|apply H2|apply H3, IH].
Qed.

Lemma sextet_range a b c k : 0 <= sextet a b c k < 64.
Proof. unfold sextet. apply Z.mod_pos_bound. lia. Qed.

Lemma padding_cons a b c bs : padding (a :: b :: c :: bs) = padding bs.
Proof.
  unfold padding. cbn [length]. replace (S (S (S (length bs)))) with (length bs + 1 * 3)%nat by lia.
  by rewrite Nat.Div0.mod_add.
Qed.

Lemma base64_cons a b c bs : base64 (a :: b :: c :: bs) = base64 [a; b; c] ++ base64 bs.
Proof. unfold base64. by rewrite padding_cons. Qed.

(** Arithmetic on the codes of characters. *)
Lemma sextet0 a b c : sextet a b c 0 = ord a / 4.
Proof.
  unfold sextet. pose proof (ord_range a). pose proof (ord_range b). pose proof (ord_range c).
  change (2 ^ (18 - 6 * 0)) with 262144. Z.div_mod_to_equations. lia.
Qed.

Lemma sextet1 a b c : sextet a b c 1 = ord b / 16 + (ord a mod 4) * 16.
Proof.
  unfold sextet. pose proof (ord_range a). pose proof (ord_range b). pose proof (ord_range c).
  change (2 ^ (18 - 6 * 1)) with 4096. Z.div_mod_to_equations. lia.
Qed.

Lemma sextet2 a b c : sextet a b c 2 = ord c / 64 + (ord b mod 16) * 4.
Proof.
  unfold sextet. pose proof (ord_range a). pose proof (ord_range b). pose proof (ord_range c).
  change (2 ^ (18 - 6 * 2)) with 64. Z.div_mod_to_equations. lia.
Qed.

Lemma sextet3 a b c : sextet a b c 3 = ord c mod 64.
Proof.
  unfold sextet. pose proof (ord_range a). pose proof (ord_range b). pose proof (ord_range c).
  change (2 ^ (18 - 6 * 3)) with 1. Z.div_mod_to_equations. lia.
Qed.

(** What the encoder computes with shifts and masks. *)
Lemma bits_first a b c : Z.shiftr (ord a) 2 = sextet a b c 0.
Proof. by rewrite sextet0, Z.shiftr_div_pow2. Qed.

Lemma bits_second a b c : Z.lor (Z.shiftr (ord b) 4) (Z.shiftl (Z.land (ord a) (BITS 2)) 4) = sextet a b c 1.
Proof.
  unfold BITS. rewrite sextet1, land_mod, Z.shiftr_div_pow2, Z.shiftl_mul_pow2 by lia.
  rewrite lor_add; [done|lia|]. pose proof (ord_range b). Z.div_mod_to_equations. lia.
Qed.

Lemma bits_third a b c : Z.lor (Z.shiftr (ord c) 6) (Z.shiftl (Z.land (ord b) (BITS 4)) 2) = sextet a b c 2.
Proof.
  unfold BITS. rewrite sextet2, land_mod, Z.shiftr_div_pow2, Z.shiftl_mul_pow2 by lia.
  rewrite lor_add; [done|lia|]. pose proof (ord_range c). Z.div_mod_to_equations. lia.
Qed.

Lemma bits_fourth a b c : Z.land (ord c) (BITS 6) = sextet a b c 3.
Proof. unfold BITS. by rewrite sextet3, land_mod by lia. Qed.

Lemma encode_three a b c bs : _bin_to_base64 (a :: b :: c :: bs) 3 = base64 [a; b; c].
Proof.
  unfold _bin_to_base64. cbn [Z.eqb Pos.eqb]. unfold char_at. cbn [lookup list_lookup].
  by rewrite (bits_first a b c), (bits_second a b c), (bits_third a b c), (bits_fourth a b c).
Qed.

Lemma encode_two a b : _bin_to_base64 [a; b] 2 = base64 [a; b].
Proof.
  unfold _bin_to_base64. cbn [Z.eqb Pos.eqb]. unfold char_at. cbn [lookup list_lookup].
  rewrite (bits_first a b NUL), (bits_second a b NUL). pose proof (bits_third a b NUL) as H3.
  change (Z.shiftr (ord NUL) 6) with 0 in H3. rewrite Z.lor_0_l in H3. by rewrite H3.
Qed.

Lemma encode_one a : _bin_to_base64 [a] 1 = base64 [a].
Proof.
  unfold _bin_to_base64. cbn [Z.eqb Pos.eqb]. unfold char_at. cbn [lookup list_lookup].
  rewrite (bits_first a NUL NUL). pose proof (bits_second a NUL NUL) as H2.
  change (Z.shiftr (ord NUL) 4) with 0 in H2. rewrite Z.lor_0_l in H2. by rewrite H2.
Qed.

Lemma length_base64 bs : Z.of_nat (length (base64 bs)) = 4 * ((Z.of_nat (length bs) + 2) / 3).
Proof.
  induction bs as [|a|a b|a b c bs IH] using three_ind; try reflexivity.
  rewrite base64_cons, length_app. replace (length (base64 [a; b; c])) with 4%nat by reflexivity.
  rewrite Nat2Z.inj_add, IH. cbn [length]. Z.div_mod_to_equations. lia.
Qed.

(** ** The encoder *)
Lemma encode_loop_spec bs : forall fuel pre post,
  (length bs < fuel)%nat -> (length (base64 bs) <= length post)%nat ->
  encode_loop fuel (pre ++ post) (length pre) bs (Z.of_nat (length bs)) =
    Some (Some (pre ++ (Some <$> base64 bs) ++ drop (length (base64 bs)) post, (length pre + length (base64 bs))%nat)).
Proof.
  assert (forall (pre post : buffer) (new : list ascii), (length new <= length post)%nat ->
    blit (pre ++ post) (length pre) (Some <$> new) = Some (pre ++ (Some <$> new) ++ drop (length new) post)) as Hb.
  { intros pre post new Hl. rewrite <- (take_drop (length new) post) at 1. apply blit_app.
    rewrite length_take, length_fmap. lia. }
  induction bs as [|a|a b|a b c bs IH] using three_ind; intros [|fuel] pre post Hf Hp; try (simpl in Hf; lia);
    cbn [encode_loop].
  - cbn [length Z.of_nat Z.ltb Z.compare]. unfold base64. cbn. by rewrite drop_0, Nat.add_0_r.
  - cbn [length Z.of_nat Pos.of_succ_nat Z.ltb Z.compare Z.gtb Pos.compare Pos.compare_cont].
    rewrite encode_one, Hb by done. done.
  - cbn [length Z.of_nat Pos.of_succ_nat Pos.succ Z.ltb Z.compare Z.gtb Pos.compare Pos.compare_cont].
    rewrite encode_two, Hb by done. done.
  - set (n := Z.of_nat (length (a :: b :: c :: bs))).
    assert (n = Z.of_nat (length bs) + 3) as Hn by (unfold n; simpl; lia). clearbody n.
    destruct (Z.ltb_spec 0 n); [|lia]. replace (if n >? 3 then 3 else n) with 3 by (destruct (Z.gtb_spec n 3); lia).
    rewrite base64_cons, length_app in *. rewrite encode_three, Hb by lia.
    destruct (Z.ltb_spec n 3); [lia|]. replace (n - 3) with (Z.of_nat (length bs)) by lia.
    change (drop 3 (a :: b :: c :: bs)) with bs. rewrite app_assoc.
    replace (length pre + 4)%nat with (length (pre ++ (Some <$> base64 [a; b; c]))) by (rewrite length_app; done).
    rewrite IH; [|simpl in Hf; lia|rewrite length_drop; lia].
    rewrite drop_drop, fmap_app, length_app, length_fmap, <- !app_assoc. by rewrite Nat.add_assoc.
Qed.

Lemma base64_no_nul bs : no_nul (base64 bs).
Proof.
  unfold base64, no_nul. apply Forall_app. split; [|by apply Forall_replicate].
  assert (forall i, 0 <= i < 64 -> letter i <> NUL) as Hl.
  { intros i Hi Hc. destruct (letter_spec i Hi) as (_ & _ & He). rewrite Hc in He. done. }
  induction bs as [|a|a b|a b c bs IH] using three_ind; cbn [encode_body];
    repeat (apply Forall_cons_2; [apply Hl, sextet_range|]); try apply Forall_nil_2. exact IH.
Qed.

Lemma bin_to_base64_spec bs : Z.of_nat (length bs) < 2 ^ 60 ->
  exists rest, bin_to_base64 true bs (Z.of_nat (length bs)) = Some (Some ((Some <$> base64 bs) ++ Some NUL :: rest)).
Proof.
  intros Hl. set (n := Z.of_nat (length bs)) in *. pose proof (length_base64 bs) as Hb. fold n in Hb.
  pose proof (Z.mod_pos_bound n 3 ltac:(lia)). unfold bin_to_base64.
  rewrite (wrap_u64_small (n + _)), (wrap_u64_small (4 * _)) by lia.
  set (flen := 4 * (n + (3 - n mod 3)) / 3 + 1).
  assert (Z.of_nat (length (base64 bs)) < flen < 2 ^ 62) as Hf.
  { unfold flen. rewrite Hb. clear Hb flen. Z.div_mod_to_equations. lia. }
  rewrite wrap_u64_small by lia. cbn [negb].
  pose proof (encode_loop_spec bs (S (Z.to_nat n)) [] (replicate (Z.to_nat flen) None)) as He.
  rewrite !app_nil_l in He. cbn [length Nat.add] in He. fold n in He.
  rewrite He by (rewrite ?length_replicate; lia). cbn [mjoin option_join mbind option_bind]. rewrite drop_replicate.
  destruct (Z.to_nat flen - length (base64 bs))%nat as [|m] eqn:Em; [lia|]. cbn [replicate].
  pose proof (blit_app (Some <$> base64 bs) [None] (replicate m None) [Some NUL] eq_refl) as Hz.
  rewrite length_fmap in Hz. cbn [app] in Hz. rewrite Hz. by exists (replicate m None).
Qed.

(** ** The decoder *)
Lemma block_letter set source n i block : char_at source n = letter i -> 0 <= i < 64 ->
  BLOCK set source n block = Some (set block i).
Proof. intros Hc Hi. unfold BLOCK. rewrite Hc. by destruct (letter_spec i Hi) as (-> & _). Qed.

(** The 24 bits of four sextets. *)
Lemma sextets_bytes a b c :
  let n := sextet a b c 0 * 2 ^ 18 + sextet a b c 1 * 2 ^ 12 + sextet a b c 2 * 2 ^ 6 + sextet a b c 3 in
  chr (GET_A n) = a /\ chr (GET_B n) = b /\ chr (GET_C n) = c.
Proof.
  intros n. rewrite get_a_div, get_b_div, get_c_div.
  assert (n = ord a * 65536 + ord b * 256 + ord c) as ->.
  { unfold n. rewrite sextet0, sextet1, sextet2, sextet3. pose proof (ord_range a). pose proof (ord_range b).
    pose proof (ord_range c). Z.div_mod_to_equations. lia. }
  pose proof (ord_range a). pose proof (ord_range b). pose proof (ord_range c).
  repeat split; rewrite <- chr_ord; f_equal; Z.div_mod_to_equations; lia.
Qed.

Lemma decode_three a b c tail :
  _base64_to_bin (letter (sextet a b c 0) :: letter (sextet a b c 1) :: letter (sextet a b c 2) ::
    letter (sextet a b c 3) :: tail) 3 = Some [a; b; c].
Proof.
  pose proof (sextet_range a b c) as Hr. unfold _base64_to_bin, to_block4. cbn [Z.ltb Z.compare Pos.compare Pos.compare_cont].
  rewrite (block_letter SET_A _ 0 (sextet a b c 0)) by done. cbn [mbind option_bind].
  rewrite (block_letter SET_B _ 1 (sextet a b c 1)) by done. cbn [mbind option_bind].
  rewrite (block_letter SET_C _ 2 (sextet a b c 2)) by done. cbn [mbind option_bind].
  rewrite (block_letter SET_D _ 3 (sextet a b c 3)) by done. cbn [mbind option_bind].
  rewrite set_ab by done. set (x := sextet a b c 0) in *. set (y := sextet a b c 1) in *.
  replace (x * 2 ^ 18 + y * 2 ^ 12) with ((x * 2 ^ 6 + y) * 2 ^ 12) by lia. rewrite set_c by done.
  set (z := sextet a b c 2) in *.
  replace ((x * 2 ^ 6 + y) * 2 ^ 12 + z * 2 ^ 6) with (((x * 2 ^ 6 + y) * 2 ^ 6 + z) * 2 ^ 6) by lia. rewrite set_d by done.
  destruct (sextets_bytes a b c) as (Ha & Hb & Hc). cbn zeta in Ha, Hb, Hc. fold x y z in Ha, Hb, Hc.
  replace (((x * 2 ^ 6 + y) * 2 ^ 6 + z) * 2 ^ 6 + sextet a b c 3)
    with (x * 2 ^ 18 + y * 2 ^ 12 + z * 2 ^ 6 + sextet a b c 3) by lia.
  by rewrite Ha, Hb, Hc.
Qed.

Lemma decode_two a b :
  exists x, _base64_to_bin [letter (sextet a b NUL 0); letter (sextet a b NUL 1); letter (sextet a b NUL 2)] 2 = Some [a; b; x].
Proof.
  pose proof (sextet_range a b NUL) as Hr. unfold _base64_to_bin, to_block4. cbn [Z.ltb Z.compare Pos.compare Pos.compare_cont].
  rewrite (block_letter SET_A _ 0 (sextet a b NUL 0)) by done. cbn [mbind option_bind].
  rewrite (block_letter SET_B _ 1 (sextet a b NUL 1)) by done. cbn [mbind option_bind].
  rewrite (block_letter SET_C _ 2 (sextet a b NUL 2)) by done. cbn [mbind option_bind].
  rewrite set_ab by done. set (x := sextet a b NUL 0) in *. set (y := sextet a b NUL 1) in *.
  replace (x * 2 ^ 18 + y * 2 ^ 12) with ((x * 2 ^ 6 + y) * 2 ^ 12) by lia. rewrite set_c by done.
  set (z := sextet a b NUL 2) in *.
  destruct (sextets_bytes a b NUL) as (Ha & Hb & _). cbn zeta in Ha, Hb. fold x y z in Ha, Hb.
  rewrite (sextet3 a b NUL) in Ha, Hb. change (ord NUL mod 64) with 0 in Ha, Hb.
  replace ((x * 2 ^ 6 + y) * 2 ^ 12 + z * 2 ^ 6) with (x * 2 ^ 18 + y * 2 ^ 12 + z * 2 ^ 6 + 0) by lia.
  rewrite Ha, Hb. by eexists.
Qed.

Lemma decode_one a :
  exists x y, _base64_to_bin [letter (sextet a NUL NUL 0); letter (sextet a NUL NUL 1)] 1 = Some [a; x; y].
Proof.
  pose proof (sextet_range a NUL NUL) as Hr. unfold _base64_to_bin, to_block4. cbn [Z.ltb Z.compare Pos.compare Pos.compare_cont].
  rewrite (block_letter SET_A _ 0 (sextet a NUL NUL 0)) by done. cbn [mbind option_bind].
  rewrite (block_letter SET_B _ 1 (sextet a NUL NUL 1)) by done. cbn [mbind option_bind].
  rewrite set_ab by done. destruct (sextets_bytes a NUL NUL) as (Ha & _). cbn zeta in Ha.
  rewrite (sextet2 a NUL NUL), (sextet3 a NUL NUL) in Ha.
  change ((ord NUL / 64 + ord NUL mod 16 * 4) * 2 ^ 6) with 0 in Ha. change (ord NUL mod 64) with 0 in Ha.
  rewrite !Z.add_0_r in Ha. rewrite Ha. by eexists _, _.
Qed.

Section Decoder.
Context (oom : nat -> bool).

(** What adding [new] decoded bytes to the content [q] leaves. *)
Definition decoded (q : buffer) (new : list ascii) (ok : bool) (s' : bstate) : Prop :=
  if ok then holds (q ++ (Some <$> new)) s'
  else (exists q', holds q' s') /\ (may_fail oom \/ BUFFER_SIZE_MAX <= Z.of_nat (length q + length new)).

Lemma decode_block_spec ptr num block q s : holds q s -> _base64_to_bin ptr num = Some block -> 0 <= num <= 3 ->
  length block = 3%nat ->
  returns (decode_block oom ptr num) s (decoded q (take (Z.to_nat num) block)).
Proof.
  intros Hh Hb Hn Hl. unfold decode_block. rewrite Hb. buf_steps.
  eapply returns_mono; [apply (add_data_spec oom q s _ _ Hh); [lia|rewrite length_fmap; lia]|].
  cbn beta. intros rc s' [Hrc Hg]. buf_steps. rewrite <- fmap_take in Hg.
  destruct Hrc; subst rc; cbn in Hg |- *; [done|]. destruct Hg as [Hg Hf]. split; [by exists q|].
  rewrite length_take. destruct Hf as [|Hf]; [by left|right; lia].
Qed.

Definition decode_rest (fuel : nat) (ptr : list ascii) (equals : Z) : M bstate bool :=
  r ← decode_loop oom fuel ptr (Z.of_nat (length ptr));
  match r with None => mret false | Some (ptr, len) => decode_last oom ptr len equals end.

Lemma decode_rest_last fuel ptr equals s : (length ptr <= 4)%nat ->
  decode_rest (S fuel) ptr equals s = decode_last oom ptr (Z.of_nat (length ptr)) equals s.
Proof.
  intros Hl. unfold decode_rest. cbn [decode_loop]. destruct (Z.gtb_spec (Z.of_nat (length ptr)) 4); [lia|]. done.
Qed.

Lemma length_encode_body_pos bs : bs <> [] -> (0 < length (encode_body bs))%nat.
Proof. destruct bs as [|a [|b [|c bs]]]; [done|cbn; lia..]. Qed.

Lemma decode_body_spec bs : forall fuel q s, bs <> [] -> holds q s -> (length (encode_body bs) < fuel)%nat ->
  returns (decode_rest fuel (encode_body bs) (Z.of_nat (padding bs))) s (decoded q bs).
Proof.
  induction bs as [|a|a b|a b c bs IH] using three_ind; intros [|fuel] q s Hne Hh Hf; try lia; [done|..].
  - unfold returns. rewrite decode_rest_last by (cbn; lia). destruct (decode_one a) as (x & y & Hd).
    exact (decode_block_spec _ 1 _ q s Hh Hd ltac:(lia) eq_refl).
  - unfold returns. rewrite decode_rest_last by (cbn; lia). destruct (decode_two a b) as (x & Hd).
    exact (decode_block_spec _ 2 _ q s Hh Hd ltac:(lia) eq_refl).
  - pose proof (decode_three a b c (encode_body bs)) as Hd. destruct (decide (bs = [])) as [-> |Hbs].
    { unfold returns. rewrite decode_rest_last by (cbn; lia).
      exact (decode_block_spec _ 3 _ q s Hh Hd ltac:(lia) eq_refl). }
    pose proof (length_encode_body_pos bs Hbs) as Hpos. rewrite padding_cons. cbn [encode_body] in *.
    set (ptr := letter (sextet a b c 0) :: _) in *. assert (Z.of_nat (length ptr) = 4 + Z.of_nat (length (encode_body bs))) as Hlen
      by (unfold ptr; cbn [length]; lia).
    unfold decode_rest. cbn [decode_loop]. destruct (Z.gtb_spec (Z.of_nat (length ptr)) 4); [|lia]. buf_steps.
    eapply returns_mono; [exact (decode_block_spec _ 3 _ q s Hh Hd ltac:(lia) eq_refl)|]. cbn beta.
    change (take (Z.to_nat 3) [a; b; c]) with [a; b; c]. intros [] s1 H1; cbn [negb decoded] in *; buf_steps.
    + replace (Z.of_nat (length ptr) - 4) with (Z.of_nat (length (encode_body bs))) by lia.
      change (drop 4 ptr) with (encode_body bs).
      assert (length (encode_body bs) < fuel)%nat as Hf' by (unfold ptr in Hf; cbn [length] in Hf; lia).
      pose proof (IH fuel _ s1 Hbs H1 Hf') as Hi. unfold decode_rest in Hi. rewrite returns_bind in Hi.
      eapply returns_mono; [exact Hi|]. cbn beta. intros r s2 Hr. eapply returns_mono; [exact Hr|].
      intros [] s3; cbn [decoded].
      * intros H3. by rewrite <- app_assoc in H3.
      * intros [Hq [|Hbig]]; (split; [done|]); [by left|right]. rewrite length_app, length_fmap in Hbig. cbn [length] in *. lia.
    + destruct H1 as [Hq [|Hbig]]; (split; [done|]); [by left|right]. cbn [length] in *. lia.
Qed.

(** The padding, and what follows it. *)
Lemma get_equals_app s t : get_equals (s ++ t) = ((get_equals s).1 + (get_equals t).1, (get_equals s).2 ++ (get_equals t).2).
Proof.
  induction s as [|c s IH]; cbn [app get_equals]; [by destruct (get_equals t)|]. rewrite IH.
  destruct (get_equals s) as [n s'], (get_equals t) as [m t']. cbn [fst snd].
  destruct (Ascii.eqb c "="%char); cbn [fst snd app]; f_equal; lia.
Qed.

Lemma get_equals_none s : Forall (fun c => Ascii.eqb c "="%char = false) s -> get_equals s = (0, s).
Proof. induction 1 as [|c s Hc _ IH]; [done|]. cbn [get_equals]. by rewrite IH, Hc. Qed.

Lemma get_equals_pad n : get_equals (replicate n "="%char) = (Z.of_nat n, replicate n NUL).
Proof.
  induction n as [|n IH]; [done|]. cbn [replicate get_equals]. rewrite IH.
  replace (Ascii.eqb "=" "=") with true by reflexivity. cbv iota. f_equal. lia.
Qed.

Lemma encode_body_chars bs (P : ascii -> Prop) : (forall i, 0 <= i < 64 -> P (letter i)) -> Forall P (encode_body bs).
Proof.
  intros Hl. induction bs as [|a|a b|a b c bs IH] using three_ind; cbn [encode_body];
    repeat (apply Forall_cons_2; [apply Hl, sextet_range|]); try apply Forall_nil_2. exact IH.
Qed.

Lemma cstr_app_nul s t : Forall (fun c => Ascii.eqb c NUL = false) s -> cstr (s ++ NUL :: t) = s.
Proof. induction 1 as [|c s Hc _ IH]; [done|]. cbn [app cstr]. by rewrite Hc, IH. Qed.

Lemma cstr_plain s : Forall (fun c => Ascii.eqb c NUL = false) s -> cstr s = s.
Proof. induction 1 as [|c s Hc _ IH]; [done|]. cbn [cstr]. by rewrite Hc, IH. Qed.

(** Characters after the padding do not change what is decoded. *)
Lemma padded_text bs junk : (junk = [] \/ padding bs <> O) -> Forall (fun c => Ascii.eqb c "="%char = false) junk ->
  exists text, get_equals (base64 bs ++ junk) = (Z.of_nat (padding bs), text) /\ cstr text = encode_body bs.
Proof.
  intros Hj Hne. unfold base64. rewrite !get_equals_app, get_equals_pad, (get_equals_none junk Hne).
  rewrite get_equals_none by (apply encode_body_chars; intros i Hi; apply (letter_spec i Hi)). cbn [fst snd].
  rewrite Z.add_0_l, Z.add_0_r. eexists. split; [reflexivity|].
  assert (Forall (fun c => Ascii.eqb c NUL = false) (encode_body bs)) as Hb
    by (apply encode_body_chars; intros i Hi; apply (letter_spec i Hi)).
  destruct (padding bs) as [|k]; [|rewrite <- app_assoc; apply (cstr_app_nul _ _ Hb)].
  destruct Hj as [-> |]; [|done]. rewrite !app_nil_r. by apply cstr_plain.
Qed.

Lemma padding_le bs : (padding bs <= 2)%nat.
Proof. unfold padding. repeat case_match; lia. Qed.

(** What base64_to_bin leaves: the decoded buffer, or NULL with a reason. *)
Definition decodes_to (bs : list ascii) (ok : bool) (s' : bstate) : Prop :=
  if ok then holds (Some <$> bs) s'
  else target s' = None /\ (may_fail oom \/ BUFFER_SIZE_MAX <= Z.of_nat (length bs)).

Lemma base64_to_bin_spec bs junk s : bs <> [] -> (junk = [] \/ padding bs <> O) ->
  Forall (fun c => Ascii.eqb c "="%char = false) junk ->
  returns (base64_to_bin oom (base64 bs ++ junk)) s (decodes_to bs).
Proof.
  intros Hne Hj Hjunk. destruct (padded_text bs junk Hj Hjunk) as (text & Hg & Hc). pose proof (padding_le bs) as Hp.
  unfold base64_to_bin. buf_steps. destruct (oom (mcalls s)) eqn:Ho; cbn [negb]; buf_steps.
  { split; [done|]. left. by exists (mcalls s). }
  rewrite Hg, Hc. destruct (Z.gtb_spec (Z.of_nat (padding bs)) 2); [lia|]. buf_steps.
  eapply returns_mono; [apply new_spec|]. cbn beta. intros [] s1 H1; cbn [negb]; buf_steps; [|destruct H1; split; [done|by left]].
  eapply returns_mono; [by apply (set_secure_spec [])|]. cbn beta. intros _ s2 H2. buf_steps.
  pose proof (decode_body_spec bs (S (length (encode_body bs))) [] s2 Hne H2 ltac:(lia)) as Hd.
  unfold decode_rest in Hd. rewrite returns_bind in Hd. eapply returns_mono; [exact Hd|]. cbn beta. intros r s3 Hr. buf_steps.
  eapply returns_mono; [exact Hr|]. intros [] s4; cbn [decoded negb]; intros H4; buf_steps.
  - destruct H4 as (b & ? & ?). by exists b.
  - destruct H4 as [(q & b & Hb) Hf]. eapply returns_mono; [apply (free_spec q)|]; [by exists b|].
    cbn beta. intros _ s5 H5. by buf_steps.
Qed.
End Decoder.

(** ** The theorems *)

(** C32. bin_to_base64 on any data: it terminates, writes only inside the block it
    allocated, and the C string in the block is the base64 encoding of RFC 4648, each
    group of three bytes read as a 24-bit number and cut in four sextets. *)
Theorem base64_encode_correct (bs : list ascii) :
  Z.of_nat (length bs) < 2 ^ 60 ->
  exists block, bin_to_base64 true bs (Z.of_nat (length bs)) = Some (Some block) /\
    buffer_string block = Some (base64 bs).
Proof.
  intros Hl. destruct (bin_to_base64_spec bs Hl) as [rest Hr]. eexists. split; [exact Hr|].
  rewrite buffer_string_full. f_equal. apply cstr_id, base64_no_nul.
Qed.

Lemma base64_encode_correct_witness :
  exists block, bin_to_base64 true (lit "hello") 5 = Some (Some block) /\ buffer_string block = Some (lit "aGVsbG8=").
Proof. exact (base64_encode_correct (lit "hello") ltac:(cbn; lia)). Defined.

(** C33. Round trip: decoding with base64_to_bin the string that bin_to_base64 gives
    for non-empty data never leaves a block and gives a buffer with exactly that
    data, unless an allocation can fail or the data reaches 256 MB; it then returns
    NULL with the buffer freed. The same holds with any text without equal signs
    after the padding: what follows the first equal sign is not checked. *)
Theorem base64_roundtrip (oom : nat -> bool) (bs junk : list ascii) (s : bstate) :
  bs <> [] -> Z.of_nat (length bs) < 2 ^ 60 -> (junk = [] \/ padding bs <> O) ->
  Forall (fun c => Ascii.eqb c "="%char = false) junk ->
  exists block text, bin_to_base64 true bs (Z.of_nat (length bs)) = Some (Some block) /\
    buffer_string block = Some text /\ returns (base64_to_bin oom (text ++ junk)) s (decodes_to oom bs).
Proof.
  intros Hne Hl Hj Hjunk. destruct (bin_to_base64_spec bs Hl) as [rest Hr]. eexists _, (base64 bs). split; [exact Hr|]. split.
  - rewrite buffer_string_full. f_equal. apply cstr_id, base64_no_nul.
  - by apply base64_to_bin_spec.
Qed.

Lemma base64_roundtrip_witness :
  exists block text, bin_to_base64 true (lit "hello") 5 = Some (Some block) /\
    buffer_string block = Some text /\
    returns (base64_to_bin (fun _ => false) (text ++ lit "?!")) (BState None 0 []) (decodes_to (fun _ => false) (lit "hello")).
Proof.
  apply (base64_roundtrip (fun _ => false) (lit "hello") (lit "?!") (BState None 0 [])); [done|cbn; lia|by right|].
  by repeat constructor.
Defined.
