(* ===== verification/SshMatch.v ===== *)
(** * libssh/src/match.c: wildcard patterns for host names

    The pattern matcher with its recursion limit, the comma-separated lists of
    patterns, and the meaning of a pattern they are compared with. *)

From S2P Require Import Prelude CLib.

Definition MAX_MATCH_RECURSION : nat := 32.

Definition star : ascii := "*"%char.
Definition any : ascii := "?"%char.

(** while ( *pattern == '*') pattern++; *)
Fixpoint skip_stars (pattern : list ascii) : list ascii :=
  match pattern with
  | c :: rest => if Ascii.eqb c star then skip_stars rest else pattern
  | [] => []
  end.

(** for (; *s; s++) if (try(s)) return 1; return 0; *)
Fixpoint scan (try : list ascii -> bool) (s : list ascii) : bool :=
  match s with
  | [] => false
  | _ :: rest => try s || scan try rest
  end.

(** for (;;): [rec] is the recursive call with the limit decreased. *)
Fixpoint match_loop (rec : list ascii -> list ascii -> bool) (pattern s : list ascii) : bool :=
  match pattern with
  | [] => match s with [] => true | _ => false end
  | c :: rest =>
      if Ascii.eqb c star then
        (* had_asterisk *)
        match skip_stars pattern with
        | [] => true
        | p :: after =>
            if negb (Ascii.eqb p any)
            then scan (fun s => match s with
                                | x :: s' => Ascii.eqb x p && rec s' after
                                | [] => false
                                end) s
            else scan (fun s => rec s (p :: after)) s
        end
      else
        match s with
        | [] => false
        | x :: s' => if negb (Ascii.eqb c any) && negb (Ascii.eqb c x) then false else match_loop rec rest s'
        end
  end.

Fixpoint match_from (limit : nat) (s pattern : list ascii) : bool :=
  match limit with
  | O => false
  | S limit => match_loop (match_from limit) pattern s
  end.

(** NULL strings do not match. *)
Definition match_pattern (s pattern : option (list ascii)) (limit : nat) : bool :=
  match s, pattern with
  | Some s, Some pattern => match_from limit s pattern
  | _, _ => false
  end.

(** ** Lists of patterns *)
Definition sub_size : nat := 1024.

(** The loop that extracts a subpattern: i and the characters of sub. [None] is a
    read outside the pattern. *)
Fixpoint extract (fuel : nat) (pattern : list ascii) (len i : nat) (dolower : bool) (sub : list ascii)
  : option (nat * list ascii) :=
  match fuel with
  | O => None
  | S fuel =>
      if (i <? len)%nat && (length sub <? sub_size - 1)%nat then
        c ← pattern !! i;
        if Ascii.eqb c ","%char then Some (i, sub)
        else extract fuel pattern len (S i) dolower (sub ++ [if dolower && isupper c then tolower c else c])
      else Some (i, sub)
  end.

(** [pattern] holds the characters of the array, its NUL included. *)
Fixpoint list_loop (fuel : nat) (string : option (list ascii)) (pattern : list ascii) (len i : nat) (dolower : bool)
    (got_positive : Z) : option Z :=
  match fuel with
  | O => None
  | S fuel =>
      if (i <? len)%nat then
        c ← pattern !! i;
        let negated := Ascii.eqb c "!"%char in
        let i := if negated then S i else i in
        '(i, sub) ← extract (S len) pattern len i dolower [];
        if (sub_size - 1 <=? length sub)%nat then Some 0
        else
          i ← (if (i <? len)%nat then c ← pattern !! i; Some (if Ascii.eqb c ","%char then S i else i) else Some i);
          if match_pattern string (Some (cstr sub)) MAX_MATCH_RECURSION then
            if negated : bool then Some (-1) else list_loop fuel string pattern len i dolower 1
          else list_loop fuel string pattern len i dolower got_positive
      else Some got_positive
  end.

Definition match_pattern_list (string : option (list ascii)) (pattern : list ascii) (len : nat) (dolower : bool) : option Z :=
  list_loop (S len) string pattern len 0 dolower 0.

Definition match_hostname (host : option (list ascii)) (pattern : list ascii) (len : nat) : option Z :=
  match_pattern_list host pattern len true.

(** ** What a pattern means *)

(** [matches p s]: a star stands for any characters, a question mark for one. *)
Inductive matches : list ascii -> list ascii -> Prop :=
| matches_nil : matches [] []
| matches_star p s t : matches p t -> matches (star :: p) (s ++ t)
| matches_any p c s : matches p s -> matches (any :: p) (c :: s)
| matches_char p c s : c <> star -> c <> any -> matches p s -> matches (c :: p) (c :: s).

(** The number of runs of stars with something after them. *)
Fixpoint star_runs (p : list ascii) : nat :=
  match p with
  | [] => O
  | c :: rest =>
      if Ascii.eqb c star then
        match rest with
        | [] => O
        | d :: _ => if Ascii.eqb d star then star_runs rest else S (star_runs rest)
        end
      else star_runs rest
  end.

(** ** Lemmas *)
Lemma matches_star_inv p s : matches (star :: p) s -> exists u v, s = u ++ v /\ matches p v.
Proof. intros H. inversion H; subst; [eauto|done]. Qed.

Lemma matches_stars p s : matches (star :: p) s <-> matches (star :: skip_stars p) s.
Proof.
  revert s. induction p as [|c p IH]; intros s; [done|]. cbn [skip_stars].
  destruct (Ascii.eqb_spec c star) as [-> |]; [|done]. rewrite <- IH. split.
  - intros (u & v & -> & (u' & v' & -> & H)%matches_star_inv)%matches_star_inv. rewrite app_assoc. by constructor.
  - intros H. by apply (matches_star (star :: p) [] s).
Qed.

Lemma scan_spec try s : scan try s = true <-> exists u x v, s = u ++ x :: v /\ try (x :: v) = true.
Proof.
  induction s as [|c s IH]; cbn [scan].
  - split; [done|]. intros ([|] & x & v & Hs & _); done.
  - rewrite orb_true_iff, IH. split.
    + intros [H|(u & x & v & -> & H)]; [by exists [], c, s|by exists (c :: u), x, v].
    + intros ([|c' u] & x & v & Hs & H); simplify_eq/=; [by left|right; eauto].
Qed.

Lemma skip_stars_head p c after : skip_stars p = c :: after -> c <> star.
Proof.
  induction p as [|d p IH]; [done|]. cbn [skip_stars]. destruct (Ascii.eqb_spec d star); [done|]. by intros [= <- _].
Qed.

Lemma star_runs_skip rest : star_runs (star :: rest) =
  match skip_stars rest with [] => O | c :: after => S (star_runs after) end.
Proof.
  induction rest as [|c rest IH]; [done|]. cbn [skip_stars]. destruct (Ascii.eqb_spec c star) as [-> |Hne].
  - rewrite <- IH. done.
  - cbn [star_runs]. rewrite (proj2 (Ascii.eqb_neq _ _) Hne). done.
Qed.

Lemma star_runs_char c p : c <> star -> star_runs (c :: p) = star_runs p.
Proof. intros Hc. cbn [star_runs]. by rewrite (proj2 (Ascii.eqb_neq _ _) Hc). Qed.

Lemma matches_char_inv c p s : c <> star -> c <> any -> matches (c :: p) s -> exists t, s = c :: t /\ matches p t.
Proof. intros Hs Ha H. inversion H; subst; try done. eauto. Qed.

Lemma matches_any_inv p s : matches (any :: p) s -> exists c t, s = c :: t /\ matches p t.
Proof. intros H. inversion H; subst; try done; eauto. Qed.

Lemma match_loop_sound rec p s : (forall s' p', rec s' p' = true -> matches p' s') ->
  match_loop rec p s = true -> matches p s.
Proof.
  intros Hrec. revert s. induction p as [|c p IH]; intros s; cbn [match_loop].
  { destruct s; [intros _; constructor|done]. }
  destruct (Ascii.eqb_spec c star) as [-> |Hc].
  - cbn [skip_stars]. replace (Ascii.eqb star star) with true by reflexivity. cbv iota. rewrite matches_stars.
    destruct (skip_stars p) as [|d after] eqn:Es.
    { intros _. rewrite <- (app_nil_r s). apply matches_star. constructor. }
    pose proof (skip_stars_head _ _ _ Es) as Hd.
    destruct (Ascii.eqb_spec d any) as [-> |Hany]; cbn [negb]; rewrite scan_spec; intros (u & x & v & -> & H).
    + apply matches_star. by apply Hrec.
    + apply andb_true_iff in H as [Hx%Ascii.eqb_eq H]. subst x. apply matches_star. constructor; [done|done|]. by apply Hrec.
  - destruct s as [|x s]; [done|]. destruct (Ascii.eqb_spec c any) as [-> |Hany]; cbn [negb andb].
    + intros H. constructor. by apply IH.
    + destruct (Ascii.eqb_spec c x) as [-> |]; cbn [negb]; [|done]. intros H. constructor; [done|done|]. by apply IH.
Qed.

Lemma match_loop_complete rec p s : (forall s' p', (star_runs p' < star_runs p)%nat -> matches p' s' -> rec s' p' = true) ->
  matches p s -> match_loop rec p s = true.
Proof.
  revert s. induction p as [|c p IH]; intros s Hrec Hm; cbn [match_loop].
  { by inversion Hm. }
  destruct (Ascii.eqb_spec c star) as [-> |Hc].
  - cbn [skip_stars]. replace (Ascii.eqb star star) with true by reflexivity. cbv iota.
    rewrite matches_stars in Hm. rewrite star_runs_skip in Hrec.
    destruct (skip_stars p) as [|d after] eqn:Es; [done|]. pose proof (skip_stars_head _ _ _ Es) as Hd.
    apply matches_star_inv in Hm as (u & v & -> & Hm).
    destruct (Ascii.eqb_spec d any) as [-> |Hany]; cbn [negb]; apply scan_spec.
    + pose proof Hm as (x & t & -> & _)%matches_any_inv. exists u, x, t. split; [done|].
      apply Hrec; [|done]. rewrite star_runs_char by done. lia.
    + apply matches_char_inv in Hm as (t & -> & Hm); [|done|done]. exists u, d, t. split; [done|].
      rewrite Ascii.eqb_refl. cbn [andb]. apply Hrec; [lia|done].
  - rewrite star_runs_char in Hrec by done. destruct (Ascii.eqb_spec c any) as [-> |Hany]; cbn [negb andb].
    + apply matches_any_inv in Hm as (x & t & -> & Hm). by apply IH.
    + apply matches_char_inv in Hm as (t & -> & Hm); [|done|done]. rewrite Ascii.eqb_refl. cbn [negb]. by apply IH.
Qed.

Lemma match_from_sound limit : forall s p, match_from limit s p = true -> matches p s.
Proof. induction limit as [|limit IH]; intros s p; cbn [match_from]; [done|]. by apply match_loop_sound. Qed.

Lemma match_from_complete limit : forall s p, (star_runs p < limit)%nat -> matches p s -> match_from limit s p = true.
Proof.
  induction limit as [|limit IH]; intros s p Hl Hm; cbn [match_from]; [lia|].
  apply match_loop_complete; [|done]. intros s' p' Hr Hm'. apply IH; [lia|done].
Qed.
