(* ===== verification/SshMatchThms.v ===== *)
(** * Theorems on wildcard patterns *)

From S2P Require Import Prelude CLib SshMatch.

#[export] Instance matches_dec p s : Decision (matches p s).
Proof.
  refine (match match_from (S (star_runs p)) s p as b return match_from (S (star_runs p)) s p = b -> _ with
          | true => fun H => left (match_from_sound _ _ _ H)
          | false => fun H => right _
          end eq_refl).
  intros Hm. rewrite match_from_complete in H; [done|lia|done].
Defined.

(** ** Lists of patterns as data *)

(** One element of a list: whether it is negated, and its pattern. *)
Record part := Part { negated : bool; body : list ascii }.

Definition print_part (p : part) : list ascii := (if negated p then ["!"%char] else []) ++ body p.

Fixpoint join (ps : list part) : list ascii :=
  match ps with
  | [] => []
  | p :: ps => print_part p ++ (match ps with [] => [] | _ => [","%char] end) ++ join ps
  end.

(** What a part may be: no comma or NUL in it, not starting with an exclamation mark
    unless negated, and within the limits of the matcher. *)
Definition part_ok (p : part) : Prop :=
  Forall (fun c => c <> ","%char /\ c <> NUL) (body p) /\
  (negated p = false -> head (body p) <> Some "!"%char) /\
  (length (body p) < 1023)%nat /\ (star_runs (body p) < 32)%nat.

(** The list does not end in an empty part, which is not seen. *)
Definition list_ok (ps : list part) : Prop :=
  Forall part_ok ps /\ match last ps with Some p => print_part p <> [] | None => True end.

Definition lower (dolower : bool) (c : ascii) : ascii := if dolower && isupper c then tolower c else c.

Definition part_matches (dolower : bool) (host : list ascii) (p : part) : Prop :=
  matches (lower dolower <$> body p) host.

(** The verdict on a list, [got] being the one so far. *)
Definition verdict (dolower : bool) (host : list ascii) (got : Z) (ps : list part) : Z :=
  if decide (Exists (fun p => negated p = true /\ part_matches dolower host p) ps) then -1
  else if decide (Exists (fun p => negated p = false /\ part_matches dolower host p) ps) then 1
  else got.

(** ** Letters in lower case *)
Definition lower_check (c : ascii) : bool :=
  bool_decide (Ascii.eqb (tolower c) star = Ascii.eqb c star) && implb (Ascii.eqb (tolower c) NUL) (Ascii.eqb c NUL).

Lemma lower_all c : lower_check c = true.
Proof. destruct c as [[] [] [] [] [] [] [] []]; vm_compute; reflexivity. Qed.

Lemma lower_star dolower c : Ascii.eqb (lower dolower c) star = Ascii.eqb c star.
Proof.
  unfold lower. destruct (dolower && isupper c); [|done]. pose proof (lower_all c) as H.
  unfold lower_check in H. rewrite andb_true_iff, bool_decide_eq_true in H. apply H.
Qed.

Lemma lower_nul dolower c : c <> NUL -> Ascii.eqb (lower dolower c) NUL = false.
Proof.
  intros Hc. unfold lower. destruct (dolower && isupper c); [|by apply Ascii.eqb_neq]. pose proof (lower_all c) as H.
  unfold lower_check in H. rewrite andb_true_iff in H. destruct H as [_ H].
  destruct (Ascii.eqb (tolower c) NUL); [|done]. cbn in H. by apply Ascii.eqb_eq in H.
Qed.

Lemma star_runs_lower dolower p : star_runs (lower dolower <$> p) = star_runs p.
Proof.
  induction p as [|c p IH]; [done|]. rewrite fmap_cons. cbn [star_runs]. rewrite lower_star, IH.
  destruct (Ascii.eqb c star); [|done]. destruct p as [|d p]; [done|]. rewrite fmap_cons. by rewrite lower_star.
Qed.

Lemma cstr_lower dolower p : Forall (fun c => c <> ","%char /\ c <> NUL) p -> cstr (lower dolower <$> p) = lower dolower <$> p.
Proof.
  induction 1 as [|c p [_ Hc] _ IH]; [done|]. rewrite fmap_cons. cbn [cstr]. by rewrite lower_nul, IH.
Qed.

(** ** The code on a printed list *)
Lemma lookup_middle {A} (pre : list A) x post : (pre ++ x :: post) !! length pre = Some x.
Proof. rewrite lookup_app_r by lia. by rewrite Nat.sub_diag. Qed.

Lemma extract_spec dolower p : forall fuel pre post tail sub,
  Forall (fun c => c <> ","%char /\ c <> NUL) p -> (length sub + length p < 1023)%nat -> (length p < fuel)%nat ->
  (post = [] \/ exists t, post = ","%char :: t) ->
  extract fuel (pre ++ p ++ post ++ tail) (length (pre ++ p ++ post)) (length pre) dolower sub =
    Some (length (pre ++ p), sub ++ (lower dolower <$> p)).
Proof.
  induction p as [|c p IH]; intros [|fuel] pre post tail sub Hp Hs Hf Hpost; try (simpl in Hf; lia); cbn [extract].
  - rewrite !app_nil_l, app_nil_r, app_nil_r. destruct Hpost as [-> |[t ->]].
    + rewrite app_nil_r, Nat.ltb_irrefl. done.
    + assert ((length pre <? length (pre ++ ","%char :: t))%nat = true) as -> by (apply Nat.ltb_lt; rewrite length_app; simpl; lia).
      destruct (Nat.ltb_spec (length sub) (sub_size - 1)); cbn [andb]; [|done].
      rewrite <- app_comm_cons, lookup_middle. done.
  - apply Forall_cons in Hp as [[Hc1 Hc2] Hp]. cbn [length] in *.
    assert ((length pre <? length (pre ++ (c :: p) ++ post))%nat = true) as -> by (apply Nat.ltb_lt; rewrite !length_app; simpl; lia).
    assert ((length sub <? sub_size - 1)%nat = true) as -> by (apply Nat.ltb_lt; unfold sub_size; lia). cbn [andb].
    rewrite <- !app_comm_cons, lookup_middle. cbn [mbind option_bind]. rewrite (proj2 (Ascii.eqb_neq _ _) Hc1).
    fold (lower dolower c).
    pose proof (IH fuel (pre ++ [c]) post tail (sub ++ [lower dolower c]) Hp) as Hi.
    rewrite <- !app_assoc in Hi. cbn [app] in Hi. rewrite !length_app in Hi. cbn [length] in Hi.
    rewrite !(length_app pre). cbn [length].
    replace (S (length pre)) with (length pre + 1)%nat by lia. rewrite fmap_cons. apply Hi; [lia|lia|done].
Qed.

Lemma match_part dolower host p : part_ok p ->
  match_pattern (Some host) (Some (cstr (lower dolower <$> body p))) MAX_MATCH_RECURSION =
    bool_decide (part_matches dolower host p).
Proof.
  intros (Hc & _ & _ & Hr). rewrite cstr_lower by done. unfold match_pattern, part_matches.
  case_bool_decide as Hm.
  - apply match_from_complete; [|done]. by rewrite star_runs_lower.
  - apply not_true_is_false. intros Ht. by apply Hm, (match_from_sound MAX_MATCH_RECURSION).
Qed.

Lemma verdict_cons dolower host got p ps :
  verdict dolower host got (p :: ps) =
    if bool_decide (part_matches dolower host p) then
      if negated p then -1 else verdict dolower host 1 ps
    else verdict dolower host got ps.
Proof.
  unfold verdict. rewrite !(decide_ext _ _ _ _ (Exists_cons _ _ _)). rewrite <- decide_bool_decide.
  destruct (decide (part_matches dolower host p)) as [Hm|Hm]; destruct (negated p) eqn:En;
    destruct (decide (Exists (fun p => negated p = true /\ part_matches dolower host p) ps));
    destruct (decide (Exists (fun p => negated p = false /\ part_matches dolower host p) ps));
    repeat case_decide; try done; exfalso; intuition congruence.
Qed.

(** The first character of a list that starts with this part. *)
Lemma first_char p rest : part_ok p -> print_part p ++ rest <> [] -> (rest = [] \/ exists t, rest = ","%char :: t) ->
  exists c t, print_part p ++ rest = c :: t /\ Ascii.eqb c "!"%char = negated p.
Proof.
  intros (_ & Hh & _) Hne Hr. unfold print_part in *. destruct (negated p); [by eexists _, _|]. specialize (Hh eq_refl).
  cbn [app] in *. destruct (body p) as [|c b]; cbn [app head] in *.
  - destruct Hr as [-> |[t ->]]; [done|]. by eexists _, _.
  - eexists _, _. split; [reflexivity|]. apply Ascii.eqb_neq. congruence.
Qed.

(** The comma after a part, and the rest of the list. *)
Definition separator (ps : list part) : list ascii := match ps with [] => [] | _ => [","%char] end.

Lemma join_cons p ps : join (p :: ps) = print_part p ++ separator ps ++ join ps.
Proof. done. Qed.

Lemma rest_shape ps : separator ps ++ join ps = [] \/ exists t, separator ps ++ join ps = ","%char :: t.
Proof. destruct ps; [by left|right; by eexists]. Qed.

(** Skipping the comma. *)
Lemma skip_separator pre ps tail :
  (if (length pre <? length (pre ++ separator ps ++ join ps))%nat
   then c ← (pre ++ separator ps ++ join ps ++ tail) !! length pre;
        Some (if Ascii.eqb c ","%char then S (length pre) else length pre)
   else Some (length pre)) = Some (length (pre ++ separator ps)).
Proof.
  destruct ps as [|p ps]; cbn [separator app].
  - cbn [join]. by rewrite app_nil_r, Nat.ltb_irrefl.
  - rewrite (proj2 (Nat.ltb_lt _ _)) by (rewrite length_app; simpl; lia).
    rewrite lookup_middle. cbn [mbind option_bind]. rewrite length_app. simpl. f_equal. lia.
Qed.

Lemma list_loop_spec dolower host ps : forall fuel pre tail got,
  list_ok ps -> (length (join ps) < fuel)%nat ->
  list_loop fuel (Some host) (pre ++ join ps ++ tail) (length (pre ++ join ps)) (length pre) dolower got =
    Some (verdict dolower host got ps).
Proof.
  induction ps as [|p ps IH]; intros [|fuel] pre tail got [Hok Hlast] Hf; try lia; cbn [list_loop].
  { cbn [join app]. by rewrite app_nil_r, Nat.ltb_irrefl. }
  apply Forall_cons in Hok as [Hp Hok]. pose proof Hp as (Hc & _ & Hlen & _).
  assert (list_ok ps) as Hps by (split; [done|]; destruct ps; [done|exact Hlast]).
  assert (print_part p ++ separator ps ++ join ps <> []) as Hne.
  { destruct ps; [cbn in Hlast; cbn; by rewrite app_nil_r|]. cbn. by intros []%app_eq_nil. }
  rewrite join_cons in *. destruct (first_char p _ Hp Hne (rest_shape ps)) as (c & t & Ht & Hneg).
  assert ((length pre <? length (pre ++ print_part p ++ separator ps ++ join ps))%nat = true) as ->
    by (apply Nat.ltb_lt; rewrite Ht, length_app; simpl; lia).
  assert ((pre ++ (print_part p ++ separator ps ++ join ps) ++ tail) !! length pre = Some c) as ->
    by (rewrite Ht; apply lookup_middle).
  cbn [mbind option_bind]. rewrite Hneg.
  set (pre1 := pre ++ (if negated p then ["!"%char] else [])).
  assert ((if negated p then S (length pre) else length pre) = length pre1) as ->
    by (unfold pre1; rewrite length_app; destruct (negated p); simpl; lia).
  assert (pre ++ (print_part p ++ separator ps ++ join ps) ++ tail =
    pre1 ++ body p ++ (separator ps ++ join ps) ++ tail) as Htext
    by (unfold pre1, print_part; by rewrite <- !app_assoc).
  assert (pre ++ print_part p ++ separator ps ++ join ps = pre1 ++ body p ++ separator ps ++ join ps) as Htext1
    by (unfold pre1, print_part; by rewrite <- !app_assoc).
  rewrite Htext, Htext1, extract_spec by first [done | simpl; lia | apply rest_shape | rewrite !length_app; lia].
  cbn [mbind option_bind]. rewrite app_nil_l.
  destruct (Nat.leb_spec (sub_size - 1) (length (lower dolower <$> body p))) as [Hbig|_];
    [rewrite length_fmap in Hbig; unfold sub_size in Hbig; lia|].
  set (pre2 := pre1 ++ body p).
  replace (pre1 ++ body p ++ (separator ps ++ join ps) ++ tail) with (pre2 ++ separator ps ++ join ps ++ tail)
    by (unfold pre2; by rewrite <- !app_assoc).
  replace (pre1 ++ body p ++ separator ps ++ join ps) with (pre2 ++ separator ps ++ join ps)
    by (unfold pre2; by rewrite <- !app_assoc).
  rewrite skip_separator. cbn [mbind option_bind]. rewrite match_part, verdict_cons by done.
  assert (length (join ps) < fuel)%nat as Hf'.
  { assert (0 < length (print_part p ++ separator ps))%nat; [|rewrite !length_app in *; lia].
    destruct ps; [|rewrite !length_app; simpl; lia]. cbn in Hlast |- *. rewrite app_nil_r. by destruct (print_part p); [|simpl; lia]. }
  rewrite (app_assoc pre2 (separator ps) (join ps)), (app_assoc pre2 (separator ps) (join ps ++ tail)).
  rewrite !IH by done. by destruct (bool_decide _), (negated p).
Qed.

(** ** The theorems *)

(** C34. match_pattern against the meaning of patterns. It never accepts a string that
    the pattern does not describe (a star for any characters, a question mark for
    one), whatever the recursion limit; and it accepts every string the pattern
    describes when the limit is above the number of runs of stars that something
    follows. With the limit 32 of the code, patterns with up to 31 such runs are
    decided exactly. *)
Theorem match_pattern_correct (s pattern : list ascii) (limit : nat) :
  (match_pattern (Some s) (Some pattern) limit = true -> matches pattern s) /\
  ((star_runs pattern < limit)%nat -> matches pattern s -> match_pattern (Some s) (Some pattern) limit = true).
Proof. split; [apply match_from_sound|apply match_from_complete]. Qed.

Lemma match_pattern_correct_witness :
  matches (lit "*.exa?ple.*") (lit "www.example.org") /\
  match_pattern (Some (lit "www.example.org")) (Some (lit "*.exa?ple.*")) MAX_MATCH_RECURSION = true.
Proof.
  assert (matches (lit "*.exa?ple.*") (lit "www.example.org")) as Hm
    by (apply (bool_decide_unpack _); vm_compute; exact I).
  split; [exact Hm|].
  apply (proj2 (match_pattern_correct (lit "www.example.org") (lit "*.exa?ple.*") MAX_MATCH_RECURSION)); [|exact Hm].
  vm_compute. lia.
Defined.

(** match_hostname and match_pattern_list on a list of patterns separated by
    commas, some negated by an exclamation mark: when a negated pattern of the list
    matches the host the result is -1 wherever it stands in the list, otherwise it is
    1 when some pattern matches and 0 when none does; upper case letters of the
    patterns are folded first. No character outside the list is read. *)
Theorem match_pattern_list_correct (ps : list part) (host tail : list ascii) (dolower : bool) :
  list_ok ps ->
  match_pattern_list (Some host) (join ps ++ tail) (length (join ps)) dolower = Some (verdict dolower host 0 ps) /\
  match_hostname (Some host) (join ps ++ tail) (length (join ps)) = Some (verdict true host 0 ps).
Proof.
  intros Hok. unfold match_hostname, match_pattern_list. split; apply (list_loop_spec _ host ps _ []); [done|lia|done|lia].
Qed.

Definition sample_list : list part := [Part false (lit "*.Example.org"); Part true (lit "bad.*"); Part false (lit "host?")].

Lemma match_pattern_list_correct_witness :
  join sample_list = lit "*.Example.org,!bad.*,host?" /\
  match_hostname (Some (lit "www.example.org")) (join sample_list ++ [NUL]) 26 = Some 1 /\
  match_hostname (Some (lit "bad.example.org")) (join sample_list ++ [NUL]) 26 = Some (-1).
Proof.
  assert (list_ok sample_list) as Hok.
  { split; [|done]. repeat apply Forall_cons_2; try apply Forall_nil_2;
      (split; [apply (bool_decide_unpack _); vm_compute; exact I|split; [done|split; vm_compute; lia]]). }
  split; [reflexivity|]. change 26%nat with (length (join sample_list)). split.
  - rewrite (proj2 (match_pattern_list_correct sample_list (lit "www.example.org") [NUL] true Hok)). vm_compute. reflexivity.
  - rewrite (proj2 (match_pattern_list_correct sample_list (lit "bad.example.org") [NUL] true Hok)). vm_compute. reflexivity.
Defined.
