(* ===== verification/SshToken.v ===== *)
(** * libssh/src/token.c: lists of names in a string

    The negotiation of algorithms works on strings of names separated by commas.
    Blocks are buffers and pointers into them offsets; a read or write outside a block
    is [Undef]. The allocations and the blocks given back are those of the state of
    the buffers. NULL is [None]. *)

From S2P Require Import Prelude Utils Bytes SshString SshBuffer.

(** The C string at an offset of a block. *)
Definition string_at (block : buffer) (off : nat) : M bstate (list ascii) := mem (buffer_string (drop off block)).

(** strchr: the index of the first occurrence; the NUL is part of the string. *)
Fixpoint strchr (s : list ascii) (c : ascii) : option nat :=
  match s with
  | [] => if Ascii.eqb c NUL then Some O else None
  | x :: s => if Ascii.eqb x c then Some O else S <$> strchr s c
  end.

(** struct ssh_tokens_st: the block, and the pointers before the NULL of the array. *)
Record ssh_tokens := SshTokens { tbuffer : option buffer; tokens : option (list nat) }.

(** for (i = 0; tokens->tokens[i] != NULL; i++) explicit_bzero(...); the int i counts the
    tokens of a list that is in memory, fewer than INT_MAX. *)
Fixpoint burn_tokens (block : buffer) (toks : list nat) : M bstate buffer :=
  match toks with
  | [] => mret block
  | t :: toks =>
      s ← string_at block t;
      block ← mem (bzero block t (length s));
      burn_tokens block toks
  end.

Definition ssh_tokens_free (toks : option ssh_tokens) : M bstate unit :=
  match toks with
  | None => mret tt
  | Some t =>
      match tbuffer t, tokens t with
      | Some block, Some l => block ← burn_tokens block l; release block
      | Some block, None => release block
      | None, Some (_ :: _) => undef
      | None, _ => mret tt
      end
  end.

Section Tokens.
Context (oom : nat -> bool).

(** do { found = strchr(c, separator); ... } while (found != NULL); *)
Fixpoint count_loop (fuel : nat) (block : buffer) (c : nat) (separator : ascii) (num_tokens : nat) : M bstate nat :=
  match fuel with
  | O => no_fuel
  | S fuel =>
      s ← string_at block c;
      match strchr s separator with
      | Some found => count_loop fuel block (c + found + 1) separator (S num_tokens)
      | None => mret num_tokens
      end
  end.

(** for (i = 1; i < num_tokens; i++): [n] is num_tokens - i. *)
Fixpoint fill_loop (n : nat) (block : buffer) (c : nat) (separator : ascii) (toks : list nat) : M bstate (buffer * list nat) :=
  match n with
  | O => mret (block, toks)
  | S n =>
      s ← string_at block c;
      match strchr s separator with
      | None => mret (block, toks)
      | Some found =>
          block ← mem (blit block (c + found) [Some NUL]);
          let c := (c + found + 1)%nat in
          next ← mem (mjoin (block !! c));
          if negb (Ascii.eqb next NUL) then fill_loop n block c separator (toks ++ [c])
          else mret (block, toks)
      end
  end.

Definition ssh_tokenize (chain : option (list ascii)) (separator : ascii) : M bstate (option ssh_tokens) :=
  match chain with
  | None => mret None
  | Some chain =>
      ok ← malloc_ok oom;
      if negb (ok : bool) then mret None
      else
        ok ← malloc_ok oom;
        if negb (ok : bool) then _ ← ssh_tokens_free (Some (SshTokens None None)); mret None
        else
          let block := (Some <$> chain) ++ [Some NUL] in
          num_tokens ← count_loop (S (length chain)) block 0 separator 1;
          ok ← malloc_ok oom;
          if negb (ok : bool) then _ ← ssh_tokens_free (Some (SshTokens (Some block) None)); mret None
          else
            r ← fill_loop (num_tokens - 1) block 0 separator [0%nat];
            mret (Some (SshTokens (Some r.1) (Some r.2)))
  end.

(** The block and the pointers of a list that is not NULL. *)
Definition token_list (t : option ssh_tokens) : M bstate (buffer * list nat) :=
  match t with
  | Some (SshTokens (Some block) (Some toks)) => mret (block, toks)
  | _ => undef
  end.

(** ** ssh_find_matching *)

(** The inner loop: the available token equal to [p]. *)
Fixpoint find_available (a_block : buffer) (a_toks : list nat) (p : list ascii) : M bstate (option (list ascii)) :=
  match a_toks with
  | [] => mret None
  | j :: a_toks =>
      a ← string_at a_block j;
      if bool_decide (a = p) then mret (Some a) else find_available a_block a_toks p
  end.

Fixpoint find_preferred (a_block : buffer) (a_toks : list nat) (p_block : buffer) (p_toks : list nat) : M bstate (option (list ascii)) :=
  match p_toks with
  | [] => mret None
  | i :: p_toks =>
      p ← string_at p_block i;
      r ← find_available a_block a_toks p;
      match r with
      | Some a => mret (Some a)
      | None => find_preferred a_block a_toks p_block p_toks
      end
  end.

(** strdup *)
Definition strdup (s : list ascii) : M bstate (option buffer) :=
  ok ← malloc_ok oom;
  mret (if ok : bool then Some ((Some <$> s) ++ [Some NUL]) else None).

Definition ssh_find_matching (available_list preferred_list : option (list ascii)) : M bstate (option buffer) :=
  match available_list, preferred_list with
  | Some _, Some _ =>
      a_tok ← ssh_tokenize available_list ","%char;
      match a_tok with
      | None => mret None
      | Some _ =>
          p_tok ← ssh_tokenize preferred_list ","%char;
          ret ← match p_tok with
                | None => mret None
                | Some _ =>
                    a ← token_list a_tok;
                    p ← token_list p_tok;
                    r ← find_preferred a.1 a.2 p.1 p.2;
                    match r with Some s => strdup s | None => mret None end
                end;
          _ ← ssh_tokens_free a_tok;
          _ ← ssh_tokens_free p_tok;
          mret ret
      end
  | _, _ => mret None
  end.

(** ** ssh_find_all_matching *)

(** The inner loop: copies of the available tokens equal to [p], at [pos]. *)
Fixpoint copy_matches (a_block : buffer) (a_toks : list nat) (p : list ascii) (ret : buffer) (pos : nat) : M bstate (buffer * nat) :=
  match a_toks with
  | [] => mret (ret, pos)
  | j :: a_toks =>
      a ← string_at a_block j;
      if bool_decide (a = p) then
        r ← (if negb (pos =? 0)%nat then ret ← mem (blit ret pos [Some ","%char]); mret (ret, S pos) else mret (ret, pos));
        let '(ret, pos) := r in
        ret ← mem (blit ret pos (Some <$> a));
        let pos := (pos + length a)%nat in
        ret ← mem (blit ret pos [Some NUL]);
        copy_matches a_block a_toks p ret pos
      else copy_matches a_block a_toks p ret pos
  end.

Fixpoint copy_preferred (a_block : buffer) (a_toks : list nat) (p_block : buffer) (p_toks : list nat) (ret : buffer) (pos : nat) : M bstate (buffer * nat) :=
  match p_toks with
  | [] => mret (ret, pos)
  | i :: p_toks =>
      p ← string_at p_block i;
      r ← copy_matches a_block a_toks p ret pos;
      copy_preferred a_block a_toks p_block p_toks r.1 r.2
  end.

Definition ssh_find_all_matching (available_list preferred_list : option (list ascii)) : M bstate (option buffer) :=
  match available_list, preferred_list with
  | Some av, Some pr =>
      let max := Nat.max (length av) (length pr) in
      ok ← malloc_ok oom;
      if negb (ok : bool) then mret None
      else
        let ret := replicate (max + 1) (Some NUL) in
        a_tok ← ssh_tokenize available_list ","%char;
        match a_tok with
        | None => _ ← release ret; mret None
        | Some _ =>
            p_tok ← ssh_tokenize preferred_list ","%char;
            ret ← match p_tok with
                  | None => _ ← release ret; mret None
                  | Some _ =>
                      a ← token_list a_tok;
                      p ← token_list p_tok;
                      r ← copy_preferred a.1 a.2 p.1 p.2 ret 0;
                      first ← mem (mjoin (r.1 !! 0%nat));
                      if Ascii.eqb first NUL then _ ← release r.1; mret None else mret (Some r.1)
                  end;
            _ ← ssh_tokens_free a_tok;
            _ ← ssh_tokens_free p_tok;
            mret ret
        end
  | _, _ => mret None
  end.

(** ** ssh_remove_duplicates *)

(** for (j = 0; j < i; j++): whether the string is one of the tokens before it. *)
Fixpoint seen_before (block : buffer) (before : list nat) (s : list ascii) : M bstate bool :=
  match before with
  | [] => mret false
  | j :: before => t ← string_at block j; if bool_decide (s = t) then mret true else seen_before block before s
  end.

(** The loop over i: the flags written into should_copy, of [size] elements. *)
Fixpoint copy_flags (block : buffer) (size : nat) (before toks : list nat) (flags : list bool) : M bstate (list bool) :=
  match toks with
  | [] => mret flags
  | i :: toks =>
      s ← string_at block i;
      dup ← seen_before block before s;
      if (length flags <? size)%nat
      then copy_flags block size (before ++ [i]) toks (flags ++ [negb dup && (0 <? length s)%nat])
      else undef
  end.

(** strncat(ret, s, n) *)
Definition strncat (ret : buffer) (s : list ascii) (n : Z) : M bstate buffer :=
  r ← mem (buffer_string ret);
  mem (blit ret (length r) ((Some <$> take (Z.to_nat n) s) ++ [Some NUL])).

Fixpoint copy_tokens (block : buffer) (max_len : Z) (toks : list nat) (flags : list bool) (ret : buffer) (need_comma : bool)
  : M bstate (buffer * bool) :=
  match toks, flags with
  | t :: toks, f :: flags =>
      if f : bool then
        ret ← (if need_comma
               then r ← mem (buffer_string ret); strncat ret [","%char] (wrap_u64 (max_len - Z.of_nat (length r) - 1))
               else mret ret);
        r ← mem (buffer_string ret);
        s ← string_at block t;
        ret ← strncat ret s (wrap_u64 (max_len - Z.of_nat (length r) - 1));
        copy_tokens block max_len toks flags ret true
      else copy_tokens block max_len toks flags ret need_comma
  | _, _ => mret (ret, need_comma)
  end.

Definition ssh_remove_duplicates (list : option (list ascii)) : M bstate (option buffer) :=
  match list with
  | None => mret None
  | Some l =>
      if (length l =? 0)%nat then mret None
      else
        let max_len := (length l + 1)%nat in
        tok ← ssh_tokenize list ","%char;
        match tok with
        | None => mret None
        | Some _ =>
            t ← token_list tok;
            let '(block, toks) := t in
            ret ← match toks with
                  | [] => mret None
                  | t0 :: rest =>
                      ok ← malloc_ok oom;
                      if negb (ok : bool) then mret None
                      else
                        s0 ← string_at block t0;
                        flags ← copy_flags block max_len [t0] rest [(0 <? length s0)%nat];
                        ok ← malloc_ok oom;
                        if negb (ok : bool) then mret None
                        else
                          r ← copy_tokens block (Z.of_nat max_len) toks flags (replicate max_len (Some NUL)) false;
                          if negb (r.2 : bool) then _ ← release r.1; mret None else mret (Some r.1)
                  end;
            _ ← ssh_tokens_free tok;
            mret ret
        end
  end.

(** concat_len - strlen(concat) - 1 *)
Definition room (concat_len : nat) (concat : buffer) : M bstate Z :=
  r ← mem (buffer_string concat);
  mret (wrap_u64 (Z.of_nat concat_len - Z.of_nat (length r) - 1)).

(** The two if statements of ssh_append_without_duplicates. *)
Definition copy_first (concat_len : nat) (l : option (list ascii)) (concat : buffer) : M bstate buffer :=
  match l with
  | Some l =>
      concat ← mem (blit concat 0 ((Some <$> l) ++ [Some NUL]));
      n ← room concat_len concat;
      strncat concat [","%char] n
  | None => mret concat
  end.

Definition copy_second (concat_len : nat) (l : option (list ascii)) (concat : buffer) : M bstate buffer :=
  match l with
  | Some l => n ← room concat_len concat; strncat concat l n
  | None => mret concat
  end.

Definition ssh_append_without_duplicates (list appended_list : option (Datatypes.list ascii)) : M bstate (option buffer) :=
  let concat_len := (strlen_opt list + strlen_opt appended_list)%nat in
  if (concat_len =? 0)%nat then mret None
  else
    let concat_len := (concat_len + 2)%nat in
    ok ← malloc_ok oom;
    if negb (ok : bool) then mret None
    else
      concat ← copy_first concat_len list (replicate concat_len (Some NUL));
      concat ← copy_second concat_len appended_list concat;
      text ← mem (buffer_string concat);
      ret ← ssh_remove_duplicates (Some text);
      _ ← release concat;
      mret ret.
End Tokens.
