(* ===== verification/SshTokenThms.v ===== *)
(** * Theorems on lists of names *)

From S2P Require Import Prelude Utils Bytes SshString SshBuffer SshQueue SshToken.

(** ** Splitting a string *)
Fixpoint split (sep : ascii) (s : list ascii) : list (list ascii) :=
  match s with
  | [] => [[]]
  | c :: s =>
      if Ascii.eqb c sep then [] :: split sep s
      else match split sep s with h :: t => (c :: h) :: t | [] => [] end
  end.

(** The tokens: the parts of the string, without an empty last one after others. *)
Definition tokens_of (sep : ascii) (s : list ascii) : list (list ascii) :=
  match split sep s with
  | [t] => [t]
  | ts => match last ts with Some [] => removelast ts | _ => ts end
  end.

Section Split.
Context (sep : ascii).

(** Induction on the part before the first separator. *)
Lemma cut_ind (P : list ascii -> Prop) :
  (forall s, sep ∉ s -> P s) -> (forall h t, sep ∉ h -> P t -> P (h ++ sep :: t)) -> forall s, P s.
Proof.
  intros Hbase Hcut s. remember (length s) as n eqn:Hn. revert s Hn.
  induction n as [n IH] using lt_wf_ind. intros s ->.
  destruct (decide (sep ∈ s)) as [Hin|]; [|by apply Hbase].
  assert (exists h t, s = h ++ sep :: t /\ sep ∉ h) as (h & t & -> & Hh).
  { clear IH. induction s as [|c s IH]; [by apply elem_of_nil in Hin|]. destruct (decide (c = sep)) as [-> |Hne].
    - exists [], s. split; [done|apply not_elem_of_nil].
    - apply elem_of_cons in Hin as [|Hin]; [congruence|]. destruct (IH Hin) as (h & t & -> & Hh).
      exists (c :: h), t. split; [done|]. by apply not_elem_of_cons. }
  apply Hcut; [done|]. eapply IH; [|reflexivity]. rewrite length_app. simpl. lia.
Qed.

Lemma split_none s : sep ∉ s -> split sep s = [s].
Proof.
  induction s as [|c s IH]; intros Hs; [done|]. apply not_elem_of_cons in Hs as [Hc Hs]. cbn [split].
  rewrite (proj2 (Ascii.eqb_neq _ _)) by congruence. by rewrite IH.
Qed.

Lemma split_cut h t : sep ∉ h -> split sep (h ++ sep :: t) = h :: split sep t.
Proof.
  induction h as [|c h IH]; intros Hs; cbn [app split]; [by rewrite Ascii.eqb_refl|].
  apply not_elem_of_cons in Hs as [Hc Hs]. rewrite (proj2 (Ascii.eqb_neq _ _)) by congruence. by rewrite IH.
Qed.

Lemma split_app h t : split sep (h ++ sep :: t) = split sep h ++ split sep t.
Proof.
  induction h as [s Hs|a b Ha IH] using cut_ind; [by rewrite (split_none s), split_cut|].
  rewrite <- app_assoc. cbn [app]. by rewrite (split_cut a (b ++ sep :: t)), (split_cut a b), IH.
Qed.

Lemma split_not_nil s : split sep s <> [].
Proof. induction s as [s Hs|h t Hh IH] using cut_ind; [by rewrite split_none|by rewrite split_cut]. Qed.

Lemma tokens_none s : sep ∉ s -> tokens_of sep s = [s].
Proof. intros Hs. unfold tokens_of. by rewrite split_none. Qed.

Lemma split_nil_inv s : split sep s = [[]] -> s = [].
Proof.
  induction s as [s Hs|h t Hh IH] using cut_ind; [rewrite split_none by done; congruence|].
  rewrite split_cut by done. intros [= _ H]. by apply split_not_nil in H.
Qed.

Lemma tokens_cut h t : sep ∉ h ->
  tokens_of sep (h ++ sep :: t) = h :: match t with [] => [] | _ => tokens_of sep t end.
Proof.
  intros Hh. unfold tokens_of at 1. rewrite split_cut by done. pose proof (split_not_nil t) as Hne.
  destruct (split sep t) as [|a ts] eqn:E; [done|]. destruct (decide (t = [])) as [-> |Ht]; [by injection E as <- <-|].
  replace (match t with [] => [] | _ => tokens_of sep t end) with (tokens_of sep t) by by destruct t.
  unfold tokens_of. rewrite E. destruct ts as [|b ts]; [|by cbn; destruct (last (b :: ts)) as [[|]|]].
  cbn. destruct a; [|done]. by apply split_nil_inv in E.
Qed.

(** The characters that take up a list of tokens, each with a separator. *)
Definition width (ts : list (list ascii)) : nat := sum_list_with (fun t => S (length t)) ts.

Lemma width_tokens s : (width (tokens_of sep s) <= S (length s))%nat.
Proof.
  induction s as [s Hs|h t Hh IH] using cut_ind.
  - rewrite tokens_none by done. cbn. lia.
  - rewrite tokens_cut, length_app by done. cbn [length]. destruct t; cbn [width sum_list_with] in *; [lia|].
    unfold width in *. lia.
Qed.

Lemma width_sublist ts us : sublist ts us -> (width ts <= width us)%nat.
Proof. unfold width. induction 1; cbn; lia. Qed.

(** The length of the array of flags is enough. *)
Lemma count_tokens s : s <> [] -> (length (tokens_of sep s) <= length s)%nat.
Proof.
  induction s as [s Hs|h t Hh IH] using cut_ind; intros Hne.
  - rewrite tokens_none by done. destruct s; [done|simpl; lia].
  - rewrite tokens_cut, length_app by done. cbn [length]. destruct t as [|c t]; cbn [length] in *; [lia|].
    specialize (IH ltac:(done)). lia.
Qed.
End Split.

(** ** Tokenizing *)
Section Tokenize.
Context (sep : ascii).
Hypothesis Hsep : sep <> NUL.

(** The block once the separators are replaced. *)
Definition nulled (s : list ascii) : buffer := Some <$> ((fun c => if Ascii.eqb c sep then NUL else c) <$> s).

(** The offsets of the tokens after the first one. *)
Fixpoint after (base : nat) (s : list ascii) : list nat :=
  match s with
  | [] => []
  | c :: s =>
      if Ascii.eqb c sep then match s with [] => [] | _ => S base :: after (S base) s end
      else after (S base) s
  end.

Lemma after_none base s : sep ∉ s -> after base s = [].
Proof.
  revert base. induction s as [|c s IH]; intros base Hs; [done|]. apply not_elem_of_cons in Hs as [Hc Hs]. cbn [after].
  rewrite (proj2 (Ascii.eqb_neq _ _)) by congruence. by apply IH.
Qed.

Lemma after_cut base h t : sep ∉ h ->
  after base (h ++ sep :: t) = match t with [] => [] | _ => (base + length h + 1)%nat :: after (base + length h + 1) t end.
Proof.
  revert base. induction h as [|c h IH]; intros base Hs; cbn [app after length].
  - rewrite Ascii.eqb_refl, Nat.add_0_r, Nat.add_1_r. done.
  - apply not_elem_of_cons in Hs as [Hc Hs]. rewrite (proj2 (Ascii.eqb_neq _ _)) by congruence. rewrite IH by done.
    by replace (base + S (length h))%nat with (S base + length h)%nat by lia.
Qed.

Lemma nulled_none s : sep ∉ s -> nulled s = Some <$> s.
Proof.
  intros Hs. unfold nulled. f_equal. induction s as [|c s IH]; [done|]. apply not_elem_of_cons in Hs as [Hc Hs].
  rewrite fmap_cons, IH by done. by rewrite (proj2 (Ascii.eqb_neq _ _)) by congruence.
Qed.

Lemma nulled_cut h t : sep ∉ h -> nulled (h ++ sep :: t) = (Some <$> h) ++ Some NUL :: nulled t.
Proof.
  intros Hh. unfold nulled. rewrite fmap_app, fmap_app. fold (nulled h). rewrite nulled_none by done.
  rewrite !fmap_cons, Ascii.eqb_refl. done.
Qed.

Lemma strchr_none s : sep ∉ s -> strchr s sep = None.
Proof.
  induction s as [|c s IH]; intros Hs; cbn [strchr]; [by rewrite (proj2 (Ascii.eqb_neq _ _))|].
  apply not_elem_of_cons in Hs as [Hc Hs]. rewrite (proj2 (Ascii.eqb_neq _ _)) by congruence. by rewrite IH.
Qed.

Lemma strchr_cut h t : sep ∉ h -> strchr (h ++ sep :: t) sep = Some (length h).
Proof.
  induction h as [|c h IH]; intros Hs; cbn [app strchr]; [by rewrite Ascii.eqb_refl|].
  apply not_elem_of_cons in Hs as [Hc Hs]. rewrite (proj2 (Ascii.eqb_neq _ _)) by congruence. by rewrite IH.
Qed.

Lemma string_at_pre (pre : buffer) w rest s : no_nul w ->
  string_at (pre ++ (Some <$> w) ++ Some NUL :: rest) (length pre) s = Ret w s.
Proof.
  intros Hw. unfold string_at. by rewrite drop_app_length, buffer_string_full, cstr_id.
Qed.

Lemma no_nul_app a b : no_nul (a ++ b) <-> no_nul a /\ no_nul b.
Proof. apply Forall_app. Qed.

(** The number of separators. *)
Definition seps (s : list ascii) : nat := length (filter (fun c => c = sep) s).

Lemma seps_none s : sep ∉ s -> seps s = O.
Proof.
  intros Hs. unfold seps. induction s as [|c s IH]; [done|]. apply not_elem_of_cons in Hs as [Hc Hs].
  rewrite filter_cons_False by congruence. by apply IH.
Qed.

Lemma seps_cut h t : sep ∉ h -> seps (h ++ sep :: t) = S (seps t).
Proof.
  intros Hh. unfold seps. rewrite filter_app, length_app. fold (seps h). rewrite seps_none by done.
  by rewrite filter_cons_True.
Qed.

(** The text after a separator, as the part of the block behind [pre]. *)
Lemma cut_block (pre : buffer) h t x :
  pre ++ (Some <$> h ++ x :: t) ++ [Some NUL] = (pre ++ (Some <$> h) ++ [Some x]) ++ (Some <$> t) ++ [Some NUL].
Proof. by rewrite fmap_app, fmap_cons, <- !app_assoc. Qed.

Lemma count_loop_spec s : forall fuel pre num st, no_nul s -> (length s < fuel)%nat ->
  count_loop fuel (pre ++ (Some <$> s) ++ [Some NUL]) (length pre) sep num st = Ret (num + seps s)%nat st.
Proof.
  induction s as [s Hs|h t Hh IH] using (cut_ind sep); intros [|fuel] pre num st Hn Hf; try lia; cbn [count_loop];
    rewrite (bind_ret_eq _ _ _ _ _ (string_at_pre pre _ [] st Hn)).
  - rewrite strchr_none, seps_none by done. by rewrite Nat.add_0_r.
  - rewrite strchr_cut, seps_cut by done. apply no_nul_app in Hn as [_ Hn]. apply Forall_cons in Hn as [_ Hn].
    rewrite length_app in Hf. cbn [length] in Hf. rewrite cut_block.
    replace (length pre + length h + 1)%nat with (length (pre ++ (Some <$> h) ++ [Some sep]))
      by (rewrite !length_app, length_fmap; simpl; lia).
    rewrite IH by (done || lia). f_equal. lia.
Qed.

Lemma fill_loop_spec s : forall pre toks st, no_nul s ->
  fill_loop (seps s) (pre ++ (Some <$> s) ++ [Some NUL]) (length pre) sep toks st =
    Ret (pre ++ nulled s ++ [Some NUL], toks ++ after (length pre) s) st.
Proof.
  induction s as [s Hs|h t Hh IH] using (cut_ind sep); intros pre toks st Hn.
  { rewrite seps_none, nulled_none, after_none, app_nil_r by done. done. }
  rewrite seps_cut, nulled_cut, after_cut by done. cbn [fill_loop].
  rewrite (bind_ret_eq _ _ _ _ _ (string_at_pre pre _ [] st Hn)), strchr_cut by done.
  apply no_nul_app in Hn as [_ Hn]. apply Forall_cons in Hn as [_ Hn].
  assert (blit (pre ++ (Some <$> h ++ sep :: t) ++ [Some NUL]) (length pre + length h) [Some NUL] =
    Some ((pre ++ (Some <$> h) ++ [Some NUL]) ++ (Some <$> t) ++ [Some NUL])) as ->.
  { pose proof (blit_app (pre ++ (Some <$> h)) [Some sep] ((Some <$> t) ++ [Some NUL]) [Some NUL] eq_refl) as Hb.
    rewrite length_app, length_fmap in Hb. rewrite cut_block. rewrite <- !app_assoc in Hb. rewrite <- !app_assoc. exact Hb. }
  cbn [mem]. rewrite (bind_ret_eq (mret _) _ st _ st eq_refl). cbn zeta.
  set (pre' := pre ++ (Some <$> h) ++ [Some NUL]).
  assert (length pre + length h + 1 = length pre')%nat as ->
    by (unfold pre'; rewrite !length_app, length_fmap; simpl; lia).
  assert (pre ++ ((Some <$> h) ++ Some NUL :: nulled t) ++ [Some NUL] = pre' ++ nulled t ++ [Some NUL]) as ->
    by (unfold pre'; by rewrite <- !app_assoc).
  rewrite lookup_app_r, Nat.sub_diag by lia. destruct t as [|c t].
  - cbn. by rewrite app_nil_r.
  - rewrite fmap_cons. cbn [app lookup list_lookup mjoin option_join mbind option_bind mem].
    rewrite (bind_ret_eq (mret _) _ st _ st eq_refl). pose proof Hn as [Hc _]%Forall_cons.
    rewrite (proj2 (Ascii.eqb_neq _ _) Hc). cbn [negb].
    pose proof (IH pre' (toks ++ [length pre']) st Hn) as Hi. rewrite fmap_cons in Hi. cbn [app] in Hi. rewrite Hi.
    by rewrite <- app_assoc.
Qed.

(** Pointers and the strings they designate. *)
Definition token_strings (block : buffer) (toks : list nat) (ts : list (list ascii)) : Prop :=
  Forall2 (fun off t => buffer_string (drop off block) = Some t) toks ts.

Lemma strings_spec s : forall pre, no_nul s ->
  token_strings (pre ++ nulled s ++ [Some NUL]) (length pre :: after (length pre) s) (tokens_of sep s).
Proof.
  unfold token_strings. induction s as [s Hs|h t Hh IH] using (cut_ind sep); intros pre Hn.
  - rewrite after_none, nulled_none, tokens_none by done. constructor; [|constructor].
    by rewrite drop_app_length, buffer_string_full, cstr_id.
  - rewrite after_cut, nulled_cut, tokens_cut by done. apply no_nul_app in Hn as [Hnh Hn]. apply Forall_cons in Hn as [_ Hn].
    constructor.
    { by rewrite drop_app_length, <- app_assoc, <- app_comm_cons, buffer_string_full, cstr_id. }
    destruct t as [|c t]; [constructor|]. pose proof (IH (pre ++ (Some <$> h) ++ [Some NUL]) Hn) as Hi.
    rewrite !length_app, length_fmap, <- !app_assoc in Hi. cbn [length app] in Hi.
    rewrite <- app_assoc, <- app_comm_cons. by rewrite <- Nat.add_assoc.
Qed.

(** Every byte of the block is cleared. *)
Lemma burn_tokens_spec s : forall pre st, no_nul s ->
  burn_tokens (pre ++ nulled s ++ [Some NUL]) (length pre :: after (length pre) s) st =
    Ret (pre ++ replicate (S (length s)) (Some NUL)) st.
Proof.
  induction s as [s Hs|h t Hh IH] using (cut_ind sep); intros pre st Hn; cbn [burn_tokens].
  - rewrite nulled_none, after_none by done. rewrite (bind_ret_eq _ _ _ _ _ (string_at_pre pre _ [] st Hn)).
    pose proof (blit_app pre (Some <$> s) [Some NUL] (replicate (length s) (Some NUL))) as Hb. unfold bzero. rewrite Hb
      by by rewrite length_fmap, length_replicate.
    cbn. by rewrite <- replicate_S_end.
  - rewrite nulled_cut, after_cut by done. apply no_nul_app in Hn as [Hnh Hn]. apply Forall_cons in Hn as [_ Hn].
    rewrite <- app_assoc, <- app_comm_cons. rewrite (bind_ret_eq _ _ _ _ _ (string_at_pre pre _ _ st Hnh)).
    pose proof (blit_app pre (Some <$> h) (Some NUL :: nulled t ++ [Some NUL]) (replicate (length h) (Some NUL))) as Hb.
    unfold bzero. rewrite Hb by by rewrite length_fmap, length_replicate.
    cbn [mem]. rewrite (bind_ret_eq (mret _) _ st _ st eq_refl).
    assert (replicate (S (length (h ++ sep :: t))) (Some NUL) =
      replicate (length h) (Some NUL) ++ Some NUL :: replicate (S (length t)) (Some NUL)) as ->.
    { rewrite length_app. cbn [length]. rewrite <- Nat.add_succ_r, replicate_add. done. }
    destruct t as [|c t]; [done|]. pose proof (IH (pre ++ replicate (length h) (Some NUL) ++ [Some NUL]) st Hn) as Hi.
    rewrite !length_app, length_replicate, <- !app_assoc in Hi. cbn [length app] in Hi.
    rewrite <- Nat.add_assoc. exact Hi.
Qed.

(** The result of ssh_tokenize. *)
Definition tokenized (s : list ascii) : ssh_tokens := SshTokens (Some (nulled s ++ [Some NUL])) (Some (0%nat :: after 0 s)).

Lemma tokenize_spec oom s st : no_nul s ->
  returns (ssh_tokenize oom (Some s) sep) st (fun r _ => r = Some (tokenized s) \/ (r = None /\ may_fail oom)).
Proof.
  intros Hn. unfold ssh_tokenize. buf_steps. destruct (oom (mcalls st)) eqn:Ho1; cbn [negb]; buf_steps.
  { right. split; [done|by eexists]. }
  destruct (oom (S (mcalls st))) eqn:Ho2; cbn [mcalls] in *; rewrite Ho2; cbn [negb]; buf_steps.
  { unfold ssh_tokens_free. cbn [tbuffer tokens]. buf_steps. right. split; [done|by eexists]. }
  unfold returns at 1. rewrite (count_loop_spec s (S (length s)) [] 1) by (done || lia). buf_steps.
  destruct (oom (S (S (mcalls st)))) eqn:Ho3; cbn [mcalls] in *; rewrite Ho3; cbn [negb]; buf_steps.
  { unfold ssh_tokens_free. cbn [tbuffer tokens]. buf_steps. right. split; [done|by eexists]. }
  replace (1 + seps s - 1)%nat with (seps s) by lia. unfold returns at 1.
  rewrite (fill_loop_spec s [] [0%nat]) by done. buf_steps. by left.
Qed.

Lemma tokens_free_spec s st : no_nul s ->
  ssh_tokens_free (Some (tokenized s)) st =
    Ret tt (BState (target st) (mcalls st) (freed st ++ [replicate (S (length s)) (Some NUL)])).
Proof.
  intros Hn. unfold ssh_tokens_free. cbn [tbuffer tokens tokenized].
  pose proof (burn_tokens_spec s [] st Hn) as Hb. cbn [app length] in Hb. by rewrite (bind_ret_eq _ _ _ _ _ Hb).
Qed.
End Tokenize.

(** ** Searching *)
Lemma token_strings_cons block off toks ts : token_strings block (off :: toks) ts ->
  exists t ts', ts = t :: ts' /\ (forall st, string_at block off st = Ret t st) /\ token_strings block toks ts'.
Proof.
  intros H. inversion H as [|? t ? ts' Ht Hr]; subst. exists t, ts'. split; [done|]. split; [|done].
  intros st. unfold string_at. by rewrite Ht.
Qed.

Section Search.
Context (a_block : buffer) (a_toks : list nat) (A : list (list ascii)).
Hypothesis HA : token_strings a_block a_toks A.

Lemma find_available_spec p st :
  find_available a_block a_toks p st = Ret (if decide (p ∈ A) then Some p else None) st.
Proof.
  clear -HA. revert A HA. induction a_toks as [|j toks IH]; intros A HA; cbn [find_available].
  { inversion HA. subst. by rewrite decide_False by apply not_elem_of_nil. }
  apply token_strings_cons in HA as (t & ts & -> & Ht & Hr). rewrite (bind_ret_eq _ _ _ _ _ (Ht st)).
  case_bool_decide as He.
  - subst t. by rewrite decide_True by left.
  - rewrite (IH ts Hr). do 2 f_equal. apply decide_ext. rewrite elem_of_cons. intuition congruence.
Qed.

(** The first preferred token that is available. *)
Definition best (prefs : list (list ascii)) : option (list ascii) := List.find (fun p => bool_decide (p ∈ A)) prefs.

Lemma find_preferred_spec p_block p_toks ps st : token_strings p_block p_toks ps ->
  find_preferred a_block a_toks p_block p_toks st = Ret (best ps) st.
Proof.
  revert ps. induction p_toks as [|i toks IH]; intros ps HP; cbn [find_preferred]; [by inversion HP|].
  apply token_strings_cons in HP as (t & ts & -> & Ht & Hr). rewrite (bind_ret_eq _ _ _ _ _ (Ht st)).
  rewrite (bind_ret_eq _ _ _ _ _ (find_available_spec t st)). unfold best. cbn [List.find].
  case_bool_decide; case_decide; try done. by apply IH.
Qed.
End Search.

(** ** Writing a list of tokens *)

(** Append a token to the text, with a comma unless the text is empty. *)
Definition put (out t : list ascii) : list ascii :=
  match out with [] => t | _ => out ++ ","%char :: t end.

Definition put_all (out : list ascii) (ts : list (list ascii)) : list ascii := foldl put out ts.

(** The block of [n] bytes with this text in it. *)
Definition text_block (n : nat) (out : list ascii) : buffer := (Some <$> out) ++ replicate (n - length out) (Some NUL).

Lemma length_put out t : (length (put out t) <= length out + S (length t))%nat.
Proof. destruct out; cbn [put]; rewrite ?length_app; simpl; lia. Qed.

Lemma put_longer out t : (length out <= length (put out t))%nat.
Proof. destruct out; cbn [put]; rewrite ?length_app; simpl; lia. Qed.

Lemma put_all_longer out ts : (length out <= length (put_all out ts))%nat.
Proof.
  revert out. induction ts as [|t ts IH]; intros out; [done|]. cbn. etransitivity; [apply (put_longer out t)|apply IH].
Qed.

Lemma length_put_all out ts : (length (put_all out ts) <= length out + width ts)%nat.
Proof.
  revert out. induction ts as [|t ts IH]; intros out; cbn; [lia|]. pose proof (IH (put out t)) as H.
  pose proof (length_put out t). unfold put_all, width in H |- *. lia.
Qed.

Lemma length_put_first ts : (length (put_all [] ts) <= width ts - 1)%nat.
Proof.
  destruct ts as [|t ts]; [done|]. cbn. pose proof (length_put_all t ts). unfold put_all, width in *. lia.
Qed.

Lemma no_nul_put out t : no_nul out -> no_nul t -> no_nul (put out t).
Proof. intros Ho Ht. destruct out; [done|]. cbn [put]. apply no_nul_app. split; [done|]. by constructor. Qed.

Lemma write_block n out w : (length out + length w <= n)%nat ->
  blit (text_block n out) (length out) (Some <$> w) = Some (text_block n (out ++ w)).
Proof.
  intros Hl. unfold text_block.
  assert (replicate (n - length out) (Some NUL) = replicate (length w) (Some NUL) ++ replicate (n - length (out ++ w)) (Some NUL)) as ->.
  { rewrite <- replicate_add. f_equal. rewrite length_app. lia. }
  pose proof (blit_app (Some <$> out) (replicate (length w) (Some NUL)) (replicate (n - length (out ++ w)) (Some NUL)) (Some <$> w)) as Hb.
  rewrite length_fmap, length_replicate, length_fmap in Hb. rewrite Hb by done. by rewrite fmap_app, <- app_assoc.
Qed.

Lemma terminate_block n out : (length out < n)%nat -> blit (text_block n out) (length out) [Some NUL] = Some (text_block n out).
Proof.
  intros Hl. unfold text_block. destruct (n - length out)%nat as [|k] eqn:E; [lia|]. cbn [replicate].
  pose proof (blit_app (Some <$> out) [Some NUL] (replicate k (Some NUL)) [Some NUL] eq_refl) as Hb.
  by rewrite length_fmap in Hb.
Qed.

Lemma text_of_block n out : no_nul out -> (length out < n)%nat -> buffer_string (text_block n out) = Some out.
Proof.
  intros Hn Hl. unfold text_block. destruct (n - length out)%nat as [|k] eqn:E; [lia|]. cbn [replicate].
  by rewrite buffer_string_full, cstr_id.
Qed.

(** Append one token, as the code of ssh_find_all_matching does. *)
Lemma copy_matches_spec n p a_block a_toks A out st :
  token_strings a_block a_toks A -> (length (put_all out (filter (eq p) A)) < n)%nat ->
  copy_matches a_block a_toks p (text_block n out) (length out) st =
    Ret (text_block n (put_all out (filter (eq p) A)), length (put_all out (filter (eq p) A))) st.
Proof.
  revert A out. induction a_toks as [|j toks IH]; intros A out HA Hl; cbn [copy_matches]; [by inversion HA|].
  apply token_strings_cons in HA as (t & ts & -> & Ht & Hr). rewrite (bind_ret_eq _ _ _ _ _ (Ht st)).
  case_bool_decide as He.
  2: { rewrite filter_cons_False in * by congruence. by apply IH. }
  subst t. rewrite filter_cons_True in * by done. cbn [put_all foldl] in *. fold (put_all (put out p) (filter (eq p) ts)) in *.
  pose proof (put_all_longer (put out p) (filter (eq p) ts)) as Hlong.
  assert ((if negb (length out =? 0)%nat
           then ret ← mem (blit (text_block n out) (length out) [Some ","%char]); mret (ret, S (length out))
           else mret (text_block n out, length out)) st =
    Ret (text_block n (match out with [] => [] | _ => out ++ [","%char] end),
         length (match out with [] => [] | _ => out ++ [","%char] end)) st) as Hc.
  { destruct out as [|c o]; [done|]. cbn [length Nat.eqb negb]. cbn [put] in *. rewrite length_app in Hlong.
    pose proof (write_block n (c :: o) [","%char]) as Hw. cbn [length fmap list_fmap] in Hw. rewrite Hw by (simpl in *; lia).
    cbn [mem]. rewrite (bind_ret_eq (mret _) _ st _ st eq_refl). rewrite length_app. simpl. by rewrite Nat.add_1_r. }
  rewrite (bind_ret_eq _ _ _ _ _ Hc). set (out1 := match out with [] => [] | _ => _ end).
  assert (out1 ++ p = put out p) as Hp by (unfold out1; destruct out; cbn [put app]; by rewrite <- ?app_assoc).
  assert (length out1 + length p = length (put out p))%nat as Hpl by (by rewrite <- Hp, length_app).
  rewrite write_block by lia. cbn [mem]. rewrite (bind_ret_eq (mret _) _ st _ st eq_refl).
  rewrite Hp, Hpl. rewrite terminate_block by lia. cbn [mem]. rewrite (bind_ret_eq (mret _) _ st _ st eq_refl). by apply IH.
Qed.

(** The matching tokens in the order of preference. *)
Definition all_matches (A ps : list (list ascii)) : list (list ascii) := concat ((fun p => filter (eq p) A) <$> ps).

Lemma put_all_app out ts us : put_all out (ts ++ us) = put_all (put_all out ts) us.
Proof. apply foldl_app. Qed.

Lemma copy_preferred_spec n a_block a_toks A p_block p_toks ps out st :
  token_strings a_block a_toks A -> token_strings p_block p_toks ps ->
  (length (put_all out (all_matches A ps)) < n)%nat ->
  copy_preferred a_block a_toks p_block p_toks (text_block n out) (length out) st =
    Ret (text_block n (put_all out (all_matches A ps)), length (put_all out (all_matches A ps))) st.
Proof.
  intros HA. revert ps out. induction p_toks as [|i toks IH]; intros ps out HP Hl; cbn [copy_preferred]; [by inversion HP|].
  apply token_strings_cons in HP as (t & ts & -> & Ht & Hr). rewrite (bind_ret_eq _ _ _ _ _ (Ht st)).
  unfold all_matches in *. rewrite fmap_cons in *. cbn [concat] in *. rewrite put_all_app in *.
  rewrite (bind_ret_eq _ _ _ _ _ (copy_matches_spec n t a_block a_toks A out st HA
    ltac:(eapply Nat.le_lt_trans; [apply put_all_longer|exact Hl]))).
  by apply IH.
Qed.

(** ** Removing duplicates *)

(** Whether the token [t] after the tokens [seen] is kept. *)
Definition keeps_token (seen : list (list ascii)) (t : list ascii) : bool :=
  negb (bool_decide (t ∈ seen)) && (0 <? length t)%nat.

Fixpoint flags_of (seen ts : list (list ascii)) : list bool :=
  match ts with [] => [] | t :: ts => keeps_token seen t :: flags_of (seen ++ [t]) ts end.

(** The tokens that are kept. *)
Fixpoint uniq (seen ts : list (list ascii)) : list (list ascii) :=
  match ts with
  | [] => []
  | t :: ts => if keeps_token seen t then t :: uniq (seen ++ [t]) ts else uniq (seen ++ [t]) ts
  end.

Lemma uniq_sublist seen ts : sublist (uniq seen ts) ts.
Proof. revert seen. induction ts as [|t ts IH]; intros seen; cbn [uniq]; [constructor|]. case_match; by constructor. Qed.

Lemma elem_of_uniq seen ts t : t ∈ uniq seen ts <-> (t ∈ ts) /\ (t ∉ seen) /\ t <> [].
Proof.
  revert seen. induction ts as [|u ts IH]; intros seen; cbn [uniq].
  { rewrite elem_of_nil. tauto. }
  unfold keeps_token. destruct (bool_decide_reflect (u ∈ seen)) as [Hu|Hu]; cbn [negb andb].
  { rewrite IH, elem_of_cons, not_elem_of_app, list_elem_of_singleton. split; [tauto|].
    intros ([-> |] & ? & ?); [done|]. repeat split; try done. intros ->. done. }
  destruct (decide (u = [])) as [-> |Hne].
  { cbn. rewrite IH, elem_of_cons, not_elem_of_app, list_elem_of_singleton. intuition congruence. }
  assert ((0 <? length u)%nat = true) as -> by (destruct u; [done|by apply Nat.ltb_lt; simpl; lia]).
  rewrite !elem_of_cons, IH, not_elem_of_app, list_elem_of_singleton.
  destruct (decide (t = u)) as [-> |]; intuition congruence.
Qed.

Lemma NoDup_uniq seen ts : NoDup (uniq seen ts).
Proof.
  revert seen. induction ts as [|t ts IH]; intros seen; cbn [uniq]; [constructor|]. case_match; [|by apply IH].
  constructor; [|by apply IH]. rewrite elem_of_uniq, not_elem_of_app, list_elem_of_singleton. tauto.
Qed.

Lemma seen_before_spec block before bs s st : token_strings block before bs ->
  seen_before block before s st = Ret (bool_decide (s ∈ bs)) st.
Proof.
  revert bs. induction before as [|j before IH]; intros bs Hb; cbn [seen_before]; [by inversion Hb|].
  apply token_strings_cons in Hb as (t & ts & -> & Ht & Hr). rewrite (bind_ret_eq _ _ _ _ _ (Ht st)).
  case_bool_decide as He.
  - subst t. by rewrite bool_decide_eq_true_2 by left.
  - rewrite (IH ts Hr). f_equal. apply bool_decide_ext. rewrite elem_of_cons. intuition congruence.
Qed.

Lemma copy_flags_spec block size before bs toks ts flags st :
  token_strings block before bs -> token_strings block toks ts -> (length flags + length ts <= size)%nat ->
  copy_flags block size before toks flags st = Ret (flags ++ flags_of bs ts) st.
Proof.
  revert before bs ts flags. induction toks as [|i toks IH]; intros before bs ts flags Hb Ht Hl; cbn [copy_flags].
  { inversion Ht. subst. by rewrite app_nil_r. }
  apply token_strings_cons in Ht as (t & ts' & -> & Hi & Hr). cbn [length] in Hl.
  rewrite (bind_ret_eq _ _ _ _ _ (Hi st)), (bind_ret_eq _ _ _ _ _ (seen_before_spec _ _ _ t st Hb)).
  rewrite (proj2 (Nat.ltb_lt _ _)) by lia. rewrite (IH _ (bs ++ [t]) ts').
  - cbn [flags_of]. by rewrite <- app_assoc.
  - apply Forall2_app; [done|]. constructor; [|constructor]. specialize (Hi st). unfold string_at in Hi.
    by destruct (buffer_string (drop i block)); [injection Hi as ->|].
  - done.
  - rewrite length_app. simpl. lia.
Qed.

Lemma write_string n out w : (length out + length w < n)%nat ->
  blit (text_block n out) (length out) ((Some <$> w) ++ [Some NUL]) = Some (text_block n (out ++ w)).
Proof.
  intros Hl. pose proof (write_block n out (w ++ [NUL])) as Hw. rewrite fmap_app in Hw.
  change (Some <$> [NUL]) with [Some NUL] in Hw. rewrite Hw by (rewrite length_app; simpl; lia).
  f_equal. unfold text_block. rewrite !fmap_app, <- !app_assoc. do 2 f_equal.
  rewrite !length_app. cbn [length]. replace (n - (length out + length w))%nat with (S (n - (length out + (length w + 1)))) by lia.
  done.
Qed.

Lemma strncat_spec n out w k st : no_nul out -> (length out + length w < n)%nat -> Z.of_nat (length w) <= k ->
  strncat (text_block n out) w k st = Ret (text_block n (out ++ w)) st.
Proof.
  intros Hn Hl Hk. unfold strncat. rewrite text_of_block by (done || lia). cbn [mem].
  rewrite (bind_ret_eq (mret _) _ st _ st eq_refl), take_ge by lia. by rewrite write_string.
Qed.

(** The comma and the token. *)
Lemma copy_tokens_spec block n seen toks ts out st :
  token_strings block toks ts -> Forall no_nul ts -> no_nul out ->
  (length (put_all out (uniq seen ts)) < n)%nat -> Z.of_nat n < 2 ^ 64 ->
  copy_tokens block (Z.of_nat n) toks (flags_of seen ts) (text_block n out) (bool_decide (out <> [])) st =
    Ret (text_block n (put_all out (uniq seen ts)), bool_decide (put_all out (uniq seen ts) <> [])) st.
Proof.
  revert seen ts out. induction toks as [|i toks IH]; intros seen ts out Ht Hts Hn Hl Hsz; [by inversion Ht|].
  apply token_strings_cons in Ht as (t & ts' & -> & Hi & Hr). apply Forall_cons in Hts as [Htn Hts].
  cbn [copy_tokens flags_of uniq] in *. destruct (keeps_token seen t) eqn:Ek; [|by apply IH].
  cbn [put_all foldl] in *. fold (put_all (put out t) (uniq (seen ++ [t]) ts')) in *.
  pose proof (put_all_longer (put out t) (uniq (seen ++ [t]) ts')) as Hlong.
  set (out1 := match out with [] => [] | _ => out ++ [","%char] end).
  assert (out1 ++ t = put out t) as Hp by (unfold out1; destruct out; cbn [put app]; by rewrite <- ?app_assoc).
  assert (length out1 + length t = length (put out t))%nat as Hpl by (by rewrite <- Hp, length_app).
  assert (no_nul out1) as Hn1 by (unfold out1; destruct out; [done|]; apply no_nul_app; split; [done|by repeat constructor]).
  assert (t <> []) as Htne by (unfold keeps_token in Ek; destruct t; [by rewrite andb_false_r in Ek|done]).
  assert ((if bool_decide (out <> [])
           then r ← mem (buffer_string (text_block n out));
                strncat (text_block n out) [","%char] (wrap_u64 (Z.of_nat n - Z.of_nat (length r) - 1))
           else mret (text_block n out)) st = Ret (text_block n out1) st) as Hc.
  { unfold out1 in *. destruct out as [|c o]; [done|]. rewrite length_app in Hpl. cbn [length] in Hpl.
    rewrite bool_decide_eq_true_2 by done. rewrite text_of_block by (done || cbn [length]; lia).
    cbn [mem]. rewrite (bind_ret_eq (mret _) _ st _ st eq_refl). rewrite wrap_u64_small by (cbn [length]; lia).
    apply strncat_spec; [done|cbn [length]; lia|cbn [length]; lia]. }
  rewrite (bind_ret_eq _ _ _ _ _ Hc), text_of_block by (done || lia). cbn [mem].
  rewrite (bind_ret_eq (mret _) _ st _ st eq_refl), (bind_ret_eq _ _ _ _ _ (Hi st)), wrap_u64_small by lia.
  rewrite (bind_ret_eq _ _ _ _ _ (strncat_spec n out1 t (Z.of_nat n - Z.of_nat (length out1) - 1) st Hn1
    ltac:(lia) ltac:(lia))), Hp.
  replace true with (bool_decide (put out t <> [])); [apply IH; [done|done|by apply no_nul_put|done|done]|].
  apply bool_decide_eq_true_2. intros He. apply (f_equal length) in He. rewrite <- Hpl in He. destruct t; [done|]. simpl in He. lia.
Qed.

(** ** The functions *)
Lemma comma_not_nul : ","%char <> NUL.
Proof. done. Qed.

Lemma tokens_no_nul s : no_nul s -> Forall no_nul (tokens_of ","%char s).
Proof.
  induction s as [s Hs|h t Hh IH] using (cut_ind ","%char); intros Hn.
  - rewrite tokens_none by done. by constructor.
  - rewrite tokens_cut by done. apply no_nul_app in Hn as [Hnh Hn]. apply Forall_cons in Hn as [_ Hn].
    constructor; [done|]. destruct t; [constructor|by apply IH].
Qed.

Lemma tokenized_strings s : no_nul s ->
  token_strings (nulled ","%char s ++ [Some NUL]) (0%nat :: after ","%char 0 s) (tokens_of ","%char s).
Proof. exact (strings_spec ","%char s []). Qed.

Lemma returns_free s st (Q : unit -> bstate -> Prop) : no_nul s -> (forall st', Q tt st') ->
  returns (ssh_tokens_free (Some (tokenized ","%char s))) st Q.
Proof. intros Hn HQ. unfold returns. rewrite tokens_free_spec by done. apply HQ. Qed.

(** Both lists, tokenized. *)
Lemma find_matching_spec oom av pr st : no_nul av -> no_nul pr ->
  returns (ssh_find_matching oom (Some av) (Some pr)) st (fun r _ =>
    (r = None /\ may_fail oom) \/
    match best (tokens_of ","%char av) (tokens_of ","%char pr) with
    | Some t => r = Some ((Some <$> t) ++ [Some NUL])
    | None => r = None
    end).
Proof.
  intros Ha Hp. unfold ssh_find_matching. buf_steps.
  eapply returns_mono; [by apply tokenize_spec|]. cbn beta. intros r s1 [-> |[-> Hf]]; [|buf_steps; by left]. buf_steps.
  eapply returns_mono; [by apply tokenize_spec|]. cbn beta. intros r s2 [-> |[-> Hf]].
  2: { buf_steps. apply returns_free; [done|]. intros s3. cbn [ssh_tokens_free]. buf_steps. by left. }
  cbn [token_list tokenized]. buf_steps. cbn [fst snd]. unfold returns at 1.
  rewrite (find_preferred_spec _ _ _ (tokenized_strings av Ha) _ _ _ s2 (tokenized_strings pr Hp)).
  destruct (best (tokens_of ","%char av) (tokens_of ","%char pr)) as [t|]; buf_steps.
  - unfold strdup. buf_steps. apply returns_free; [done|]. intros s3. buf_steps. apply returns_free; [done|]. intros s4. buf_steps.
    destruct (oom (mcalls s2)) eqn:Ho; cbn [negb]; [left; split; [done|by eexists]|by right].
  - apply returns_free; [done|]. intros s3. buf_steps. apply returns_free; [done|]. intros s4. buf_steps. by right.
Qed.

Lemma all_matches_nodup A ps : NoDup A -> all_matches A ps = filter (fun p => p ∈ A) ps.
Proof.
  intros HA. unfold all_matches. induction ps as [|p ps IH]; [done|]. rewrite fmap_cons. cbn [concat]. rewrite IH.
  assert (filter (eq p) A = if decide (p ∈ A) then [p] else []) as ->.
  { clear IH. induction HA as [|a A Ha HA IH]; [done|]. destruct (decide (p = a)) as [-> |Hne].
    - rewrite filter_cons_True, decide_True by (done || left). rewrite IH, decide_False by done. done.
    - rewrite filter_cons_False by done. rewrite IH. apply decide_ext. rewrite elem_of_cons. intuition congruence. }
  case_decide; [by rewrite filter_cons_True|by rewrite filter_cons_False].
Qed.

Lemma put_all_empty ts : Forall no_nul ts -> no_nul (put_all [] ts).
Proof.
  assert (forall out, no_nul out -> Forall no_nul ts -> no_nul (put_all out ts)) as H; [|by apply H; constructor].
  induction ts as [|t ts IH]; intros out Ho Ht; [done|]. apply Forall_cons in Ht as [Ht Hts]. cbn. apply IH; [|done].
  by apply no_nul_put.
Qed.

Lemma find_all_spec oom av pr st : no_nul av -> no_nul pr -> NoDup (tokens_of ","%char av) ->
  returns (ssh_find_all_matching oom (Some av) (Some pr)) st (fun r _ =>
    (r = None /\ may_fail oom) \/
    let text := put_all [] (filter (fun p => p ∈ tokens_of ","%char av) (tokens_of ","%char pr)) in
    match r with
    | Some block => text <> [] /\ buffer_string block = Some text
    | None => text = []
    end).
Proof.
  intros Ha Hp Hd. unfold ssh_find_all_matching. buf_steps.
  destruct (oom (mcalls st)) eqn:Ho; cbn [negb]; buf_steps; [left; split; [done|by eexists]|].
  eapply returns_mono; [by apply tokenize_spec|]. cbn beta. intros r s1 [-> |[-> Hf]]; buf_steps; [|by left].
  eapply returns_mono; [by apply tokenize_spec|]. cbn beta. intros r s2 [-> |[-> Hf]]; buf_steps.
  2: { apply returns_free; [done|]. intros s3. cbn [ssh_tokens_free]. buf_steps. by left. }
  cbn [token_list tokenized]. buf_steps. cbn [fst snd].
  set (A := tokens_of ","%char av) in *. set (ps := tokens_of ","%char pr). set (n := (Nat.max (length av) (length pr) + 1)%nat).
  cbn zeta. rewrite <- (all_matches_nodup A ps Hd). set (text := put_all [] (all_matches A ps)).
  assert (length text < n)%nat as Hl.
  { pose proof (length_put_first (all_matches A ps)) as Hw.
    assert (width (all_matches A ps) <= width ps)%nat as Hws
      by (apply width_sublist; rewrite (all_matches_nodup A ps Hd); apply sublist_filter).
    pose proof (width_tokens ","%char pr) as Hwt. fold ps in Hwt. unfold n. fold text in Hw. lia. }
  assert (no_nul text) as Hnt.
  { apply put_all_empty. rewrite (all_matches_nodup A ps Hd). apply Forall_forall. intros t [_ Ht]%list_elem_of_filter.
    exact (proj1 (Forall_forall _ _) (tokens_no_nul pr Hp) t Ht). }
  assert (replicate n (Some NUL) = text_block n []) as -> by (unfold text_block; cbn; by rewrite Nat.sub_0_r).
  unfold returns at 1.
  pose proof (copy_preferred_spec n _ _ A _ _ ps [] s2 (tokenized_strings av Ha) (tokenized_strings pr Hp) Hl) as Hcp.
  change (length (@nil ascii)) with O in Hcp. rewrite Hcp. fold text.
  buf_steps. cbn [fst]. assert (exists c, mjoin (text_block n text !! 0%nat) = Some c /\ (c = NUL <-> text = [])) as (c & Hc & Hz).
  { unfold text_block. destruct text as [|c t]; [|exists c; split; [done|]; inversion Hnt; split; done].
    exists NUL. split; [|done]. rewrite Nat.sub_0_r. unfold n. by rewrite Nat.add_1_r. }
  eapply returns_mem; [exact Hc|]. destruct (Ascii.eqb_spec c NUL) as [-> |Hne]; buf_steps.
  - apply returns_free; [done|]. intros s3. buf_steps. apply returns_free; [done|]. intros s4. buf_steps. right. by apply Hz.
  - apply returns_free; [done|]. intros s3. buf_steps. apply returns_free; [done|]. intros s4. buf_steps. right.
    split; [tauto|]. by apply text_of_block.
Qed.

(** What a list without duplicates is: the non-empty tokens of [ts], each once and in the
    order of their first occurrences: the names met in any beginning of [ts] are the
    names of a beginning of [ks]. *)
Definition deduplicated (ts ks : list (list ascii)) : Prop :=
  sublist ks ts /\ NoDup ks /\ (forall t, t ∈ ks <-> (t ∈ ts) /\ t <> []) /\
  forall n, exists k, forall t, t ∈ take k ks <-> (t ∈ take n ts) /\ t <> [].

Lemma uniq_app a b : forall seen, uniq seen (a ++ b) = uniq seen a ++ uniq (seen ++ a) b.
Proof.
  induction a as [|t a IH]; intros seen; cbn [app uniq]; [by rewrite app_nil_r|]. rewrite !IH, <- app_assoc. by destruct (keeps_token seen t).
Qed.

Lemma elem_of_uniq_nil ts t : t ∈ uniq [] ts <-> (t ∈ ts) /\ t <> [].
Proof. rewrite elem_of_uniq. pose proof (not_elem_of_nil t). tauto. Qed.

Lemma uniq_deduplicated ts : deduplicated ts (uniq [] ts).
Proof.
  split; [apply uniq_sublist|]. split; [apply NoDup_uniq|]. split; [intros t; apply elem_of_uniq_nil|].
  intros n. exists (length (uniq [] (take n ts))). intros t. rewrite <- elem_of_uniq_nil.
  rewrite <- (take_drop n ts) at 2. by rewrite uniq_app, take_app_length.
Qed.

(** The result holds these tokens, or is NULL when there are none. *)
Definition holds_tokens (r : option buffer) (ks : list (list ascii)) : Prop :=
  match r with
  | Some block => ks <> [] /\ buffer_string block = Some (put_all [] ks)
  | None => ks = []
  end.

Lemma put_all_nil ks : (forall t, t ∈ ks -> t <> []) -> put_all [] ks = [] -> ks = [].
Proof.
  destruct ks as [|t ks]; [done|]. intros Hne H. exfalso. apply (Hne t); [left|].
  pose proof (put_all_longer t ks) as Hl. cbn in H. fold (put_all t ks) in H. rewrite H in Hl. by destruct t; [|simpl in Hl; lia].
Qed.

Lemma remove_duplicates_spec oom l st : no_nul l -> Z.of_nat (length l) < 2 ^ 60 ->
  returns (ssh_remove_duplicates oom (Some l)) st (fun r _ =>
    (r = None /\ may_fail oom) \/ holds_tokens r (uniq [] (tokens_of ","%char l))).
Proof.
  intros Hn Hsz. unfold ssh_remove_duplicates. destruct (Nat.eqb_spec (length l) 0) as [H0|H0].
  { destruct l; [|done]. buf_steps. right. done. }
  buf_steps. eapply returns_mono; [by apply tokenize_spec|]. cbn beta. intros r s1 [-> |[-> Hf]]; buf_steps; [|by left].
  cbn [token_list tokenized]. buf_steps. pose proof (tokenized_strings l Hn) as Ht.
  pose proof (token_strings_cons _ _ _ _ Ht) as (t0 & ts & Hts & Hs0 & Hrest).
  set (n := (length l + 1)%nat). destruct (oom (mcalls s1)) eqn:Ho; cbn [negb]; buf_steps.
  { apply returns_free; [done|]. intros s2. buf_steps. left. split; [done|by eexists]. }
  unfold returns at 1. rewrite Hs0. buf_steps.
  assert (length (tokens_of ","%char l) <= length l)%nat as Hcnt by (apply count_tokens; by destruct l).
  assert (token_strings (nulled ","%char l ++ [Some NUL]) [0%nat] [t0]) as H00
    by (rewrite Hts in Ht; apply Forall2_cons in Ht as [? _]; by repeat constructor).
  unfold returns at 1. rewrite (copy_flags_spec _ n _ _ _ ts _ _ H00 Hrest) by (rewrite Hts in Hcnt; simpl in *; lia).
  assert ([(0 <? length t0)%nat] ++ flags_of [t0] ts = flags_of [] (tokens_of ","%char l)) as ->.
  { rewrite Hts. cbn [flags_of app]. unfold keeps_token. by rewrite bool_decide_eq_false_2 by apply not_elem_of_nil. }
  buf_steps. destruct (oom (S (mcalls s1))) eqn:Ho2; cbn [mcalls] in *; rewrite Ho2; cbn [negb]; buf_steps.
  { apply returns_free; [done|]. intros s2. buf_steps. left. split; [done|by eexists]. }
  set (ks := uniq [] (tokens_of ","%char l)).
  assert (length (put_all [] ks) < n)%nat as Hl.
  { pose proof (length_put_first ks). pose proof (width_sublist _ _ (uniq_sublist [] (tokens_of ","%char l))) as Hw.
    pose proof (width_tokens ","%char l). fold ks in Hw. unfold n. lia. }
  assert (replicate n (Some NUL) = text_block n []) as -> by (unfold text_block; cbn; by rewrite Nat.sub_0_r).
  unfold returns at 1. pose proof (fun st => copy_tokens_spec _ n [] _ _ [] st
    Ht (tokens_no_nul l Hn) ltac:(constructor) Hl ltac:(unfold n; lia)) as Hc.
  change (bool_decide (@nil ascii <> [])) with false in Hc. rewrite Hc. fold ks. cbn [fst snd].
  destruct (uniq_deduplicated (tokens_of ","%char l)) as (Hsub & _ & Hin & _). fold ks in Hsub, Hin.
  destruct (bool_decide_reflect (put_all [] ks <> [])) as [Hne|Hne]; cbn [negb]; buf_steps;
    (apply returns_free; [done|]); intros s2; buf_steps; right.
  - split; [by intros ->|]. apply text_of_block; [|done]. apply put_all_empty.
    apply Forall_forall. intros t Htk. apply Hin in Htk as [Htk _]. exact (proj1 (Forall_forall _ _) (tokens_no_nul l Hn) t Htk).
  - apply put_all_nil; [|by apply dec_stable]. intros t Htk. by apply Hin in Htk as [_ ?].
Qed.

(** Splitting at the commas gives the tokens, and an empty text behind a last comma. *)
Lemma split_tokens s : exists x, split ","%char s = tokens_of ","%char s ++ x /\ Forall (fun t => t = []) x.
Proof.
  induction s as [s Hs|h t Hh IH] using (cut_ind ","%char).
  - exists []. by rewrite tokens_none, split_none by done.
  - rewrite tokens_cut, split_cut by done. destruct t as [|c t]; [exists [[]]; split; [done|by repeat constructor]|].
    destruct IH as (x & -> & Hx). by exists x.
Qed.

Lemma deduplicated_app ts x ks : Forall (fun t => t = []) x -> deduplicated ts ks -> deduplicated (ts ++ x) ks.
Proof.
  intros Hx (Hs & Hd & Hin & Hfirst). rewrite Forall_forall in Hx. split; [by apply sublist_inserts_r|]. split; [done|]. split.
  - intros t. rewrite Hin, elem_of_app. specialize (Hx t). tauto.
  - intros n. destruct (Hfirst n) as [k Hk]. exists k. intros t. rewrite Hk, take_app, elem_of_app.
    assert (t ∈ take (n - length ts) x -> t = []) as He by (intros H; apply Hx; exact (elem_of_sublist _ _ t H (sublist_take x _))).
    tauto.
Qed.

Lemma deduplicated_split s ks : deduplicated (tokens_of ","%char s) ks -> deduplicated (split ","%char s) ks.
Proof. intros H. destruct (split_tokens s) as (x & -> & Hx). by apply deduplicated_app. Qed.

(** The list ssh_append_without_duplicates builds. *)
Definition appended (l a : option (list ascii)) : list ascii :=
  match l with Some l => l ++ [","%char] | None => [] end ++ default [] a.

Lemma room_spec n out st : no_nul out -> (length out < n)%nat -> Z.of_nat n < 2 ^ 64 ->
  room n (text_block n out) st = Ret (Z.of_nat n - Z.of_nat (length out) - 1) st.
Proof.
  intros Hn Hl Hsz. unfold room. rewrite text_of_block by done. cbn [mem].
  rewrite (bind_ret_eq (mret _) _ st _ st eq_refl). by rewrite wrap_u64_small by lia.
Qed.

Lemma copy_first_spec n l st : no_nul (default [] l) -> (length (default [] l) + 1 < n)%nat -> Z.of_nat n < 2 ^ 64 ->
  copy_first n l (text_block n []) st = Ret (text_block n (appended l None)) st.
Proof.
  intros Hn Hl Hsz. unfold appended. destruct l as [l|]; [|done]. cbn [default id] in *. rewrite app_nil_r. cbn [copy_first].
  pose proof (write_string n [] l ltac:(simpl; lia)) as Hw. cbn [length app] in Hw. rewrite Hw. cbn [mem].
  rewrite (bind_ret_eq (mret _) _ st _ st eq_refl), (bind_ret_eq _ _ _ _ _ (room_spec n l st Hn ltac:(lia) Hsz)).
  apply strncat_spec; [done|simpl; lia|simpl; lia].
Qed.

Lemma copy_second_spec n out a st : no_nul out -> (length out + length (default [] a) < n)%nat -> Z.of_nat n < 2 ^ 64 ->
  copy_second n a (text_block n out) st = Ret (text_block n (out ++ default [] a)) st.
Proof.
  intros Hn Hl Hsz. destruct a as [a|]; cbn [default id copy_second] in *; [|by rewrite app_nil_r].
  rewrite (bind_ret_eq _ _ _ _ _ (room_spec n out st Hn ltac:(lia) Hsz)). apply strncat_spec; [done|lia|lia].
Qed.

Lemma append_spec oom l a st :
  no_nul (default [] l) -> no_nul (default [] a) -> default [] l ++ default [] a <> [] ->
  Z.of_nat (length (default [] l) + length (default [] a)) < 2 ^ 59 ->
  returns (ssh_append_without_duplicates oom l a) st (fun r _ =>
    (r = None /\ may_fail oom) \/ holds_tokens r (uniq [] (tokens_of ","%char (appended l a)))).
Proof.
  intros Hl Ha Hne Hsz. unfold ssh_append_without_duplicates.
  assert (strlen_opt l = length (default [] l)) as -> by by destruct l.
  assert (strlen_opt a = length (default [] a)) as -> by by destruct a.
  destruct (Nat.eqb_spec (length (default [] l) + length (default [] a)) 0) as [H0|H0].
  { exfalso. apply Hne. apply length_zero_iff_nil. by rewrite length_app. }
  buf_steps. destruct (oom (mcalls st)) eqn:Ho; cbn [negb]; buf_steps; [left; split; [done|by eexists]|].
  set (n := (length (default [] l) + length (default [] a) + 2)%nat).
  assert (replicate n (Some NUL) = text_block n []) as -> by (unfold text_block; cbn; by rewrite Nat.sub_0_r).
  unfold returns at 1. rewrite copy_first_spec by (done || unfold n; lia). buf_steps.
  assert (no_nul (appended l None) /\ (length (appended l None) <= length (default [] l) + 1)%nat) as [Hhn Hhl].
  { unfold appended. cbn [default]. rewrite app_nil_r. destruct l as [l|]; cbn [default id] in *; [|split; [constructor|simpl; lia]].
    split; [apply no_nul_app; split; [done|by repeat constructor]|rewrite length_app; simpl; lia]. }
  unfold returns at 1. rewrite copy_second_spec by (done || unfold n; lia). buf_steps.
  assert (appended l None ++ default [] a = appended l a) as -> by (unfold appended; cbn [default]; by rewrite app_nil_r).
  assert (no_nul (appended l a) /\ (length (appended l a) < n)%nat) as [Hn Hlen].
  { replace (appended l a) with (appended l None ++ default [] a) by (unfold appended; cbn [default]; by rewrite app_nil_r).
    split; [by apply no_nul_app|rewrite length_app; unfold n; lia]. }
  eapply returns_mem; [by apply text_of_block|]. buf_steps.
  eapply returns_mono; [apply remove_duplicates_spec; [done|unfold n in Hlen; lia]|]. cbn beta. intros r s1 Hr. by buf_steps.
Qed.

(** ** The theorems *)

(** ssh_find_matching, the choice of an algorithm both sides have. On any two
    lists of names separated by commas, whatever allocations fail, it neither leaves
    its blocks nor loops, and it returns a copy of the first name of the preferred
    list that is in the available list, NULL when there is none or when an allocation
    can fail. *)
Theorem find_matching_correct (oom : nat -> bool) (av pr : list ascii) (st : bstate) :
  no_nul av -> no_nul pr ->
  returns (ssh_find_matching oom (Some av) (Some pr)) st (fun r _ =>
    (r = None /\ may_fail oom) \/
    match best (tokens_of ","%char av) (tokens_of ","%char pr) with
    | Some t => r = Some ((Some <$> t) ++ [Some NUL])
    | None => r = None
    end).
Proof. apply find_matching_spec. Qed.

Lemma find_matching_correct_witness :
  best (tokens_of ","%char (lit "aes,chacha,3des")) (tokens_of ","%char (lit "arcfour,chacha,aes")) = Some (lit "chacha") /\
  returns (ssh_find_matching (fun _ => false) (Some (lit "aes,chacha,3des")) (Some (lit "arcfour,chacha,aes"))) (BState None 0 [])
    (fun r _ => (r = None /\ may_fail (fun _ => false)) \/
       match best (tokens_of ","%char (lit "aes,chacha,3des")) (tokens_of ","%char (lit "arcfour,chacha,aes")) with
       | Some t => r = Some ((Some <$> t) ++ [Some NUL])
       | None => r = None
       end).
Proof.
  split; [reflexivity|].
  apply (find_matching_correct (fun _ => false) (lit "aes,chacha,3des") (lit "arcfour,chacha,aes") (BState None 0 []));
    apply (bool_decide_unpack _); vm_compute; exact I.
Defined.

(** ssh_find_all_matching: when no name is twice in the available list, the text
    returned holds every name of the preferred list that is available, in the order
    of preference and separated by commas, and it fits the block allocated for it;
    NULL when there is no such name or when an allocation can fail. *)
Theorem find_all_matching_correct (oom : nat -> bool) (av pr : list ascii) (st : bstate) :
  no_nul av -> no_nul pr -> NoDup (tokens_of ","%char av) ->
  returns (ssh_find_all_matching oom (Some av) (Some pr)) st (fun r _ =>
    (r = None /\ may_fail oom) \/
    let text := put_all [] (filter (fun p => p ∈ tokens_of ","%char av) (tokens_of ","%char pr)) in
    match r with
    | Some block => text <> [] /\ buffer_string block = Some text
    | None => text = []
    end).
Proof. apply find_all_spec. Qed.

Lemma find_all_matching_correct_witness :
  returns (ssh_find_all_matching (fun _ => false) (Some (lit "a,bc,d")) (Some (lit "d,x,bc,d"))) (BState None 0 []) (fun r _ =>
    (r = None /\ may_fail (fun _ => false)) \/
    let text := put_all [] (filter (fun p => p ∈ tokens_of ","%char (lit "a,bc,d")) (tokens_of ","%char (lit "d,x,bc,d"))) in
    match r with
    | Some block => text <> [] /\ buffer_string block = Some text
    | None => text = []
    end).
Proof.
  apply (find_all_matching_correct (fun _ => false) (lit "a,bc,d") (lit "d,x,bc,d") (BState None 0 []));
    apply (bool_decide_unpack _); vm_compute; exact I.
Defined.

(** Names that are twice in both lists are written four times, outside the block. *)
Lemma find_all_matching_overflow :
  ssh_find_all_matching (fun _ => false) (Some (lit "aes,aes")) (Some (lit "aes,aes")) (BState None 0 []) = Undef.
Proof. vm_compute. reflexivity. Qed.

(** C39. ssh_remove_duplicates and ssh_append_without_duplicates. The text returned
    lists the non-empty names of the argument (of the first list, then of the second
    one), each exactly once, where it comes first, separated by commas; no byte is
    written outside the blocks and no name is cut; NULL when there is no name or when
    an allocation can fail. *)
Theorem remove_duplicates_correct (oom : nat -> bool) (l a : list ascii) (st : bstate) :
  no_nul l -> no_nul a -> l ++ a <> [] -> Z.of_nat (length l + length a) < 2 ^ 59 ->
  returns (ssh_remove_duplicates oom (Some l)) st (fun r _ =>
    (r = None /\ may_fail oom) \/ exists ks, deduplicated (split ","%char l) ks /\ holds_tokens r ks) /\
  returns (ssh_append_without_duplicates oom (Some l) (Some a)) st (fun r _ =>
    (r = None /\ may_fail oom) \/
    exists ks, deduplicated (split ","%char l ++ split ","%char a) ks /\ holds_tokens r ks).
Proof.
  intros Hl Ha Hne Hsz. split.
  - eapply returns_mono; [apply remove_duplicates_spec; [done|lia]|]. cbn beta. intros r _ [Hr|Hr]; [by left|right].
    eexists. split; [|exact Hr]. apply deduplicated_split, uniq_deduplicated.
  - eapply returns_mono; [by apply (append_spec oom (Some l) (Some a))|]. cbn beta. intros r _ [Hr|Hr]; [by left|right].
    eexists. split; [|exact Hr]. rewrite <- split_app. replace (l ++ ","%char :: a) with (appended (Some l) (Some a))
      by (unfold appended; cbn; by rewrite <- app_assoc).
    apply deduplicated_split, uniq_deduplicated.
Qed.

Lemma remove_duplicates_correct_witness :
  returns (ssh_remove_duplicates (fun _ => false) (Some (lit "a,,b,a"))) (BState None 0 []) (fun r _ =>
    (r = None /\ may_fail (fun _ => false)) \/ exists ks, deduplicated (split ","%char (lit "a,,b,a")) ks /\ holds_tokens r ks) /\
  returns (ssh_append_without_duplicates (fun _ => false) (Some (lit "a,,b,a")) (Some (lit "b,c"))) (BState None 0 []) (fun r _ =>
    (r = None /\ may_fail (fun _ => false)) \/
    exists ks, deduplicated (split ","%char (lit "a,,b,a") ++ split ","%char (lit "b,c")) ks /\ holds_tokens r ks).
Proof.
  apply (remove_duplicates_correct (fun _ => false) (lit "a,,b,a") (lit "b,c") (BState None 0 []));
    [apply (bool_decide_unpack _); vm_compute; exact I|apply (bool_decide_unpack _); vm_compute; exact I|done|vm_compute; reflexivity].
Defined.
