(* ===== verification/LegacyParser.v ===== *)
(** * App/Client/parser.c: the first parser of the client

    ReadConfigFile fills an array of switches from a text file, WriteXmlInstance
    writes an instance file per switch. Switches and ports are cells of two heaps
    that grow and never reuse a location: a freed cell stays empty, so that a use
    after free is [Undef]. The blocks a cell owns (number, ports, periods, gate
    states) are fields of the cell.

    getWord, copyCharArray and BinCharToInt are commented out of utils.c: the words
    getWord delivers, one per call, and the two conversions are parameters. *)

From S2P Require Import Prelude CLib Utils LinkedList Switch Client Bytes.

(** typedef struct port: [None] for a field that was never written. *)
Record port := LegacyPort {
  port_number : option Z;
  admin_control_list_length : option Z;
  hypercycle : option float;
  periods : option (list (option Z));
  gates_state : option (list (option Z)) }.

(** typedef struct switx; the elements of [ports] point into the heap of ports. *)
Record switx := Switx {
  switx_number : option buffer;
  length_switx_number : option Z;
  ports : option (list (option nat));
  ports_quantity : option Z }.

Definition new_port : port := LegacyPort None None None None None.
Definition new_switx : switx := Switx None None None None.

(** The state of the process: the heaps, the allocations, the connections and the
    queries made, the files written, and the standard streams. *)
Record legacy := LegacyState {
  l_switches : list (option switx);
  l_ports : list (option port);
  l_mallocs : nat;
  l_conns : nat;
  l_queries : list (list ascii);
  l_files : gmap (list ascii) (list ascii);
  l_in : list ascii;
  l_out : list ascii;
  l_err : list ascii }.

#[global] Program Instance lens_switches : Lens legacy (list (option switx)) := {|
  view := l_switches;
  upd v s := LegacyState v (l_ports s) (l_mallocs s) (l_conns s) (l_queries s) (l_files s) (l_in s) (l_out s) (l_err s) |}.
Solve All Obligations with by intros; repeat match goal with s : legacy |- _ => destruct s end.

#[global] Program Instance lens_ports : Lens legacy (list (option port)) := {|
  view := l_ports;
  upd v s := LegacyState (l_switches s) v (l_mallocs s) (l_conns s) (l_queries s) (l_files s) (l_in s) (l_out s) (l_err s) |}.
Solve All Obligations with by intros; repeat match goal with s : legacy |- _ => destruct s end.

Definition say (text : list ascii) : M legacy unit := modify (fun s =>
  LegacyState (l_switches s) (l_ports s) (l_mallocs s) (l_conns s) (l_queries s) (l_files s) (l_in s) (l_out s ++ text) (l_err s)).

Definition complain (text : list ascii) : M legacy unit := modify (fun s =>
  LegacyState (l_switches s) (l_ports s) (l_mallocs s) (l_conns s) (l_queries s) (l_files s) (l_in s) (l_out s) (l_err s ++ text)).

Definition save (path text : list ascii) : M legacy unit := modify (fun s =>
  LegacyState (l_switches s) (l_ports s) (l_mallocs s) (l_conns s) (l_queries s) (<[path := text]> (l_files s)) (l_in s) (l_out s) (l_err s)).

(** ** Cells: a heap that never reuses a location *)
Section Cells.
Context {A : Type}.

Definition cell_new (a : A) : M (list (option A)) nat := fun h => Ret (length h) (h ++ [Some a]).

Definition cell_load (l : nat) : M (list (option A)) A := fun h =>
  match h !! l with Some (Some a) => Ret a h | _ => Undef end.

Definition cell_store (l : nat) (f : A -> A) : M (list (option A)) unit := fun h =>
  match h !! l with Some (Some a) => Ret tt (<[l := Some (f a)]> h) | _ => Undef end.

Definition cell_free (l : nat) : M (list (option A)) unit := fun h =>
  match h !! l with Some (Some _) => Ret tt (<[l := None]> h) | _ => Undef end.
End Cells.

Definition load_switx (l : nat) : M legacy switx := lift (cell_load (A := switx) l).
Definition store_switx (l : nat) (f : switx -> switx) : M legacy unit := lift (cell_store l f).
Definition load_port (l : nat) : M legacy port := lift (cell_load (A := port) l).
Definition store_port (l : nat) (f : port -> port) : M legacy unit := lift (cell_store l f).

(** ** Arrays of int, long and pointers: [None] for the NULL block, and for an
    element that was never written. *)
Definition array_get {A} (arr : option (list (option A))) (i : Z) : M legacy A :=
  match arr with
  | Some a => if i <? 0 then undef else determinate (mjoin (a !! Z.to_nat i))
  | None => undef
  end.

Definition array_set {A} (arr : option (list (option A))) (i : Z) (v : A) : M legacy (option (list (option A))) :=
  match arr with
  | Some a => if (0 <=? i) && (i <? Z.of_nat (length a)) then mret (Some (<[Z.to_nat i := Some v]> a)) else undef
  | None => undef
  end.

(** A long printed with %ld. *)
Definition wrap_long (z : Z) : Z := (z + 2^63) mod 2^64 - 2^63.

(** What the parser needs of its surroundings: failing allocations, whether the
    file of the configuration opens and the words getWord finds in it, the paths
    fopen can create, and the two conversions. *)
Record parser_env := ParserEnv {
  l_oom : nat -> bool;
  config_opens : bool;
  config_words : list (list ascii);
  l_can_write : list ascii -> bool;
  copyCharArray : list ascii -> list ascii;
  BinCharToInt : list ascii -> Z }.

Section Parser.
Context (e : parser_env).

Definition malloc : M legacy bool := fun s =>
  Ret (negb (l_oom e (l_mallocs s)))
      (LegacyState (l_switches s) (l_ports s) (S (l_mallocs s)) (l_conns s) (l_queries s) (l_files s) (l_in s) (l_out s) (l_err s)).

(** A block of [n] elements, NULL when malloc fails. *)
Definition malloc_array (A : Type) (n : nat) : M legacy (option (list (option A))) :=
  ok ← malloc; mret (if ok : bool then Some (replicate n None) else None).

(** malloc(sizeof(switx) * NUMBER_OF_SWITCHS): 8 * 32 bytes, 32 pointers. *)
Definition switches_room : nat := 32.
(** malloc(sizeof(port) * NUMBER_OF_PORTS): 6 * 32 bytes, 24 pointers. *)
Definition ports_room : nat := 24.
(** malloc(sizeof(unsigned long) * NUMBER_OF_LISTS): 100 longs, 200 ints. *)
Definition periods_room : nat := 100.
Definition gates_room : nat := 200.

(** getWord: the next word, the empty one at the end of the file. *)
Definition getWord (ws : list (list ascii)) : list ascii * list (list ascii) :=
  match ws with w :: ws => (w, ws) | [] => ([], []) end.

(** The locals of ReadConfigFile; those without a value yet are [None]. *)
Record parsing := Parsing {
  rest : list (list ascii);
  word : list ascii;
  count_switches : Z;
  ptr_switches : option (list (option nat));
  block : bool;
  last_port : option Z;
  aux_hypercycle : option Z }.

(** printf("Couldn't allocate memory.\n"); exit(1); *)
Definition no_memory {A} : M legacy A :=
  _ ← say (lit "Couldn't allocate memory." ++ [newline]); exit_with 1.

(** The body of if(strcmp(word, "switch:") == 0). *)
Definition get_switch (p : parsing) : M legacy parsing :=
  let count := count_switches p + 1 in
  let '(w, ws) := getWord (rest p) in
  ok ← malloc;
  if negb (ok : bool) then no_memory
  else
    ptr_switch ← lift (cell_new new_switx);
    ok ← malloc;
    if negb (ok : bool) then no_memory
    else
      number ← determinate (blit (replicate (length w + 1) None) 0 (Some <$> w));
      _ ← store_switx ptr_switch (fun s =>
            Switx (Some number) (Some (wrap_int (Z.of_nat (length w)))) (ports s) (Some 0));
      arr ← array_set (ptr_switches p) (count - 1) ptr_switch;
      target ← array_get arr (count - 1);
      block ← malloc_array nat ports_room;
      _ ← store_switx target (fun s =>
            Switx (switx_number s) (length_switx_number s) block (ports_quantity s));
      _ ← store_switx ptr_switch (fun s =>
            Switx None (length_switx_number s) (ports s) (ports_quantity s));
      _ ← lift (cell_free (A := switx) ptr_switch);
      mret (Parsing ws w count arr true (last_port p) (aux_hypercycle p)).

(** ptr_switches[*ptr_count_switches-1] *)
Definition current_switch (p : parsing) : M legacy nat := array_get (ptr_switches p) (count_switches p - 1).

(** ptr_switches[*ptr_count_switches-1]->ports[last_port] *)
Definition current_port (p : parsing) (last : Z) : M legacy nat :=
  l ← current_switch p;
  s ← load_switx l;
  array_get (ports s) last.

(** The body of if(strcmp(word, "port_number:") == 0). *)
Definition get_port (p : parsing) : M legacy parsing :=
  let '(w, ws) := getWord (rest p) in
  ok ← malloc;
  if negb (ok : bool) then undef
  else
    ptr_port ← lift (cell_new new_port);
    _ ← store_port ptr_port (fun q =>
          LegacyPort (Some (atoi (copyCharArray e w))) (Some 0) (hypercycle q) (periods q) (gates_state q));
    l ← current_switch p;
    s ← load_switx l;
    last ← determinate (ports_quantity s);
    arr ← array_set (ports s) last ptr_port;
    _ ← store_switx l (fun s =>
          Switx (switx_number s) (length_switx_number s) arr (Some (last + 1)));
    a ← malloc_array Z periods_room;
    q ← current_port p last;
    _ ← store_port q (fun q =>
          LegacyPort (port_number q) (admin_control_list_length q) (hypercycle q) a (gates_state q));
    b ← malloc_array Z gates_room;
    q ← current_port p last;
    _ ← store_port q (fun q =>
          LegacyPort (port_number q) (admin_control_list_length q) (hypercycle q) (periods q) b);
    _ ← lift (cell_free (A := port) ptr_port);
    let '(w, ws) := getWord ws in
    mret (Parsing ws w (count_switches p) (ptr_switches p) false (Some last) (Some 0)).

(** The body of if(block == 0). *)
Definition get_list (p : parsing) : M legacy parsing :=
  let aux_word := copyCharArray e (word p) in
  last ← determinate (last_port p);
  q ← current_port p last;
  pt ← load_port q;
  acll ← determinate (admin_control_list_length pt);
  a ← array_set (periods pt) acll (wrap_u64 (atol aux_word));
  h ← determinate (aux_hypercycle p);
  let h := wrap_u64 (h + wrap_u64 (atol aux_word)) in
  _ ← store_port q (fun q =>
        LegacyPort (port_number q) (admin_control_list_length q)
          (Some (float_div (float_of_Z h) (float_of_Z 1000000000))) a (gates_state q));
  let '(w, ws) := getWord (rest p) in
  b ← array_set (gates_state pt) acll (BinCharToInt e w);
  _ ← store_port q (fun q =>
        LegacyPort (port_number q) (Some (acll + 1)) (hypercycle q) (periods q) b);
  mret (Parsing ws w (count_switches p) (ptr_switches p) false (last_port p) (Some h)).

(** One iteration after the word was read. *)
Definition read_word (p : parsing) : M legacy parsing :=
  p ← (if streq (word p) (lit "switch:") then get_switch p else mret p);
  p ← (if streq (word p) (lit "port_number:") then get_port p else mret p);
  if block p then mret p else get_list p.

(** while(1) *)
Fixpoint read_loop (fuel : nat) (p : parsing) : M legacy parsing :=
  match fuel with
  | O => no_fuel
  | S fuel =>
      let '(w, ws) := getWord (rest p) in
      if (length w =? 0)%nat then mret p
      else
        p ← read_word (Parsing ws w (count_switches p) (ptr_switches p) (block p) (last_port p) (aux_hypercycle p));
        read_loop fuel p
  end.

(** parser.c: ReadConfigFile. Each iteration takes a word. *)
Definition ReadConfigFile (count : Z) (switches : option (list (option nat)))
  : M legacy (Z * option (list (option nat))) :=
  if negb (config_opens e) then undef
  else
    p ← read_loop (S (length (config_words e))) (Parsing (config_words e) [] count switches true None None);
    _ ← say (lit "Configuration file parsed correctly..." ++ [newline]);
    mret (count_switches p, ptr_switches p).

(** ** Writing the instances *)

(** parser.c: writePort makes the same calls as xml_write_port of Main.c. *)
Definition writePort (number acll : Z) : list ascii := xml_write_port number acll.

(** The loop of parser.c: writeList. *)
Fixpoint list_entries (n : nat) (index : Z) (pt : port) : M legacy (list ascii) :=
  match n with
  | O => mret []
  | S n =>
      g ← array_get (gates_state pt) index;
      t ← array_get (periods pt) index;
      rest ← list_entries n (index + 1) pt;
      mret (xml_write_values (wrap_long t) g index ++ rest)
  end.

(** parser.c: writeList; the text around the list is that of Main.c. *)
Definition writeList (pt : port) (acll : Z) : M legacy (list ascii) :=
  body ← list_entries (Z.to_nat acll) 0 pt;
  h ← determinate (hypercycle pt);
  tail ← determinate (xml_write_values_end h);
  mret (body ++ tail).

(** The loop over the ports of a switch. *)
Fixpoint write_ports (n : nat) (i : Z) (s : switx) : M legacy (list ascii) :=
  match n with
  | O => mret []
  | S n =>
      l ← array_get (ports s) i;
      pt ← load_port l;
      number ← determinate (port_number pt);
      acll ← determinate (admin_control_list_length pt);
      list ← writeList pt acll;
      rest ← write_ports n (i + 1) s;
      mret (writePort number acll ++ list ++ rest)
  end.

(** The string of a switch number. *)
Definition number_string (s : switx) : M legacy (list ascii) :=
  b ← determinate (switx_number s); determinate (buffer_string b).

(** sprintf into name_file[13] *)
Definition name_file (number : list ascii) : M legacy (list ascii) :=
  let name := lit "XMLdata" ++ number ++ lit ".xml" in
  if (length name <? 13)%nat then mret name else undef.

(** Writing a file is an argument of the loop over the switches: the shell passes
    [save]. *)
Definition writer : Type := list ascii -> list ascii -> M legacy unit.

(** The loop over the switches. *)
Fixpoint write_switches (save : writer) (n : nat) (k : Z) (arr : option (list (option nat))) : M legacy unit :=
  match n with
  | O => mret tt
  | S n =>
      l ← array_get arr k;
      s ← load_switx l;
      number ← number_string s;
      name ← name_file number;
      if negb (l_can_write e name) then undef
      else
        quantity ← determinate (ports_quantity s);
        body ← write_ports (Z.to_nat quantity) 0 s;
        _ ← save name
              (line 0 (qt "<?xml version='1.0' encoding='UTF-8'?>>") ++
               line 0 (qt "<if:interfaces xmlns:if='urn:ietf:params:xml:ns:yang:ietf-interfaces'>") ++
               body ++ line 0 (lit "</if:interfaces>"));
        write_switches save n (k + 1) arr
  end.

(** parser.c: WriteXmlInstance *)
Definition WriteXmlInstance (save : writer) (count : Z) (arr : option (list (option nat))) : M legacy unit :=
  _ ← write_switches save (Z.to_nat count) 0 arr;
  say (lit "XML instance generated correctly..." ++ [newline]).
End Parser.
