(* ===== verification/LegacyShell.v ===== *)
(** * App/Client/ReadFile.c: the shell on the database of configurations

    Each line of input opens a connection and runs a command: store and
    store-upload read a configuration, write its instances and insert it into the
    database; show lists the stored configurations; select prints one of them.

    The MySQL server is a parameter: the answer to each query, given the queries
    sent before it, and whether a connection fails. *)

From Stdlib Require Import SpecFloat.
From S2P Require Import Prelude CLib Utils JsonApi LinkedList Switch Client Bytes LegacyParser.

(** The answer to a query: an error message, no result set, or rows of columns,
    where [None] is the SQL NULL. *)
Inductive reply :=
| QueryError (msg : list ascii)
| NoResult
| Rows (rows : list (list (option (list ascii)))).

Record shell_env := ShellEnv {
  parser : parser_env;
  connect : nat -> option (list ascii);
  answer : list (list ascii) -> list ascii -> reply }.

(** strstr(s, t) != NULL *)
Fixpoint strstr_found (s t : list ascii) : bool :=
  strneq s t (length t) || match s with [] => false | _ :: s => strstr_found s t end.

(** strcspn(s, "\n") *)
Definition line_length (s : list ascii) : nat := span_len (fun c => negb (Ascii.eqb c newline)) s.

(** printf("%f"): six decimals, rounded to the nearest, ties to even. *)
Definition round_div (a b : Z) : Z :=
  let q := a / b in
  let r := a mod b in
  if 2 * r <? b then q else if b <? 2 * r then q + 1 else if Z.even q then q else q + 1.

Definition pad6 (s : list ascii) : list ascii := replicate (6 - length s) "0"%char ++ s.

Definition show_micro (neg : bool) (v : Z) : list ascii :=
  (if neg then lit "-" else []) ++ show_Z (v / 1000000) ++ lit "." ++ pad6 (show_Z (v mod 1000000)).

Definition show_float (f : float) : list ascii :=
  match f with
  | S754_zero s => show_micro s 0
  | S754_infinity s => if s then lit "-inf" else lit "inf"
  | S754_nan => lit "nan"
  | S754_finite s m ex =>
      show_micro s (if 0 <=? ex then Z.pos m * 2 ^ ex * 1000000 else round_div (Z.pos m * 1000000) (2 ^ (- ex)))
  end.

Section Shell.
Context (e : shell_env).

(** mysql_query, recording the query. *)
Definition mysql_query (q : list ascii) : M legacy reply := fun s =>
  Ret (answer e (l_queries s) q)
      (LegacyState (l_switches s) (l_ports s) (l_mallocs s) (l_conns s) (l_queries s ++ [q]) (l_files s) (l_in s) (l_out s) (l_err s)).

(** fprintf(stderr, "%s\n", mysql_error(conn)); exit(1); *)
Definition die {A} (msg : list ascii) : M legacy A :=
  _ ← complain (msg ++ [newline]); exit_with 1.

(** sprintf into a block of 200 bytes. *)
Definition sprintf200 (ok : bool) (text : list ascii) : M legacy (list ascii) :=
  if ok && (length text <? 200)%nat then mret text else undef.

(** The column of a row. *)
Definition column (row : list (option (list ascii))) (i : nat) : M legacy (option (list ascii)) :=
  determinate (row !! i).

(** ** InsertConfigInDB *)

(** Sending a query is an argument of the loops: the shell passes [mysql_query]. *)
Definition sender : Type := list ascii -> M legacy reply.

Definition last_list_query (number : list ascii) : list ascii :=
  lit "select list_number, switch_number from info group by switch_number, list_number HAVING switch_number=" ++
  number ++ lit " order by list_number DESC".

Definition insert_query (number : list ascii) (port list_number index period gates : Z) : list ascii :=
  lit "INSERT INTO info(switch_number,port_number,list_number,index_,period,gates_state) VALUES(" ++
  number ++ lit ", " ++ show_Z port ++ lit ", " ++ show_Z list_number ++ lit ", " ++ show_Z index ++ lit ", " ++
  show_Z (wrap_long period) ++ lit ", " ++ show_Z gates ++ lit ")".

(** The number of the new list: one more than the last one of the switch. *)
Definition next_list_number (rows : list (list (option (list ascii)))) : M legacy Z :=
  match rows with
  | row :: _ =>
      c ← column row 0;
      _ ← say (lit "ASDFASDF: " ++ printf_s c ++ [newline]);
      let last := match c with Some text => atoi text | None => 0 end in
      if in_int (last + 1) then mret (last + 1) else undef
  | [] =>
      _ ← say (lit "[DATABASE] Row is null" ++ [newline]);
      mret 1
  end.

(** for k: a row per element of the list. *)
Fixpoint insert_list (query : sender) (n : nat) (k : Z) (number : list ascii) (list_number : Z) (pt : port) : M legacy unit :=
  match n with
  | O => mret tt
  | S n =>
      t ← array_get (periods pt) k;
      g ← array_get (gates_state pt) k;
      p ← determinate (port_number pt);
      _ ← say ([tab; tab] ++ lit "Period: " ++ show_Z t ++ [tab; tab; tab] ++ lit "gate_states: " ++ show_Z g ++ lit " " ++ [newline]);
      q ← sprintf200 true (insert_query number p list_number k t g);
      r ← query q;
      match r with
      | QueryError msg => die msg
      | _ => insert_list query n (k + 1) number list_number pt
      end
  end.

(** for j: the ports of the switch. *)
Fixpoint insert_ports (query : sender) (n : nat) (j : Z) (number : list ascii) (list_number : Z) (s : switx) : M legacy unit :=
  match n with
  | O => mret tt
  | S n =>
      l ← array_get (ports s) j;
      pt ← load_port l;
      p ← determinate (port_number pt);
      acll ← determinate (admin_control_list_length pt);
      h ← determinate (hypercycle pt);
      _ ← say ([tab] ++ lit "[PORT: " ++ show_Z p ++ lit " ] " ++ [newline]);
      _ ← say ([tab; tab] ++ lit "admin_control_list_length: " ++ show_Z acll ++ lit " " ++ [newline]);
      _ ← say ([tab; tab] ++ lit "admin_control_list_length: " ++ show_float h ++ lit " " ++ [newline]);
      _ ← insert_list query (Z.to_nat acll) 0 number list_number pt;
      insert_ports query n (j + 1) number list_number s
  end.

(** for i: the switches; the block of the first malloc is leaked. *)
Fixpoint insert_switches (query : sender) (n : nat) (i : Z) (arr : option (list (option nat))) : M legacy unit :=
  match n with
  | O => mret tt
  | S n =>
      _ ← malloc (parser e);
      ok ← malloc (parser e);
      l ← array_get arr i;
      s ← load_switx l;
      number ← number_string s;
      q ← sprintf200 ok (last_list_query number);
      r ← query q;
      match r with
      | QueryError msg => die msg
      | NoResult => _ ← complain (lit "No data to fetch"); exit_with 1
      | Rows rows =>
          list_number ← next_list_number rows;
          _ ← say (lit "[DATABASE] LIST NUMBER: " ++ show_Z list_number ++ [newline]);
          _ ← say (lit "[SWITCH: " ++ show_Z i ++ lit "] " ++ [newline]);
          _ ← say ([tab] ++ lit "ID: " ++ number ++ lit " " ++ [newline]);
          quantity ← determinate (ports_quantity s);
          _ ← say ([tab] ++ lit "Number of Ports: " ++ show_Z quantity ++ lit " " ++ [newline]);
          _ ← insert_ports query (Z.to_nat quantity) 0 number list_number s;
          _ ← say (lit "[DATABASE] Configuration added in database" ++ [newline]);
          insert_switches query n (i + 1) arr
      end
  end.

Definition InsertConfigInDB (query : sender) (arr : option (list (option nat))) (count : Z) : M legacy unit :=
  insert_switches query (Z.to_nat count) 0 arr.

(** ** Show *)

(** while ((row = mysql_fetch_row(res)) != NULL): [n] columns of each row; no
    result set is a NULL handle. *)
Definition fetch_rows (r : reply) (show_row : list (option (list ascii)) -> M legacy unit) : M legacy unit :=
  match r with
  | Rows rows => fold_right (fun row k => _ ← show_row row; k) (mret tt) rows
  | _ => undef
  end.

Definition show_query : list ascii :=
  lit "select distinct list_number, switch_number from info order by switch_number".

Definition show_row (row : list (option (list ascii))) : M legacy unit :=
  a ← column row 0;
  b ← column row 1;
  say (lit "       " ++ printf_s a ++ lit "           " ++ printf_s b ++ [newline]).

Definition Show : M legacy unit :=
  _ ← malloc (parser e);
  r ← mysql_query show_query;
  match r with
  | QueryError msg => die msg
  | _ =>
      _ ← say (lit "   List ID    | Switch number" ++ [newline]);
      _ ← say (lit "--------------|-------------" ++ [newline]);
      fetch_rows r show_row
  end.

(** ** ReadArgumentValue and Select_args *)
Definition byte_at (b : buffer) (i : nat) : M legacy ascii := determinate (mjoin (b !! i)).

(** strncat(dest, &c, 1) *)
Definition append_char (dest : buffer) (c : ascii) : M legacy buffer :=
  s ← determinate (buffer_string dest);
  determinate (blit dest (length s) [Some c; Some NUL]).

(** while(isalpha( *aux_pos) || isdigit( *aux_pos)) *)
Fixpoint copy_value (fuel : nat) (buf : buffer) (aux_pos : nat) (dest : buffer) : M legacy buffer :=
  match fuel with
  | O => no_fuel
  | S fuel =>
      c ← byte_at buf aux_pos;
      if isalpha c || isdigit c then
        dest ← append_char dest c;
        copy_value fuel buf (S aux_pos) dest
      else mret dest
  end.

(** while(length_counter < bufferLength && exit == 0): [n] is the difference of
    the two. *)
Fixpoint argument_loop (n : nat) (arg : ascii) (buf : buffer) (pos : nat) (dest : buffer) : M legacy buffer :=
  match n with
  | O => mret dest
  | S n =>
      c ← byte_at buf pos;
      if Ascii.eqb c "-"%char then
        c ← byte_at buf (S pos);
        if Ascii.eqb c arg then copy_value (S (length buf)) buf (S pos + 2) dest
        else argument_loop n arg buf (S (S pos)) dest
      else argument_loop n arg buf (S pos) dest
  end.

Definition ReadArgumentValue (arg : ascii) (buf : buffer) (bufferLength : nat) (dest : buffer) : M legacy buffer :=
  s ← determinate (buffer_string dest);
  dest ← determinate (bzero dest 0 (length s));
  argument_loop bufferLength arg buf 0 dest.

Definition select_query (input_switch input_list : list ascii) : list ascii :=
  lit "SELECT  port_number, index_, period, gates_state from info where switch_number = " ++ input_switch ++
  lit " and list_number = " ++ input_list ++ lit " order by port_number, index_ asc".

Definition select_row (row : list (option (list ascii))) : M legacy unit :=
  a ← column row 0;
  b ← column row 1;
  c ← column row 2;
  d ← column row 3;
  say (lit "    " ++ printf_s a ++ lit "         " ++ printf_s b ++ lit "        " ++ printf_s c ++
       lit "           " ++ printf_s d ++ lit " " ++ [newline]).

Definition Select_args (buf : buffer) : M legacy unit :=
  s ← determinate (buffer_string buf);
  input_switch ← ReadArgumentValue "s"%char buf (length s) (replicate 10 (Some NUL));
  input_list ← ReadArgumentValue "l"%char buf (length s) (replicate 10 (Some NUL));
  sw ← determinate (buffer_string input_switch);
  ls ← determinate (buffer_string input_list);
  _ ← say (lit "S: " ++ sw ++ [newline]);
  _ ← say (lit "L: " ++ ls ++ [newline]);
  ok ← malloc (parser e);
  q ← sprintf200 ok (select_query sw ls);
  r ← mysql_query q;
  match r with
  | QueryError msg => die msg
  | _ =>
      _ ← say (lit "Port number | Index |    Period    | Gates state " ++ [newline]);
      _ ← say (lit "------------|-------|--------------|-------------" ++ [newline]);
      fetch_rows r select_row
  end.

(** ** main *)

(** mysql_real_connect: an error message when it fails. *)
Definition mysql_connect : M legacy (option (list ascii)) := fun s =>
  Ret (connect e (l_conns s))
      (LegacyState (l_switches s) (l_ports s) (l_mallocs s) (S (l_conns s)) (l_queries s) (l_files s) (l_in s) (l_out s) (l_err s)).

(** fgets(buffer, 256, stdin): at most 255 characters, up to a newline; NULL at
    the end of the input. *)
Definition take_line (input : list ascii) : list ascii := take 255 (take (S (line_length input)) input).

Definition fgets : M legacy (option buffer) := fun s =>
  match l_in s with
  | [] => Ret None s
  | _ =>
      let l := take_line (l_in s) in
      Ret (Some ((Some <$> l) ++ [Some NUL] ++ replicate (255 - length l) None))
          (LegacyState (l_switches s) (l_ports s) (l_mallocs s) (l_conns s) (l_queries s) (l_files s)
             (drop (length l) (l_in s)) (l_out s) (l_err s))
  end.

(** The commands store and store-upload, with the two operations that store something as
    arguments. *)
Definition store_command_with (save : writer) (query : sender) : M legacy unit :=
  arr ← malloc_array (parser e) nat switches_room;
  r ← ReadConfigFile (parser e) 0 arr;
  let '(count, arr) := r in
  _ ← say (lit "Number of Switches: " ++ show_Z count ++ [newline]);
  _ ← WriteXmlInstance (parser e) save count arr;
  _ ← say (lit "debug1" ++ [newline]);
  InsertConfigInDB query arr count.

Definition store_command : M legacy unit := store_command_with save mysql_query.

(** The body of if(fgets(...) != NULL). *)
Definition run_command (buf : buffer) : M legacy buffer :=
  s ← determinate (buffer_string buf);
  buf ← determinate (blit buf (line_length s) [Some NUL]);
  s ← determinate (buffer_string buf);
  _ ← (if streq s (lit "store") || streq s (lit "store-upload") then store_command else mret tt);
  _ ← (if streq s (lit "show") then Show else mret tt);
  _ ← (if strstr_found s (lit "select ") then Select_args buf else mret tt);
  mret buf.

(** One iteration of while(1); the buffer is not initialised when fgets fails, and
    memset(buffer, 0, strlen(buffer)) reads it. *)
Definition iteration : M legacy unit :=
  c ← mysql_connect;
  match c with
  | Some msg => die msg
  | None =>
      _ ← say (lit "> ");
      b ← fgets;
      buf ← match b with Some buf => run_command buf | None => mret (replicate 256 None) end;
      s ← determinate (buffer_string buf);
      _ ← determinate (bzero buf 0 (length s));
      mret tt
  end.

Fixpoint shell_loop (fuel : nat) : M legacy unit :=
  match fuel with
  | O => no_fuel
  | S fuel => _ ← iteration; shell_loop fuel
  end.

(** ReadFile.c: main. Every iteration takes a character of the input or stops. *)
Definition shell_main : M legacy unit := fun s => shell_loop (S (length (l_in s))) s.
End Shell.
