(* ===== verification/LegacyThms.v ===== *)
(** * What the shell of ReadFile.c and the parser behind it do

    Every run ends by exit(1) or in undefined behaviour; the store commands never
    store a configuration; select asks for what its arguments say. *)

From S2P Require Import Prelude CLib Utils JsonApi LinkedList Switch Client Bytes LegacyParser LegacyShell.

(** ** Runs that may stop: [m] does not run out of fuel, its exits have the code 1
    and a state in [E], and what it returns satisfies [Q]. *)
Definition may {A} (E : legacy -> Prop) (m : M legacy A) (s : legacy) (Q : A -> legacy -> Prop) : Prop :=
  match m s with
  | Ret a s' => Q a s'
  | Exit c s' => c = 1 /\ E s'
  | Undef => True
  | NoFuel => False
  end.

Lemma may_bind {A B} E (m : M legacy A) (k : A -> M legacy B) s Q :
  may E (m ≫= k) s Q <-> may E m s (fun a s' => may E (k a) s' Q).
Proof. unfold may, mbind, M_bind. by destruct (m s). Qed.

Lemma may_mono {A} (E E' : legacy -> Prop) (m : M legacy A) s (Q Q' : A -> legacy -> Prop) :
  may E m s Q -> (forall s', E s' -> E' s') -> (forall a s', Q a s' -> Q' a s') -> may E' m s Q'.
Proof. unfold may. destruct (m s); intuition eauto. Qed.

Lemma may_determinate {A} E (o : option A) s Q : (forall a, o = Some a -> Q a s) -> may E (determinate o) s Q.
Proof. destruct o; unfold may; simpl; auto. Qed.

(** A computation that leaves the input alone and returns a value in [P]. *)
Definition tame {A} (P : A -> Prop) (m : M legacy A) : Prop :=
  forall s, may (fun _ => True) m s (fun a s' => l_in s' = l_in s /\ P a).

Definition any_value {A} (_ : A) : Prop := True.

Section Tame.
Context {A B : Type}.

Lemma tame_bind (P : A -> Prop) (Q : B -> Prop) (m : M legacy A) (k : A -> M legacy B) :
  tame P m -> (forall a, P a -> tame Q (k a)) -> tame Q (m ≫= k).
Proof.
  intros Hm Hk s. apply may_bind. eapply may_mono; [apply Hm|done|]. cbn. intros a s' [Hin HP].
  eapply may_mono; [by apply Hk|done|]. cbn. intros b s'' [Hin' HQ]. split; [congruence|done].
Qed.

Lemma tame_step (Q : B -> Prop) (m : M legacy A) (k : A -> M legacy B) :
  tame any_value m -> (forall a, tame Q (k a)) -> tame Q (m ≫= k).
Proof. intros Hm Hk. eapply tame_bind; [exact Hm|auto]. Qed.

Lemma tame_ret (P : A -> Prop) (a : A) : P a -> tame P (mret a).
Proof. intros HP s. by split. Qed.

Lemma tame_undef (P : A -> Prop) : tame P (undef : M legacy A).
Proof. done. Qed.

Lemma tame_exit (P : A -> Prop) : tame P (exit_with 1 : M legacy A).
Proof. done. Qed.

Lemma tame_determinate (o : option A) : tame any_value (determinate o).
Proof. intros s. by apply may_determinate. Qed.

Lemma tame_cells `{Lens legacy T} (m : M T A) :
  (forall t s, l_in (upd t s) = l_in s) ->
  (forall t, match m t with Ret _ _ | Undef => True | _ => False end) -> tame any_value (lift m).
Proof.
  intros Hin Hm s. unfold may, lift. specialize (Hm (view s)). destruct (m (view s)); try done; by rewrite Hin.
Qed.
End Tame.

Lemma tame_say t : tame any_value (say t). Proof. done. Qed.
Lemma tame_complain t : tame any_value (complain t). Proof. done. Qed.
Lemma tame_save p t : tame any_value (save p t). Proof. done. Qed.
Lemma tame_malloc e : tame any_value (malloc e). Proof. done. Qed.
Lemma tame_query e q : tame any_value (mysql_query e q). Proof. done. Qed.

Lemma tame_load_switx l : tame any_value (load_switx l).
Proof. apply tame_cells; [done|]. intros t. unfold cell_load. by destruct (t !! l) as [[]|]. Qed.
Lemma tame_store_switx l f : tame any_value (store_switx l f).
Proof. apply tame_cells; [done|]. intros t. unfold cell_store. by destruct (t !! l) as [[]|]. Qed.
Lemma tame_load_port l : tame any_value (load_port l).
Proof. apply tame_cells; [done|]. intros t. unfold cell_load. by destruct (t !! l) as [[]|]. Qed.
Lemma tame_store_port l f : tame any_value (store_port l f).
Proof. apply tame_cells; [done|]. intros t. unfold cell_store. by destruct (t !! l) as [[]|]. Qed.
Lemma tame_new_switx a : tame any_value (lift (cell_new (A := switx) a)). Proof. by apply tame_cells. Qed.
Lemma tame_new_port a : tame any_value (lift (cell_new (A := port) a)). Proof. by apply tame_cells. Qed.
Lemma tame_free_switx l : tame any_value (lift (cell_free (A := switx) l)).
Proof. apply tame_cells; [done|]. intros t. unfold cell_free. by destruct (t !! l) as [[]|]. Qed.
Lemma tame_free_port l : tame any_value (lift (cell_free (A := port) l)).
Proof. apply tame_cells; [done|]. intros t. unfold cell_free. by destruct (t !! l) as [[]|]. Qed.

Create HintDb tame discriminated.
#[export] Hint Resolve tame_undef tame_exit tame_determinate tame_say tame_complain tame_save tame_malloc tame_query
  tame_load_switx tame_store_switx tame_load_port tame_store_port tame_new_switx tame_new_port
  tame_free_switx tame_free_port : tame.

(** Walk through a computation, splitting its tests. *)
Ltac tame_walk :=
  repeat first
    [ solve [eauto with tame]
    | apply tame_ret; done
    | apply tame_step; [|intros ?]
    | match goal with
      | |- tame _ (match ?x with _ => _ end) => destruct x
      | |- tame _ (let '_ := ?x in _) => destruct x
      end ].

Lemma tame_array_get {A} (arr : option (list (option A))) i : tame any_value (array_get arr i).
Proof. unfold array_get. tame_walk. Qed.
Lemma tame_array_set {A} (arr : option (list (option A))) i v : tame any_value (array_set arr i v).
Proof. unfold array_set. tame_walk. Qed.
Lemma tame_malloc_array e A n : tame any_value (malloc_array e A n).
Proof. unfold malloc_array. tame_walk. Qed.
Lemma tame_no_memory A (P : A -> Prop) : tame P no_memory.
Proof. unfold no_memory. tame_walk. Qed.
#[export] Hint Resolve tame_array_get tame_array_set tame_malloc_array tame_no_memory : tame.

(** ** The parser is tame *)
Lemma getWord_length ws : (length (getWord ws).2 <= length ws)%nat.
Proof. destruct ws; simpl; lia. Qed.

Lemma getWord_shorter ws : (getWord ws).1 <> [] -> (length (getWord ws).2 < length ws)%nat.
Proof. destruct ws; simpl; [done|lia]. Qed.

(** The words that remain do not grow. *)
Definition shrinks (n : nat) (p : parsing) : Prop := (length (rest p) <= n)%nat.

Lemma tame_get_switch e p : tame (shrinks (length (rest p))) (get_switch e p).
Proof.
  unfold get_switch. pose proof (getWord_length (rest p)) as Hl. destruct (getWord (rest p)) as [w ws]. tame_walk.
Qed.

Lemma tame_current_port p last : tame any_value (current_port p last).
Proof. unfold current_port, current_switch. tame_walk. Qed.
#[export] Hint Resolve tame_current_port : tame.

Lemma tame_get_port e p : tame (shrinks (length (rest p))) (get_port e p).
Proof.
  unfold get_port, current_switch. pose proof (getWord_length (rest p)) as Hl. destruct (getWord (rest p)) as [w ws].
  pose proof (getWord_length ws) as Hl'. destruct (getWord ws) as [w' ws']. tame_walk.
  apply tame_ret. unfold shrinks. simpl in *. lia.
Qed.

Lemma tame_get_list e p : tame (shrinks (length (rest p))) (get_list e p).
Proof.
  unfold get_list. pose proof (getWord_length (rest p)) as Hl. destruct (getWord (rest p)) as [w ws]. tame_walk.
Qed.

Lemma tame_mono {A} (P Q : A -> Prop) m : tame P m -> (forall a, P a -> Q a) -> tame Q m.
Proof. intros Hm HQ s. eapply may_mono; [apply Hm|done|]. cbn. intuition. Qed.

Lemma tame_read_word e p : tame (shrinks (length (rest p))) (read_word e p).
Proof.
  unfold read_word. apply (tame_bind (shrinks (length (rest p)))).
  { destruct (streq _ _); [apply tame_get_switch|]. apply tame_ret. unfold shrinks. lia. }
  intros p1 H1. apply (tame_bind (shrinks (length (rest p1)))).
  { destruct (streq _ _); [apply tame_get_port|]. apply tame_ret. unfold shrinks. lia. }
  unfold shrinks in *. intros p2 H2. destruct (block p2); [apply tame_ret; lia|].
  eapply tame_mono; [apply tame_get_list|]. unfold shrinks. lia.
Qed.

Lemma tame_read_loop e fuel : forall p, (length (rest p) < fuel)%nat -> tame any_value (read_loop e fuel p).
Proof.
  induction fuel as [|fuel IH]; intros p Hf; [lia|]. cbn [read_loop].
  pose proof (getWord_shorter (rest p)) as Hs. destruct (getWord (rest p)) as [w ws].
  destruct (Nat.eqb_spec (length w) 0) as [|Hw]; [by apply tame_ret|].
  eapply tame_bind; [apply tame_read_word|]. unfold shrinks. cbn [rest]. intros p' Hp'. apply IH.
  cbn in Hs. assert (w <> []) as Hne by (by intros ->). specialize (Hs Hne). lia.
Qed.
#[export] Hint Resolve tame_read_loop : tame.

Lemma tame_ReadConfigFile e count arr : tame any_value (ReadConfigFile e count arr).
Proof. unfold ReadConfigFile. tame_walk. Qed.

Lemma tame_list_entries n : forall i pt, tame any_value (list_entries n i pt).
Proof. induction n as [|n IH]; intros i pt; cbn [list_entries]; tame_walk. Qed.
#[export] Hint Resolve tame_list_entries : tame.

Lemma tame_write_ports n : forall i s, tame any_value (write_ports n i s).
Proof. induction n as [|n IH]; intros i s; cbn [write_ports]; unfold writeList; tame_walk. Qed.

Lemma tame_number_string s : tame any_value (number_string s).
Proof. unfold number_string. tame_walk. Qed.
#[export] Hint Resolve tame_ReadConfigFile tame_write_ports tame_number_string : tame.

Lemma tame_write_switches e n : forall k arr, tame any_value (write_switches e save n k arr).
Proof. induction n as [|n IH]; intros k arr; cbn [write_switches]; unfold name_file; tame_walk. Qed.

(** ** The commands are tame *)
Lemma tame_die A (P : A -> Prop) msg : tame P (die msg).
Proof. unfold die. tame_walk. Qed.
Lemma tame_sprintf200 ok t : tame any_value (sprintf200 ok t).
Proof. unfold sprintf200. tame_walk. Qed.
#[export] Hint Resolve tame_write_switches tame_die tame_sprintf200 : tame.

Lemma tame_insert_list e n : forall k number ln pt, tame any_value (insert_list (mysql_query e) n k number ln pt).
Proof. induction n as [|n IH]; intros; cbn [insert_list]; tame_walk. Qed.
#[export] Hint Resolve tame_insert_list : tame.

Lemma tame_insert_ports e n : forall j number ln s, tame any_value (insert_ports (mysql_query e) n j number ln s).
Proof. induction n as [|n IH]; intros; cbn [insert_ports]; tame_walk. Qed.
#[export] Hint Resolve tame_insert_ports : tame.

Lemma tame_insert_switches e n : forall i arr, tame any_value (insert_switches e (mysql_query e) n i arr).
Proof. induction n as [|n IH]; intros; cbn [insert_switches]; unfold next_list_number, column; tame_walk. Qed.
#[export] Hint Resolve tame_insert_switches : tame.

Lemma tame_store_command e : tame any_value (store_command e).
Proof. unfold store_command, store_command_with, WriteXmlInstance, InsertConfigInDB. tame_walk. Qed.

Lemma tame_fetch_rows r f : (forall row, tame any_value (f row)) -> tame any_value (fetch_rows r f).
Proof.
  intros Hf. destruct r as [| |rows]; cbn [fetch_rows]; [apply tame_undef..|].
  induction rows as [|row rows IH]; cbn [foldr]; [by apply tame_ret|]. by apply tame_step.
Qed.

Lemma tame_Show e : tame any_value (Show e).
Proof. unfold Show. tame_walk; apply tame_fetch_rows; intros row; unfold show_row, column; tame_walk. Qed.

Lemma tame_copy_value buf fuel : forall pos dest,
  (0 < fuel)%nat -> (length buf < fuel + pos)%nat -> tame any_value (copy_value fuel buf pos dest).
Proof.
  induction fuel as [|fuel IH]; intros pos dest H0 Hl s; [lia|]. cbn [copy_value].
  unfold byte_at at 1. apply may_bind, may_determinate. intros c Hc.
  assert (pos < length buf)%nat as Hp by (apply lookup_lt_is_Some; destruct (buf !! pos); [done|discriminate]).
  assert (tame any_value (dest ← append_char dest c; copy_value fuel buf (S pos) dest)) as Ht.
  { unfold append_char. apply tame_step; [tame_walk|]. intros d. apply IH; lia. }
  destruct (isalpha c || isdigit c); [apply Ht|done].
Qed.

Lemma tame_value buf pos dest : tame any_value (copy_value (S (length buf)) buf pos dest).
Proof. apply tame_copy_value; lia. Qed.
#[export] Hint Resolve tame_value : tame.

Lemma tame_argument_loop arg buf n : forall pos dest, tame any_value (argument_loop n arg buf pos dest).
Proof. induction n as [|n IH]; intros pos dest; cbn [argument_loop]; unfold byte_at; tame_walk. Qed.
#[export] Hint Resolve tame_argument_loop : tame.

Lemma tame_Select_args e buf : tame any_value (Select_args e buf).
Proof.
  unfold Select_args, ReadArgumentValue. tame_walk;
    apply tame_fetch_rows; intros row; unfold select_row, column; tame_walk.
Qed.
#[export] Hint Resolve tame_store_command tame_Show tame_Select_args : tame.

Lemma tame_run_command e buf : tame any_value (run_command e buf).
Proof. unfold run_command. tame_walk. Qed.

(** An iteration that returns has taken something of the input. *)
Lemma iteration_progress e s :
  may (fun _ => True) (iteration e) s (fun _ s' => (length (l_in s') < length (l_in s))%nat).
Proof.
  unfold iteration. apply may_bind. unfold may at 1, mysql_connect. destruct (connect e (l_conns s)) as [msg|]; [done|].
  set (s1 := LegacyState _ _ _ _ _ _ _ _ _). apply may_bind. unfold may at 1, say, modify. set (s2 := LegacyState _ _ _ _ _ _ _ _ _).
  apply may_bind. unfold may at 1, fgets. destruct (l_in s2) as [|c input] eqn:Ein.
  - by cbn.
  - set (s3 := LegacyState _ _ _ _ _ _ _ _ _). apply may_bind. eapply may_mono; [apply tame_run_command|done|].
    cbn beta. intros b s4 [Hin _]. apply may_bind, may_determinate. intros t _. apply may_bind, may_determinate. intros _ _.
    unfold may, mret, M_ret. rewrite Hin. unfold s3, l_in at 1. change (l_in s) with (l_in s2). rewrite Ein, length_drop.
    assert (0 < length (take_line (c :: input)))%nat; [|simpl; lia]. unfold take_line. simpl. lia.
Qed.

Lemma shell_loop_ends e fuel : forall s, (length (l_in s) < fuel)%nat ->
  may (fun _ => True) (shell_loop e fuel) s (fun _ _ => False).
Proof.
  induction fuel as [|fuel IH]; intros s Hf; [lia|]. cbn [shell_loop]. apply may_bind.
  eapply may_mono; [apply iteration_progress|done|]. cbn beta. intros _ s' Hs. apply IH. lia.
Qed.

(** ** The parser forgets every switch it reads *)

(** Every pointer of the array is to a freed switch. *)
Definition dangling (arr : option (list (option nat))) (s : legacy) : Prop :=
  forall a i l, arr = Some a -> a !! i = Some (Some l) -> l_switches s !! l = Some None.

Lemma dangling_load arr i s {A} (k : nat -> switx -> M legacy A) :
  dangling arr s -> (l ← array_get arr i; sw ← load_switx l; k l sw) s = Undef.
Proof.
  intros Hd. unfold array_get. destruct arr as [a|]; [|done]. destruct (i <? 0); [done|].
  destruct (a !! Z.to_nat i) as [[l|]|] eqn:Ea; [|done..].
  specialize (Hd a (Z.to_nat i) l eq_refl Ea). unfold mbind, M_bind. cbn.
  unfold load_switx, lift, cell_load. cbn [view lens_switches]. by rewrite Hd.
Qed.

Lemma get_port_undef e p s : dangling (ptr_switches p) s -> get_port e p s = Undef.
Proof.
  intros Hd. unfold get_port. destruct (getWord (rest p)) as [w ws]. unfold mbind at 1, M_bind at 1, malloc.
  destruct (negb (l_oom e (l_mallocs s))); [|done]. cbn [negb].
  unfold mbind at 1, M_bind at 1, lift at 1, cell_new at 1. cbn [view lens_ports upd l_ports].
  unfold mbind at 1, M_bind at 1, store_port at 1, lift at 1, cell_store at 1. cbn [view lens_ports upd l_ports].
  rewrite lookup_app_r, Nat.sub_diag by lia. cbn [lookup list_lookup]. unfold current_switch at 1. apply dangling_load. exact Hd.
Qed.

(** What a failed allocation leaves: the files and the queries as they were. *)
Definition untouched (s s' : legacy) : Prop := l_files s' = l_files s /\ l_queries s' = l_queries s.
Definition out_of_memory (e : parser_env) (s s' : legacy) : Prop := untouched s s' /\ exists n, l_oom e n = true.

Lemma cell_store_end {A} (h : list (option A)) a f : cell_store (length h) f (h ++ [Some a]) = Ret tt (h ++ [Some (f a)]).
Proof.
  unfold cell_store. rewrite lookup_app_r, Nat.sub_diag by lia. cbn. by rewrite insert_app_r_alt, Nat.sub_diag by lia.
Qed.

Lemma cell_free_end {A} (h : list (option A)) a : cell_free (length h) (h ++ [Some a]) = Ret tt (h ++ [None]).
Proof.
  unfold cell_free. rewrite lookup_app_r, Nat.sub_diag by lia. cbn. by rewrite insert_app_r_alt, Nat.sub_diag by lia.
Qed.

Lemma dangling_set a s i : dangling (Some a) s ->
  dangling (Some (<[i := Some (length (l_switches s))]> a)) (upd (l_switches s ++ [None]) s).
Proof.
  intros Hd a' j l [= <-] Hj. cbn [upd lens_switches l_switches].
  destruct (decide (l < length (l_switches s))%nat) as [Hl|Hl].
  - rewrite lookup_app_l by done. apply list_lookup_insert_Some in Hj as [(_ & [= <-] & _)|(_ & Hj)]; [lia|].
    by eapply Hd.
  - apply list_lookup_insert_Some in Hj as [(_ & [= <-] & _)|(_ & Hj)].
    + by rewrite lookup_app_r, Nat.sub_diag by lia.
    + apply Hd in Hj; [|done]. apply lookup_lt_Some in Hj. lia.
Qed.

Ltac lens_cbn := cbn [view lens_switches upd l_switches l_ports l_mallocs l_conns l_queries l_files l_in l_out l_err].

Lemma get_switch_spec e p s : dangling (ptr_switches p) s ->
  may (out_of_memory e s) (get_switch e p) s (fun p' s' =>
    dangling (ptr_switches p') s' /\ untouched s s' /\ count_switches p' = count_switches p + 1 /\ block p' = true).
Proof.
  intros Hd. unfold get_switch. destruct (getWord (rest p)) as [w ws].
  apply may_bind. unfold may at 1, malloc. destruct (l_oom e (l_mallocs s)) eqn:E1; cbn [negb].
  { split; [done|]. split; [done|eauto]. }
  apply may_bind. unfold may at 1, lift at 1, cell_new. lens_cbn.
  apply may_bind. unfold may at 1, malloc. lens_cbn.
  destruct (l_oom e (S (l_mallocs s))) eqn:E2; cbn [negb].
  { split; [done|]. split; [done|eauto]. }
  apply may_bind, may_determinate. intros number _.
  apply may_bind. unfold may at 1, store_switx, lift at 1. lens_cbn.
  rewrite cell_store_end. apply may_bind.
  destruct (ptr_switches p) as [a|] eqn:Ea; [|done]. unfold array_set.
  destruct ((0 <=? _) && _) eqn:Hi; [|done]. apply andb_true_iff in Hi as [Hi1%Z.leb_le Hi2%Z.ltb_lt].
  unfold may at 1, mret, M_ret. apply may_bind. unfold array_get. rewrite (proj2 (Z.ltb_ge _ _)) by lia.
  rewrite list_lookup_insert_eq by lia. apply may_determinate. intros target [= <-].
  apply may_bind. unfold may at 1, malloc_array, malloc, mbind, M_bind, mret, M_ret. lens_cbn.
  apply may_bind. unfold may at 1, lift at 1. lens_cbn. rewrite cell_store_end.
  apply may_bind. unfold may at 1, lift at 1. lens_cbn. rewrite cell_store_end.
  apply may_bind. unfold may at 1, lift at 1. lens_cbn. rewrite cell_free_end.
  split; [|done]. cbn [ptr_switches]. exact (dangling_set a s _ Hd).
Qed.

(** One iteration and the whole loop: they keep every pointer dangling, and never
    leave the block that waits for a port. *)
Definition forgetful (p : parsing) (s : legacy) : Prop := dangling (ptr_switches p) s /\ block p = true.

Lemma read_word_spec e p s : forgetful p s ->
  may (out_of_memory e s) (read_word e p) s (fun p' s' =>
    forgetful p' s' /\ untouched s s' /\
    if streq (word p) (lit "switch:") then count_switches p' = count_switches p + 1
    else p' = p /\ streq (word p) (lit "port_number:") = false).
Proof.
  intros [Hd Hb]. unfold read_word. apply may_bind. destruct (streq (word p) (lit "switch:")).
  - eapply may_mono; [by apply get_switch_spec|done|]. cbn beta. intros p1 s1 (Hd1 & Hu & Hc & Hb1). apply may_bind.
    destruct (streq (word p1) (lit "port_number:")); unfold may at 1; [by rewrite get_port_undef|].
    unfold mret, M_ret. by rewrite Hb1.
  - unfold may at 1, mret, M_ret. apply may_bind.
    destruct (streq (word p) (lit "port_number:")); unfold may at 1; [by rewrite get_port_undef|].
    unfold mret, M_ret. by rewrite Hb.
Qed.

Lemma may_and {A} (E E' : legacy -> Prop) (m : M legacy A) s (Q Q' : A -> legacy -> Prop) :
  may E m s Q -> may E' m s Q' -> may E m s (fun a s' => Q a s' /\ Q' a s').
Proof. unfold may. by destruct (m s). Qed.

(** The words of the file, up to the one getWord reports as the end. *)
Fixpoint words_read (ws : list (list ascii)) : list (list ascii) :=
  match ws with
  | [] => []
  | w :: ws => if (length w =? 0)%nat then [] else w :: words_read ws
  end.

Definition is_label (w : list ascii) : bool := streq w (lit "switch:") || streq w (lit "port_number:").

Lemma read_loop_forgets e fuel : forall p s, (length (rest p) < fuel)%nat -> forgetful p s ->
  may (out_of_memory e s) (read_loop e fuel p) s (fun p' s' =>
    forgetful p' s' /\ untouched s s' /\
    count_switches p + (if existsb is_label (words_read (rest p)) then 1 else 0) <= count_switches p').
Proof.
  induction fuel as [|fuel IH]; intros p s Hf Hp; [lia|]. cbn [read_loop].
  destruct (rest p) as [|w ws]; cbn [getWord words_read]; [repeat split; try apply Hp; cbn; lia|].
  destruct (Nat.eqb_spec (length w) 0) as [|Hw]; [repeat split; try apply Hp; cbn; lia|].
  set (q := Parsing ws w _ _ _ _ _). apply may_bind.
  eapply may_mono; [eapply may_and; [apply (read_word_spec e q s Hp)|apply (tame_read_word e q)]|done|].
  cbn beta. intros p' s' [(Hp' & [Hu1 Hu2] & Hc) [_ Hl]]. unfold shrinks in Hl. cbn [rest q] in Hl. cbn [length] in Hf.
  eapply may_mono; [apply (IH p' s'); [lia|done]| |].
  { intros s'' [[H1 H2] H3]. split; [split; congruence|done]. }
  cbn beta. intros p'' s'' (Hp'' & [H1 H2] & Hc''). split; [done|]. split; [split; congruence|].
  cbn [existsb]. unfold is_label at 1. cbn [word count_switches q] in Hc.
  destruct (streq w (lit "switch:")); cbn [orb].
  - destruct (existsb is_label (words_read (rest p'))); lia.
  - destruct Hc as [-> Hport]. rewrite Hport. cbn [orb rest count_switches q] in *. lia.
Qed.

(** Words that are no labels are skipped. *)
Lemma read_loop_skips e fuel : forall p s, (length (rest p) < fuel)%nat -> block p = true ->
  existsb is_label (words_read (rest p)) = false ->
  exists p', read_loop e fuel p s = Ret p' s /\ count_switches p' = count_switches p.
Proof.
  induction fuel as [|fuel IH]; intros p s Hf Hb Hno; [lia|]. cbn [read_loop].
  destruct (rest p) as [|w ws]; cbn [getWord words_read] in *; [by exists p|].
  destruct (Nat.eqb_spec (length w) 0) as [|Hw]; [by exists p|].
  cbn [existsb] in Hno. apply orb_false_iff in Hno as [Hw1 Hno]. apply orb_false_iff in Hw1 as [Hsw Hpt].
  set (q := Parsing ws w _ _ _ _ _).
  assert (read_word e q s = Ret q s) as Hq.
  { unfold read_word. cbn [word q]. rewrite Hsw. unfold mbind, M_bind, mret, M_ret. cbn [word q]. rewrite Hpt.
    cbn [block q]. by rewrite Hb. }
  rewrite (bind_ret_eq _ _ _ _ _ Hq). cbn [length] in Hf. destruct (IH q s) as (p' & He & Hc); [cbn; lia|done|done|].
  exists p'. by split.
Qed.

(** The state after the messages [text] and one allocation. *)
Definition after_messages (s : legacy) (text : list ascii) : legacy :=
  LegacyState (l_switches s) (l_ports s) (S (l_mallocs s)) (l_conns s) (l_queries s) (l_files s) (l_in s)
    (l_out s ++ text) (l_err s).

Definition empty_store_messages : list ascii :=
  lit "Configuration file parsed correctly..." ++ [newline] ++ lit "Number of Switches: 0" ++ [newline] ++
  lit "XML instance generated correctly..." ++ [newline] ++ lit "debug1" ++ [newline].

Lemma malloc_array_eq e A n s : exists arr, malloc_array e A n s = Ret arr (after_messages s []) /\
  (arr = None \/ arr = Some (replicate n None)).
Proof.
  unfold malloc_array, mbind, M_bind, malloc, mret, M_ret, after_messages. rewrite app_nil_r.
  destruct (l_oom e (l_mallocs s)); eexists; (split; [reflexivity|]); auto.
Qed.

Lemma dangling_fresh n arr s : arr = None \/ arr = Some (replicate n None) -> dangling arr s.
Proof. intros [->| ->] a i l Ha Hi; [done|]. injection Ha as <-. by apply lookup_replicate in Hi as [? _]. Qed.

Lemma write_dangling e sv n arr s : dangling arr s -> 0 < n -> WriteXmlInstance e sv n arr s = Undef.
Proof.
  intros Hd Hn. unfold WriteXmlInstance. apply bind_undef_eq. destruct (Z.to_nat n) as [|m] eqn:E; [lia|].
  cbn [write_switches]. by apply dangling_load.
Qed.

(** ** The store command, whatever writing a file and sending a query do *)
Section Store.
Context (e : shell_env) (s : legacy).
Hypothesis Hopens : config_opens (parser e) = true.

Lemma store_labelled : existsb is_label (words_read (config_words (parser e))) = true ->
  (forall sv q, store_command_with e sv q s = Undef) \/
  exists s', (forall sv q, store_command_with e sv q s = Exit 1 s') /\ l_files s' = l_files s /\ l_queries s' = l_queries s /\
    exists n, l_oom (parser e) n = true.
Proof.
  intros Ex. unfold store_command_with. destruct (malloc_array_eq (parser e) nat switches_room s) as (arr & Ha & Harr).
  setoid_rewrite (bind_ret_eq _ _ _ _ _ Ha). unfold ReadConfigFile. rewrite Hopens. cbn [negb].
  set (p := Parsing _ _ _ _ _ _ _). set (s1 := after_messages s []).
  pose proof (read_loop_forgets (parser e) (S (length (config_words (parser e)))) p s1 ltac:(cbn; lia)
    (conj (dangling_fresh _ _ _ Harr) eq_refl)) as H. cbn [rest p] in H. rewrite Ex in H. unfold may in H.
  unfold mbind, M_bind. destruct (read_loop _ _ p s1) as [p' s2|c s2| |]; [|right|by left|done].
  - left. intros sv q. destruct H as ([Hd _] & _ & Hc). cbn [count_switches p] in Hc.
    unfold say, modify, mret, M_ret. rewrite write_dangling; [done|exact Hd|lia].
  - destruct H as [-> [[Hf Hq] Hn]]. by exists s2.
Qed.

Lemma store_unlabelled : existsb is_label (words_read (config_words (parser e))) = false ->
  forall sv q, store_command_with e sv q s = Ret tt (after_messages s empty_store_messages).
Proof.
  intros Ex sv q. unfold store_command_with. destruct (malloc_array_eq (parser e) nat switches_room s) as (arr & Ha & Harr).
  rewrite (bind_ret_eq _ _ _ _ _ Ha). unfold ReadConfigFile. rewrite Hopens. cbn [negb].
  set (p := Parsing _ _ _ _ _ _ _). set (s1 := after_messages s []).
  destruct (read_loop_skips (parser e) (S (length (config_words (parser e)))) p s1 ltac:(cbn; lia) eq_refl Ex)
    as (p' & Hp & Hc). unfold WriteXmlInstance, InsertConfigInDB, mbind, M_bind. rewrite Hp.
  unfold say, modify, mret, M_ret. rewrite Hc.
  change (Z.to_nat (count_switches p)) with 0%nat. unfold s1, after_messages, empty_store_messages. cbn. rewrite app_nil_r, <- !app_assoc. reflexivity.
Qed.
End Store.

(** ** ReadArgumentValue *)

(** A text in which the loop finds no option [arg]: a hyphen takes the character
    after it along. *)
Inductive no_option (arg : ascii) : list ascii -> Prop :=
| no_option_nil : no_option arg []
| no_option_char c s : c <> "-"%char -> no_option arg s -> no_option arg (c :: s)
| no_option_other c s : c <> arg -> no_option arg s -> no_option arg ("-"%char :: c :: s).

Definition alnum (c : ascii) : bool := isalpha c || isdigit c.

Lemma alnum_no_nul X : Forall (fun c => alnum c = true) X -> no_nul X.
Proof. intros H. eapply Forall_impl; [exact H|]. cbn. by intros c Hc ->. Qed.

(** The string [D] in a block whose other [k] bytes are zero. *)
Definition filled (D : list ascii) (k : nat) : buffer := (Some <$> D) ++ replicate k (Some NUL).

Lemma filled_string D k : no_nul D -> buffer_string (filled D (S k)) = Some D.
Proof. intros Hn. unfold filled. cbn [replicate]. by rewrite buffer_string_full, cstr_id. Qed.

Lemma append_char_eq D k c s : no_nul D -> append_char (filled D (S (S k))) c s = Ret (filled (D ++ [c]) (S k)) s.
Proof.
  intros Hn. unfold append_char. rewrite filled_string by done. unfold mbind, M_bind, determinate at 1, mret at 1, M_ret at 1.
  unfold blit, filled. rewrite length_app, length_fmap, length_replicate. cbn [length].
  rewrite (proj2 (Nat.leb_le _ _)) by lia. cbn [determinate]. unfold mret, M_ret. f_equal.
  rewrite take_app_length' by (by rewrite length_fmap). rewrite drop_app_ge by (rewrite length_fmap; lia).
  rewrite length_fmap. replace (length D + 2 - length D)%nat with 2%nat by lia.
  cbn [replicate drop]. by rewrite fmap_app, <- app_assoc.
Qed.

(** The bytes of the block from [pos] on. *)
Lemma byte_at_eq (buf : buffer) pos c t s : drop pos buf = Some c :: t -> byte_at buf pos s = Ret c s /\ drop (S pos) buf = t.
Proof.
  intros Hd. split.
  - unfold byte_at. pose proof (lookup_drop buf pos 0) as Hl. rewrite Hd, Nat.add_0_r in Hl. by rewrite <- Hl.
  - replace (S pos) with (pos + 1)%nat by lia. by rewrite <- drop_drop, Hd.
Qed.

Lemma copy_value_eq buf X c t s : alnum c = false -> forall fuel pos D k,
  drop pos buf = (Some <$> X) ++ Some c :: t -> Forall (fun x => alnum x = true) X -> no_nul D ->
  (length X < k)%nat -> (length X < fuel)%nat ->
  copy_value fuel buf pos (filled D k) s = Ret (filled (D ++ X) (k - length X)) s.
Proof.
  intros Hc. induction X as [|x X IH]; intros fuel pos D k Hd HX HD Hk Hf;
    (destruct fuel as [|fuel]; [simpl in Hf; lia|]); cbn [copy_value];
    pose proof (byte_at_eq _ _ _ _ s Hd) as [Hb Hd']; rewrite (bind_ret_eq _ _ _ _ _ Hb).
  - fold (alnum c). rewrite Hc, app_nil_r, Nat.sub_0_r. done.
  - fold (alnum x). inversion_clear HX as [|? ? Hx HX']. rewrite Hx. cbn [length] in *.
    destruct k as [|[|k]]; [lia..|]. rewrite (bind_ret_eq _ _ _ _ _ (append_char_eq D k x s HD)).
    rewrite (IH fuel (S pos) (D ++ [x]) (S k)); [|done|done| |lia|lia].
    + rewrite <- app_assoc. cbn [app]. by replace (S k - length X)%nat with (S (S k) - S (length X))%nat by lia.
    + apply Forall_app. split; [done|]. constructor; [by intros ->|done].
Qed.

Lemma argument_loop_eq arg buf pre sep rest dest s : no_option arg pre -> forall n pos,
  drop pos buf = (Some <$> pre) ++ Some "-"%char :: Some arg :: Some sep :: rest -> (length pre < n)%nat ->
  exists pos', argument_loop n arg buf pos dest s = copy_value (S (length buf)) buf pos' dest s /\ drop pos' buf = rest.
Proof.
  intros Hpre. induction Hpre as [|c pre Hc Hpre IH|c pre Hc Hpre IH]; intros n pos Hd Hn;
    (destruct n as [|n]; [simpl in Hn; lia|]); cbn [argument_loop];
    pose proof (byte_at_eq _ _ _ _ s Hd) as [Hb Hd']; rewrite (bind_ret_eq _ _ _ _ _ Hb).
  - rewrite Ascii.eqb_refl. pose proof (byte_at_eq _ _ _ _ s Hd') as [Hb2 Hd2]. rewrite (bind_ret_eq _ _ _ _ _ Hb2).
    rewrite Ascii.eqb_refl. exists (S pos + 2)%nat. split; [done|].
    pose proof (byte_at_eq _ _ _ _ s Hd2) as [_ Hd3]. by replace (S pos + 2)%nat with (S (S (S pos))) by lia.
  - rewrite (proj2 (Ascii.eqb_neq _ _) Hc). apply IH; [done|]. cbn [length] in Hn. lia.
  - rewrite Ascii.eqb_refl. pose proof (byte_at_eq _ _ _ _ s Hd') as [Hb2 Hd2]. rewrite (bind_ret_eq _ _ _ _ _ Hb2).
    rewrite (proj2 (Ascii.eqb_neq _ _) Hc). apply IH; [done|]. cbn [length] in Hn. lia.
Qed.

(** The line gives the option [arg] the value [X]: letters and digits after the
    first hyphen that the loop sees before [arg], at most nine of them. *)
Definition option_value (arg : ascii) (line X : list ascii) : Prop :=
  exists pre sep post, line = pre ++ "-"%char :: arg :: sep :: X ++ post /\ no_option arg pre /\
    Forall (fun c => alnum c = true) X /\ (length X < 10)%nat /\
    match post with c :: _ => alnum c = false | [] => True end.

Lemma ReadArgumentValue_eq arg line X tail s : option_value arg line X ->
  ReadArgumentValue arg ((Some <$> line) ++ Some NUL :: tail) (length line) (filled [] 10) s
  = Ret (filled X (10 - length X)) s.
Proof.
  intros (pre & sep & post & -> & Hpre & HX & Hlen & Hpost). unfold ReadArgumentValue.
  rewrite (bind_ret_eq (determinate (buffer_string (filled [] 10))) _ s [] s eq_refl).
  rewrite (bind_ret_eq (determinate (bzero (filled [] 10) 0 (length (@nil ascii)))) _ s (filled [] 10) s eq_refl).
  assert (exists c t, alnum c = false /\ (Some <$> post) ++ Some NUL :: tail = Some c :: t) as (c & t & Hc & Hct).
  { destruct post as [|c post]; [by exists NUL, tail|]. by exists c, ((Some <$> post) ++ Some NUL :: tail). }
  set (buf := (Some <$> _) ++ _).
  destruct (argument_loop_eq arg buf pre sep ((Some <$> X) ++ Some c :: t) (filled [] 10) s Hpre
    (length (pre ++ "-"%char :: arg :: sep :: X ++ post)) 0) as (pos & He & Hd).
  - unfold buf. rewrite drop_0, !fmap_app, !fmap_cons, fmap_app, <- !app_assoc. cbn [app]. by rewrite <- app_assoc, Hct.
  - rewrite length_app. cbn [length]. lia.
  - rewrite He, (copy_value_eq buf X c t s Hc _ pos [] 10 Hd HX);
      [done|constructor|done|]. pose proof (f_equal length Hd) as Hl. rewrite length_drop, length_app, length_fmap in Hl.
    simpl in Hl. lia.
Qed.

(** ** A line of the input *)
Lemma line_length_app line rest : newline ∉ line -> line_length (line ++ newline :: rest) = length line.
Proof.
  induction line as [|c line IH]; intros Hn; [done|]. apply not_elem_of_cons in Hn as [Hc Hn].
  cbn [app line_length span_len]. rewrite (proj2 (Ascii.eqb_neq _ _)) by congruence. cbn [negb length]. f_equal. by apply IH.
Qed.

Lemma take_line_app line rest : newline ∉ line -> (length line < 255)%nat -> take_line (line ++ newline :: rest) = line ++ [newline].
Proof.
  intros Hn Hl. unfold take_line. rewrite line_length_app by done. rewrite cons_middle, app_assoc.
  rewrite take_app_length' by (rewrite length_app; simpl; lia). apply take_ge. rewrite length_app. simpl. lia.
Qed.

(** The block after fgets and after the newline was cut off. *)
Definition line_block (line : list ascii) : buffer := (Some <$> line) ++ Some NUL :: Some NUL :: replicate (254 - length line) None.

(** The state with the first [n] characters of the input taken. *)
Definition drop_input (n : nat) (s : legacy) : legacy :=
  LegacyState (l_switches s) (l_ports s) (l_mallocs s) (l_conns s) (l_queries s) (l_files s) (drop n (l_in s)) (l_out s) (l_err s).

Lemma fgets_line s line rest : l_in s = line ++ newline :: rest -> newline ∉ line -> (length line < 255)%nat ->
  fgets s = Ret (Some ((Some <$> line) ++ Some newline :: Some NUL :: replicate (254 - length line) None)) (drop_input (S (length line)) s).
Proof.
  intros Hin Hn Hl. unfold fgets, drop_input. rewrite Hin. destruct (line ++ newline :: rest) as [|c0 t0] eqn:E; [by destruct line|].
  rewrite <- E, take_line_app by done. rewrite fmap_app, <- app_assoc. cbn [app fmap list_fmap].
  rewrite length_app. cbn [length]. by replace (255 - (length line + 1))%nat with (254 - length line)%nat by lia;
    replace (length line + 1)%nat with (S (length line)) by lia.
Qed.

Lemma line_block_string line : no_nul line -> buffer_string (line_block line) = Some line.
Proof. intros Hn. unfold line_block. by rewrite buffer_string_full, cstr_id. Qed.

Lemma cut_newline line t : blit ((Some <$> line) ++ Some newline :: t) (length line) [Some NUL] = Some ((Some <$> line) ++ Some NUL :: t).
Proof.
  unfold blit. rewrite length_app, length_fmap. cbn [length]. rewrite (proj2 (Nat.leb_le _ _)) by lia.
  rewrite take_app_length' by (by rewrite length_fmap). rewrite drop_app_ge by (rewrite length_fmap; lia).
  rewrite length_fmap. by replace (length line + 1 - length line)%nat with 1%nat by lia.
Qed.

(** The command of a line that asks for a configuration. *)
Lemma run_select e line s : no_nul line -> newline ∉ line -> strstr_found line (lit "select ") = true ->
  run_command e ((Some <$> line) ++ Some newline :: Some NUL :: replicate (254 - length line) None) s
  = (_ ← Select_args e (line_block line); mret (line_block line)) s.
Proof.
  intros Hn Hnl Hsel. unfold run_command.
  assert (buffer_string ((Some <$> line) ++ Some newline :: Some NUL :: replicate (254 - length line) None) = Some (line ++ [newline])) as Hb.
  { change (Some newline :: Some NUL :: replicate (254 - length line) None)
      with ((Some <$> [newline]) ++ Some NUL :: replicate (254 - length line) None).
    rewrite app_assoc, <- fmap_app, buffer_string_full, cstr_id; [done|]. apply Forall_app. split; [done|]. by repeat constructor. }
  rewrite Hb. rewrite (bind_ret_eq (determinate (Some _)) _ s _ s eq_refl), line_length_app, cut_newline by done.
  rewrite (bind_ret_eq (determinate (Some _)) _ s _ s eq_refl). fold (line_block line). rewrite line_block_string by done.
  rewrite (bind_ret_eq (determinate (Some _)) _ s _ s eq_refl).
  assert (forall t, strstr_found (lit t) (lit "select ") = false -> streq line (lit t) = false) as Hne.
  { intros t Ht. apply bool_decide_eq_false. intros ->. congruence. }
  rewrite !Hne by reflexivity. cbn [orb]. rewrite !(bind_ret_eq (mret tt) _ s tt s eq_refl). by rewrite Hsel.
Qed.

(** A row of the result and the line it is printed as. *)
Definition row4 (r : option (list ascii) * option (list ascii) * option (list ascii) * option (list ascii)) : list (option (list ascii)) :=
  let '(a, b, c, d) := r in [a; b; c; d].

Definition row_text (r : option (list ascii) * option (list ascii) * option (list ascii) * option (list ascii)) : list ascii :=
  let '(a, b, c, d) := r in
  lit "    " ++ printf_s a ++ lit "         " ++ printf_s b ++ lit "        " ++ printf_s c ++
  lit "           " ++ printf_s d ++ lit " " ++ [newline].

(** The state with more text on the standard output. *)
Definition said (text : list ascii) (s : legacy) : legacy :=
  LegacyState (l_switches s) (l_ports s) (l_mallocs s) (l_conns s) (l_queries s) (l_files s) (l_in s) (l_out s ++ text) (l_err s).

Lemma said_said t t' s : said t (said t' s) = said (t' ++ t) s.
Proof. unfold said. cbn. by rewrite <- app_assoc. Qed.

Lemma fetch_rows_eq rows : forall s, fetch_rows (Rows (row4 <$> rows)) select_row s = Ret tt (said (concat (row_text <$> rows)) s).
Proof.
  induction rows as [|[[[a b] c] d] rows IH]; intros s.
  - unfold said. cbn. rewrite app_nil_r. by destruct s.
  - cbn [fmap list_fmap fetch_rows foldr].
    assert (select_row (row4 (a, b, c, d)) s = Ret tt (said (row_text (a, b, c, d)) s)) as Hr by done.
    rewrite (bind_ret_eq _ _ _ _ _ Hr). cbn [fetch_rows] in IH. rewrite IH, said_said. done.
Qed.

(** The state after a query for the list [Y] of the switch [X]: the input left,
    what was printed after the two values, and what went to the standard error. *)
Definition selected (s : legacy) (rest X Y text err : list ascii) : legacy :=
  LegacyState (l_switches s) (l_ports s) (S (l_mallocs s)) (S (l_conns s)) (l_queries s ++ [select_query X Y]) (l_files s) rest
    (l_out s ++ lit "> " ++ lit "S: " ++ X ++ [newline] ++ lit "L: " ++ Y ++ [newline] ++ text) (l_err s ++ err).

Definition select_header : list ascii :=
  lit "Port number | Index |    Period    | Gates state " ++ [newline] ++
  lit "------------|-------|--------------|-------------" ++ [newline].

Lemma select_query_fits X Y : (length X < 10)%nat -> (length Y < 10)%nat -> (length (select_query X Y) <? 200)%nat = true.
Proof. intros HX HY. unfold select_query. apply Nat.ltb_lt. rewrite !length_app. simpl. lia. Qed.

Lemma option_value_length arg line X : option_value arg line X -> no_nul X /\ (length X < 10)%nat.
Proof. intros (pre & sep & post & _ & _ & HX & Hl & _). split; [by apply alnum_no_nul|done]. Qed.

Lemma filled_value X : no_nul X -> (length X < 10)%nat -> buffer_string (filled X (10 - length X)) = Some X.
Proof. intros Hn Hl. replace (10 - length X)%nat with (S (9 - length X)) by lia. by apply filled_string. Qed.

(** The end of Select_args, on the answer of the server. *)
Definition print_answer (r : reply) : M legacy unit :=
  match r with
  | QueryError msg => die msg
  | _ => _ ← say (lit "Port number | Index |    Period    | Gates state " ++ [newline]);
         _ ← say (lit "------------|-------|--------------|-------------" ++ [newline]);
         fetch_rows r select_row
  end.

(** What Select_args does up to the answer of the server. *)
Lemma select_args_eq e line X Y s : option_value "s"%char line X -> option_value "l"%char line Y -> no_nul line ->
  l_oom (parser e) (l_mallocs s) = false ->
  Select_args e (line_block line) s =
    print_answer (answer e (l_queries s) (select_query X Y))
    (LegacyState (l_switches s) (l_ports s) (S (l_mallocs s)) (l_conns s) (l_queries s ++ [select_query X Y]) (l_files s) (l_in s)
       ((l_out s ++ lit "S: " ++ X ++ [newline]) ++ lit "L: " ++ Y ++ [newline]) (l_err s)).
Proof.
  intros HX HY Hn Ho. unfold Select_args. rewrite line_block_string by done.
  rewrite (bind_ret_eq (determinate (Some _)) _ s _ s eq_refl). change (replicate 10 (Some NUL)) with (filled [] 10). unfold line_block.
  rewrite (bind_ret_eq _ _ _ _ _ (ReadArgumentValue_eq _ _ _ _ s HX)).
  rewrite (bind_ret_eq _ _ _ _ _ (ReadArgumentValue_eq _ _ _ _ s HY)).
  apply option_value_length in HX as [HX HlX]. apply option_value_length in HY as [HY HlY].
  rewrite !filled_value by done. rewrite !(bind_ret_eq (determinate (Some _)) _ s _ s eq_refl).
  unfold mbind at 1, M_bind at 1, say at 1, modify at 1. unfold mbind at 1, M_bind at 1, say at 1, modify at 1. lens_cbn.
  unfold mbind at 1, M_bind at 1, malloc. lens_cbn. rewrite Ho. cbn [negb].
  unfold mbind at 1, M_bind at 1, sprintf200. rewrite select_query_fits by done. cbn [andb]. unfold mret at 1, M_ret at 1.
  unfold mbind at 1, M_bind at 1, mysql_query. lens_cbn. by destruct (answer e _ _).
Qed.

Lemma clear_line line : no_nul line -> forall s : legacy,
  ((t ← determinate (buffer_string (line_block line)); _ ← determinate (bzero (line_block line) 0 (length t)); mret tt) : M legacy unit) s = Ret tt s.
Proof.
  intros Hn s. rewrite line_block_string by done. rewrite (bind_ret_eq (determinate (Some _)) _ s _ s eq_refl).
  unfold bzero, blit, line_block. rewrite length_replicate, length_app, length_fmap. cbn [length].
  by rewrite (proj2 (Nat.leb_le _ _)) by lia.
Qed.

(** The whole iteration up to the answer of the server. *)
Lemma select_iteration e s line rest X Y :
  connect e (l_conns s) = None -> l_oom (parser e) (l_mallocs s) = false ->
  l_in s = line ++ newline :: rest -> newline ∉ line -> no_nul line -> (length line < 255)%nat ->
  strstr_found line (lit "select ") = true -> option_value "s"%char line X -> option_value "l"%char line Y ->
  iteration e s =
    (print_answer (answer e (l_queries s) (select_query X Y)) ≫= fun _ => mret tt)
    (LegacyState (l_switches s) (l_ports s) (S (l_mallocs s)) (S (l_conns s)) (l_queries s ++ [select_query X Y]) (l_files s) rest
       (((l_out s ++ lit "> ") ++ lit "S: " ++ X ++ [newline]) ++ lit "L: " ++ Y ++ [newline]) (l_err s)).
Proof.
  intros Hconn Ho Hin Hnl Hn Hl Hsel HX HY. unfold iteration.
  unfold mbind at 1, M_bind at 1, mysql_connect. rewrite Hconn.
  unfold mbind at 1, M_bind at 1, say at 1, modify at 1. lens_cbn. set (s1 := LegacyState _ _ _ _ _ _ _ _ _).
  rewrite (bind_ret_eq _ _ _ _ _ (fgets_line s1 line rest Hin Hnl Hl)). set (s2 := drop_input _ s1).
  assert (drop (S (length line)) (l_in s) = rest) as Hdrop.
  { rewrite Hin, cons_middle, app_assoc. apply drop_app_length'. rewrite length_app. simpl. lia. }
  pose proof (select_args_eq e line X Y s2 HX HY Hn Ho) as Hs. unfold s2, s1, drop_input in Hs. revert Hs. lens_cbn. rewrite Hdrop.
  set (s3 := LegacyState _ _ (S _) _ _ _ _ _ _). intros Hs. unfold s2, s1, drop_input. lens_cbn. rewrite Hdrop.
  unfold mbind at 1, M_bind at 1. rewrite run_select by done. unfold mbind at 1, M_bind at 1. rewrite Hs.
  unfold mbind, M_bind. destruct (print_answer _ s3) as [[] s4| | |]; try done. exact (clear_line line Hn s4).
Qed.

(** ** The theorems *)

(** C16. Every run of the shell on a finite input is finite, and its only orderly
    end is exit(1), as on a connection that fails, whose message it reports: the
    shell has no command to leave, and the end of the input is undefined behaviour,
    because the buffer that fgets did not fill is read. *)
Theorem shell_main_ends e s :
  (shell_main e s = Undef \/ exists s', shell_main e s = Exit 1 s') /\
  match connect e (l_conns s) with
  | Some msg => exists s', shell_main e s = Exit 1 s' /\ l_err s' = l_err s ++ msg ++ [newline] /\ l_out s' = l_out s
  | None => l_in s = [] -> shell_main e s = Undef
  end.
Proof.
  unfold shell_main. split.
  - pose proof (shell_loop_ends e (S (length (l_in s))) s ltac:(lia)) as H. unfold may in H.
    destruct (shell_loop e (S (length (l_in s))) s) as [|c s'| |]; try done; [|by left].
    destruct H as [-> _]. right. by exists s'.
  - cbn [shell_loop]. unfold iteration, mbind, M_bind, mysql_connect. destruct (connect e (l_conns s)) as [msg|].
    + eexists. split; [reflexivity|]. done.
    + intros Hin. unfold say, modify, fgets. lens_cbn. rewrite Hin. reflexivity.
Qed.

(** A server that answers with one row, and no file of a configuration but the
    words of a switch with a port. *)
Definition sample_words : list (list ascii) :=
  [lit "switch:"; lit "64"; lit "port_number:"; lit "1"; lit "500000"; lit "00000011"].

Definition sample_shell : shell_env :=
  ShellEnv (ParserEnv (fun _ => false) true sample_words (fun _ => true) id (fun _ => 0))
    (fun n => if (n =? 3)%nat then Some (lit "Too many connections") else None)
    (fun _ _ => Rows [[Some (lit "1"); Some (lit "0"); Some (lit "500000"); None]]).

Definition sample_line : list ascii := lit "select -l 2 -s 64".

Definition sample_state : legacy := LegacyState [] [] 0 0 [] ∅ (sample_line ++ [newline]) [] [].

Lemma shell_main_ends_witness : shell_main sample_shell (drop_input 18 sample_state) = Undef.
Proof. apply (shell_main_ends sample_shell (drop_input 18 sample_state)). reflexivity. Defined.

(** C19. The commands store and store-upload never store a configuration. When the file
    names a switch or a port they run into undefined behaviour (the switches are freed
    while they are read), or exit(1) when an allocation fails; on a file that names none
    they print four lines and leave files and database as they were. In every case this
    happens before a file is written or a query sent: the command does the same whatever
    these two operations do, so that even operations that end the process at once, with a
    code of their own, are not noticed. *)
Theorem store_command_stores_nothing e s :
  config_opens (parser e) = true ->
  (forall save' query', store_command_with e save' query' s = store_command e s) /\
  if existsb is_label (words_read (config_words (parser e))) then
    store_command e s = Undef \/
    exists s', store_command e s = Exit 1 s' /\ l_files s' = l_files s /\ l_queries s' = l_queries s /\
      exists n, l_oom (parser e) n = true
  else store_command e s = Ret tt (after_messages s empty_store_messages).
Proof.
  intros Ho. unfold store_command. destruct (existsb is_label (words_read (config_words (parser e)))) eqn:Ex.
  - destruct (store_labelled e s Ho Ex) as [Hu|(s' & Hs' & H)].
    + split; [intros; by rewrite !Hu|]. left. apply Hu.
    + split; [intros; by rewrite !Hs'|]. right. exists s'. split; [apply Hs'|exact H].
  - pose proof (store_unlabelled e s Ho Ex) as H. split; [intros; by rewrite !H|apply H].
Qed.

Lemma store_command_stores_nothing_witness :
  store_command_with sample_shell (fun _ _ => exit_with 77) (fun _ => exit_with 77) sample_state = store_command sample_shell sample_state /\
  (store_command sample_shell sample_state = Undef \/
   exists s', store_command sample_shell sample_state = Exit 1 s' /\ l_files s' = l_files sample_state /\
     l_queries s' = l_queries sample_state /\ exists n, l_oom (parser sample_shell) n = true).
Proof.
  destruct (store_command_stores_nothing sample_shell sample_state eq_refl) as [H1 H2]. split; [apply H1|exact H2].
Defined.

(** C40. The command select. On a line that gives the options s and l values of at
    most nine letters and digits, wherever they are in the line, the shell sends
    exactly the query for that switch and that list, and prints a line per row of
    the answer; an error of the server is reported and ends the process with the
    code 1. *)
Theorem select_command_correct e s line rest X Y :
  connect e (l_conns s) = None -> l_oom (parser e) (l_mallocs s) = false ->
  l_in s = line ++ newline :: rest -> newline ∉ line -> no_nul line -> (length line < 255)%nat ->
  strstr_found line (lit "select ") = true -> option_value "s"%char line X -> option_value "l"%char line Y ->
  match answer e (l_queries s) (select_query X Y) with
  | QueryError msg => iteration e s = Exit 1 (selected s rest X Y [] (msg ++ [newline]))
  | NoResult => iteration e s = Undef
  | Rows rows => forall quads, rows = row4 <$> quads ->
      iteration e s = Ret tt (selected s rest X Y (select_header ++ concat (row_text <$> quads)) [])
  end.
Proof.
  intros Hconn Ho Hin Hnl Hn Hl Hsel HX HY. rewrite (select_iteration e s line rest X Y) by done.
  unfold selected, print_answer. destruct (answer e (l_queries s) (select_query X Y)) as [msg| |rows]; [|reflexivity|].
  - unfold die, mbind, M_bind, complain, modify, exit_with. lens_cbn. by rewrite app_nil_r, <- !app_assoc.
  - intros quads ->. unfold mbind, M_bind, say, modify. lens_cbn. rewrite fetch_rows_eq. unfold said. lens_cbn.
    unfold select_header, mret, M_ret. by rewrite app_nil_r, <- !app_assoc.
Qed.

Lemma sample_options : option_value "s"%char sample_line (lit "64") /\ option_value "l"%char sample_line (lit "2").
Proof.
  split.
  - exists (lit "select -l 2 "), " "%char, []. split; [reflexivity|]. split; [|split; [by repeat constructor|split; [simpl; lia|done]]].
    do 7 (apply no_option_char; [discriminate|]). apply no_option_other; [discriminate|].
    do 3 (apply no_option_char; [discriminate|]). constructor.
  - exists (lit "select "), " "%char, (lit " -s 64"). split; [reflexivity|]. split; [|split; [by repeat constructor|split; [simpl; lia|done]]].
    do 7 (apply no_option_char; [discriminate|]). constructor.
Qed.

Lemma select_command_correct_witness :
  iteration sample_shell sample_state = Ret tt (selected sample_state [] (lit "64") (lit "2")
    (select_header ++ concat (row_text <$> [(Some (lit "1"), Some (lit "0"), Some (lit "500000"), None)])) []).
Proof.
  apply (select_command_correct sample_shell sample_state sample_line [] (lit "64") (lit "2")
    eq_refl eq_refl eq_refl ltac:(apply (bool_decide_unpack _); reflexivity) ltac:(repeat constructor; discriminate)
    ltac:(vm_compute; lia) eq_refl (proj1 sample_options) (proj2 sample_options)
    [(Some (lit "1"), Some (lit "0"), Some (lit "500000"), None)]). reflexivity.
Defined.
