(* ===== verification/HashTable.v ===== *)
(** * libyang/src/hash_table.c: the generic hash table

    Open addressing with linear probing and lazy removal. The array of records is a
    list, a pointer to a record its index; a read or write outside the array and an
    assertion that fails are [Undef]. The values are of a type [V] instead of bytes
    of rec_size; [zero] is the value calloc leaves. The callback gets its data, of
    type [D], from the table. The state is one table and the number of allocations
    made; the n-th one fails when [oom n] holds. *)

From S2P Require Import Prelude.

(** struct ht_rec; hits is 0 for an empty record and -1 for a removed one. *)
Record ht_rec (V : Type) := HtRec { rec_hash : Z; rec_hits : Z; rec_val : V }.
Arguments HtRec {V} rec_hash rec_hits rec_val.
Arguments rec_hash {V} _.
Arguments rec_hits {V} _.
Arguments rec_val {V} _.

Definition put_hits {V} (n : Z) (r : ht_rec V) : ht_rec V := HtRec (rec_hash r) n (rec_val r).

(** values_equal_cb: the two values, whether the table is being modified, the data. *)
Definition values_equal_cb (V D : Type) : Type := V -> V -> bool -> D -> bool.

(** struct hash_table *)
Record hash_table (V D : Type) := HashTable {
  ht_used : Z;
  ht_size : Z;
  ht_equal : values_equal_cb V D;
  ht_data : D;
  ht_resize : Z;
  ht_recs : list (ht_rec V) }.
Arguments HashTable {V D} ht_used ht_size ht_equal ht_data ht_resize ht_recs.
Arguments ht_used {V D} _.
Arguments ht_size {V D} _.
Arguments ht_equal {V D} _.
Arguments ht_data {V D} _.
Arguments ht_resize {V D} _.
Arguments ht_recs {V D} _.

Record htmem (V D : Type) := HtMem { ht : hash_table V D; ht_allocs : nat }.
Arguments HtMem {V D} ht ht_allocs.
Arguments ht {V D} _.
Arguments ht_allocs {V D} _.

Definition LYHT_ENLARGE_PERCENTAGE : Z := 75.
Definition LYHT_FIRST_SHRINK_PERCENTAGE : Z := 50.
Definition LYHT_SHRINK_PERCENTAGE : Z := 25.
Definition LYHT_MIN_SIZE : Z := 8.

(** hash & (size - 1) *)
Definition shortened (size hash : Z) : nat := Z.to_nat (Z.land hash (size - 1)).

(** (i + 1) % size *)
Definition next_index (size : Z) (i : nat) : nat := Z.to_nat ((Z.of_nat i + 1) mod size).

Section HashTable.
Context {V D : Type} (zero : V) (oom : nat -> bool).

Definition get_table : M (htmem V D) (hash_table V D) := s ← get; mret (ht s).

Definition set_table (f : hash_table V D -> hash_table V D) : M (htmem V D) unit :=
  modify (fun s => HtMem (f (ht s)) (ht_allocs s)).

Definition with_recs (l : list (ht_rec V)) (t : hash_table V D) : hash_table V D :=
  HashTable (ht_used t) (ht_size t) (ht_equal t) (ht_data t) (ht_resize t) l.

Definition with_used (n : Z) (t : hash_table V D) : hash_table V D :=
  HashTable n (ht_size t) (ht_equal t) (ht_data t) (ht_resize t) (ht_recs t).

Definition with_resize (n : Z) (t : hash_table V D) : hash_table V D :=
  HashTable (ht_used t) (ht_size t) (ht_equal t) (ht_data t) n (ht_recs t).

Definition empty_rec : ht_rec V := HtRec 0 0 zero.

(** lyht_get_rec, and a write to the record. recs[idx * rec_size] is an index of 32 bits;
    with at most 2^25 records it does not wrap for records of at most 128 bytes, as those
    of the dictionary are. *)
Definition lyht_get_rec (idx : nat) : M (htmem V D) (ht_rec V) :=
  t ← get_table;
  match ht_recs t !! idx with Some r => mret r | None => undef end.

Definition set_rec (idx : nat) (r : ht_rec V) : M (htmem V D) unit :=
  t ← get_table;
  if (idx <? length (ht_recs t))%nat then set_table (with_recs (<[idx := r]> (ht_recs t))) else undef.

(** lyht_new, on the number of allocations made: the asserts, the two allocations. *)
Definition lyht_new (size : Z) (val_equal : values_equal_cb V D) (cb_data : D) (resize : Z)
  : M nat (option (hash_table V D)) := fun n =>
  if negb ((0 <? size) && (Z.land size (size - 1) =? 0)) then Undef
  else if negb ((resize =? 0) || (resize =? 1)) then Undef
  else
    let size := if size <? LYHT_MIN_SIZE then LYHT_MIN_SIZE else size in
    if oom n then Ret None (S n)
    else if oom (S n) then Ret None (S (S n))
    else Ret (Some (HashTable 0 size val_equal cb_data resize (replicate (Z.to_nat size) empty_rec))) (S (S n)).

(** lyht_set_cb and lyht_set_cb_data, with the previous callback or data. *)
Definition lyht_set_cb (new_val_equal : values_equal_cb V D) : M (htmem V D) (values_equal_cb V D) :=
  t ← get_table;
  _ ← set_table (fun t => HashTable (ht_used t) (ht_size t) new_val_equal (ht_data t) (ht_resize t) (ht_recs t));
  mret (ht_equal t).

Definition lyht_set_cb_data (new_cb_data : D) : M (htmem V D) D :=
  t ← get_table;
  _ ← set_table (fun t => HashTable (ht_used t) (ht_size t) (ht_equal t) new_cb_data (ht_resize t) (ht_recs t));
  mret (ht_data t).

(** lyht_dup: used * rec_size bytes are copied. *)
Definition lyht_dup (orig : option (hash_table V D)) : M nat (option (hash_table V D)) :=
  match orig with
  | None => mret None
  | Some orig =>
      t ← lyht_new (ht_size orig) (ht_equal orig) (ht_data orig) (if ht_resize orig =? 0 then 0 else 1);
      match t with
      | None => mret None
      | Some t =>
          let n := Z.to_nat (ht_used orig) in
          if (n <=? length (ht_recs t))%nat && (n <=? length (ht_recs orig))%nat
          then mret (Some (with_used (ht_used orig) (with_recs (take n (ht_recs orig) ++ drop n (ht_recs t)) t)))
          else undef
      end
  end.

(** ** lyht_find_first *)

(** How a probing loop ends: it came round to its start, or it stopped at a record;
    with the first removed record it saw. *)
Inductive probe_end :=
| Round (inval_rec : option nat)
| Stop (i : nat) (inval_rec : option nat).

(** hits != 0 && (hits == -1 || (hash & (size - 1)) != idx) *)
Definition skipped (size : Z) (idx : nat) (r : ht_rec V) : bool :=
  negb (rec_hits r =? 0) && ((rec_hits r =? -1) || negb (shortened size (rec_hash r) =? idx)%nat).

(** if ((rec->hits == -1) && !inval_rec) inval_rec = rec; *)
Definition note_inval (r : ht_rec V) (i : nat) (inval_rec : option nat) : option nat :=
  match inval_rec with
  | None => if rec_hits r =? -1 then Some i else None
  | Some _ => inval_rec
  end.

Fixpoint probe_loop (fuel : nat) (idx i : nat) (inval_rec : option nat) : M (htmem V D) probe_end :=
  match fuel with
  | O => no_fuel
  | S fuel =>
      t ← get_table;
      rec ← lyht_get_rec i;
      if skipped (ht_size t) idx rec then
        let inval_rec := note_inval rec i inval_rec in
        let i := next_index (ht_size t) i in
        if (i =? idx)%nat then mret (Round inval_rec) else probe_loop fuel idx i inval_rec
      else mret (Stop i inval_rec)
  end.

(** memcpy(inval_rec, rec, rec_size); rec->hits = -1; *)
Definition move_rec (rec : nat) (inval_rec : option nat) : M (htmem V D) nat :=
  match inval_rec with
  | None => mret rec
  | Some j =>
      r ← lyht_get_rec rec;
      _ ← set_rec j r;
      _ ← set_rec rec (put_hits (-1) r);
      mret j
  end.

(** The code and the record returned. A round takes at most size steps. *)
Definition lyht_find_first (hash : Z) : M (htmem V D) (Z * nat) :=
  t ← get_table;
  let idx := shortened (ht_size t) hash in
  r ← probe_loop (Z.to_nat (ht_size t)) idx idx None;
  match r with
  | Round None => undef
  | Round (Some j) => mret (1, j)
  | Stop i inval_rec =>
      rec ← lyht_get_rec i;
      if rec_hits rec =? 0 then mret (1, default i inval_rec)
      else j ← move_rec i inval_rec; mret (0, j)
  end.

(** ** lyht_find_collision *)
Fixpoint collision_loop (fuel : nat) (idx i first : nat) (inval_rec : option nat) : M (htmem V D) probe_end :=
  match fuel with
  | O => no_fuel
  | S fuel =>
      t ← get_table;
      let i := next_index (ht_size t) i in
      if (i =? first)%nat then mret (Round inval_rec)
      else
        rec ← lyht_get_rec i;
        let inval_rec := note_inval rec i inval_rec in
        if skipped (ht_size t) idx rec then collision_loop fuel idx i first inval_rec
        else mret (Stop i inval_rec)
  end.

Definition lyht_find_collision (last first : nat) : M (htmem V D) (Z * nat) :=
  t ← get_table;
  rec ← lyht_get_rec last;
  r ← collision_loop (Z.to_nat (ht_size t)) (shortened (ht_size t) (rec_hash rec)) last first None;
  match r with
  | Round None => undef
  | Round (Some j) => mret (1, j)
  | Stop i inval_rec =>
      rec ← lyht_get_rec i;
      if 0 <? rec_hits rec then
        if rec_hits rec =? 1 then j ← move_rec i inval_rec; mret (0, j) else undef
      else mret (1, default i inval_rec)
  end.

(** (rec->hash == hash) && ht->val_equal(val_p, &rec->val, mod, ht->cb_data) *)
Definition matches_rec (val : V) (hash : Z) (modif : bool) (rec : nat) : M (htmem V D) bool :=
  t ← get_table;
  r ← lyht_get_rec rec;
  mret ((rec_hash r =? hash) && ht_equal t val (rec_val r) modif (ht_data t)).

(** for (i = 1; i < crec->hits; ++i), [n] rounds left; the loop does not change the
    hits of crec. The index of the first match, unless [skip], and the last record. *)
Fixpoint collisions (n : nat) (skip : bool) (val : V) (hash : Z) (modif : bool) (rec crec : nat)
  : M (htmem V D) (bool * nat) :=
  match n with
  | O => mret (false, rec)
  | S n =>
      r ← lyht_find_collision rec crec;
      if negb (r.1 =? 0) then undef
      else
        m ← matches_rec val hash modif r.2;
        if negb skip && (m : bool) then mret (true, r.2)
        else collisions n skip val hash modif r.2 crec
  end.

(** ** lyht_find: 0 and the record of the match, or 1. *)
Definition lyht_find (val : V) (hash : Z) : M (htmem V D) (Z * option nat) :=
  r ← lyht_find_first hash;
  if negb (r.1 =? 0) then mret (1, None)
  else
    let rec := r.2 in
    m ← matches_rec val hash false rec;
    if m : bool then mret (0, Some rec)
    else
      c ← lyht_get_rec rec;
      f ← collisions (Z.to_nat (rec_hits c - 1)) false val hash false rec rec;
      if f.1 : bool then mret (0, Some f.2) else mret (1, None).

(** ** lyht_find_next *)
Fixpoint next_loop (n : nat) (found : bool) (val : V) (hash : Z) (rec crec : nat) : M (htmem V D) (Z * option nat) :=
  match n with
  | O => if found then mret (1, None) else undef
  | S n =>
      r ← lyht_find_collision rec crec;
      if negb (r.1 =? 0) then undef
      else
        let rec := r.2 in
        c ← lyht_get_rec rec;
        if negb (rec_hash c =? hash) then next_loop n found val hash rec crec
        else if found then mret (0, Some rec)
        else
          m ← matches_rec val hash true rec;
          next_loop n (m : bool) val hash rec crec
  end.

Definition lyht_find_next (val : V) (hash : Z) : M (htmem V D) (Z * option nat) :=
  r ← lyht_find_first hash;
  if negb (r.1 =? 0) then undef
  else
    let rec := r.2 in
    found ← matches_rec val hash true rec;
    c ← lyht_get_rec rec;
    if rec_hits c =? 1 then
      if (rec_hash c =? hash) && (found : bool) then mret (1, None) else undef
    else next_loop (Z.to_nat (rec_hits c - 1)) found val hash rec rec.

(** ** lyht_resize

    [insert] is lyht_insert without a match_p. *)
Fixpoint reinsert (insert : V -> Z -> M (htmem V D) Z) (old_recs : list (ht_rec V)) : M (htmem V D) unit :=
  match old_recs with
  | [] => mret tt
  | r :: old_recs =>
      _ ← (if 0 <? rec_hits r then
             ret ← insert (rec_val r) (rec_hash r);
             if ret =? 0 then mret tt else undef
           else mret tt);
      reinsert insert old_recs
  end.

Definition calloc_recs : M (htmem V D) bool := fun s =>
  Ret (negb (oom (ht_allocs s))) (HtMem (ht s) (S (ht_allocs s))).

Definition lyht_resize (insert : V -> Z -> M (htmem V D) Z) (enlarge : bool) : M (htmem V D) Z :=
  t ← get_table;
  let size := if enlarge then wrap_u32 (Z.shiftl (ht_size t) 1) else Z.shiftr (ht_size t) 1 in
  ok ← calloc_recs;
  if negb (ok : bool) then mret (-1)
  else
    _ ← set_table (fun t => HashTable 0 size (ht_equal t) (ht_data t) (ht_resize t) (replicate (Z.to_nat size) empty_rec));
    _ ← reinsert insert (ht_recs t);
    mret 0.

(** (used * 100) / size, in uint32_t. *)
Definition filled_percent (t : hash_table V D) : Z := wrap_u32 (ht_used t * 100) / ht_size t.

(** A resize, and what follows it, with a temporary callback. *)
Definition resize_with {A} (insert : V -> Z -> M (htmem V D) Z) (resize_val_equal : option (values_equal_cb V D))
  (enlarge : bool) (after : Z -> M (htmem V D) A) : M (htmem V D) (Z * A) :=
  match resize_val_equal with
  | Some cb =>
      old ← lyht_set_cb cb;
      ret ← lyht_resize insert enlarge;
      a ← after ret;
      _ ← lyht_set_cb old;
      mret (ret, a)
  | None =>
      ret ← lyht_resize insert enlarge;
      a ← after ret;
      mret (ret, a)
  end.

(** ** lyht_insert_with_resize_cb *)

(** Writing the value into its record, and counting it in the head of its chain. *)
Definition store_new (val : V) (hash : Z) (rec : nat) (crec : option nat) : M (htmem V D) unit :=
  r ← lyht_get_rec rec;
  if negb (rec_hits r <? 1) then undef
  else
    _ ← set_rec rec (HtRec hash 1 val);
    match crec with
    | None => mret tt
    | Some c =>
        h ← lyht_get_rec c;
        if rec_hits h =? INT_MAX then undef else set_rec c (put_hits (rec_hits h + 1) h)
    end.

(** The search: the record that matches, or the one to fill and the head. *)
Definition insert_search (val : V) (hash : Z) : M (htmem V D) (nat + nat * option nat) :=
  r ← lyht_find_first hash;
  if r.1 =? 0 then
    let crec := r.2 in
    m ← matches_rec val hash true crec;
    if m : bool then mret (inl crec)
    else
      c ← lyht_get_rec crec;
      f ← collisions (Z.to_nat (rec_hits c - 1)) false val hash true crec crec;
      if f.1 : bool then mret (inl f.2)
      else
        r ← lyht_find_collision f.2 crec;
        if r.1 =? 0 then undef else mret (inr (r.2, Some crec))
  else mret (inr (r.2, None)).

(** The end of the insertion: enlarging when needed. The resize calls lyht_insert,
    with one level of [insert] less. *)
Definition grow_table (insert : V -> Z -> M (htmem V D) Z) (val : V) (hash : Z)
  (resize_val_equal : option (values_equal_cb V D)) (match_p : bool) (rec : nat) : M (htmem V D) (Z * option nat) :=
  t ← get_table;
  if ht_resize t =? 0 then mret (0, Some rec)
  else
    let r := filled_percent t in
    _ ← (if (ht_resize t =? 1) && (LYHT_FIRST_SHRINK_PERCENTAGE <=? r) then set_table (with_resize 2) else mret tt);
    t ← get_table;
    if (ht_resize t =? 2) && (LYHT_ENLARGE_PERCENTAGE <=? r) then
      resize_with insert resize_val_equal true (fun ret =>
        if (ret =? 0) && match_p then m ← lyht_find val hash; mret m.2 else mret (Some rec))
    else mret (0, Some rec).

(** The code, and the record of the value when match_p is given. *)
Fixpoint insert_depth (depth : nat) (val : V) (hash : Z) (resize_val_equal : option (values_equal_cb V D)) (match_p : bool)
  : M (htmem V D) (Z * option nat) :=
  match depth with
  | O => no_fuel
  | S depth =>
      r ← insert_search val hash;
      match r with
      | inl rec => mret (1, Some rec)
      | inr (rec, crec) =>
          _ ← store_new val hash rec crec;
          _ ← set_table (fun t => with_used (wrap_u32 (ht_used t + 1)) t);
          grow_table (fun v h => r ← insert_depth depth v h None false; mret r.1) val hash resize_val_equal match_p rec
      end
  end.

(** The insertions of a resize do not resize again. *)
Definition lyht_insert_with_resize_cb : V -> Z -> option (values_equal_cb V D) -> bool -> M (htmem V D) (Z * option nat) :=
  insert_depth 2.

Definition lyht_insert (val : V) (hash : Z) (match_p : bool) : M (htmem V D) (Z * option nat) :=
  lyht_insert_with_resize_cb val hash None match_p.

(** ** lyht_remove_with_resize_cb *)

(** The record is taken out; whether there was one. *)
Definition remove_rec (val : V) (hash : Z) : M (htmem V D) bool :=
  r ← lyht_find_first hash;
  if negb (r.1 =? 0) then mret false
  else
    let crec := r.2 in
    first_matched ← matches_rec val hash true crec;
    c ← lyht_get_rec crec;
    f ← collisions (Z.to_nat (rec_hits c - 1)) first_matched val hash true crec crec;
    let rec := f.2 in
    if f.1 : bool then
      c ← lyht_get_rec crec;
      _ ← set_rec crec (put_hits (rec_hits c - 1) c);
      r ← lyht_get_rec rec;
      _ ← set_rec rec (put_hits (-1) r);
      mret true
    else if first_matched : bool then
      _ ← (if negb (crec =? rec)%nat then
             c ← lyht_get_rec crec;
             r ← lyht_get_rec rec;
             _ ← set_rec rec (put_hits (rec_hits c - 1) r);
             r ← lyht_get_rec rec;
             set_rec crec r
           else mret tt);
      r ← lyht_get_rec rec;
      _ ← set_rec rec (put_hits (-1) r);
      mret true
    else mret false.

Definition lyht_remove_with_resize_cb (val : V) (hash : Z) (resize_val_equal : option (values_equal_cb V D))
  : M (htmem V D) Z :=
  ok ← remove_rec val hash;
  if negb (ok : bool) then mret 1
  else
    _ ← set_table (fun t => with_used (wrap_u32 (ht_used t - 1)) t);
    t ← get_table;
    if (ht_resize t =? 2) && (filled_percent t <? LYHT_SHRINK_PERCENTAGE) && (LYHT_MIN_SIZE <? ht_size t) then
      r ← resize_with (fun v h => r ← lyht_insert v h false; mret r.1) resize_val_equal false (fun _ => mret tt);
      mret r.1
    else mret 0.

Definition lyht_remove (val : V) (hash : Z) : M (htmem V D) Z := lyht_remove_with_resize_cb val hash None.
End HashTable.
