(* ===== verification/HashChain.v ===== *)
(** * The chains of the hash table

    The records whose shortened hash is [c] form the chain of [c]. A search for it
    probes the array from [c] on, round the end: it walks through the array rotated
    by [c]. The chain is in order when no empty record comes before one of its
    records on that walk, its first record counts them all and the others count 1.
    The lemmas say how the updates of hash_table.c keep the chains in order. *)

From S2P Require Import Prelude HashTable.

Lemma insert_middle {A} (X Z : list A) x y : <[length X := y]> (X ++ x :: Z) = X ++ y :: Z.
Proof. by rewrite insert_app_r_alt, Nat.sub_diag by lia. Qed.

Lemma rotate_Permutation {A} n (l : list A) : rotate n l ≡ₚ l.
Proof. unfold rotate. rewrite Permutation_app_comm. by rewrite take_drop. Qed.

Section Chain.
Context {V : Type} (sz : Z).
Implicit Types (r : ht_rec V) (L X Y Z : list (ht_rec V)).

(** ** The contents: hashes and values of the records in use *)
Definition entry_of r : option (Z * V) := if 0 <? rec_hits r then Some (rec_hash r, rec_val r) else None.

Definition entries L : list (Z * V) := omap entry_of L.

Lemma entries_app X Y : entries (X ++ Y) = entries X ++ entries Y.
Proof. apply omap_app. Qed.

Lemma entries_cons r X : entries (r :: X) = option_list (entry_of r) ++ entries X.
Proof. unfold entries. cbn [omap list_omap]. by destruct (entry_of r). Qed.

#[global] Instance entries_Permutation : Proper ((≡ₚ) ==> (≡ₚ)) entries.
Proof. intros X Y H. unfold entries. by rewrite H. Qed.

Lemma entry_dead r : rec_hits r <= 0 -> entry_of r = None.
Proof. intros H. unfold entry_of. by destruct (Z.ltb_spec 0 (rec_hits r)); [lia|]. Qed.

Lemma entry_live r : 0 < rec_hits r -> entry_of r = Some (rec_hash r, rec_val r).
Proof. intros H. unfold entry_of. by destruct (Z.ltb_spec 0 (rec_hits r)); [|lia]. Qed.

Lemma entries_dead r X : rec_hits r <= 0 -> entries (r :: X) = entries X.
Proof. intros H. by rewrite entries_cons, entry_dead. Qed.

Lemma entries_live r X : 0 < rec_hits r -> entries (r :: X) = (rec_hash r, rec_val r) :: entries X.
Proof. intros H. by rewrite entries_cons, entry_live. Qed.

(** ** Chains *)
Definition mine (c : nat) r : bool := (0 <? rec_hits r) && (shortened sz (rec_hash r) =? c)%nat.

Definition chain (c : nat) L : list (ht_rec V) := filter (fun r => mine c r = true) L.

Definition hits_ok L : Prop :=
  match L with
  | [] => True
  | r :: t => rec_hits r = Z.of_nat (S (length t)) /\ Forall (fun x => rec_hits x = 1) t
  end.

Definition present r : Prop := rec_hits r <> 0.

Definition chain_ok (c : nat) L : Prop :=
  hits_ok (chain c L) /\ exists F G, L = F ++ G /\ Forall present F /\ chain c G = [].

Lemma mine_true c r : mine c r = true <-> 0 < rec_hits r /\ shortened sz (rec_hash r) = c.
Proof. unfold mine. rewrite andb_true_iff, Z.ltb_lt, Nat.eqb_eq. done. Qed.

Lemma chain_app c X Y : chain c (X ++ Y) = chain c X ++ chain c Y.
Proof. apply filter_app. Qed.

Lemma chain_cons_mine c r X : mine c r = true -> chain c (r :: X) = r :: chain c X.
Proof. intros H. unfold chain. by rewrite filter_cons_True. Qed.

Lemma chain_cons_other c r X : mine c r = false -> chain c (r :: X) = chain c X.
Proof. intros H. unfold chain. rewrite filter_cons_False; [done|congruence]. Qed.

Lemma chain_nil c X : chain c X = [] <-> Forall (fun r => mine c r = false) X.
Proof.
  unfold chain. induction X as [|r X IH]; [done|]. rewrite Forall_cons, <- IH. rewrite filter_cons.
  destruct (decide (mine c r = true)) as [H|H]; [|apply not_true_is_false in H; intuition].
  split; [done|]. intros [H' _]. congruence.
Qed.

Lemma mine_dead c r : rec_hits r <= 0 -> mine c r = false.
Proof. intros H. unfold mine. by destruct (Z.ltb_spec 0 (rec_hits r)); [lia|]. Qed.

Lemma mine_put c r n : mine c r = true -> 0 < n -> mine c (put_hits n r) = true.
Proof. intros [_ H]%mine_true Hn. apply mine_true. by split. Qed.

(** A record of a chain is not behind an empty record. *)
Lemma chain_ok_split c X r Z : chain_ok c (X ++ r :: Z) -> mine c r = true ->
  Forall present X /\ exists Z1 Z2, Z = Z1 ++ Z2 /\ Forall present Z1 /\ chain c Z2 = [].
Proof.
  intros [_ (F & G & HL & HF & HG)] Hr. apply app_eq_inv in HL as [(k & -> & Hk)|(k & -> & Hk)].
  - rewrite Hk, chain_app, chain_cons_mine in HG by done. by apply app_eq_nil in HG as [_ ?].
  - apply Forall_app in HF as [HX Hk']. split; [done|]. destruct k as [|x k]; simplify_eq/=.
    + by rewrite chain_cons_mine in HG.
    + apply Forall_cons in Hk' as [_ Hk']. by exists k, G.
Qed.

(** Nothing of a chain comes behind an empty record. *)
Lemma chain_ok_empty c X r Z : chain_ok c (X ++ r :: Z) -> rec_hits r = 0 -> chain c (r :: Z) = [].
Proof.
  intros [_ (F & G & HL & HF & HG)] Hr. apply app_eq_inv in HL as [(k & -> & Hk)|(k & -> & Hk)].
  - rewrite Hk, chain_app in HG. by apply app_eq_nil in HG as [_ HG].
  - apply Forall_app in HF as [_ Hk']. destruct k as [|x k]; simplify_eq/=; [done|].
    by apply Forall_cons in Hk' as [? _].
Qed.

(** ** Updates of the records of other chains *)
Lemma chain_insert_other c L i r r' : L !! i = Some r -> mine c r = false -> mine c r' = false ->
  chain c (<[i := r']> L) = chain c L.
Proof.
  intros Hi Hr Hr'. rewrite <- (take_drop_middle L i r Hi) at 2. rewrite insert_take_drop by (by eapply lookup_lt_Some).
  by rewrite !chain_app, !chain_cons_other.
Qed.

Lemma chain_ok_other c L i r r' : L !! i = Some r -> mine c r = false -> mine c r' = false -> present r' ->
  chain_ok c L -> chain_ok c (<[i := r']> L).
Proof.
  intros Hi Hr Hr' Hp [Hh (F & G & -> & HF & HG)]. split; [by erewrite chain_insert_other|].
  destruct (decide (i < length F)%nat) as [Hlt|Hge].
  - rewrite insert_app_l by done. exists (<[i := r']> F), G. split; [done|]. split; [by apply Forall_insert|done].
  - rewrite lookup_app_r in Hi by lia. rewrite insert_app_r_alt by lia. exists F, (<[(i - length F)%nat := r']> G).
    split; [done|]. split; [done|]. by erewrite chain_insert_other.
Qed.

(** Chains of concatenations. *)
Ltac solve_mine := first [assumption | apply mine_dead; cbn; lia | apply mine_put; [assumption|lia]].
Ltac chain_step :=
  match goal with
  | |- context [chain ?c (?r :: ?X)] =>
      first [rewrite (chain_cons_mine c r X) by solve_mine | rewrite (chain_cons_other c r X) by solve_mine]
  | |- context [chain ?c (?X ++ ?Y)] => rewrite (chain_app c X Y)
  | H : chain ?c ?X = [] |- context [chain ?c ?X] => rewrite H
  end.
Ltac chain_simpl := repeat chain_step; rewrite ?app_nil_r; cbn [app].

(** ** Updates of the records of a chain *)

(** Moving a record to a removed one before it. *)
Lemma chain_ok_move c X r0 Y r Z : rec_hits r0 = -1 -> chain c Y = [] -> mine c r = true ->
  chain_ok c (X ++ r0 :: Y ++ r :: Z) ->
  chain_ok c (X ++ r :: Y ++ put_hits (-1) r :: Z) /\
  chain c (X ++ r :: Y ++ put_hits (-1) r :: Z) = chain c (X ++ r0 :: Y ++ r :: Z).
Proof.
  intros H0 HY Hr Hok.
  assert (chain c (X ++ r :: Y ++ put_hits (-1) r :: Z) = chain c (X ++ r0 :: Y ++ r :: Z)) as He by (chain_simpl; done).
  split; [|done]. split; [rewrite He; apply Hok|].
  destruct (chain_ok_split c (X ++ r0 :: Y) r Z) as (HX & Z1 & Z2 & -> & H1 & H2).
  { by rewrite <- app_assoc. } { done. }
  apply Forall_app in HX as [HX [_ HYp]%Forall_cons]. exists (X ++ r :: Y ++ put_hits (-1) r :: Z1), Z2.
  apply mine_true in Hr as [Hr _]. split; [by simplify_list_eq|]. split; [|done].
  apply Forall_app. split; [done|]. apply Forall_cons. split; [unfold present; lia|].
  apply Forall_app. split; [done|]. apply Forall_cons. by split.
Qed.

(** The first value of a chain. *)
Lemma chain_ok_first c X r0 Z r : chain c (X ++ r0 :: Z) = [] -> Forall present X -> mine c r = true -> rec_hits r = 1 ->
  chain_ok c (X ++ r :: Z).
Proof.
  rewrite chain_app. intros [HX [_ HZ]%chain_nil%Forall_cons]%app_eq_nil Hp Hr Hh. apply chain_nil in HZ. split.
  - chain_simpl. by split.
  - exists (X ++ [r]), Z. split; [by simplify_list_eq|]. split; [|done].
    apply Forall_app. split; [done|]. apply Forall_singleton. unfold present. lia.
Qed.

(** One more value of a chain, behind its last one. *)
Lemma chain_ok_add c A f B r0 Z r : chain_ok c (A ++ f :: B ++ r0 :: Z) -> chain c A = [] -> mine c f = true ->
  Forall present B -> rec_hits r0 <= 0 -> chain c Z = [] -> mine c r = true -> rec_hits r = 1 ->
  chain_ok c (A ++ put_hits (rec_hits f + 1) f :: B ++ r :: Z).
Proof.
  intros Hok HA Hf HB H0 HZ Hr Hh. pose proof (chain_ok_split _ _ _ _ Hok Hf) as [HpA _]. destruct Hok as [Hok _].
  assert (chain c (A ++ f :: B ++ r0 :: Z) = f :: chain c B) as He by (chain_simpl; done). rewrite He in Hok.
  destruct Hok as [Hc H1]. pose proof Hf as [Hf0 Hfc]%mine_true. split.
  - chain_simpl. split; [cbn [put_hits rec_hits]; rewrite Hc, length_app; cbn [length]; lia|].
    apply Forall_app. split; [done|by apply Forall_singleton].
  - exists (A ++ put_hits (rec_hits f + 1) f :: B ++ [r]), Z. split; [by simplify_list_eq|]. split; [|done].
    apply Forall_app. split; [done|]. apply Forall_cons. split; [unfold present; cbn; lia|].
    apply Forall_app. split; [done|]. apply Forall_singleton. unfold present. lia.
Qed.

(** A value behind the first one leaves the chain; [f'] is the first one now. *)
Lemma chain_ok_drop c A f B x Z f' : chain_ok c (A ++ f :: B ++ x :: Z) -> chain c A = [] -> mine c f = true -> mine c x = true ->
  (0 < rec_hits f' -> mine c f' = true) -> rec_hits f' = rec_hits f - 1 ->
  chain_ok c (A ++ f' :: B ++ put_hits (-1) x :: Z).
Proof.
  intros Hok HA Hf Hx Hf' Hh'. pose proof (chain_ok_split c (A ++ f :: B) x Z) as Hsp. rewrite <- app_assoc in Hsp.
  destruct (Hsp Hok Hx) as (Hp & Z1 & Z2 & -> & HZ1 & HZ2). clear Hsp. destruct Hok as [Hok _].
  apply Forall_app in Hp as [HpA [_ HpB]%Forall_cons].
  assert (chain c (A ++ f :: B ++ x :: Z1 ++ Z2) = f :: chain c B ++ x :: chain c Z1) as He by (chain_simpl; done). rewrite He in Hok.
  destruct Hok as [Hc H1]. rewrite length_app in Hc. cbn [length] in Hc.
  assert (mine c f' = true) as Hm by (apply Hf'; lia). split.
  - chain_simpl. apply Forall_app in H1 as [HB [_ HZ]%Forall_cons]. split; [|by apply Forall_app].
    rewrite Hh', Hc, length_app. lia.
  - exists (A ++ f' :: B ++ put_hits (-1) x :: Z1), Z2. split; [by simplify_list_eq|]. split; [|done].
    apply Forall_app. split; [done|]. apply Forall_cons. split; [unfold present; lia|].
    apply Forall_app. split; [done|]. apply Forall_cons. by split.
Qed.

(** The only value of a chain is removed. *)
Lemma chain_ok_last c A f Z : chain_ok c (A ++ f :: Z) -> chain c A = [] -> mine c f = true -> chain c Z = [] ->
  chain_ok c (A ++ put_hits (-1) f :: Z).
Proof.
  intros Hok HA Hf HZ. pose proof (chain_ok_split _ _ _ _ Hok Hf) as [HpA _]. split; [chain_simpl; done|].
  exists A, (put_hits (-1) f :: Z). split; [done|]. split; [done|]. chain_simpl. done.
Qed.
End Chain.
