(* ===== verification/HashProbe.v ===== *)
(** * Probing the hash table

    The loops of lyht_find_first and lyht_find_collision read the array in the order
    of its rotation: their specifications are about that list. *)

From S2P Require Import Prelude HashTable HashChain.

(** ** Sizes and indices *)
Definition size_ok (sz : Z) : Prop := exists k, 3 <= k <= 30 /\ sz = 2 ^ k.

Lemma size_ok_pos sz : size_ok sz -> 8 <= sz.
Proof.
  intros (k & Hk & ->). change 8 with (2 ^ 3). apply Z.pow_le_mono_r; lia.
Qed.

Lemma shortened_mod sz h : size_ok sz -> shortened sz h = Z.to_nat (h mod sz).
Proof.
  intros (k & Hk & ->). unfold shortened. f_equal. rewrite Z.sub_1_r, <- Z.ones_equiv. apply Z.land_ones. lia.
Qed.

Lemma shortened_lt sz h : size_ok sz -> (shortened sz h < Z.to_nat sz)%nat.
Proof.
  intros H. pose proof (size_ok_pos sz H). rewrite shortened_mod by done.
  pose proof (Z.mod_pos_bound h sz ltac:(lia)). lia.
Qed.

Section Probe.
Context {V D : Type} (sz : Z) (Hsz : size_ok sz).
Implicit Types (r : ht_rec V) (L X Y A B R : list (ht_rec V)) (s : htmem V D).

Abbreviation n := (Z.to_nat sz).
Abbreviation rot c p := (rotate_nat_add c p n).

Lemma n_pos : (0 < n)%nat.
Proof. pose proof (size_ok_pos sz Hsz). lia. Qed.

Lemma rot_0 c : (c < n)%nat -> rot c 0 = c.
Proof. intros Hc. unfold rotate_nat_add. rewrite Z.add_0_r, Z.mod_small by lia. lia. Qed.

Lemma rot_round c p : rot c (n + p) = rot c p.
Proof.
  pose proof n_pos. unfold rotate_nat_add. rewrite Nat2Z.inj_add.
  replace (Z.of_nat c + (Z.of_nat n + Z.of_nat p)) with (Z.of_nat c + Z.of_nat p + 1 * Z.of_nat n) by lia.
  by rewrite Z_mod_plus_full.
Qed.

Lemma rot_next c p : next_index sz (rot c p) = rot c (S p).
Proof.
  pose proof (size_ok_pos sz Hsz). unfold next_index, rotate_nat_add. rewrite (Z2Nat.id sz) by lia.
  rewrite Z2Nat.id by (apply Z.mod_pos_bound; lia).
  rewrite Zplus_mod_idemp_l. do 2 f_equal. lia.
Qed.

Lemma rot_inj c p q : (p < n)%nat -> (q < n)%nat -> rot c p = rot c q -> p = q.
Proof.
  intros Hp Hq He. rewrite <- (rotate_nat_sub_add c n p Hp), He. by apply rotate_nat_sub_add.
Qed.

(** ** The table seen from a class *)
Definition rec_fine r : Prop := -1 <= rec_hits r /\ 0 <= rec_hash r < 2 ^ 32.

Definition recs_but (c : nat) (recs : list (ht_rec V)) : Prop :=
  length recs = n /\ Forall rec_fine recs /\ forall d, (d < n)%nat -> d <> c -> chain_ok sz d (rotate d recs).

(** [s] is [s0] but for the records, which are [L] in the order of the probes for [c];
    the chains of the other classes are in order. *)
Definition scene (c : nat) (s0 : htmem V D) L s : Prop :=
  exists recs, s = HtMem (with_recs recs (ht s0)) (ht_allocs s0) /\ rotate c recs = L /\ recs_but c recs.

Lemma scene_length c s0 L s : scene c s0 L s -> length L = n.
Proof. intros (recs & _ & <- & Hl & _). by rewrite length_rotate. Qed.

Lemma scene_fine c s0 L s r : scene c s0 L s -> r ∈ L -> rec_fine r.
Proof.
  intros (recs & _ & <- & _ & Hf & _) Hr%elem_of_rotate. rewrite Forall_forall in Hf. auto.
Qed.

Lemma scene_get c s0 L s p r : scene c s0 L s -> L !! p = Some r -> lyht_get_rec (rot c p) s = Ret r s.
Proof.
  intros (recs & -> & <- & Hl & _) Hp. unfold lyht_get_rec, get_table, mbind, M_bind, get, mret, M_ret. cbn.
  apply lookup_rotate_r_Some in Hp as [Hp _]. rewrite Hl in Hp. by rewrite Hp.
Qed.

(** Records that belong to no other class. *)
Definition of_class (c : nat) r : Prop := 0 < rec_hits r -> shortened sz (rec_hash r) = c.

Lemma of_class_other c d r : of_class c r -> d <> c -> mine sz d r = false.
Proof.
  intros Hc Hd. apply not_true_is_false. intros [H1 H2]%mine_true. apply Hc in H1. congruence.
Qed.

Lemma mine_of_class c r : mine sz c r = true -> of_class c r.
Proof. by intros [_ H]%mine_true _. Qed.

Lemma dead_of_class c r : rec_hits r <= 0 -> of_class c r.
Proof. intros H H'. lia. Qed.

Lemma scene_set c s0 L s p r r' : scene c s0 L s -> L !! p = Some r -> of_class c r -> of_class c r' ->
  present r' -> rec_fine r' ->
  exists s', set_rec (rot c p) r' s = Ret tt s' /\ scene c s0 (<[p := r']> L) s'.
Proof.
  intros (recs & -> & <- & Hl & Hf & Hd) Hp Hc Hc' Hpr Hr'. apply lookup_rotate_r_Some in Hp as [Hp Hlt].
  rewrite Hl in Hp, Hlt. pose proof (rotate_nat_add_lt c p n ltac:(lia)) as Hi.
  eexists. split.
  { unfold set_rec, get_table, set_table, modify, mbind, M_bind, get, mret, M_ret. cbn [ht ht_recs with_recs]. rewrite Hl.
    by rewrite (proj2 (Nat.ltb_lt _ _) Hi). }
  exists (<[rot c p := r']> recs). split; [done|]. split.
  { rewrite <- Hl at 1. by rewrite rotate_insert_l by lia. }
  split; [by rewrite length_insert|]. split; [by apply Forall_insert|].
  intros d Hdn Hne. rewrite rotate_insert_r by lia. rewrite Hl.
  eapply (chain_ok_other sz d _ _ r); [|by eapply of_class_other..|done|by apply Hd].
  pose proof (lookup_rotate_l recs d (rot c p)) as Hlk. rewrite Hl in Hlk. by rewrite Hlk.
Qed.

(** ** The loops *)
Fixpoint probe (c p : nat) R (inval : option nat) : probe_end :=
  match R with
  | [] => Round inval
  | r :: R => if skipped sz c r then probe c (S p) R (note_inval r (rot c p) inval) else Stop (rot c p) inval
  end.

Lemma get_table_eq s : get_table s = Ret (ht s) s.
Proof. done. Qed.

Lemma probe_loop_eq c s0 L s : scene c s0 L s -> ht_size (ht s0) = sz -> (c < n)%nat -> forall R X fuel inval,
  L = X ++ R -> R <> [] -> (length R <= fuel)%nat ->
  probe_loop fuel c (rot c (length X)) inval s = Ret (probe c (length X) R inval) s.
Proof.
  intros Hs Hsize Hc. pose proof (scene_length _ _ _ _ Hs) as Hl.
  induction R as [|r R IH]; intros X fuel inval HL HR Hf; [done|]. destruct fuel as [|fuel]; [simpl in Hf; lia|].
  cbn [probe_loop probe]. rewrite (bind_ret_eq _ _ _ _ _ (get_table_eq s)).
  assert (L !! length X = Some r) as Hr by (rewrite HL; by apply list_lookup_middle).
  rewrite (bind_ret_eq _ _ _ _ _ (scene_get _ _ _ _ _ _ Hs Hr)).
  assert (ht_size (ht s) = sz) as Hsz' by (destruct Hs as (recs & -> & _); done). rewrite Hsz'.
  destruct (skipped sz c r); [|done]. rewrite rot_next. cbn [length] in Hf.
  destruct R as [|r' R'].
  - rewrite HL, length_app in Hl. cbn [length] in Hl. replace (S (length X)) with (n + 0)%nat by lia.
    rewrite rot_round, rot_0 by done. by rewrite Nat.eqb_refl.
  - assert (rot c (S (length X)) <> c) as Hne.
    { rewrite <- (rot_0 c Hc) at 2. intros He%rot_inj; [lia| |apply n_pos]. rewrite <- Hl, HL, length_app. simpl. lia. }
    rewrite (proj2 (Nat.eqb_neq _ _) Hne). specialize (IH (X ++ [r]) fuel (note_inval r (rot c (length X)) inval)).
    rewrite length_app, Nat.add_1_r in IH. apply IH; [by simplify_list_eq|done|cbn [length] in *; lia].
Qed.

Lemma collision_loop_eq c s first : ht_size (ht s) = sz -> forall R p fuel inval,
  (forall j r, R !! j = Some r -> lyht_get_rec (rot c (S p + j)) s = Ret r s /\ rot c (S p + j) <> first) ->
  rot c (S p + length R) = first -> (length R < fuel)%nat ->
  collision_loop fuel c (rot c p) first inval s = Ret (probe c (S p) R inval) s.
Proof.
  intros Hsize. induction R as [|r R IH]; intros p fuel inval HR Hfirst Hf; (destruct fuel as [|fuel]; [lia|]);
    cbn [collision_loop probe]; rewrite (bind_ret_eq _ _ _ _ _ (get_table_eq s)), Hsize, rot_next.
  - rewrite Nat.add_0_r in Hfirst. rewrite Hfirst. by rewrite Nat.eqb_refl.
  - destruct (HR 0%nat r eq_refl) as [Hg Hne]. rewrite Nat.add_0_r in Hg, Hne.
    rewrite (proj2 (Nat.eqb_neq _ _) Hne), (bind_ret_eq _ _ _ _ _ Hg).
    destruct (skipped sz c r) eqn:Hsk.
    + apply IH; [|cbn [length] in *; by replace (S (S p) + length R)%nat with (S p + S (length R))%nat by lia|cbn [length] in *; lia].
      intros j x Hj. replace (S (S p) + j)%nat with (S p + S j)%nat by lia. by apply HR.
    + unfold mret, M_ret. do 2 f_equal. unfold note_inval. destruct inval; [done|].
      unfold skipped in Hsk. destruct (Z.eqb_spec (rec_hits r) (-1)) as [He|]; [|done]. rewrite He in Hsk. done.
Qed.

(** The first removed record among those that were skipped. *)
Fixpoint first_inval (p : nat) Y : option nat :=
  match Y with
  | [] => None
  | r :: Y => if rec_hits r =? -1 then Some p else first_inval (S p) Y
  end.

Lemma first_inval_cases p Y :
  (first_inval p Y = None /\ Forall (fun r => rec_hits r <> -1) Y) \/
  exists Y1 r Y2, Y = Y1 ++ r :: Y2 /\ rec_hits r = -1 /\ Forall (fun r => rec_hits r <> -1) Y1 /\
    first_inval p Y = Some (p + length Y1)%nat.
Proof.
  revert p. induction Y as [|r Y IH]; intros p; [by left|]. cbn [first_inval]. destruct (Z.eqb_spec (rec_hits r) (-1)) as [Hr|Hr].
  - right. exists [], r, Y. rewrite Nat.add_0_r. by repeat split.
  - destruct (IH (S p)) as [[-> HY]|(Y1 & r' & Y2 & -> & Hr' & HY & ->)]; [left; by repeat constructor|].
    right. exists (r :: Y1), r', Y2. split; [done|]. split; [done|]. split; [by constructor|]. f_equal. cbn. lia.
Qed.

Definition skips (c : nat) r : Prop := skipped sz c r = true.

Lemma probe_cases c R : forall p inval,
  (Forall (skips c) R /\ probe c p R inval = Round (match inval with Some i => Some i | None => (fun q => rot c q) <$> first_inval p R end)) \/
  exists Y r Z, R = Y ++ r :: Z /\ Forall (skips c) Y /\ skipped sz c r = false /\
    probe c p R inval = Stop (rot c (p + length Y)) (match inval with Some i => Some i | None => (fun q => rot c q) <$> first_inval p Y end).
Proof.
  induction R as [|r R IH]; intros p inval; [left; split; [done|by destruct inval]|]. cbn [probe].
  destruct (skipped sz c r) eqn:Hr.
  - destruct (IH (S p) (note_inval r (rot c p) inval)) as [[HR ->]|(Y & x & Z & -> & HY & Hx & ->)].
    + left. split; [by constructor|]. f_equal. unfold note_inval. destruct inval; [done|]. cbn [first_inval].
      by destruct (rec_hits r =? -1).
    + right. exists (r :: Y), x, Z. split; [done|]. split; [by constructor|]. split; [done|].
      cbn [length]. rewrite Nat.add_succ_r. cbn [Nat.add]. f_equal. unfold note_inval. destruct inval; [done|]. cbn [first_inval].
      by destruct (rec_hits r =? -1).
  - right. exists [], r, R. rewrite Nat.add_0_r. split; [done|]. split; [done|]. split; [done|]. by destruct inval.
Qed.
End Probe.
