(* ===== verification/HashFind.v ===== *)
(** * The searches of the hash table

    lyht_find_first finds the first record of a chain, or where a new chain starts;
    lyht_find_collision goes on from a record of the chain to the next one, or to
    where the chain grows. Both move the record they find to a removed record they
    came by, and neither leaves the array as long as some record is not in use. *)

From S2P Require Import Prelude HashTable HashChain HashProbe.

Section Find.
Context {V D : Type} (sz : Z) (Hsz : size_ok sz).
Implicit Types (r f : ht_rec V) (L X Y A B R P C : list (ht_rec V)) (s : htmem V D).

Abbreviation n := (Z.to_nat sz).
Abbreviation rot c p := (rotate_nat_add c p n).
Abbreviation scene := (@scene V D sz).
Abbreviation chain := (@chain V sz).
Abbreviation chain_ok := (@chain_ok V sz).
Abbreviation mine := (@mine V sz).

Definition in_use r : Prop := 0 < rec_hits r.

(** In use, by another class. *)
Definition busy (c : nat) r : Prop := in_use r /\ mine c r = false.

(** Some record is free. *)
Definition has_room L : Prop := (length (entries L) < length L)%nat.

(** The same contents with the chain of [c] in the same order. *)
Definition same_chain (c : nat) L L' : Prop :=
  chain_ok c L' /\ chain c L' = chain c L /\ entries L' ≡ₚ entries L.

Lemma same_chain_refl c L : chain_ok c L -> same_chain c L L.
Proof. done. Qed.

Lemma same_chain_trans c L1 L2 L3 : same_chain c L1 L2 -> same_chain c L2 L3 -> same_chain c L1 L3.
Proof. intros (H1 & H2 & H3) (H4 & H5 & H6). split; [done|]. split; [congruence|by rewrite H6]. Qed.

Lemma full_no_room L : Forall in_use L -> ~ has_room L.
Proof.
  unfold has_room. intros HL. assert (length (entries L) = length L) as He; [|lia].
  induction HL as [|r L Hr HL IH]; [done|]. rewrite entries_cons, entry_live by done. cbn. by rewrite IH.
Qed.

(** ** Records that are skipped *)
Lemma skips_not_mine c r : skips sz c r -> mine c r = false /\ present r.
Proof.
  unfold skips, skipped, present. intros [H1%negb_true_iff%Z.eqb_neq H2]%andb_true_iff. split; [|done].
  apply not_true_is_false. intros [H3 H4]%mine_true. apply orb_true_iff in H2 as [H2%Z.eqb_eq|H2%negb_true_iff%Nat.eqb_neq]; [lia|done].
Qed.

Lemma skips_chain c Y : Forall (skips sz c) Y -> chain c Y = [] /\ Forall present Y.
Proof.
  intros HY. split; [apply chain_nil|]; (eapply Forall_impl; [exact HY|]); intros r Hr; by destruct (skips_not_mine _ _ Hr).
Qed.

Lemma skips_busy c Y : Forall (skips sz c) Y -> Forall (fun r => rec_hits r <> -1) Y -> Forall (rec_fine) Y -> Forall (busy c) Y.
Proof.
  intros H1 H2 H3. induction Y as [|r Y IH]; [done|].
  apply Forall_cons in H1 as [H1 H1']. apply Forall_cons in H2 as [H2 H2']. apply Forall_cons in H3 as [H3 H3'].
  constructor; [|auto]. apply skips_not_mine in H1 as [Hm Hp]. split; [|done]. unfold in_use, present, rec_fine in *. lia.
Qed.

Lemma stop_cases c r : rec_fine r -> skipped sz c r = false -> rec_hits r = 0 \/ mine c r = true.
Proof.
  unfold skipped, rec_fine. intros [Hf _] [H%negb_false_iff%Z.eqb_eq|H]%andb_false_iff; [by left|].
  apply orb_false_iff in H as [H1%Z.eqb_neq H2%negb_false_iff%Nat.eqb_eq].
  destruct (decide (rec_hits r = 0)); [by left|]. right. apply mine_true. split; [lia|done].
Qed.

(** ** Moving a record *)
Lemma same_chain_move c X r0 Y r Z : rec_hits r0 = -1 -> chain c Y = [] -> mine c r = true ->
  chain_ok c (X ++ r0 :: Y ++ r :: Z) ->
  same_chain c (X ++ r0 :: Y ++ r :: Z) (X ++ r :: Y ++ put_hits (-1) r :: Z).
Proof.
  intros H0 HY Hr Hok. destruct (chain_ok_move sz c X r0 Y r Z H0 HY Hr Hok) as [H1 H2]. split; [done|]. split; [done|].
  apply mine_true in Hr as [Hr _]. rewrite !entries_app, (entries_dead r0), (entries_live r) by lia.
  rewrite !entries_app, (entries_live r), (entries_dead (put_hits (-1) r)) by (cbn; lia).
  f_equiv. apply Permutation_middle.
Qed.

Lemma move_rec_spec c s0 s X r0 Y r Z : scene c s0 (X ++ r0 :: Y ++ r :: Z) s -> rec_hits r0 = -1 -> mine c r = true ->
  exists s', move_rec (rot c (length X + S (length Y))) (Some (rot c (length X))) s = Ret (rot c (length X)) s' /\
    scene c s0 (X ++ r :: Y ++ put_hits (-1) r :: Z) s'.
Proof.
  intros Hs H0 Hr. unfold move_rec.
  assert (rec_fine r) as Hfine by (eapply scene_fine; [exact Hs|set_solver]).
  assert ((X ++ r0 :: Y ++ r :: Z) !! (length X + S (length Y))%nat = Some r) as Hp.
  { rewrite lookup_app_r by lia. replace (length X + S (length Y) - length X)%nat with (S (length Y)) by lia. by apply list_lookup_middle. }
  rewrite (bind_ret_eq _ _ _ _ _ (scene_get _ _ _ _ _ _ _ Hs Hp)).
  destruct (scene_set sz c s0 _ s (length X) r0 r Hs) as (s1 & He1 & Hs1);
    [by apply list_lookup_middle|apply dead_of_class; lia|by apply mine_of_class|by apply mine_true in Hr as [? _]; unfold present; lia|done|].
  rewrite insert_middle in Hs1. rewrite (bind_ret_eq _ _ _ _ _ He1).
  replace (X ++ r :: Y ++ r :: Z) with ((X ++ r :: Y) ++ r :: Z) in Hs1 by (by simplify_list_eq).
  destruct (scene_set sz c s0 _ s1 (length (X ++ r :: Y)) r (put_hits (-1) r) Hs1) as (s2 & He2 & Hs2);
    [by apply list_lookup_middle|by apply mine_of_class|apply dead_of_class; cbn; lia|done|unfold rec_fine in *; cbn; lia|].
  rewrite insert_middle in Hs2. rewrite length_app in He2. cbn [length] in He2.
  rewrite (bind_ret_eq _ _ _ _ _ He2). exists s2. split; [done|]. by simplify_list_eq.
Qed.

(** ** lyht_find_first *)

(** The outcome: the chain starts at a record behind busy ones, or there is none and
    a new value can be stored at a free record without an empty one before it. *)
Definition first_outcome c s0 L s (res : outcome (htmem V D) (Z * nat)) : Prop :=
  (exists A f B s', res = Ret (0, rot c (length A)) s' /\ scene c s0 (A ++ f :: B) s' /\
     same_chain c L (A ++ f :: B) /\ Forall (busy c) A /\ mine c f = true) \/
  (exists X e Z, res = Ret (1, rot c (length X)) s /\ L = X ++ e :: Z /\ chain c L = [] /\
     Forall present X /\ rec_hits e <= 0).

Lemma find_first_spec s0 L s h : scene (shortened sz h) s0 L s -> ht_size (ht s0) = sz ->
  chain_ok (shortened sz h) L -> has_room L -> first_outcome (shortened sz h) s0 L s (lyht_find_first h s).
Proof.
  set (c := shortened sz h). intros Hs Hsize Hok Hroom. pose proof (shortened_lt sz h Hsz) as Hc. fold c in Hc.
  assert (Forall rec_fine L) as Hfine by (apply Forall_forall; intros r; by eapply scene_fine).
  assert (ht_size (ht s) = sz) as Hsize' by (destruct Hs as (recs & -> & _); done).
  unfold lyht_find_first. rewrite (bind_ret_eq _ _ _ _ _ (get_table_eq s)), Hsize'. fold c.
  assert (probe_loop n c c None s = Ret (probe sz c 0 L None) s) as Hp.
  { rewrite <- (rot_0 sz c Hc) at 2. apply (probe_loop_eq sz Hsz c s0 L s Hs Hsize Hc L []); [done| |].
    - intros ->. apply scene_length in Hs. simpl in Hs. lia.
    - rewrite (scene_length _ _ _ _ _ Hs). lia. }
  rewrite (bind_ret_eq _ _ _ _ _ Hp).
  destruct (probe_cases sz c L 0 None) as [[Hsk ->]|(Y & r & Z & -> & Hsk & Hr & ->)].
  - right. pose proof (skips_chain c L Hsk) as [HL Hpr].
    destruct (first_inval_cases 0 L) as [[_ Hno]|(Y1 & e & Y2 & -> & He & _ & ->)].
    + exfalso. apply (full_no_room L); [|done]. eapply Forall_impl; [by apply (skips_busy c)|]. by intros x [? _].
    + exists Y1, e, Y2. apply Forall_app in Hpr as [? _]. split_and!; try done; lia.
  - cbn [Nat.add]. apply Forall_app in Hfine as [HfY [Hfr HfZ]%Forall_cons].
    rewrite (bind_ret_eq _ _ _ _ _ (scene_get _ _ _ _ _ _ _ Hs (list_lookup_middle _ _ _ _ eq_refl))).
    pose proof (skips_chain c Y Hsk) as [HY HpY].
    destruct (stop_cases c r Hfr Hr) as [H0|Hm].
    + right. rewrite H0. change (0 =? 0) with true. cbv iota.
      assert (chain c (Y ++ r :: Z) = []) as Hch by (rewrite chain_app, HY; by eapply chain_ok_empty).
      destruct (first_inval_cases 0 Y) as [[-> _]|(Y1 & e & Y2 & -> & He & _ & ->)].
      * exists Y, r, Z. cbn. split_and!; try done; lia.
      * exists Y1, e, (Y2 ++ r :: Z). apply Forall_app in HpY as [? _]. split; [done|]. split; [by simplify_list_eq|]. split_and!; try done; lia.
    + left. pose proof Hm as [Hpos _]%mine_true. rewrite (proj2 (Z.eqb_neq _ _)) by lia.
      destruct (first_inval_cases 0 Y) as [[-> Hno]|(Y1 & e & Y2 & -> & He & Hno & ->)].
      * exists Y, r, Z, s. cbn. split; [done|]. split; [done|]. split; [done|]. split; [by apply skips_busy|done].
      * simplify_list_eq. apply Forall_app in HfY as [HfY1 _]. apply Forall_app in Hsk as [Hsk1 [_ Hsk2]%Forall_cons].
        destruct (move_rec_spec c s0 s Y1 e Y2 r Z Hs He Hm) as (s' & Hmv & Hs').
        cbn [fmap option_fmap option_map Nat.add]. rewrite length_app. cbn [length]. rewrite (bind_ret_eq _ _ _ _ _ Hmv).
        exists Y1, r, (Y2 ++ put_hits (-1) r :: Z), s'. split; [done|]. split; [done|].
        split; [apply same_chain_move; try done; by apply skips_chain|]. split; [by apply skips_busy|done].
Qed.
(** ** lyht_find_collision *)

(** The array when a walk along the chain has come to the last record of [M]: what
    is before it is in use. *)
Definition walked c A f M B L : Prop :=
  L = A ++ f :: M ++ B /\ Forall (busy c) A /\ mine c f = true /\ Forall in_use M /\
  exists x, last (f :: M) = Some x /\ mine c x = true.

Lemma busy_skips c r : busy c r -> skipped sz c r = true /\ rec_hits r <> -1.
Proof.
  unfold busy, in_use. intros [H1 H2]. split; [|lia]. unfold skipped. rewrite (proj2 (Z.eqb_neq _ _)) by lia.
  cbn [negb andb]. apply orb_true_iff. right. apply negb_true_iff. unfold HashChain.mine in H2.
  by rewrite (proj2 (Z.ltb_lt _ _) H1) in H2.
Qed.

(** A record that busy ones are not is in the first part. *)
Lemma split_before {T} (Q : T -> Prop) (B A Y Z : list T) (r : T) : B ++ A = Y ++ r :: Z -> Forall Q A -> ~ Q r ->
  exists Z', B = Y ++ r :: Z' /\ Z = Z' ++ A.
Proof.
  intros He HA Hr. apply app_eq_inv in He as [(k & -> & Hk)|(k & HY & HAk)].
  - destruct k as [|x k]; simplify_eq/=; [|by exists k]. exfalso. apply Hr. by apply Forall_cons in HA as [? _].
  - exfalso. apply Hr. rewrite HAk in HA. by apply Forall_app in HA as [_ [? _]%Forall_cons].
Qed.

Lemma lookup_behind A f M B j : (A ++ f :: M ++ B) !! (S (length A + length M) + j)%nat = B !! j.
Proof.
  rewrite app_comm_cons, app_assoc, lookup_app_r by (rewrite length_app; cbn [length]; lia).
  f_equal. rewrite length_app. cbn [length]. lia.
Qed.

Lemma collision_probe c s0 L s A f M B : scene c s0 L s -> ht_size (ht s0) = sz -> walked c A f M B L ->
  collision_loop n c (rot c (length A + length M)) (rot c (length A)) None s
  = Ret (probe sz c (S (length A + length M)) (B ++ A) None) s.
Proof.
  intros Hs Hsize (HL & _). pose proof (scene_length _ _ _ _ _ Hs) as Hl.
  rewrite HL, length_app in Hl. cbn [length] in Hl. rewrite length_app in Hl.
  apply (collision_loop_eq sz Hsz c s (rot c (length A))).
  - by destruct Hs as (recs & -> & _).
  - intros j r Hj. destruct (decide (j < length B)%nat) as [Hlt|Hge].
    + rewrite lookup_app_l in Hj by done. split.
      * eapply scene_get; [exact Hs|]. rewrite HL. by rewrite lookup_behind.
      * intros He%rot_inj; try done; lia.
    + rewrite lookup_app_r in Hj by lia. pose proof (lookup_lt_Some _ _ _ Hj) as Hq.
      replace (S (length A + length M) + j)%nat with (n + (j - length B))%nat by lia. rewrite rot_round by done. split.
      * eapply scene_get; [exact Hs|]. rewrite HL. by rewrite lookup_app_l.
      * intros He%rot_inj; try done; lia.
  - rewrite length_app. replace (S (length A + length M) + (length B + length A))%nat with (n + length A)%nat by lia.
    by apply rot_round.
  - rewrite length_app. lia.
Qed.

(** The outcome: the next record of the chain, or none and where one can be added. *)
Definition collision_next c s0 A f M B L (res : outcome (htmem V D) (Z * nat)) : Prop :=
  exists C y B' s', res = Ret (0, rot c (length A + length (M ++ C ++ [y]))) s' /\ scene c s0 (A ++ f :: (M ++ C ++ [y]) ++ B') s' /\
     same_chain c L (A ++ f :: (M ++ C ++ [y]) ++ B') /\ walked c A f (M ++ C ++ [y]) B' (A ++ f :: (M ++ C ++ [y]) ++ B') /\
     chain c B = y :: chain c B'.

Definition collision_none c A (M : list (ht_rec V)) B s (res : outcome (htmem V D) (Z * nat)) : Prop :=
  exists B1 e B2, res = Ret (1, rot c (S (length A + length M) + length B1)) s /\ B = B1 ++ e :: B2 /\ chain c B = [] /\
     Forall present B1 /\ rec_hits e <= 0.

Definition collision_outcome c s0 A f M B L s (res : outcome (htmem V D) (Z * nat)) : Prop :=
  collision_next c s0 A f M B L res \/ collision_none c A M B s res.

Lemma walked_last c A f M B L : walked c A f M B L ->
  exists x, L !! (length A + length M)%nat = Some x /\ mine c x = true.
Proof.
  intros (-> & _ & _ & _ & x & Hx & Hm). exists x. split; [|done]. rewrite lookup_app_r by lia.
  replace (length A + length M - length A)%nat with (length M) by lia. rewrite last_lookup in Hx. cbn [length Nat.pred] in Hx.
  rewrite app_comm_cons, lookup_app_l by (cbn; lia). done.
Qed.

Lemma walked_snoc c A f M y B L : walked c A f (M ++ [y]) B L ->
  L !! (length A + length (M ++ [y]))%nat = Some y /\ mine c y = true.
Proof.
  intros (-> & _ & _ & _ & z & Hz & Hm). rewrite app_comm_cons, last_snoc in Hz. simplify_eq. split; [|done].
  rewrite length_app. cbn [length].
  replace (A ++ f :: (M ++ [z]) ++ B) with ((A ++ f :: M) ++ z :: B) by (by simplify_list_eq).
  apply list_lookup_middle. rewrite length_app. cbn [length]. lia.
Qed.

Lemma walked_hits c A f M B L x : chain_ok c L -> walked c A f M B L -> x ∈ chain c B -> rec_hits x = 1.
Proof.
  intros [Hh _] (-> & HA & Hf & _) Hx.
  assert (chain c A = []) as HA' by (apply chain_nil; eapply Forall_impl; [exact HA|]; by intros r [_ ?]).
  rewrite chain_app, HA', chain_cons_mine, chain_app in Hh by done. destruct Hh as [_ Hh]. rewrite Forall_forall in Hh.
  apply Hh. set_solver.
Qed.

Lemma busy_in_use c Y : Forall (busy c) Y -> Forall in_use Y.
Proof. intros HY. eapply Forall_impl; [exact HY|]. by intros r [? _]. Qed.

(** The walk has come to the next record. *)
Lemma walked_on c A f M C r B : Forall (busy c) A -> mine c f = true -> Forall in_use M -> Forall (busy c) C -> mine c r = true ->
  walked c A f (M ++ C ++ [r]) B (A ++ f :: (M ++ C ++ [r]) ++ B).
Proof.
  intros HA Hf HM HC Hr. split; [done|]. split; [done|]. split; [done|]. split.
  - apply Forall_app. split; [done|]. apply Forall_app. split; [by eapply busy_in_use|]. apply Forall_singleton. by apply mine_true in Hr as [? _].
  - exists r. split; [|done]. rewrite app_assoc, app_comm_cons. apply last_snoc.
Qed.

Lemma walk_position A (M : list (ht_rec V)) C r : (length A + length (M ++ C ++ [r]) = S (length A + length M) + length C)%nat.
Proof. rewrite !length_app. cbn [length]. lia. Qed.

(** The record found is moved to the first removed one the probe came by. *)
Lemma collision_found c s0 L s A f M Y r B2 : scene c s0 L s -> walked c A f M (Y ++ r :: B2) L -> chain_ok c L ->
  Forall (skips sz c) Y -> Forall rec_fine Y -> mine c r = true ->
  collision_next c s0 A f M (Y ++ r :: B2) L
    ((j ← move_rec (rot c (S (length A + length M) + length Y)) ((fun q => rot c q) <$> first_inval (S (length A + length M)) Y); mret (0, j)) s).
Proof.
  intros Hs (HL & HA & Hf & HM & _) Hok Hsk HfY Hm. pose proof (skips_chain c Y Hsk) as [HY _].
  assert (chain c (Y ++ r :: B2) = r :: chain c B2) as Hch by (rewrite chain_app, HY; by apply chain_cons_mine).
  destruct (first_inval_cases (S (length A + length M)) Y) as [[-> Hno]|(Y1 & e & Y2 & -> & He & Hno & ->)].
  - exists Y, r, B2, s. assert (A ++ f :: (M ++ Y ++ [r]) ++ B2 = L) as HL' by (rewrite HL; by simplify_list_eq).
    split; [by rewrite walk_position|]. rewrite HL'. split; [done|]. split; [done|]. split; [|done].
    rewrite <- HL'. apply walked_on; try done. by apply skips_busy.
  - apply Forall_app in HfY as [HfY1 _]. apply Forall_app in Hsk as [Hsk1 [_ Hsk2]%Forall_cons]. pose proof (skips_chain c Y2 Hsk2) as [HY2 _].
    assert (L = (A ++ f :: M ++ Y1) ++ e :: Y2 ++ r :: B2) as HL' by (rewrite HL; by simplify_list_eq).
    rewrite HL' in Hs, Hok. destruct (move_rec_spec c s0 s _ e Y2 r B2 Hs He Hm) as (s' & Hmv & Hs').
    assert (length (A ++ f :: M ++ Y1) = S (length A + length M) + length Y1)%nat as Hlen by (rewrite length_app; cbn; rewrite length_app; lia).
    rewrite Hlen in Hmv. replace (S (length A + length M) + length Y1 + S (length Y2))%nat with (S (length A + length M) + length (Y1 ++ e :: Y2))%nat in Hmv
      by (rewrite length_app; cbn; lia).
    cbn [fmap option_fmap option_map]. rewrite (bind_ret_eq _ _ _ _ _ Hmv). exists Y1, r, (Y2 ++ put_hits (-1) r :: B2), s'.
    split; [by rewrite walk_position|].
    assert (A ++ f :: (M ++ Y1 ++ [r]) ++ Y2 ++ put_hits (-1) r :: B2 = (A ++ f :: M ++ Y1) ++ r :: Y2 ++ put_hits (-1) r :: B2) as HL2 by (by simplify_list_eq).
    split; [by rewrite HL2|]. split; [rewrite HL2, HL'; by apply same_chain_move|]. split; [apply walked_on; try done; by apply skips_busy|].
    rewrite Hch. f_equal. rewrite chain_app, HY2. cbn [app]. rewrite chain_cons_other; [done|]. apply mine_dead. cbn. lia.
Qed.

(** The probe came round: the room is a removed record behind the chain. *)
Lemma collision_round c L A f M B : walked c A f M B L -> has_room L -> Forall (skips sz c) B -> Forall rec_fine B ->
  exists B1 e B2, B = B1 ++ e :: B2 /\ rec_hits e = -1 /\
    first_inval (S (length A + length M)) (B ++ A) = Some (S (length A + length M) + length B1)%nat.
Proof.
  intros (HL & HA & Hf & HM & _) Hroom HskB HfB.
  destruct (first_inval_cases (S (length A + length M)) (B ++ A)) as [[_ Hno]|(Y1 & e & Y2 & HBA & He & _ & ->)].
  - exfalso. apply (full_no_room L); [|done]. rewrite HL. apply Forall_app in Hno as [HnoB _].
    apply Forall_app. split; [by eapply busy_in_use|]. apply Forall_cons. split; [by apply mine_true in Hf as [? _]|].
    apply Forall_app. split; [done|]. eapply busy_in_use. by apply (skips_busy c B).
  - destruct (split_before (busy c) B A Y1 Y2 e HBA HA) as (B2 & -> & _); [intros [H1 _]; unfold in_use in H1; lia|]. by exists Y1, e, B2.
Qed.

Lemma find_collision_spec c s0 L s A f M B : scene c s0 L s -> ht_size (ht s0) = sz -> walked c A f M B L ->
  chain_ok c L -> has_room L ->
  collision_outcome c s0 A f M B L s (lyht_find_collision (rot c (length A + length M)) (rot c (length A)) s).
Proof.
  intros Hs Hsize Hw Hok Hroom. unfold lyht_find_collision.
  rewrite (bind_ret_eq _ _ _ _ _ (get_table_eq s)).
  assert (ht_size (ht s) = sz) as Hsize' by (destruct Hs as (recs & -> & _); done). rewrite Hsize'.
  destruct (walked_last _ _ _ _ _ _ Hw) as (x & Hx & [_ Hxc]%mine_true).
  rewrite (bind_ret_eq _ _ _ _ _ (scene_get _ _ _ _ _ _ _ Hs Hx)), Hxc.
  rewrite (bind_ret_eq _ _ _ _ _ (collision_probe c s0 L s A f M B Hs Hsize Hw)).
  assert (Forall rec_fine L) as Hfine by (apply Forall_forall; intros r; by eapply scene_fine).
  pose proof Hw as (HL & HA & _). rewrite HL in Hfine. apply Forall_app in Hfine as [_ [_ [_ HfB]%Forall_app]%Forall_cons].
  destruct (probe_cases sz c (B ++ A) (S (length A + length M)) None) as [[Hsk ->]|(Y & r & Z & HBA & Hsk & Hr & ->)].
  - right. apply Forall_app in Hsk as [HskB _]. pose proof (skips_chain c B HskB) as [HB HpB].
    destruct (collision_round c L A f M B Hw Hroom HskB HfB) as (B1 & e & B2 & -> & He & ->).
    exists B1, e, B2. apply Forall_app in HpB as [? _]. split_and!; try done; lia.
  - destruct (split_before (busy c) B A Y Z r HBA HA) as (B2 & -> & _); [intros [Hb _]%busy_skips; congruence|].
    pose proof (skips_chain c Y Hsk) as [HY HpY]. apply Forall_app in HfB as [HfY [Hfr _]%Forall_cons].
    assert (L !! (S (length A + length M) + length Y)%nat = Some r) as Hp by (rewrite HL, lookup_behind; by apply list_lookup_middle).
    rewrite (bind_ret_eq _ _ _ _ _ (scene_get _ _ _ _ _ _ _ Hs Hp)).
    destruct (stop_cases c r Hfr Hr) as [H0|Hm].
    + right. rewrite H0. change (0 <? 0) with false. cbv iota.
      assert (chain c (Y ++ r :: B2) = []) as Hch.
      { rewrite chain_app, HY. eapply (chain_ok_empty sz c (A ++ f :: M ++ Y)); [|done]. rewrite HL in Hok. by simplify_list_eq. }
      destruct (first_inval_cases (S (length A + length M)) Y) as [[-> _]|(Y1 & e & Y2 & -> & He & _ & ->)].
      * exists Y, r, B2. split_and!; try done; lia.
      * exists Y1, e, (Y2 ++ r :: B2). apply Forall_app in HpY as [? _]. split; [done|]. split; [by simplify_list_eq|]. split_and!; try done; lia.
    + left. assert (rec_hits r = 1) as Hone.
      { eapply (walked_hits c A f M); [exact Hok|exact Hw|]. rewrite chain_app, HY, chain_cons_mine by done. set_solver. }
      rewrite Hone. change (0 <? 1) with true. change (1 =? 1) with true. cbv iota. by apply collision_found.
Qed.
End Find.
