(* ===== verification/HashOps.v ===== *)
(** * The operations of the hash table

    What lyht_find, lyht_insert and lyht_remove do to the records in the order of
    the probes for their hash, before any resize. *)

From S2P Require Import Prelude HashTable HashChain HashProbe HashFind.

Section Ops.
Context {V D : Type} (sz : Z) (Hsz : size_ok sz).
Implicit Types (r f y : ht_rec V) (L X Y A B R M : list (ht_rec V)) (s : htmem V D).

Abbreviation n := (Z.to_nat sz).
Abbreviation rot c p := (rotate_nat_add c p n).
Abbreviation scene := (@scene V D sz).
Abbreviation chain := (@chain V sz).
Abbreviation chain_ok := (@chain_ok V sz).
Abbreviation mine := (@mine V sz).
Abbreviation same_chain := (@same_chain V sz).
Abbreviation walked := (@walked V sz).

(** The record holds a value equal to [v], with the same hash. *)
Definition hit (t : hash_table V D) (v : V) (h : Z) (m : bool) r : bool :=
  (rec_hash r =? h) && ht_equal t v (rec_val r) m (ht_data t).

Lemma matches_rec_eq c s0 L s p r v h m : scene c s0 L s -> L !! p = Some r ->
  matches_rec v h m (rot c p) s = Ret (hit (ht s0) v h m r) s.
Proof.
  intros Hs Hp. unfold matches_rec. rewrite (bind_ret_eq _ _ _ _ _ (get_table_eq s)).
  rewrite (bind_ret_eq _ _ _ _ _ (scene_get _ _ _ _ _ _ _ Hs Hp)). by destruct Hs as (recs & -> & _).
Qed.

Lemma scene_room c s0 L L' s s' : scene c s0 L s -> scene c s0 L' s' -> same_chain c L L' -> has_room L -> has_room L'.
Proof.
  intros H1%scene_length H2%scene_length (_ & _ & Hp) Hr. unfold has_room in *. rewrite Hp. lia.
Qed.

(** ** The walk along the collisions *)
Definition walk_found c s0 A f L t v h m (res : outcome (htmem V D) (bool * nat)) : Prop :=
  exists M y B s', res = Ret (true, rot c (length A + length (M ++ [y]))) s' /\
    scene c s0 (A ++ f :: (M ++ [y]) ++ B) s' /\ same_chain c L (A ++ f :: (M ++ [y]) ++ B) /\
    walked c A f (M ++ [y]) B (A ++ f :: (M ++ [y]) ++ B) /\ mine c y = true /\ hit t v h m y = true.

Definition walk_over c s0 A f L (res : outcome (htmem V D) (bool * nat)) : Prop :=
  exists M B s', res = Ret (false, rot c (length A + length M)) s' /\
    scene c s0 (A ++ f :: M ++ B) s' /\ same_chain c L (A ++ f :: M ++ B) /\
    walked c A f M B (A ++ f :: M ++ B) /\ chain c B = [].

Lemma collisions_spec c s0 A f v h m skip : ht_size (ht s0) = sz -> forall k M B L s,
  scene c s0 L s -> walked c A f M B L -> chain_ok c L -> has_room L -> length (chain c B) = k ->
  let res := collisions k skip v h m (rot c (length A + length M)) (rot c (length A)) s in
  (skip = false /\ walk_found c s0 A f L (ht s0) v h m res) \/
  (walk_over c s0 A f L res /\ (skip = false -> Forall (fun r => hit (ht s0) v h m r = false) (chain c B))).
Proof.
  intros Hsize. induction k as [|k IH]; intros M B L s Hs Hw Hok Hroom Hk res; unfold res; clear res; cbn [collisions].
  { right. apply nil_length_inv in Hk. split; [|by rewrite Hk]. exists M, B, s. pose proof Hw as (HL & _). by rewrite <- HL. }
  destruct (find_collision_spec sz Hsz c s0 L s A f M B Hs Hsize Hw Hok Hroom) as
    [(C & y & B' & s' & Heq & Hs' & Hsame & Hw' & Hch)|(B1 & e & B2 & _ & _ & Hnil & _)].
  2: { by rewrite Hnil in Hk. }
  rewrite (bind_ret_eq _ _ _ _ _ Heq). cbn [fst snd]. change (0 =? 0) with true. cbn [negb].
  set (L' := A ++ f :: (M ++ C ++ [y]) ++ B') in *.
  pose proof Hw' as Hw2. rewrite app_assoc in Hw2. apply walked_snoc in Hw2 as [Hy' Hmy]. rewrite <- app_assoc in Hy'.
  rewrite (bind_ret_eq _ _ _ _ _ (matches_rec_eq _ _ _ _ _ _ v h m Hs' Hy')).
  destruct (negb skip && hit (ht s0) v h m y) eqn:Hhit.
  - left. apply andb_true_iff in Hhit as [Hsk%negb_true_iff Hhit]. split; [done|].
    exists (M ++ C), y, B', s'. rewrite <- app_assoc. done.
  - rewrite Hch in Hk. cbn [length] in Hk. injection Hk as Hk.
    destruct (IH (M ++ C ++ [y]) B' L' s' Hs' Hw' (proj1 Hsame) (scene_room _ _ _ _ _ _ Hs Hs' Hsame Hroom) Hk) as
      [[Hsk (M2 & y2 & B3 & s2 & He2 & Hs2 & Hsame2 & Hrest)]|[(M2 & B3 & s2 & He2 & Hs2 & Hsame2 & Hw2 & Hn2) Hno]].
    + left. split; [done|]. exists M2, y2, B3, s2. split; [done|]. split; [done|]. split; [by eapply same_chain_trans|done].
    + right. split.
      * exists M2, B3, s2. split; [done|]. split; [done|]. split; [by eapply same_chain_trans|]. by split.
      * intros Hsk. rewrite Hch. constructor; [|by apply Hno]. by rewrite Hsk in Hhit.
Qed.
(** ** Tables in order *)
Definition recs_ok (recs : list (ht_rec V)) : Prop :=
  length recs = n /\ Forall rec_fine recs /\ forall d, (d < n)%nat -> chain_ok d (rotate d recs).

(** [s'] is [s] with other records, in order, with the contents [E]. *)
Definition holds s s' (E : list (Z * V)) : Prop :=
  exists recs, s' = HtMem (with_recs recs (ht s)) (ht_allocs s) /\ recs_ok recs /\ entries recs ≡ₚ E.

Lemma scene_open s h : recs_ok (ht_recs (ht s)) ->
  scene (shortened sz h) s (rotate (shortened sz h) (ht_recs (ht s))) s /\
  chain_ok (shortened sz h) (rotate (shortened sz h) (ht_recs (ht s))).
Proof.
  intros (Hl & Hf & Hd). split; [|by apply Hd, shortened_lt]. exists (ht_recs (ht s)).
  split; [by destruct s as [[]]|]. split; [done|]. split; [done|]. split; [done|]. auto.
Qed.

Lemma scene_close c s L s' : scene c s L s' -> chain_ok c L -> holds s s' (entries L) /\ recs_ok (ht_recs (ht s')).
Proof.
  intros (recs & -> & <- & Hl & Hf & Hd) Hok. assert (recs_ok recs) as Hr.
  { split; [done|]. split; [done|]. intros d Hdn. destruct (decide (d = c)) as [-> |]; auto. }
  split; [|done]. exists recs. split; [done|]. split; [done|]. by rewrite (rotate_Permutation c recs).
Qed.

Lemma scene_record c s L s' p r : scene c s L s' -> L !! p = Some r -> ht_recs (ht s') !! rot c p = Some r.
Proof. intros (recs & -> & <- & Hl & _) Hp. apply lookup_rotate_r_Some in Hp as [Hp _]. by rewrite Hl in Hp. Qed.

(** The entry [e] is equal to [v], with the hash [h]. *)
Definition equal_entry (t : hash_table V D) (v : V) (h : Z) (m : bool) (e : Z * V) : Prop :=
  e.1 = h /\ ht_equal t v e.2 m (ht_data t) = true.

Lemma hit_entry t v h m r : hit t v h m r = true <-> equal_entry t v h m (rec_hash r, rec_val r).
Proof. unfold hit, equal_entry. by rewrite andb_true_iff, Z.eqb_eq. Qed.

(** A value of the contents is in the chain of its hash. *)
Lemma entry_in_chain t v h m L : Exists (equal_entry t v h m) (entries L) <-> Exists (fun r => hit t v h m r = true) (chain (shortened sz h) L).
Proof.
  rewrite !Exists_exists. unfold entries, HashChain.chain. split.
  - intros (e & (r & Hr & He)%list_elem_of_omap & Heq). unfold entry_of in He.
    destruct (Z.ltb_spec 0 (rec_hits r)) as [Hpos|]; [|done]. injection He as <-. exists r. split; [|by apply hit_entry].
    apply list_elem_of_filter. split; [|done]. apply mine_true. split; [done|]. destruct Heq as [Heq _]. cbn in Heq. by rewrite Heq.
  - intros (r & [[Hpos _]%mine_true Hr]%list_elem_of_filter & Hh). exists (rec_hash r, rec_val r). split; [|by apply hit_entry].
    apply list_elem_of_omap. exists r. split; [done|]. by apply entry_live.
Qed.

Lemma busy_chain c A : Forall (busy sz c) A -> chain c A = [].
Proof. intros HA. apply chain_nil. eapply Forall_impl; [exact HA|]. by intros r [_ ?]. Qed.

Lemma chain_first c A f B : Forall (busy sz c) A -> mine c f = true -> chain c (A ++ f :: B) = f :: chain c B.
Proof. intros HA Hf. by rewrite chain_app, busy_chain, chain_cons_mine. Qed.

Lemma walked_start c A f B : Forall (busy sz c) A -> mine c f = true -> walked c A f [] B (A ++ f :: B).
Proof. intros HA Hf. split; [done|]. split; [done|]. split; [done|]. split; [done|]. by exists f. Qed.

(** The count in the first record is that of the collisions. *)
Lemma first_hits c A f B : chain_ok c (A ++ f :: B) -> Forall (busy sz c) A -> mine c f = true ->
  Z.to_nat (rec_hits f - 1) = length (chain c B).
Proof. intros [Hh _] HA Hf. rewrite chain_first in Hh by done. destruct Hh as [-> _]. lia. Qed.

(** ** Searching a value *)

(** The order of the search for a hash. *)
Lemma scene_start s h : recs_ok (ht_recs (ht s)) -> has_room (ht_recs (ht s)) ->
  exists L, scene (shortened sz h) s L s /\ chain_ok (shortened sz h) L /\ has_room L /\ entries L ≡ₚ entries (ht_recs (ht s)) /\
    (forall v m, Exists (equal_entry (ht s) v h m) (entries (ht_recs (ht s))) <-> Exists (fun r => hit (ht s) v h m r = true) (chain (shortened sz h) L)).
Proof.
  intros Hok Hroom. destruct (scene_open s h Hok) as [Hs Hc]. set (c := shortened sz h) in *.
  exists (rotate c (ht_recs (ht s))). set (L := rotate c (ht_recs (ht s))) in *.
  assert (entries L ≡ₚ entries (ht_recs (ht s))) as HE by (unfold L; by rewrite rotate_Permutation).
  split; [done|]. split; [done|]. split; [unfold has_room, L in *; rewrite HE, length_rotate; done|]. split; [done|].
  intros v m. rewrite <- HE. apply entry_in_chain.
Qed.

(** The outcomes of a walk along the whole chain, which may skip the comparisons: a
    match, or the end of the chain. *)
Definition walk_match c s E A f v h m (res : outcome (htmem V D) (bool * nat)) : Prop :=
  exists M y B s', res = Ret (true, rot c (length A + length (M ++ [y]))) s' /\ scene c s (A ++ f :: M ++ y :: B) s' /\
    chain_ok c (A ++ f :: M ++ y :: B) /\ entries (A ++ f :: M ++ y :: B) ≡ₚ E /\ mine c y = true /\ hit (ht s) v h m y = true.

Definition walk_end c s E A f (res : outcome (htmem V D) (bool * nat)) : Prop :=
  exists M B s', res = Ret (false, rot c (length A + length M)) s' /\ scene c s (A ++ f :: M ++ B) s' /\
    chain_ok c (A ++ f :: M ++ B) /\ entries (A ++ f :: M ++ B) ≡ₚ E /\ walked c A f M B (A ++ f :: M ++ B) /\
    chain c B = [] /\ has_room (A ++ f :: M ++ B).

(** No chain, and where one can start. *)
Definition search_absent c s h E : Prop :=
  exists X e Z, lyht_find_first h s = Ret (1, rot c (length X)) s /\ scene c s (X ++ e :: Z) s /\ chain c (X ++ e :: Z) = [] /\
    Forall present X /\ rec_hits e <= 0 /\ entries (X ++ e :: Z) ≡ₚ E.

(** The first record of the chain, and the walk from it. *)
Definition search_present c s v h m E : Prop :=
  exists A f B s1, lyht_find_first h s = Ret (0, rot c (length A)) s1 /\
    matches_rec v h m (rot c (length A)) s1 = Ret (hit (ht s) v h m f) s1 /\ lyht_get_rec (rot c (length A)) s1 = Ret f s1 /\
    scene c s (A ++ f :: B) s1 /\ chain_ok c (A ++ f :: B) /\ entries (A ++ f :: B) ≡ₚ E /\ Forall (busy sz c) A /\ mine c f = true /\
    forall skip, let res := collisions (Z.to_nat (rec_hits f - 1)) skip v h m (rot c (length A)) (rot c (length A)) s1 in
      (skip = false /\ walk_match c s E A f v h m res) \/
      (walk_end c s E A f res /\ (skip = false -> hit (ht s) v h m f = false -> ~ Exists (equal_entry (ht s) v h m) E)).

(** How every operation starts. *)
Lemma search_spec s v h m : ht_size (ht s) = sz -> recs_ok (ht_recs (ht s)) -> has_room (ht_recs (ht s)) ->
  let E := entries (ht_recs (ht s)) in
  (search_absent (shortened sz h) s h E /\ ~ Exists (equal_entry (ht s) v h m) E) \/ search_present (shortened sz h) s v h m E.
Proof.
  intros Hsize Hok Hroom E. destruct (scene_start s h Hok Hroom) as (L & Hs & Hc & HroomL & HE & Hin). specialize (Hin v m).
  set (c := shortened sz h) in *.
  destruct (find_first_spec sz Hsz s L s h Hs Hsize Hc HroomL) as
    [(A & f & B & s1 & He & Hs1 & Hsame & HA & Hf)|(X & e & Z & He & HL & Hnil & HX & He0)]; fold c in He.
  2: { left. fold c in Hnil. split; [|unfold E; rewrite Hin, Hnil; by intros ?%Exists_nil]. exists X, e, Z. rewrite HL in Hs, Hnil, HE. done. }
  right. fold c in Hs1, Hsame, HA, Hf. exists A, f, B, s1. pose proof Hsame as (Hok1 & Hch1 & HE1).
  assert ((A ++ f :: B) !! length A = Some f) as Hlk by (by apply list_lookup_middle).
  split; [done|]. split; [by eapply matches_rec_eq|]. split; [by eapply scene_get|]. split; [done|]. split; [done|].
  split; [by rewrite HE1|]. split; [done|]. split; [done|]. intros skip res.
  pose proof (scene_room _ _ _ _ _ _ Hs Hs1 Hsame HroomL) as Hroom1.
  pose proof (collisions_spec c s A f v h m skip Hsize _ [] B _ s1 Hs1 (walked_start c A f B HA Hf) Hok1 Hroom1 eq_refl) as Hwalk.
  cbn [length] in Hwalk. rewrite Nat.add_0_r, <- (first_hits c A f B Hok1 HA Hf) in Hwalk. fold res in Hwalk.
  destruct Hwalk as [[Hsk (M & y & B' & s2 & He2 & Hs2 & (Hok2 & _ & HE2) & Hw2 & Hy & Hhy)]|[(M & B' & s2 & He2 & Hs2 & Hsame2 & Hw2 & HB') Hno]].
  - left. split; [done|]. exists M, y, B', s2. rewrite <- app_assoc in Hs2, Hok2, HE2. split_and!; try done. by rewrite HE2, HE1.
  - right. split.
    + exists M, B', s2. pose proof Hsame2 as (Hok2 & _ & HE2). split; [done|]. split; [done|]. split; [done|]. split; [by rewrite HE2, HE1|]. split; [done|]. split; [done|].
      exact (scene_room _ _ _ _ _ _ Hs1 Hs2 Hsame2 Hroom1).
    + intros Hsk Hhf. unfold E. rewrite Hin, <- Hch1, chain_first by done. intros [H|H]%Exists_cons; [congruence|].
      apply Exists_exists in H as (r & Hr & Hh). rewrite Forall_forall in Hno. rewrite (Hno Hsk r Hr) in Hh. done.
Qed.

Lemma scene_holds c s s' L E : scene c s L s' -> chain_ok c L -> entries L ≡ₚ E -> holds s s' E.
Proof. intros Hs Hok HE. destruct (scene_close _ _ _ _ Hs Hok) as [(recs & ? & ? & Hr) _]. exists recs. by rewrite Hr, HE. Qed.

Lemma recs_ok_holds s : recs_ok (ht_recs (ht s)) -> holds s s (entries (ht_recs (ht s))).
Proof. intros Hok. exists (ht_recs (ht s)). split; [by destruct s as [[]]|]. done. Qed.

Lemma behind_record c s s' A f M y B : scene c s (A ++ f :: M ++ y :: B) s' ->
  ht_recs (ht s') !! rot c (length A + length (M ++ [y])) = Some y.
Proof.
  intros Hs. eapply scene_record; [exact Hs|]. rewrite app_comm_cons, app_assoc. apply list_lookup_middle. rewrite !length_app. cbn. lia.
Qed.

Lemma mine_in_use c r : mine c r = true -> in_use r.
Proof. by intros [? _]%mine_true. Qed.

Lemma lyht_find_spec s v h : ht_size (ht s) = sz -> recs_ok (ht_recs (ht s)) -> has_room (ht_recs (ht s)) ->
  exists s', holds s s' (entries (ht_recs (ht s))) /\
    ((exists j r, lyht_find v h s = Ret (0, Some j) s' /\ ht_recs (ht s') !! j = Some r /\ in_use r /\ hit (ht s) v h false r = true) \/
     (lyht_find v h s = Ret (1, None) s' /\ ~ Exists (equal_entry (ht s) v h false) (entries (ht_recs (ht s))))).
Proof.
  intros Hsize Hok Hroom. unfold lyht_find.
  destruct (search_spec s v h false Hsize Hok Hroom) as [[(X & e & Z & He & _) Hno]|(A & f & B & s1 & He & Hmt & Hg & Hs1 & Hok1 & HE1 & HA & Hf & Hwalk)];
    rewrite (bind_ret_eq _ _ _ _ _ He).
  { exists s. split; [by apply recs_ok_holds|]. by right. }
  cbn [fst snd]. change (negb (0 =? 0)) with false. cbv iota. rewrite (bind_ret_eq _ _ _ _ _ Hmt).
  destruct (hit (ht s) v h false f) eqn:Hhf.
  { exists s1. split; [by eapply scene_holds|]. left. eexists _, f. split; [done|]. split; [|split; [by eapply mine_in_use|done]].
    eapply scene_record; [exact Hs1|]. by apply list_lookup_middle. }
  rewrite (bind_ret_eq _ _ _ _ _ Hg).
  destruct (Hwalk false) as [[_ (M & y & B' & s2 & He2 & Hs2 & Hok2 & HE2 & Hy & Hhy)]|[(M & B' & s2 & He2 & Hs2 & Hok2 & HE2 & _) Hno]];
    rewrite (bind_ret_eq _ _ _ _ _ He2); exists s2; (split; [by eapply scene_holds|]).
  - left. eexists _, y. split; [done|]. split; [by eapply behind_record|]. split; [by eapply mine_in_use|done].
  - right. split; [done|]. by apply Hno.
Qed.
End Ops.
