(* ===== verification/HashUpdate.v ===== *)
(** * Inserting into and removing from the hash table

    What the search of an insertion followed by the store, and the removal of a
    record, do to the contents; the counters and the resize come later. *)

From S2P Require Import Prelude HashTable HashChain HashProbe HashFind HashOps.

Section Update.
Context {V D : Type} (sz : Z) (Hsz : size_ok sz).
Implicit Types (r f y x : ht_rec V) (L X Y A B R M : list (ht_rec V)) (s : htmem V D).

Abbreviation n := (Z.to_nat sz).
Abbreviation rot c p := (rotate_nat_add c p n).
Abbreviation scene := (@scene V D sz).
Abbreviation chain := (@chain V sz).
Abbreviation chain_ok := (@chain_ok V sz).
Abbreviation mine := (@mine V sz).
Abbreviation same_chain := (@same_chain V sz).
Abbreviation walked := (@walked V sz).
Abbreviation holds := (@holds V D sz).

(** Writes at a position given by the records before it. *)
Lemma scene_write c s0 s X r Z r' : scene c s0 (X ++ r :: Z) s -> of_class sz c r -> of_class sz c r' -> present r' -> rec_fine r' ->
  exists s', set_rec (rot c (length X)) r' s = Ret tt s' /\ scene c s0 (X ++ r' :: Z) s'.
Proof.
  intros Hs Hr Hr' Hp Hf. destruct (scene_set sz c s0 _ s (length X) r r' Hs) as (s' & He & Hs'); try done.
  { by apply list_lookup_middle. }
  rewrite insert_middle in Hs'. by exists s'.
Qed.

Lemma scene_read c s0 s X r Z : scene c s0 (X ++ r :: Z) s -> lyht_get_rec (rot c (length X)) s = Ret r s.
Proof. intros Hs. eapply scene_get; [exact Hs|]. by apply list_lookup_middle. Qed.

Lemma scene_rec_fine c s0 s X r Z : scene c s0 (X ++ r :: Z) s -> rec_fine r.
Proof. intros Hs. eapply scene_fine; [exact Hs|]. set_solver. Qed.

Lemma fine_hits r m : rec_fine r -> -1 <= m -> rec_fine (put_hits m r).
Proof. unfold rec_fine. cbn. lia. Qed.

Lemma entries_swap r X Y : rec_hits r <= 0 -> entries (X ++ r :: Y) = entries X ++ entries Y.
Proof. intros H. by rewrite entries_app, entries_dead. Qed.

(** ** Storing a new value *)
Lemma first_count c L : chain_ok c L -> forall f B, chain c L = f :: B -> rec_hits f <= Z.of_nat (length (entries L)).
Proof.
  intros [Hh _] f B He. rewrite He in Hh. destruct Hh as [-> _].
  assert (length (chain c L) <= length (entries L))%nat as Hle; [|rewrite He in Hle; cbn [length] in Hle; lia].
  clear. unfold HashChain.chain, entries. induction L as [|r L IH]; [done|]. cbn [omap list_omap]. rewrite filter_cons.
  destruct (decide (mine c r = true)) as [[Hp _]%mine_true|_].
  - rewrite entry_live by done. cbn. lia.
  - destruct (entry_of r); cbn; lia.
Qed.

Lemma entries_length L : (length (entries L) <= length L)%nat.
Proof.
  induction L as [|r L IH]; [done|]. rewrite entries_cons. destruct (entry_of r); cbn; lia.
Qed.

Definition new_rec (v : V) (h : Z) : ht_rec V := HtRec h 1 v.

Lemma chain_present c A f B Z : chain_ok c (A ++ f :: B ++ Z) -> mine c f = true -> Forall present A.
Proof. intros Hok Hf. by destruct (chain_ok_split sz c A f (B ++ Z) Hok Hf) as [? _]. Qed.

Lemma holds_permutation s s' E E' : holds s s' E -> E ≡ₚ E' -> holds s s' E'.
Proof. intros (recs & -> & Hok & HE) HE'. exists recs. by rewrite HE. Qed.

(** Where there is no chain yet. *)
Lemma store_first c s X e Z v h : scene c s (X ++ e :: Z) s -> chain c (X ++ e :: Z) = [] -> Forall present X -> rec_hits e <= 0 ->
  mine c (new_rec v h) = true -> rec_fine (new_rec v h) ->
  exists s2, store_new v h (rot c (length X)) None s = Ret tt s2 /\ holds s s2 ((h, v) :: entries (X ++ e :: Z)) /\
    ht_recs (ht s2) !! rot c (length X) = Some (new_rec v h).
Proof.
  intros Hs Hnil HX He Hnew Hnf.
  destruct (scene_write c s s X e Z (new_rec v h) Hs) as (s2 & Hw & Hs2); [by apply dead_of_class|by apply mine_of_class|done|done|].
  exists s2. split; [|split].
  - unfold store_new. rewrite (bind_ret_eq _ _ _ _ _ (scene_read _ _ _ _ _ _ Hs)). rewrite (proj2 (Z.ltb_lt _ _)) by lia. cbn [negb].
    by rewrite (bind_ret_eq _ _ _ _ _ Hw).
  - eapply scene_holds; [exact Hs2|by eapply chain_ok_first|]. rewrite !entries_app, entries_live, (entries_dead e) by done. cbn.
    by rewrite <- Permutation_middle.
  - eapply scene_record; [exact Hs2|]. by apply list_lookup_middle.
Qed.

(** Behind the last record of a chain. *)
Lemma store_behind c s s1 A f B e Z v h : scene c s (A ++ f :: B ++ e :: Z) s1 -> chain_ok c (A ++ f :: B ++ e :: Z) ->
  Forall (busy sz c) A -> mine c f = true -> Forall present B -> rec_hits e <= 0 -> chain c Z = [] -> mine c (new_rec v h) = true ->
  rec_fine (new_rec v h) ->
  exists s2, store_new v h (rot c (S (length A) + length B)) (Some (rot c (length A))) s1 = Ret tt s2 /\
    holds s s2 ((h, v) :: entries (A ++ f :: B ++ e :: Z)) /\ ht_recs (ht s2) !! rot c (S (length A) + length B) = Some (new_rec v h).
Proof.
  intros Hs Hok HA Hf HB He HZ Hnew Hnf. pose proof (busy_chain sz c A HA) as HcA. pose proof Hf as [Hpos _]%mine_true.
  set (f' := put_hits (rec_hits f + 1) f).
  assert (chain_ok c (A ++ f' :: B ++ new_rec v h :: Z)) as Hok2 by (by eapply (chain_ok_add sz)).
  assert (rec_hits f <= Z.of_nat (length (entries (A ++ f :: B ++ e :: Z)))) as Hcount.
  { eapply first_count; [exact Hok|]. by apply chain_first. }
  assert (mine c f' = true) as Hf' by (apply mine_put; [done|lia]).
  assert (rec_fine f') as Hff by (apply fine_hits; [by eapply scene_rec_fine|lia]).
  replace (S (length A) + length B)%nat with (length (A ++ f :: B)) by (rewrite length_app; cbn; lia).
  assert (rec_hits f <> INT_MAX) as Hmax.
  { pose proof (entries_length (A ++ f :: B ++ e :: Z)). pose proof (scene_length _ _ _ _ _ Hs). destruct Hsz as (k & Hk & Hszk).
    pose proof (Z.pow_le_mono_r 2 k 30 ltac:(lia) ltac:(lia)). unfold INT_MAX. lia. }
  rewrite app_comm_cons, app_assoc in Hs. unfold store_new. rewrite (bind_ret_eq _ _ _ _ _ (scene_read _ _ _ _ _ _ Hs)).
  rewrite (proj2 (Z.ltb_lt _ _)) by lia. cbn [negb].
  destruct (scene_write c s s1 (A ++ f :: B) e Z (new_rec v h) Hs) as (s2 & Hw & Hs2); [by apply dead_of_class|by apply mine_of_class|done|done|].
  rewrite (bind_ret_eq _ _ _ _ _ Hw). rewrite <- app_assoc, <- app_comm_cons in Hs2.
  cbv iota. rewrite (bind_ret_eq _ _ _ _ _ (scene_read _ _ _ _ _ _ Hs2)). rewrite (proj2 (Z.eqb_neq _ _) Hmax).
  destruct (scene_write c s s2 A f (B ++ new_rec v h :: Z) f' Hs2) as (s3 & Hw3 & Hs3);
    [by apply mine_of_class|by apply mine_of_class|unfold present; cbn; lia|done|].
  exists s3. split; [done|]. destruct (scene_close _ _ _ _ _ Hs3 Hok2) as [(recs & ? & ? & Hr) _]. split.
  - exists recs. split; [done|]. split; [done|]. rewrite Hr.
    rewrite !entries_app, !(entries_live f), !(entries_live f') by (cbn; lia).
    rewrite !entries_app, entries_live, (entries_dead e) by (cbn; lia). cbn. solve_Permutation.
  - eapply scene_record; [exact Hs3|]. rewrite app_comm_cons, app_assoc. apply list_lookup_middle. rewrite !length_app. done.
Qed.

Lemma insert_spec s v h : ht_size (ht s) = sz -> recs_ok sz (ht_recs (ht s)) -> has_room (ht_recs (ht s)) -> 0 <= h < 2 ^ 32 ->
  let E := entries (ht_recs (ht s)) in
  (exists j r s', insert_search v h s = Ret (inl j) s' /\ holds s s' E /\ ht_recs (ht s') !! j = Some r /\ in_use r /\
     hit (ht s) v h true r = true) \/
  (exists rec crec s1 s2, insert_search v h s = Ret (inr (rec, crec)) s1 /\ store_new v h rec crec s1 = Ret tt s2 /\
     holds s s2 ((h, v) :: E) /\ ht_recs (ht s2) !! rec = Some (new_rec v h) /\ ~ Exists (equal_entry (ht s) v h true) E).
Proof.
  intros Hsize Hok Hroom Hh E. unfold insert_search. set (c := shortened sz h).
  assert (mine c (new_rec v h) = true) as Hnew by (by apply mine_true).
  assert (rec_fine (new_rec v h)) as Hnf by (split; [cbn; lia|done]).
  pose proof (search_spec sz Hsz s v h true Hsize Hok Hroom) as Hsearch. cbv zeta in Hsearch. fold c E in Hsearch. destruct Hsearch as [[(X & e & Z & He & Hs & Hnil & HX & He0 & HE) Hno]|
    (A & f & B & s1 & He & Hmt & Hg & Hs1 & Hok1 & HE1 & HA & Hf & Hwalk)]; rewrite (bind_ret_eq _ _ _ _ _ He); cbn [fst snd].
  { right. destruct (store_first c s X e Z v h Hs Hnil HX He0 Hnew Hnf) as (s2 & Hst & Hho & Hlk).
    eexists _, None, s, s2. split; [done|]. split; [done|]. split; [|done]. eapply holds_permutation; [exact Hho|]. by rewrite HE. }
  change (0 =? 0) with true. cbv iota. rewrite (bind_ret_eq _ _ _ _ _ Hmt). destruct (hit (ht s) v h true f) eqn:Hhf.
  { left. eexists _, f, s1. split; [done|]. split; [by eapply scene_holds|]. split; [|split; [by eapply mine_in_use|done]].
    eapply scene_record; [exact Hs1|]. by apply list_lookup_middle. }
  rewrite (bind_ret_eq _ _ _ _ _ Hg).
  destruct (Hwalk false) as [[_ (M & y & B' & s2 & He2 & Hs2 & Hok2 & HE2 & Hy & Hhy)]|[(M & B' & s2 & He2 & Hs2 & Hok2 & HE2 & Hw2 & HB' & Hroom2) Hno]];
    rewrite (bind_ret_eq _ _ _ _ _ He2); cbn [fst snd].
  { left. eexists _, y, s2. split; [done|]. split; [by eapply scene_holds|]. split; [by eapply behind_record|]. split; [by eapply mine_in_use|done]. }
  right. destruct (find_collision_spec sz Hsz c s _ s2 A f M B' Hs2 Hsize Hw2 Hok2 Hroom2) as
    [(C & y & B3 & s3 & _ & _ & _ & _ & Hch)|(B1 & e & B2 & He3 & -> & _ & HpB1 & He0)]; [congruence|].
  rewrite (bind_ret_eq _ _ _ _ _ He3). cbn [fst snd]. change (1 =? 0) with false. cbv iota.
  rewrite app_assoc in Hs2, Hok2, HE2. rewrite chain_app in HB'. apply app_eq_nil in HB' as [_ [_ HB2]%chain_nil%Forall_cons]. apply chain_nil in HB2.
  destruct Hw2 as (_ & _ & _ & HM & _).
  destruct (store_behind c s s2 A f (M ++ B1) e B2 v h Hs2 Hok2 HA Hf) as (s3 & Hst & Hho & Hlk3); try done.
  { apply Forall_app. split; [|done]. eapply Forall_impl; [exact HM|]. unfold in_use, present. lia. }
  rewrite length_app, Nat.add_assoc in Hst, Hlk3. eexists _, _, s2, s3. split; [done|]. split; [exact Hst|].
  split; [eapply holds_permutation; [exact Hho|by rewrite HE2]|]. split; [exact Hlk3|by apply Hno].
Qed.

(** ** Taking a value out *)
Lemma chain_two c A f B x Z : chain_ok c (A ++ f :: B ++ x :: Z) -> Forall (busy sz c) A -> mine c f = true -> mine c x = true ->
  1 < rec_hits f.
Proof.
  intros [Hh _] HA Hf Hx. rewrite chain_first, chain_app, chain_cons_mine in Hh by done. destruct Hh as [-> _].
  rewrite length_app. cbn [length]. lia.
Qed.

(** The contents [E] without the value of [x]. *)
Definition taken s s' (x : ht_rec V) (E : list (Z * V)) : Prop :=
  exists E', holds s s' E' /\ E ≡ₚ (rec_hash x, rec_val x) :: E'.

Lemma dead_of c r : of_class sz c (put_hits (-1) r).
Proof. apply dead_of_class. cbn. lia. Qed.

Lemma scene_taken c s s' L' x E : scene c s L' s' -> chain_ok c L' -> E ≡ₚ (rec_hash x, rec_val x) :: entries L' -> taken s s' x E.
Proof. intros Hs Hok HE. destruct (scene_close _ _ _ _ _ Hs Hok) as [Hh _]. by exists (entries L'). Qed.

Lemma take_behind c s s1 A f B x Z : scene c s (A ++ f :: B ++ x :: Z) s1 -> chain_ok c (A ++ f :: B ++ x :: Z) ->
  Forall (busy sz c) A -> mine c f = true -> mine c x = true ->
  exists s2 s3, set_rec (rot c (length A)) (put_hits (rec_hits f - 1) f) s1 = Ret tt s2 /\
    lyht_get_rec (rot c (length (A ++ f :: B))) s2 = Ret x s2 /\
    set_rec (rot c (length (A ++ f :: B))) (put_hits (-1) x) s2 = Ret tt s3 /\ taken s s3 x (entries (A ++ f :: B ++ x :: Z)).
Proof.
  intros Hs Hok HA Hf Hx. pose proof (busy_chain sz c A HA) as HcA. pose proof Hf as [Hpos _]%mine_true. pose proof Hx as [Hxpos _]%mine_true.
  pose proof (chain_two c A f B x Z Hok HA Hf Hx) as Htwo. set (f' := put_hits (rec_hits f - 1) f).
  assert (mine c f' = true) as Hf' by (apply mine_put; [done|lia]).
  assert (rec_fine f') as Hff by (apply fine_hits; [by eapply scene_rec_fine|lia]).
  destruct (scene_write c s s1 A f (B ++ x :: Z) f' Hs) as (s2 & Hw & Hs2);
    [by apply mine_of_class|by apply mine_of_class|unfold present; cbn; lia|done|].
  rewrite app_comm_cons, app_assoc in Hs2.
  assert (rec_fine (put_hits (-1) x)) as Hxf by (apply fine_hits; [by eapply scene_rec_fine|lia]).
  destruct (scene_write c s s2 (A ++ f' :: B) x Z (put_hits (-1) x) Hs2) as (s3 & Hw3 & Hs3);
    [by apply mine_of_class|apply dead_of|done|done|].
  exists s2, s3. replace (length (A ++ f :: B)) with (length (A ++ f' :: B)) by (by rewrite !length_app).
  split; [done|]. split; [by eapply scene_read|]. split; [done|].
  rewrite <- app_assoc, <- app_comm_cons in Hs3. eapply scene_taken; [exact Hs3|by eapply (chain_ok_drop sz)|].
  rewrite !entries_app, !(entries_live f), !(entries_live f') by (cbn; lia).
  rewrite !entries_app, (entries_live x), (entries_dead (put_hits (-1) x)) by (cbn; lia). cbn. solve_Permutation.
Qed.

Lemma take_first c s s1 A f B x Z : scene c s (A ++ f :: B ++ x :: Z) s1 -> chain_ok c (A ++ f :: B ++ x :: Z) ->
  Forall (busy sz c) A -> mine c f = true -> mine c x = true ->
  let x' := put_hits (rec_hits f - 1) x in
  exists s2 s3 s4, lyht_get_rec (rot c (length (A ++ f :: B))) s1 = Ret x s1 /\ set_rec (rot c (length (A ++ f :: B))) x' s1 = Ret tt s2 /\
    lyht_get_rec (rot c (length (A ++ f :: B))) s2 = Ret x' s2 /\ set_rec (rot c (length A)) x' s2 = Ret tt s3 /\
    lyht_get_rec (rot c (length (A ++ f :: B))) s3 = Ret x' s3 /\
    set_rec (rot c (length (A ++ f :: B))) (put_hits (-1) x') s3 = Ret tt s4 /\ taken s s4 f (entries (A ++ f :: B ++ x :: Z)).
Proof.
  intros Hs Hok HA Hf Hx x'. pose proof (busy_chain sz c A HA) as HcA. pose proof Hf as [Hpos _]%mine_true. pose proof Hx as [Hxpos _]%mine_true.
  pose proof (chain_two c A f B x Z Hok HA Hf Hx) as Htwo.
  assert (mine c x' = true) as Hx' by (apply mine_put; [done|lia]).
  assert (present x') as Hpx' by (unfold present; cbn; lia).
  assert (rec_fine x) as Hxf by (eapply scene_fine; [exact Hs|set_solver]).
  pose proof (fine_hits x (rec_hits f - 1) Hxf ltac:(lia)) as Hxf'. pose proof (fine_hits x' (-1) Hxf' ltac:(lia)) as Hxd.
  rewrite app_comm_cons, app_assoc in Hs. pose proof (scene_read _ _ _ _ _ _ Hs) as Hg1.
  destruct (scene_write c s s1 _ x Z x' Hs) as (s2 & Hw2 & Hs2); [by apply mine_of_class|by apply mine_of_class|done|done|].
  pose proof (scene_read _ _ _ _ _ _ Hs2) as Hg2. rewrite <- app_assoc, <- app_comm_cons in Hs2.
  destruct (scene_write c s s2 A f _ x' Hs2) as (s3 & Hw3 & Hs3); [by apply mine_of_class|by apply mine_of_class|done|done|].
  rewrite app_comm_cons, app_assoc in Hs3. pose proof (scene_read _ _ _ _ _ _ Hs3) as Hg3.
  destruct (scene_write c s s3 _ x' Z (put_hits (-1) x') Hs3) as (s4 & Hw4 & Hs4); [by apply mine_of_class|apply dead_of|done|done|].
  replace (length (A ++ x' :: B)) with (length (A ++ f :: B)) in Hw4, Hg3 by (by rewrite !length_app).
  exists s2, s3, s4. do 6 (split; [done|]).
  rewrite <- app_assoc, <- app_comm_cons in Hs4. eapply scene_taken; [exact Hs4|by eapply (chain_ok_drop sz c A f B x Z x')|].
  rewrite !entries_app, !(entries_live f), !(entries_live x') by (cbn; lia).
  rewrite !entries_app, (entries_live x), (entries_dead (put_hits (-1) x')) by (cbn; lia). cbn. solve_Permutation.
Qed.

Lemma take_only c s s1 A f Z : scene c s (A ++ f :: Z) s1 -> chain_ok c (A ++ f :: Z) ->
  Forall (busy sz c) A -> mine c f = true -> chain c Z = [] ->
  exists s2, lyht_get_rec (rot c (length A)) s1 = Ret f s1 /\ set_rec (rot c (length A)) (put_hits (-1) f) s1 = Ret tt s2 /\
    taken s s2 f (entries (A ++ f :: Z)).
Proof.
  intros Hs Hok HA Hf HZ. pose proof (busy_chain sz c A HA) as HcA. pose proof Hf as [Hpos _]%mine_true.
  destruct (scene_write c s s1 A f Z (put_hits (-1) f) Hs) as (s2 & Hw & Hs2);
    [by apply mine_of_class|apply dead_of|done|apply fine_hits; [by eapply scene_rec_fine|lia]|].
  exists s2. split; [by eapply scene_read|]. split; [done|]. eapply scene_taken; [exact Hs2|by eapply (chain_ok_last sz)|].
  rewrite !entries_app, (entries_live f), (entries_dead (put_hits (-1) f)) by (cbn; lia). solve_Permutation.
Qed.

Lemma taken_perm s s' x E E' : taken s s' x E -> E ≡ₚ E' -> taken s s' x E'.
Proof. intros (E1 & Hh & HE) HE'. exists E1. by rewrite <- HE'. Qed.

Lemma remove_rec_spec s v h : ht_size (ht s) = sz -> recs_ok sz (ht_recs (ht s)) -> has_room (ht_recs (ht s)) ->
  let E := entries (ht_recs (ht s)) in
  (exists x s', remove_rec v h s = Ret true s' /\ taken s s' x E /\ hit (ht s) v h true x = true) \/
  (exists s', remove_rec v h s = Ret false s' /\ holds s s' E /\ ~ Exists (equal_entry (ht s) v h true) E).
Proof.
  intros Hsize Hok Hroom E. unfold remove_rec. set (c := shortened sz h).
  pose proof (search_spec sz Hsz s v h true Hsize Hok Hroom) as Hsearch. cbv zeta in Hsearch. fold c E in Hsearch. destruct Hsearch as [[(X & e & Z & He & _) Hno]|
    (A & f & B & s1 & He & Hmt & Hg & Hs1 & Hok1 & HE1 & HA & Hf & Hwalk)]; rewrite (bind_ret_eq _ _ _ _ _ He); cbn [fst snd].
  { right. exists s. split; [done|]. split; [by apply recs_ok_holds|done]. }
  change (negb (0 =? 0)) with false. cbv iota. rewrite (bind_ret_eq _ _ _ _ _ Hmt), (bind_ret_eq _ _ _ _ _ Hg).
  destruct (Hwalk (hit (ht s) v h true f)) as
    [[_ (M & y & B' & s2 & He2 & Hs2 & Hok2 & HE2 & Hy & Hhy)]|[(M & B' & s2 & He2 & Hs2 & Hok2 & HE2 & Hw2 & HB' & _) Hno]];
    rewrite (bind_ret_eq _ _ _ _ _ He2); cbn [fst snd].
  { left. exists y. rewrite (bind_ret_eq _ _ _ _ _ (scene_read _ _ _ _ _ _ Hs2)).
    destruct (take_behind c s s2 A f M y B' Hs2 Hok2 HA Hf Hy) as (s3 & s4 & Hw3 & Hg3 & Hw4 & Ht).
    rewrite (bind_ret_eq _ _ _ _ _ Hw3). replace (length A + length (M ++ [y]))%nat with (length (A ++ f :: M)) by (rewrite !length_app; cbn; lia).
    rewrite (bind_ret_eq _ _ _ _ _ Hg3), (bind_ret_eq _ _ _ _ _ Hw4). exists s4. split; [done|]. split; [|done]. by eapply taken_perm. }
  destruct (hit (ht s) v h true f) eqn:Hhf.
  2: { right. exists s2. split; [done|]. split; [by eapply scene_holds|by apply Hno]. }
  left. exists f. destruct M as [|x M' _] using rev_ind.
  - cbn [length]. rewrite Nat.add_0_r, Nat.eqb_refl. cbn [negb app] in *.
    destruct (take_only c s s2 A f B' Hs2 Hok2 HA Hf HB') as (s3 & Hg3 & Hw3 & Ht).
    rewrite (bind_ret_eq _ _ _ tt s2 eq_refl), (bind_ret_eq _ _ _ _ _ Hg3), (bind_ret_eq _ _ _ _ _ Hw3).
    exists s3. split; [done|]. split; [|done]. by eapply taken_perm.
  - pose proof (scene_length _ _ _ _ _ Hs2) as Hlen. rewrite length_app in Hlen. cbn [length] in Hlen. rewrite !length_app in Hlen. cbn [length] in Hlen.
    destruct (walked_snoc _ _ _ _ _ _ _ _ Hw2) as [_ Hx]. rewrite <- app_assoc in Hs2, Hok2, HE2. cbn [app] in Hs2, Hok2, HE2.
    replace (length A + length (M' ++ [x]))%nat with (length (A ++ f :: M')) by (rewrite !length_app; cbn; lia).
    assert (rot c (length A) <> rot c (length (A ++ f :: M'))) as Hne.
    { intros Heq%rot_inj; [rewrite length_app in Heq; cbn in Heq; lia|lia|rewrite length_app; cbn; lia]. }
    rewrite (proj2 (Nat.eqb_neq _ _) Hne). cbn [negb].
    destruct (take_first c s s2 A f M' x B' Hs2 Hok2 HA Hf Hx) as (s3 & s4 & s5 & Hg1 & Hw3 & Hg2 & Hw4 & Hg3 & Hw5 & Ht).
    exists s5. split; [|split; [by eapply taken_perm|done]].
    erewrite bind_ret_eq; [by rewrite (bind_ret_eq _ _ _ _ _ Hg3), (bind_ret_eq _ _ _ _ _ Hw5)|].
    rewrite (bind_ret_eq _ _ _ _ _ (scene_read _ _ _ _ _ _ Hs2)), (bind_ret_eq _ _ _ _ _ Hg1), (bind_ret_eq _ _ _ _ _ Hw3).
    by rewrite (bind_ret_eq _ _ _ _ _ Hg2).
Qed.
End Update.
