(* ===== verification/HashResize.v ===== *)
(** * Counting and resizing in the hash table

    The whole of lyht_insert_with_resize_cb and lyht_remove_with_resize_cb: the
    counter, the percentage in 32 bits, the resize that inserts every record again
    into a new array, and the temporary callback it runs with. *)

From S2P Require Import Prelude HashTable HashChain HashProbe HashFind HashOps HashUpdate.

(** ** Contents without equal values *)
Section Distinct.
Context {V D : Type} (cb : values_equal_cb V D) (d : D).
Implicit Types (e : Z * V) (E : list (Z * V)).

(** Neither value is equal to the other for an insertion, or their hashes differ. *)
Definition apart e1 e2 : Prop :=
  e1.1 = e2.1 -> cb e1.2 e2.2 true d = false /\ cb e2.2 e1.2 true d = false.

Fixpoint distinct E : Prop :=
  match E with
  | [] => True
  | e :: E => Forall (apart e) E /\ distinct E
  end.

Lemma apart_sym e1 e2 : apart e1 e2 -> apart e2 e1.
Proof. unfold apart. intros H He. destruct (H (eq_sym He)). by split. Qed.

#[global] Instance distinct_Permutation : Proper ((≡ₚ) ==> iff) distinct.
Proof.
  assert (forall E1 E2, E1 ≡ₚ E2 -> distinct E1 -> distinct E2) as Hi; [|by intros ? ? ?; split; apply Hi].
  induction 1 as [|e E1 E2 HE IH|e1 e2 E|E1 E2 E3 _ IH1 _ IH2]; cbn [distinct]; [done| | |auto].
  - intros [H1 H2]. split; [by rewrite <- HE|auto].
  - intros [[Ha H1]%Forall_cons [H2 H3]]. split; [|done]. constructor; [by apply apart_sym|done].
Qed.

Lemma distinct_app_r E1 E2 : distinct (E1 ++ E2) -> distinct E2.
Proof. induction E1 as [|e E1 IH]; [done|]. cbn. intros [_ ?]. auto. Qed.
End Distinct.

Section Resize.
Context {V D : Type} (zero : V) (oom : nat -> bool).
Implicit Types (s : htmem V D) (t : hash_table V D) (E : list (Z * V)).

(** The table is in order, with the contents [E]. *)
Definition table_is t E : Prop :=
  size_ok (ht_size t) /\ recs_ok (ht_size t) (ht_recs t) /\ entries (ht_recs t) ≡ₚ E /\ ht_used t = Z.of_nat (length E).

#[global] Instance table_is_Permutation t : Proper ((≡ₚ) ==> iff) (table_is t).
Proof. intros E E' HE. unfold table_is. by rewrite HE. Qed.

(** The table but for its contents. *)
Definition same_config t t' : Prop := ht_equal t' = ht_equal t /\ ht_data t' = ht_data t.

Lemma holds_table s s' E E' : table_is (ht s) E -> holds (ht_size (ht s)) s s' E' -> length E' = length E -> table_is (ht s') E'.
Proof. intros (H1 & _ & _ & H4) (recs & -> & Hok & HE) Hl. split; [done|]. split; [done|]. split; [done|]. cbn. by rewrite Hl. Qed.

Lemma table_room t E : table_is t E -> (Z.of_nat (length E) < ht_size t) -> has_room (ht_recs t).
Proof. intros (_ & (Hl & _) & HE & _) Hlt. unfold has_room. rewrite HE, Hl. lia. Qed.

Lemma filled_small t E : table_is t E -> Z.of_nat (length E) < 2 ^ 25 -> filled_percent t = Z.of_nat (length E) * 100 / ht_size t.
Proof. intros (_ & _ & _ & Hu) Hb. unfold filled_percent. rewrite Hu. unfold wrap_u32. rewrite Z.mod_small by lia. done. Qed.

Lemma percent_lt n p sz : 0 < sz -> (n * 100 / sz <? p) = (n * 100 <? p * sz).
Proof.
  intros Hs. destruct (Z.ltb_spec (n * 100) (p * sz)) as [H|H].
  - apply Z.ltb_lt. apply Z.div_lt_upper_bound; lia.
  - apply Z.ltb_ge. apply Z.div_le_lower_bound; lia.
Qed.

(** ** Before the resize *)

(** [s'] is [s] with the contents [E]. *)
Definition kept s s' E : Prop :=
  table_is (ht s') E /\ same_config (ht s) (ht s') /\ ht_size (ht s') = ht_size (ht s) /\
  ht_resize (ht s') = ht_resize (ht s) /\ ht_allocs s' = ht_allocs s.

Lemma holds_kept s s' E : table_is (ht s) E -> holds (ht_size (ht s)) s s' E -> kept s s' E.
Proof.
  intros (H1 & H2 & H3 & H4) (recs & -> & Hok & HE). by split_and!.
Qed.

(** The counter is the number of values. *)
Lemma holds_count s s' E E' u : table_is (ht s) E -> holds (ht_size (ht s)) s s' E' ->
  wrap_u32 u = Z.of_nat (length E') -> kept s (HtMem (with_used (wrap_u32 u) (ht s')) (ht_allocs s')) E'.
Proof.
  intros (H1 & _) (recs & -> & Hok & HE) Hu. cbn. by split_and!.
Qed.

Lemma holds_used sz s s' E : holds sz s s' E -> ht_used (ht s') = ht_used (ht s).
Proof. by intros (recs & -> & _). Qed.

(** A match, or the value stored and counted and the table left to grow. *)
Lemma insert_depth_spec k s v h rcb mp E : table_is (ht s) E -> Z.of_nat (length E) < ht_size (ht s) -> 0 <= h < 2 ^ 32 ->
  (exists j r s', insert_depth zero oom (S k) v h rcb mp s = Ret (1, Some j) s' /\ kept s s' E /\ ht_recs (ht s') !! j = Some r /\
     in_use r /\ hit (ht s) v h true r = true) \/
  (exists rec s', insert_depth zero oom (S k) v h rcb mp s =
     grow_table zero oom (fun v h => r ← insert_depth zero oom k v h None false; mret r.1) v h rcb mp rec s' /\
     kept s s' ((h, v) :: E) /\ ht_recs (ht s') !! rec = Some (new_rec v h) /\ ~ Exists (equal_entry (ht s) v h true) E).
Proof.
  intros Ht Hlt Hh. pose proof (table_room _ _ Ht Hlt) as Hroom. pose proof Ht as (Hsz & Hok & HE & Hused).
  destruct (insert_spec _ Hsz s v h eq_refl Hok Hroom Hh) as
    [(j & r & s' & He & Hho & Hrest)|(rec & crec & s1 & s2 & He1 & He2 & Hho & Hlk & Hno)]; cbn [insert_depth].
  - left. exists j, r, s'. rewrite (bind_ret_eq _ _ _ _ _ He). split; [done|]. split; [|done].
    apply holds_kept; [done|]. by eapply holds_permutation.
  - right. rewrite (bind_ret_eq _ _ _ _ _ He1), (bind_ret_eq _ _ _ _ _ He2). eexists rec, _. split; [reflexivity|]. cbn beta.
    rewrite (holds_used _ _ _ _ Hho). split; [|by rewrite <- HE].
    eapply holds_count; [exact Ht|eapply holds_permutation; [exact Hho|by rewrite HE]|].
    destruct Hsz as (m & Hm & Hszm). pose proof (Z.pow_le_mono_r 2 m 30 ltac:(lia) ltac:(lia)).
    unfold wrap_u32. rewrite Hused, Z.mod_small; cbn [length]; lia.
Qed.

(** ** Growing *)
Definition next_resize t : Z :=
  if (ht_resize t =? 1) && (50 * ht_size t <=? ht_used t * 100) then 2 else ht_resize t.

Definition counted s : htmem V D := HtMem (with_resize (next_resize (ht s)) (ht s)) (ht_allocs s).

(** The table stays as large as it is. *)
Definition stays t : Prop := next_resize t <> 2 \/ ht_used t * 100 < 75 * ht_size t.

Lemma percent_le n p sz : 0 < sz -> (p <=? n * 100 / sz) = (p * sz <=? n * 100).
Proof. intros Hs. rewrite !Z.leb_antisym. f_equal. by apply percent_lt. Qed.

Lemma filled_le t E p : table_is t E -> Z.of_nat (length E) < 2 ^ 25 -> (p <=? filled_percent t) = (p * ht_size t <=? ht_used t * 100).
Proof.
  intros Ht Hb. rewrite (filled_small _ _ Ht Hb). destruct Ht as (Hsz & _ & _ & ->). apply percent_le.
  pose proof (size_ok_pos _ Hsz). lia.
Qed.

(** The growth, in the terms of the counter. *)
Lemma grow_table_eq insert v h rcb mp rec s E : table_is (ht s) E -> Z.of_nat (length E) < 2 ^ 25 ->
  grow_table zero oom insert v h rcb mp rec s =
  if (next_resize (ht s) =? 2) && (75 * ht_size (ht s) <=? ht_used (ht s) * 100)
  then resize_with zero oom insert rcb true (fun ret => if (ret =? 0) && mp then m ← lyht_find v h; mret m.2 else mret (Some rec)) (counted s)
  else Ret (0, Some rec) (counted s).
Proof.
  intros Ht Hb. unfold grow_table, counted, next_resize. rewrite (bind_ret_eq _ _ _ _ _ (get_table_eq s)).
  rewrite (filled_le _ _ _ Ht Hb), (filled_le _ _ _ Ht Hb). unfold LYHT_FIRST_SHRINK_PERCENTAGE, LYHT_ENLARGE_PERCENTAGE.
  destruct (Z.eqb_spec (ht_resize (ht s)) 0) as [H0|H0].
  { rewrite H0. cbn. destruct s as [[] ?]. cbn in *. by subst. }
  destruct ((ht_resize (ht s) =? 1) && (50 * ht_size (ht s) <=? ht_used (ht s) * 100)).
  - rewrite (bind_ret_eq (set_table (with_resize 2)) _ s tt _ eq_refl), (bind_ret_eq _ _ _ _ _ (get_table_eq _)). cbn [ht ht_resize with_resize].
    by destruct ((2 =? 2) && (75 * ht_size (ht s) <=? ht_used (ht s) * 100)).
  - rewrite (bind_ret_eq _ _ _ tt s eq_refl), (bind_ret_eq _ _ _ _ _ (get_table_eq _)).
    replace (HtMem (with_resize (ht_resize (ht s)) (ht s)) (ht_allocs s)) with s by (by destruct s as [[] ?]).
    by destruct ((ht_resize (ht s) =? 2) && (75 * ht_size (ht s) <=? ht_used (ht s) * 100)).
Qed.

Lemma grow_stays insert v h rcb mp rec s E : table_is (ht s) E -> Z.of_nat (length E) < 2 ^ 25 -> stays (ht s) ->
  grow_table zero oom insert v h rcb mp rec s = Ret (0, Some rec) (counted s).
Proof.
  intros Ht Hb Hst. rewrite (grow_table_eq _ _ _ _ _ _ _ _ Ht Hb). destruct Hst as [Hr|Hr].
  - by rewrite (proj2 (Z.eqb_neq _ _) Hr).
  - rewrite (proj2 (Z.leb_gt _ _) Hr). by rewrite andb_false_r.
Qed.

(** ** The new array *)
Lemma recs_ok_empty sz : size_ok sz -> recs_ok sz (replicate (Z.to_nat sz) (empty_rec zero)).
Proof.
  intros Hsz. split; [by rewrite length_replicate|]. split.
  - apply Forall_replicate. split; cbn; lia.
  - intros d _. assert (forall L, Forall (fun r => r = empty_rec zero) L -> chain_ok sz d L) as H.
    { intros L HL. assert (chain sz d L = []) as Hc by (apply chain_nil; eapply Forall_impl; [exact HL|]; by intros r ->).
      split; [by rewrite Hc|]. by exists [], L. }
    apply H, Forall_forall. intros r Hr%elem_of_rotate. by apply elem_of_replicate in Hr as [-> _].
Qed.

Lemma entries_empty n : entries (replicate n (empty_rec zero)) = [].
Proof. induction n as [|n IH]; [done|]. cbn [replicate]. by rewrite entries_dead. Qed.

Lemma table_is_empty sz eq d r : size_ok sz -> table_is (HashTable 0 sz eq d r (replicate (Z.to_nat sz) (empty_rec zero))) [].
Proof.
  intros Hsz. split; [done|]. split; [by apply recs_ok_empty|]. split; [|done]. cbn [ht_recs]. by rewrite entries_empty.
Qed.

(** ** Inserting the records again *)
Lemma distinct_head t v h E : distinct (ht_equal t) (ht_data t) ((h, v) :: E) -> ~ Exists (equal_entry t v h true) E.
Proof.
  intros [Ha _] (e & He & [Heq Hcb])%Exists_exists. rewrite Forall_forall in Ha.
  destruct (Ha e He) as [H _]; [done|]. cbn in H. congruence.
Qed.

(** A record in use holds a value of the table. *)
Lemma record_entry t E j r : table_is t E -> ht_recs t !! j = Some r -> in_use r -> (rec_hash r, rec_val r) ∈ E.
Proof.
  intros (_ & _ & HE & _) Hj Hr. rewrite <- HE. apply list_elem_of_omap. exists r. split; [by eapply list_elem_of_lookup_2|].
  by apply entry_live.
Qed.

Lemma record_hit t E j r t' v h m : table_is t E -> ht_recs t !! j = Some r -> in_use r -> hit t' v h m r = true ->
  Exists (equal_entry t' v h m) E.
Proof.
  intros Ht Hj Hr Hh. apply Exists_exists. eexists. split; [by eapply record_entry|by apply hit_entry].
Qed.

Lemma counted_kept s s1 E : kept s s1 E -> ht_resize (ht s1) = 2 -> kept s (counted s1) E.
Proof.
  intros (H1 & H2 & H3 & H4 & H5) Hr. unfold counted, next_resize. rewrite Hr. cbn. split; [exact H1|]. split; [exact H2|]. split; [exact H3|]. split; [cbn; congruence|exact H5].
Qed.

Lemma kept_trans s1 s2 s3 E E' : kept s1 s2 E -> kept s2 s3 E' -> kept s1 s3 E'.
Proof.
  intros (_ & [H1 H2] & H3 & H4 & H5) (H6 & [H7 H8] & H9 & H10 & H11). split; [done|]. unfold same_config. split_and!; congruence.
Qed.

Lemma kept_perm s s' E E' : kept s s' E -> E ≡ₚ E' -> kept s s' E'.
Proof. intros (H1 & Hrest) HE. split; [by rewrite <- HE|done]. Qed.

(** The insertion of a record does not resize again. *)
Lemma reinsert_one k s E v h : table_is (ht s) E -> ht_resize (ht s) = 2 -> 0 <= h < 2 ^ 32 ->
  distinct (ht_equal (ht s)) (ht_data (ht s)) ((h, v) :: E) ->
  Z.of_nat (S (length E)) < 2 ^ 25 -> Z.of_nat (S (length E)) * 100 < 75 * ht_size (ht s) ->
  exists s', (r ← insert_depth zero oom (S k) v h None false; mret r.1) s = Ret 0 s' /\ kept s s' ((h, v) :: E).
Proof.
  intros Ht Hres Hh Hd Hb Hfill.
  destruct (insert_depth_spec k s v h None false E Ht) as
    [(j & x & s1 & _ & (Ht1 & _) & Hlk & Hx & Hhit)|(rec & s1 & He & Hk & _)]; [lia|done| |].
  { apply (record_hit _ _ _ _ _ _ _ _ Ht1 Hlk Hx) in Hhit. by destruct (distinct_head _ _ _ _ Hd). }
  assert (stays (ht s1)) as Hst.
  { right. destruct Hk as ((_ & _ & _ & ->) & _ & -> & _). cbn [length]. lia. }
  pose proof Hk as (Ht1 & _ & _ & Hq & _). exists (counted s1). split.
  - assert (insert_depth zero oom (S k) v h None false s = Ret (0, Some rec) (counted s1)) as Hi by (rewrite He; by eapply grow_stays).
    by rewrite (bind_ret_eq _ _ _ _ _ Hi).
  - apply counted_kept; [done|congruence].
Qed.

Lemma reinsert_spec k : forall L s E, table_is (ht s) E -> ht_resize (ht s) = 2 -> Forall rec_fine L ->
  distinct (ht_equal (ht s)) (ht_data (ht s)) (entries L ++ E) ->
  Z.of_nat (length (entries L ++ E)) < 2 ^ 25 -> Z.of_nat (length (entries L ++ E)) * 100 < 75 * ht_size (ht s) ->
  exists s', reinsert (fun v h => r ← insert_depth zero oom (S k) v h None false; mret r.1) L s = Ret tt s' /\
    kept s s' (entries L ++ E).
Proof.
  induction L as [|r L IH]; intros s E Ht Hres Hfine Hd Hb Hfill; cbn [reinsert].
  { exists s. by split_and!. }
  apply Forall_cons in Hfine as [Hfr HfL].
  destruct (Z.ltb_spec 0 (rec_hits r)) as [Hpos|Hneg].
  2: { rewrite (bind_ret_eq _ _ _ tt s eq_refl). rewrite entries_dead in * by lia. by apply IH. }
  rewrite entries_live in * by done. set (e := (rec_hash r, rec_val r)) in *. cbn [app] in Hd, Hb, Hfill.
  assert (e :: entries L ++ E ≡ₚ entries L ++ e :: E) as Hmid by apply Permutation_middle. rewrite Hmid in Hd, Hb, Hfill.
  pose proof Hb as Hb'. pose proof Hfill as Hfill'. rewrite length_app in Hb', Hfill'. cbn [length] in Hb', Hfill'.
  destruct (reinsert_one k s E (rec_val r) (rec_hash r) Ht Hres) as (s1 & He & Hk);
    [apply Hfr|by apply (distinct_app_r _ _ (entries L))|lia|lia|].
  erewrite bind_ret_eq by (rewrite (bind_ret_eq _ _ _ _ _ He); reflexivity).
  pose proof Hk as (Ht2 & [Hc1 Hc2] & Hc3 & Hc4 & _).
  destruct (IH s1 (e :: E)) as (s' & He' & Hk'); rewrite ?Hc1, ?Hc2, ?Hc3, ?Hc4; try done.
  exists s'. split; [done|]. eapply kept_perm; [by eapply kept_trans|]. by rewrite <- Hmid.
Qed.

(** ** lyht_resize *)
Definition new_size (enlarge : bool) t : Z := if enlarge then 2 * ht_size t else ht_size t / 2.

(** [s'] is [s] with another array. *)
Definition resized s s' (sz : Z) E : Prop :=
  table_is (ht s') E /\ same_config (ht s) (ht s') /\ ht_size (ht s') = sz /\ ht_resize (ht s') = 2.

Lemma size_ok_resize (enlarge : bool) t : size_ok (ht_size t) -> (if enlarge then ht_size t <= 2 ^ 29 else 8 < ht_size t) ->
  (if enlarge then wrap_u32 (Z.shiftl (ht_size t) 1) else Z.shiftr (ht_size t) 1) = new_size enlarge t /\ size_ok (new_size enlarge t).
Proof.
  intros (k & Hk & Hsz) Hb. unfold new_size. rewrite Hsz in *. destruct enlarge.
  - apply Z.pow_le_mono_r_iff in Hb; [|lia..]. rewrite Z.shiftl_mul_pow2 by lia. rewrite <- (Z.pow_succ_r 2 k), <- Z.pow_add_r by lia.
    pose proof (Z.pow_le_mono_r 2 (k + 1) 30 ltac:(lia) ltac:(lia)). unfold wrap_u32. rewrite Z.mod_small by (split; [apply Z.pow_nonneg|]; lia).
    split; [done|]. exists (Z.succ k). split; [lia|done].
  - change 8 with (2 ^ 3) in Hb. apply Z.pow_lt_mono_r_iff in Hb; [|lia..]. rewrite Z.shiftr_div_pow2 by lia.
    split; [done|]. exists (k - 1). split; [lia|]. rewrite Z.pow_sub_r by lia. done.
Qed.

Lemma lyht_resize_spec k (enlarge : bool) s E : table_is (ht s) E -> ht_resize (ht s) = 2 ->
  distinct (ht_equal (ht s)) (ht_data (ht s)) E -> Z.of_nat (length E) < 2 ^ 25 ->
  (if enlarge then ht_size (ht s) <= 2 ^ 29 else 8 < ht_size (ht s)) -> Z.of_nat (length E) * 100 < 75 * new_size enlarge (ht s) ->
  let res := lyht_resize zero oom (fun v h => r ← insert_depth zero oom (S k) v h None false; mret r.1) enlarge s in
  if oom (ht_allocs s) then res = Ret (-1) (HtMem (ht s) (S (ht_allocs s)))
  else exists s', res = Ret 0 s' /\ resized s s' (new_size enlarge (ht s)) E.
Proof.
  intros Ht Hres Hd Hb Hsize Hfill res. unfold res, lyht_resize. rewrite (bind_ret_eq _ _ _ _ _ (get_table_eq s)). pose proof Ht as (Hsz & (_ & Hfine & _) & HE & _).
  destruct (size_ok_resize enlarge (ht s) Hsz Hsize) as [-> Hsz'].
  rewrite (bind_ret_eq (calloc_recs oom) _ s _ _ eq_refl). destruct (oom (ht_allocs s)) eqn:Hoom; [done|]. cbn [negb].
  erewrite bind_ret_eq by reflexivity.
  set (s1 := HtMem _ _). pose proof (table_is_empty (new_size enlarge (ht s)) (ht_equal (ht s)) (ht_data (ht s)) (ht_resize (ht s)) Hsz') as Ht1.
  destruct (reinsert_spec k (ht_recs (ht s)) s1 [] Ht1 Hres Hfine) as (s' & He & Hk).
  - by rewrite app_nil_r, HE.
  - by rewrite app_nil_r, HE.
  - by rewrite app_nil_r, HE.
  - rewrite (bind_ret_eq _ _ _ _ _ He). exists s'. split; [done|]. destruct Hk as (Hk1 & Hk2 & Hk3 & Hk4 & _).
    split; [by rewrite app_nil_r, HE in Hk1|]. split; [done|]. split; [done|]. by rewrite Hk4.
Qed.

(** ** With a temporary callback *)
Definition resize_cb t (rcb : option (values_equal_cb V D)) : values_equal_cb V D := default (ht_equal t) rcb.

Definition with_equal (cb : values_equal_cb V D) s : htmem V D :=
  HtMem (HashTable (ht_used (ht s)) (ht_size (ht s)) cb (ht_data (ht s)) (ht_resize (ht s)) (ht_recs (ht s))) (ht_allocs s).

Lemma resize_with_eq {A} insert rcb enlarge (after : Z -> M (htmem V D) A) s ret s1 a s2 :
  lyht_resize zero oom insert enlarge (with_equal (resize_cb (ht s) rcb) s) = Ret ret s1 -> after ret s1 = Ret a s2 ->
  ht_equal (ht s2) = resize_cb (ht s) rcb ->
  resize_with zero oom insert rcb enlarge after s = Ret (ret, a) (with_equal (ht_equal (ht s)) s2).
Proof.
  intros H1 H2 Heq. unfold resize_with, resize_cb, with_equal in *. destruct rcb as [cb|]; cbn [default from_option] in *.
  - erewrite bind_ret_eq by reflexivity. erewrite bind_ret_eq by exact H1. erewrite bind_ret_eq by exact H2. by erewrite bind_ret_eq by reflexivity.
  - replace s with (HtMem (HashTable (ht_used (ht s)) (ht_size (ht s)) (ht_equal (ht s)) (ht_data (ht s)) (ht_resize (ht s)) (ht_recs (ht s))) (ht_allocs s))
      at 1 by (by destruct s as [[] ?]).
    erewrite bind_ret_eq by exact H1. erewrite bind_ret_eq by exact H2. destruct s2 as [[] ?]. cbn in *. by subst.
Qed.

Lemma resize_with_spec {A} k rcb (enlarge : bool) (after : Z -> M (htmem V D) A) (Q : Z -> A -> list (ht_rec V) -> Prop) s E :
  let cb := resize_cb (ht s) rcb in
  table_is (ht s) E -> ht_resize (ht s) = 2 -> distinct cb (ht_data (ht s)) E -> Z.of_nat (length E) < 2 ^ 25 ->
  (if enlarge then ht_size (ht s) <= 2 ^ 29 else 8 < ht_size (ht s)) -> Z.of_nat (length E) * 100 < 75 * new_size enlarge (ht s) ->
  (forall ret s1, table_is (ht s1) E -> ht_equal (ht s1) = cb -> ht_data (ht s1) = ht_data (ht s) -> (ret = 0 \/ ret = -1) ->
     (ret = -1 -> ht_recs (ht s1) = ht_recs (ht s)) -> 4 * Z.of_nat (length E) < 3 * ht_size (ht s1) \/ ret = -1 ->
     exists a s2, after ret s1 = Ret a s2 /\ kept s1 s2 E /\ Q ret a (ht_recs (ht s2))) ->
  exists ret a s', resize_with zero oom (fun v h => r ← insert_depth zero oom (S k) v h None false; mret r.1) rcb enlarge after s = Ret (ret, a) s' /\
    Q ret a (ht_recs (ht s')) /\
    ((ret = -1 /\ oom (ht_allocs s) = true /\ resized s s' (ht_size (ht s)) E) \/
     (ret = 0 /\ oom (ht_allocs s) = false /\ resized s s' (new_size enlarge (ht s)) E)).
Proof.
  intros cb Ht Hres Hd Hb Hsize Hfill Hafter.
  pose proof (lyht_resize_spec k enlarge (with_equal cb s) E Ht Hres Hd Hb Hsize Hfill) as Hr. cbn zeta in Hr.
  destruct (oom (ht_allocs (with_equal cb s))) eqn:Hoom.
  - destruct (Hafter (-1) (HtMem (ht (with_equal cb s)) (S (ht_allocs s))) Ht eq_refl eq_refl (or_intror eq_refl) (fun _ => eq_refl) (or_intror eq_refl)) as (a & s2 & He & (Hk1 & [Hk2 Hk3] & Hk4 & Hk5 & _) & HQ).
    exists (-1), a, (with_equal (ht_equal (ht s)) s2). split; [by eapply resize_with_eq|]. split; [done|]. left.
    split; [done|]. split; [done|]. split; [done|]. split; [by split|]. split; [done|]. cbn in *. congruence.
  - destruct Hr as (s1 & Hr & (H1 & [H2 H3] & H4 & H5)).
    destruct (Hafter 0 s1 H1 H2 H3 (or_introl eq_refl)) as (a & s2 & He & (Hk1 & [Hk2 Hk3] & Hk4 & Hk5 & _) & HQ); [done| |].
    { left. rewrite H4. unfold new_size in *. cbn in *. lia. }
    exists 0, a, (with_equal (ht_equal (ht s)) s2). split; [eapply resize_with_eq; [exact Hr|exact He|]; by rewrite Hk2|]. split; [done|]. right.
    split; [done|]. split; [done|]. split; [done|]. split; [split; [done|]; cbn in *; congruence|].
    split; [by transitivity (ht_size (ht s1))|by transitivity (ht_resize (ht s1))].
Qed.
End Resize.
