(* ===== verification/HashSpec.v ===== *)
(** * The hash table as a set

    The operations on a whole table, and what they promise to their callers: the
    contents are those of a set of values, whatever the array looks like. *)

From S2P Require Import Prelude HashTable HashChain HashProbe HashFind HashOps HashUpdate HashResize.

(** Fewer values than this keep the table at 2^25 records and the percentage within
    32 bits. *)
Definition max_values : Z := 25165824.

Section Spec.
Context {V D : Type} (zero : V) (oom : nat -> bool).
Implicit Types (s : htmem V D) (t : hash_table V D) (E : list (Z * V)).

(** A table that resizes in time. *)
Definition spacious t : Prop :=
  ht_resize t = 1 /\ ht_used t * 100 < 50 * ht_size t \/ ht_resize t = 2 /\ ht_used t * 100 < 75 * ht_size t.

Lemma spacious_room t E : table_is t E -> spacious t -> Z.of_nat (length E) < ht_size t.
Proof. intros (Hsz%size_ok_pos & _ & _ & Hu) [[_ H]|[_ H]]; rewrite Hu in H; lia. Qed.

(** ** lyht_find *)
Lemma find_table s v h E : table_is (ht s) E -> Z.of_nat (length E) < ht_size (ht s) ->
  exists s', kept s s' E /\
    ((exists j r, lyht_find v h s = Ret (0, Some j) s' /\ ht_recs (ht s') !! j = Some r /\ in_use r /\ hit (ht s) v h false r = true) \/
     (lyht_find v h s = Ret (1, None) s' /\ ~ Exists (equal_entry (ht s) v h false) E)).
Proof.
  intros Ht Hlt. pose proof (table_room _ _ Ht Hlt) as Hroom. pose proof Ht as (Hsz & Hok & HE & _).
  destruct (lyht_find_spec _ Hsz s v h eq_refl Hok Hroom) as (s' & Hho & Hcase). exists s'. split.
  - apply holds_kept; [done|]. by eapply holds_permutation.
  - by rewrite HE in Hcase.
Qed.

(** ** lyht_insert_with_resize_cb *)

(** The record that match_p points to: the new value, or one equal to it. *)
Definition match_ok (cb : values_equal_cb V D) d v h (idx : option nat) (recs : list (ht_rec V)) : Prop :=
  cb v v false d = true ->
  exists j r, idx = Some j /\ recs !! j = Some r /\ in_use r /\ rec_hash r = h /\ (rec_val r = v \/ cb v (rec_val r) false d = true).

Lemma new_match cb d v h rec recs : recs !! rec = Some (new_rec v h) -> match_ok cb d v h (Some rec) recs.
Proof. intros Hr _. exists rec, (new_rec v h). split_and!; try done. by left. Qed.

Lemma small_size t E : table_is t E -> 75 * ht_size t <= ht_used t * 100 -> Z.of_nat (length E) < max_values -> ht_size t <= 2 ^ 24.
Proof.
  intros ((k & Hk & Hsz) & _ & _ & Hu) Hge Hmax. unfold max_values in Hmax. rewrite Hu in Hge. rewrite Hsz in *. apply Z.pow_le_mono_r; [lia|].
  assert (2 ^ k < 2 ^ 25) as Hlt by lia. apply Z.pow_lt_mono_r_iff in Hlt; lia.
Qed.

(** The search for the value after the resize. *)
Lemma after_resize s1 v h mp rec E (ret : Z) cb d : table_is (ht s1) ((h, v) :: E) -> ht_equal (ht s1) = cb -> ht_data (ht s1) = d ->
  (ret = -1 -> ht_recs (ht s1) !! rec = Some (new_rec v h)) ->
  4 * Z.of_nat (length ((h, v) :: E)) < 3 * ht_size (ht s1) \/ ret = -1 ->
  exists idx s2, (if (ret =? 0) && mp then m ← lyht_find v h; mret m.2 else mret (Some rec)) s1 = Ret idx s2 /\ kept s1 s2 ((h, v) :: E) /\
    (mp = true -> (ret = 0 \/ ret = -1) -> match_ok cb d v h idx (ht_recs (ht s2))).
Proof.
  intros Ht Hcb Hd Hrec Hlt. assert (kept s1 s1 ((h, v) :: E)) as Hk by (by split_and!).
  destruct ((ret =? 0) && mp) eqn:Hc.
  2: { exists (Some rec), s1. split; [done|]. split; [done|]. intros -> [-> | ->]; [done|]. apply new_match. by apply Hrec. }
  apply andb_true_iff in Hc as [->%Z.eqb_eq ->]. pose proof (size_ok_pos _ (proj1 Ht)).
  destruct (find_table s1 v h _ Ht) as (s2 & Hk2 & [(j & r & He & Hj & Hu & Hh)|[He Hno]]); [lia| |];
    rewrite (bind_ret_eq _ _ _ _ _ He); eexists _, s2; (split; [done|]); (split; [done|]); intros _ _ Hrefl; cbn [snd].
  - apply andb_true_iff in Hh as [Hh1%Z.eqb_eq Hh2]. exists j, r. split_and!; try done. right. by rewrite <- Hcb, <- Hd.
  - destruct Hno. apply Exists_cons_hd. split; [done|]. cbn. by rewrite Hcb, Hd.
Qed.

(** What the insertion of a new value leaves. *)
Definition inserted s s' v h E (ret : Z) : Prop :=
  table_is (ht s') ((h, v) :: E) /\ same_config (ht s) (ht s') /\ ht_size (ht s') <= 2 ^ 25 /\
  ((ret = 0 /\ (spacious (ht s) -> spacious (ht s'))) \/ (ret = -1 /\ oom (ht_allocs s) = true /\ ht_size (ht s') = ht_size (ht s))).

Lemma spacious_counted t t1 : spacious t -> ht_size t1 = ht_size t -> ht_resize t1 = ht_resize t ->
  (next_resize t1 =? 2) && (75 * ht_size t1 <=? ht_used t1 * 100) = false -> spacious (with_resize (next_resize t1) t1).
Proof.
  unfold spacious, next_resize. cbn. intros [[Hr Hf]|[Hr Hf]] Hs Hr1; rewrite Hr1, Hr in *; cbn [Z.eqb andb].
  - destruct (Z.leb_spec (50 * ht_size t1) (ht_used t1 * 100)); cbn; [|by left]. intros Hg%Z.leb_gt. right. split; [done|lia].
  - cbn. intros Hg%Z.leb_gt. right. split; [done|lia].
Qed.

Lemma insert_table s v h rcb mp E : table_is (ht s) E -> Z.of_nat (length E) < ht_size (ht s) -> 0 <= h < 2 ^ 32 ->
  ht_size (ht s) <= 2 ^ 25 -> Z.of_nat (S (length E)) < max_values ->
  distinct (resize_cb (ht s) rcb) (ht_data (ht s)) E ->
  (~ Exists (equal_entry (ht s) v h true) E -> Forall (apart (resize_cb (ht s) rcb) (ht_data (ht s)) (h, v)) E) ->
  (exists j r s', lyht_insert_with_resize_cb zero oom v h rcb mp s = Ret (1, Some j) s' /\ kept s s' E /\ ht_recs (ht s') !! j = Some r /\
     in_use r /\ hit (ht s) v h true r = true) \/
  (~ Exists (equal_entry (ht s) v h true) E /\ exists ret idx s', lyht_insert_with_resize_cb zero oom v h rcb mp s = Ret (ret, idx) s' /\
     inserted s s' v h E ret /\ (mp = true -> match_ok (resize_cb (ht s) rcb) (ht_data (ht s)) v h idx (ht_recs (ht s')))).
Proof.
  intros Ht Hlt Hh Hsz25 Hmax Hd Hap. set (cb := resize_cb (ht s) rcb) in *.
  destruct (insert_depth_spec zero oom 1 s v h rcb mp E Ht Hlt Hh) as [?|(rec & s1 & He & Hk & Hlk & Hno)]; [by left|].
  right. split; [done|]. unfold lyht_insert_with_resize_cb. rewrite He. pose proof Hk as (Ht1 & [Hc1 Hc2] & Hc3 & Hc4 & Hc5).
  assert (Z.of_nat (length ((h, v) :: E)) < 2 ^ 25) as Hb by (unfold max_values in Hmax; cbn [length]; lia).
  rewrite (grow_table_eq zero oom _ _ _ _ _ _ _ _ Ht1 Hb). pose proof (size_ok_pos _ (proj1 Ht1)) as Hpos.
  pose proof Ht1 as (_ & _ & _ & Hu1). pose proof Ht as (_ & _ & _ & Hu). cbn [length] in Hu1.
  destruct ((next_resize (ht s1) =? 2) && (75 * ht_size (ht s1) <=? ht_used (ht s1) * 100)) eqn:Hgrow.
  - apply andb_true_iff in Hgrow as [Hr2%Z.eqb_eq Hge%Z.leb_le].
    pose proof (small_size _ _ Ht1 Hge Hmax) as Hsmall.
    destruct (resize_with_spec zero oom 0 rcb true (fun ret => if (ret =? 0) && mp then m ← lyht_find v h; mret m.2 else mret (Some rec))
      (fun _ idx recs => mp = true -> match_ok cb (ht_data (ht s)) v h idx recs) (counted s1) ((h, v) :: E)) as
      (ret & idx & s' & Hs' & HQ & Hcase); try done.
    + unfold resize_cb. cbn [counted ht ht_equal ht_data with_resize]. rewrite Hc1, Hc2. split; [by apply Hap|done].
    + cbn. lia.
    + cbn [new_size counted ht ht_size with_resize length]. lia.
    + intros ret s2 Ht2 Hcb2 Hd2 Hret Hrecs Hroom2.
      destruct (after_resize s2 v h mp rec E ret cb (ht_data (ht s)) Ht2) as (idx & s3 & H1 & H2 & H3); [|by rewrite Hd2| |done|].
      * rewrite Hcb2. unfold cb, resize_cb. cbn. by rewrite Hc1.
      * intros Hm1. by rewrite Hrecs.
      * exists idx, s3. split; [done|]. split; [done|]. intros Hmp. by apply H3.
    + exists ret, idx, s'. split; [exact Hs'|]. split; [|done].
      destruct Hcase as [(-> & Hoom & (H1 & [H2 H3] & H4 & H5))|(-> & Hoom & (H1 & [H2 H3] & H4 & H5))].
      * split; [done|]. split; [by split; [rewrite H2|rewrite H3]|]. split; [rewrite H4; cbn; lia|]. right. split; [done|].
        split; [by rewrite <- Hc5|]. by rewrite H4.
      * cbn in H4. split; [done|]. split; [by split; [rewrite H2|rewrite H3]|]. split; [lia|]. left. split; [done|]. intros _. right. split; [done|].
        destruct H1 as (_ & _ & _ & ->). cbn [length]. rewrite H4. lia.
  - eexists 0, (Some rec), (counted s1). split; [done|]. split.
    + split; [exact Ht1|]. split; [done|]. split; [cbn; by rewrite Hc3|]. left. split; [done|]. intros Hsp.
      by apply (spacious_counted (ht s)).
    + intros _. by apply new_match.
Qed.

(** ** lyht_remove_with_resize_cb *)
Definition removed s s' E' (ret : Z) : Prop :=
  table_is (ht s') E' /\ same_config (ht s) (ht s') /\ ht_size (ht s') <= 2 ^ 25 /\
  ((ret = 0 /\ (spacious (ht s) -> spacious (ht s'))) \/ (ret = -1 /\ oom (ht_allocs s) = true)).

Lemma spacious_less t t1 : spacious t -> ht_size t1 = ht_size t -> ht_resize t1 = ht_resize t -> ht_used t1 <= ht_used t -> spacious t1.
Proof. unfold spacious. intros [[Hr Hf]|[Hr Hf]] Hs Hr1 Hu; rewrite Hr1, Hs; [left|right]; split; try done; lia. Qed.

(** Taking the value out, and counting. *)
Lemma remove_counted s v h E : table_is (ht s) E -> Z.of_nat (length E) < ht_size (ht s) ->
  (exists e E' s1, remove_rec v h s = Ret true s1 /\ E ≡ₚ e :: E' /\ equal_entry (ht s) v h true e /\
     kept s (HtMem (with_used (wrap_u32 (ht_used (ht s1) - 1)) (ht s1)) (ht_allocs s1)) E') \/
  (~ Exists (equal_entry (ht s) v h true) E /\ exists s1, remove_rec v h s = Ret false s1 /\ kept s s1 E).
Proof.
  intros Ht Hlt. pose proof (table_room _ _ Ht Hlt) as Hroom. pose proof Ht as (Hsz & Hok & HE & Hused).
  destruct (remove_rec_spec _ Hsz s v h eq_refl Hok Hroom) as [(x & s1 & He & (E' & Hho & Htk) & Hhit)|(s1 & He & Hho & Hno)].
  - left. rewrite HE in Htk. exists (rec_hash x, rec_val x), E', s1. split; [done|]. split; [done|]. split; [by apply hit_entry|].
    rewrite (holds_used _ _ _ _ Hho). eapply holds_count; [exact Ht|exact Hho|].
    destruct Hsz as (m & Hm & Hszm). pose proof (Z.pow_le_mono_r 2 m 30 ltac:(lia) ltac:(lia)).
    rewrite Htk in Hused. rewrite Htk in Hlt. cbn [length] in Hused, Hlt. unfold wrap_u32. rewrite Z.mod_small; lia.
  - right. rewrite HE in Hno. split; [done|]. exists s1. split; [done|]. apply holds_kept; [done|]. by eapply holds_permutation.
Qed.

Lemma remove_table s v h rcb E : table_is (ht s) E -> Z.of_nat (length E) < ht_size (ht s) ->
  ht_size (ht s) <= 2 ^ 25 -> Z.of_nat (length E) < max_values -> distinct (resize_cb (ht s) rcb) (ht_data (ht s)) E ->
  (exists e E' ret s', E ≡ₚ e :: E' /\ equal_entry (ht s) v h true e /\
     lyht_remove_with_resize_cb zero oom v h rcb s = Ret ret s' /\ removed s s' E' ret) \/
  (~ Exists (equal_entry (ht s) v h true) E /\ exists s', lyht_remove_with_resize_cb zero oom v h rcb s = Ret 1 s' /\ kept s s' E).
Proof.
  intros Ht Hlt Hsz25 Hmax Hd. unfold lyht_remove_with_resize_cb.
  destruct (remove_counted s v h E Ht Hlt) as [(e & E' & s1 & He & Htk & Heq & Hk)|(Hno & s1 & He & Hk)];
    rewrite (bind_ret_eq _ _ _ _ _ He); cbn [negb]; [left|right; split; [done|]; by exists s1].
  rewrite Htk in Hd, Hmax. cbn [length] in Hmax. erewrite bind_ret_eq by reflexivity. cbv beta.
  set (s2 := HtMem _ _) in *. rewrite (bind_ret_eq _ _ _ _ _ (get_table_eq s2)). pose proof Hk as (Ht2 & [Hc1 Hc2] & Hc3 & Hc4 & Hc5).
  assert (Z.of_nat (length E') < 2 ^ 25) as Hb by (unfold max_values in Hmax; lia).
  pose proof (size_ok_pos _ (proj1 Ht2)) as Hpos. pose proof Ht2 as (_ & _ & _ & Hu2). pose proof Ht as (_ & _ & _ & Hu).
  rewrite Htk in Hu. cbn [length] in Hu. rewrite (filled_small _ _ Ht2 Hb). unfold LYHT_SHRINK_PERCENTAGE. rewrite percent_lt by lia.
  destruct ((ht_resize (ht s2) =? 2) && (Z.of_nat (length E') * 100 <? 25 * ht_size (ht s2)) && (LYHT_MIN_SIZE <? ht_size (ht s2))) eqn:Hc.
  - apply andb_true_iff in Hc as [[Hr2%Z.eqb_eq Hlow%Z.ltb_lt]%andb_true_iff Hmin%Z.ltb_lt].
    assert (ht_size (ht s2) / 2 * 2 = ht_size (ht s2)) as Heven.
    { destruct (proj1 Ht2) as (m & Hm & ->). replace m with (1 + (m - 1)) by lia. rewrite Z.pow_add_r by lia. change (2 ^ 1) with 2. rewrite (Z.mul_comm 2), Z.div_mul by lia. done. }
    destruct (resize_with_spec zero oom 1 rcb false (fun _ => mret tt) (fun _ _ _ => True) s2 E') as (ret & [] & s' & Hs' & _ & Hcase); try done.
    + unfold resize_cb. rewrite Hc1, Hc2. by destruct Hd.
    + unfold new_size. lia.
    + intros ret s3 Ht3 _ _ _ _ _. exists tt, s3. split; [done|]. by split_and!.
    + exists e, E', ret, s'. split; [done|]. split; [done|]. split; [by rewrite (bind_ret_eq _ _ _ _ _ Hs')|].
      destruct Hcase as [(-> & Hoom & (H1 & [H2 H3] & H4 & H5))|(-> & Hoom & (H1 & [H2 H3] & H4 & H5))].
      * split; [done|]. split; [by split; [rewrite H2|rewrite H3]|]. split; [rewrite H4; lia|]. right. split; [done|]. by rewrite <- Hc5.
      * unfold new_size in H4. split; [done|]. split; [by split; [rewrite H2|rewrite H3]|]. split; [lia|]. left. split; [done|]. intros _. right. split; [done|].
        destruct H1 as (_ & _ & _ & ->). rewrite H4. lia.
  - exists e, E', 0, s2. split; [done|]. split; [done|]. split; [done|]. split; [done|]. split; [done|]. split; [lia|]. left. split; [done|].
    intros Hsp. apply (spacious_less (ht s)); try done. lia.
Qed.
End Spec.
