(* ===== verification/HashValue.v ===== *)
(** * Writing to a value of the hash table

    Callers write through match_p to the value of a record. The chains do not depend
    on the values: the table stays in order, with the new value for the old one. *)

From S2P Require Import Prelude HashTable HashChain HashProbe HashFind HashOps HashUpdate HashResize.

Section Value.
Context {V D : Type}.
Implicit Types (r : ht_rec V) (L : list (ht_rec V)) (s : htmem V D).

Definition same_shape r r' : Prop := rec_hash r' = rec_hash r /\ rec_hits r' = rec_hits r.

Definition put_val (w : V) r : ht_rec V := HtRec (rec_hash r) (rec_hits r) w.

Lemma shape_mine sz c r r' : same_shape r r' -> mine sz c r' = mine sz c r.
Proof. intros [H1 H2]. unfold mine. by rewrite H1, H2. Qed.

Lemma shape_chain sz c L L' : Forall2 same_shape L L' -> Forall2 same_shape (chain sz c L) (chain sz c L').
Proof.
  induction 1 as [|r r' L L' Hr HL IH]; [constructor|]. pose proof (shape_mine sz c r r' Hr) as Hm.
  destruct (mine sz c r) eqn:Hb.
  - rewrite !chain_cons_mine by done. by constructor.
  - by rewrite !chain_cons_other.
Qed.

Lemma shape_hits L L' : Forall2 same_shape L L' -> hits_ok L -> hits_ok L'.
Proof.
  destruct 1 as [|r r' L L' [_ Hr] HL]; [done|]. intros [H1 H2]. split; [rewrite Hr, H1; by rewrite (Forall2_length _ _ _ HL)|].
  clear -HL H2. induction HL as [|x x' L L' [_ Hx] HL IH]; [done|]. apply Forall_cons in H2 as [H2 H3]. constructor; [congruence|auto].
Qed.

Lemma shape_present L L' : Forall2 same_shape L L' -> Forall present L -> Forall present L'.
Proof.
  induction 1 as [|r r' L L' [_ Hr] HL IH]; [done|]. intros [H1 H2]%Forall_cons. constructor; [|auto]. unfold present in *. congruence.
Qed.

Lemma shape_chain_ok sz c L L' : Forall2 same_shape L L' -> chain_ok sz c L -> chain_ok sz c L'.
Proof.
  intros HL [Hh (F & G & -> & HF & HG)]. split; [eapply shape_hits; [by apply shape_chain|done]|].
  apply Forall2_app_inv_l in HL as (F' & G' & HF' & HG' & ->). exists F', G'. split; [done|]. split; [by eapply shape_present|].
  pose proof (shape_chain sz c _ _ HG') as H. rewrite HG in H. by inversion H.
Qed.

Lemma shape_insert L j r w : L !! j = Some r -> Forall2 same_shape L (<[j := put_val w r]> L).
Proof.
  intros Hj. rewrite <- (take_drop_middle L j r Hj) at 1. rewrite insert_take_drop by (by eapply lookup_lt_Some).
  assert (forall X, Forall2 same_shape X X) as Hrefl by (intros X; induction X; constructor; [by split|done]).
  apply Forall2_app; [done|]. constructor; [by split|done].
Qed.

Lemma recs_ok_put sz recs j r w : recs_ok sz recs -> recs !! j = Some r -> recs_ok sz (<[j := put_val w r]> recs).
Proof.
  intros (Hl & Hf & Hc) Hj. split; [by rewrite length_insert|]. split.
  - apply Forall_insert; [done|]. rewrite Forall_forall in Hf. apply (Hf r). by eapply list_elem_of_lookup_2.
  - intros d Hd. pose proof (lookup_lt_Some _ _ _ Hj). rewrite rotate_insert_r by lia.
    eapply shape_chain_ok; [|by apply Hc]. apply shape_insert. by rewrite lookup_rotate_l.
Qed.

Lemma entries_split L j r : L !! j = Some r -> in_use r ->
  exists E, entries L ≡ₚ (rec_hash r, rec_val r) :: E /\ forall w, entries (<[j := put_val w r]> L) ≡ₚ (rec_hash r, w) :: E.
Proof.
  intros Hj Hr. exists (entries (take j L) ++ entries (drop (S j) L)). split.
  - rewrite <- (take_drop_middle L j r Hj) at 1. rewrite entries_app, entries_live by done. by rewrite Permutation_middle.
  - intros w. rewrite insert_take_drop by (by eapply lookup_lt_Some). rewrite entries_app, entries_live by done. cbn [rec_hash rec_val put_val].
    by rewrite Permutation_middle.
Qed.

(** The write: one value of the contents is replaced. *)
Lemma set_value_spec s E j r w : table_is (ht s) E -> ht_recs (ht s) !! j = Some r -> in_use r ->
  exists E1 s', E ≡ₚ (rec_hash r, rec_val r) :: E1 /\ set_rec j (put_val w r) s = Ret tt s' /\ kept s s' ((rec_hash r, w) :: E1) /\
    ht_recs (ht s') = <[j := put_val w r]> (ht_recs (ht s)).
Proof.
  intros (Hsz & Hok & HE & Hu) Hj Hr. destruct (entries_split _ _ _ Hj Hr) as (E1 & H1 & H2).
  rewrite HE in H1. eexists E1, _. split; [done|]. split.
  - unfold set_rec, get_table, set_table, modify, mbind, M_bind, get, mret, M_ret. cbn [ht ht_recs].
    by rewrite (proj2 (Nat.ltb_lt _ _) (lookup_lt_Some _ _ _ Hj)).
  - split; [|done]. split; [|done]. split; [done|]. split; [by apply recs_ok_put|]. split; [apply H2|]. cbn. rewrite Hu, H1. done.
Qed.
End Value.
