(* ===== verification/HashThms.v ===== *)
(** * Theorems on the hash table

    A table refines a set of values: whatever the callback calls equal, any sequence
    of searches, insertions and removals returns what the set returns, through every
    resize. Then what a failed allocation and a copy leave. *)

From S2P Require Import Prelude HashTable HashChain HashProbe HashFind HashOps HashUpdate HashResize HashSpec.

(** ** The set *)
Inductive ht_op (V : Type) :=
| HtFind (v : V) (h : Z)
| HtInsert (v : V) (h : Z)
| HtRemove (v : V) (h : Z).
Arguments HtFind {V} v h.
Arguments HtInsert {V} v h.
Arguments HtRemove {V} v h.

Definition op_hash {V} (o : ht_op V) : Z :=
  match o with HtFind _ h | HtInsert _ h | HtRemove _ h => h end.

(** What the table asks of its callback. *)
Class SetCallback {V D} (cb : values_equal_cb V D) (d : D) : Prop := {
  cb_found : forall v, cb v v false d = true;
  cb_sym : forall v w, cb v w true d = cb w v true d }.

Section SetSpec.
Context {V D : Type} (cb : values_equal_cb V D) (d : D).

(** A value of the set with the same hash that the callback calls equal. *)
Definition same (v : V) (h : Z) (m : bool) (e : Z * V) : Prop := e.1 = h /\ cb v e.2 m d = true.

(** One operation, with its code and the value that match_p points to. *)
Inductive set_step (E : list (Z * V)) : ht_op V -> Z * option V -> list (Z * V) -> Prop :=
| set_found v h e : e ∈ E -> same v h false e -> set_step E (HtFind v h) (0, Some e.2) E
| set_not_found v h : ~ Exists (same v h false) E -> set_step E (HtFind v h) (1, None) E
| set_present v h e : e ∈ E -> same v h true e -> set_step E (HtInsert v h) (1, Some e.2) E
| set_added v h w : ~ Exists (same v h true) E -> (h, w) ∈ (h, v) :: E -> w = v \/ cb v w false d = true ->
    set_step E (HtInsert v h) (0, Some w) ((h, v) :: E)
| set_removed v h e E' : E ≡ₚ e :: E' -> same v h true e -> set_step E (HtRemove v h) (0, None) E'
| set_absent v h : ~ Exists (same v h true) E -> set_step E (HtRemove v h) (1, None) E.

Inductive set_run : list (Z * V) -> list (ht_op V) -> list (Z * option V) -> list (Z * V) -> Prop :=
| set_run_nil E : set_run E [] [] E
| set_run_cons E o r E1 os rs E2 : set_step E o r E1 -> set_run E1 os rs E2 -> set_run E (o :: os) (r :: rs) E2.
End SetSpec.

Section Run.
Context {V D : Type} (zero : V) (oom : nat -> bool).
Implicit Types (s : htmem V D) (t : hash_table V D) (E : list (Z * V)).

(** ** The table *)
Definition match_val (m : option nat) : M (htmem V D) (option V) :=
  match m with
  | None => mret None
  | Some j => r ← lyht_get_rec j; mret (Some (rec_val r))
  end.

Definition run_op (o : ht_op V) : M (htmem V D) (Z * option V) :=
  match o with
  | HtFind v h => r ← lyht_find v h; w ← match_val r.2; mret (r.1, w)
  | HtInsert v h => r ← lyht_insert zero oom v h true; w ← match_val r.2; mret (r.1, w)
  | HtRemove v h => r ← lyht_remove zero oom v h; mret (r, None)
  end.

Fixpoint run_ops (os : list (ht_op V)) : M (htmem V D) (list (Z * option V)) :=
  match os with
  | [] => mret []
  | o :: os => r ← run_op o; rs ← run_ops os; mret (r :: rs)
  end.

Lemma match_val_eq s j r : ht_recs (ht s) !! j = Some r -> match_val (Some j) s = Ret (Some (rec_val r)) s.
Proof.
  intros Hj. unfold match_val. assert (lyht_get_rec j s = Ret r s) as He; [|by rewrite (bind_ret_eq _ _ _ _ _ He)].
  unfold lyht_get_rec. rewrite (bind_ret_eq _ _ _ _ _ (get_table_eq s)). by rewrite Hj.
Qed.

(** The invariant of a table of [cb]: no two values are equal, and there is room. *)
Definition table_inv (cb : values_equal_cb V D) d E s : Prop :=
  table_is (ht s) E /\ ht_equal (ht s) = cb /\ ht_data (ht s) = d /\ spacious (ht s) /\ ht_size (ht s) <= 2 ^ 25 /\ distinct cb d E.

Lemma kept_inv cb d E s s' : table_inv cb d E s -> kept s s' E -> table_inv cb d E s'.
Proof.
  intros (H1 & H2 & H3 & H4 & H5 & H6) (K1 & [K2 K3] & K4 & K5 & _). split; [done|]. split; [congruence|]. split; [congruence|]. split; [|by rewrite K4].
  eapply spacious_less; [exact H4|done|done|]. destruct H1 as (_ & _ & _ & ->), K1 as (_ & _ & _ & ->). done.
Qed.

Lemma hit_same cb d s v h m r : ht_equal (ht s) = cb -> ht_data (ht s) = d -> hit (ht s) v h m r = true -> same cb d v h m (rec_hash r, rec_val r).
Proof. intros <- <- H. by apply hit_entry in H. Qed.

Lemma run_find cb d E s v h : table_inv cb d E s ->
  exists r s', run_op (HtFind v h) s = Ret r s' /\ set_step cb d E (HtFind v h) r E /\ table_inv cb d E s'.
Proof.
  intros Hi. pose proof Hi as (Ht & Hcb & Hd & Hsp & _). cbn [run_op].
  destruct (find_table s v h E Ht (spacious_room _ _ Ht Hsp)) as (s' & Hk & [(j & r & He & Hj & Hu & Hh)|[He Hno]]);
    rewrite (bind_ret_eq _ _ _ _ _ He); cbn [fst snd]; pose proof (kept_inv _ _ _ _ _ Hi Hk) as Hi'.
  - rewrite (bind_ret_eq _ _ _ _ _ (match_val_eq _ _ _ Hj)). eexists _, s'. split; [done|]. split; [|done].
    apply (set_found cb d E v h (rec_hash r, rec_val r)); [eapply record_entry; [apply Hi'|done..]|by eapply hit_same].
  - eexists _, s'. split; [done|]. split; [|done]. apply set_not_found. by rewrite <- Hcb, <- Hd.
Qed.

(** A value that is not in the set differs from its values in both directions. *)
Lemma no_match_apart cb d E s v h : SetCallback cb d -> ht_equal (ht s) = cb -> ht_data (ht s) = d ->
  ~ Exists (equal_entry (ht s) v h true) E -> Forall (apart cb d (h, v)) E.
Proof.
  intros Hsc Hcb Hd Hno. apply Forall_forall. intros e He Heq. cbn in *. rewrite (cb_sym e.2 v).
  assert (cb v e.2 true d = false) as Hf; [|by rewrite Hf].
  apply not_true_is_false. intros Htrue. apply Hno, Exists_exists. exists e. split; [done|]. split; [done|]. by rewrite Hcb, Hd.
Qed.

Context (Hoom : forall n, oom n = false).

Lemma run_insert cb d E s v h : SetCallback cb d -> table_inv cb d E s -> 0 <= h < 2 ^ 32 -> Z.of_nat (S (length E)) < max_values ->
  exists r s' E', run_op (HtInsert v h) s = Ret r s' /\ set_step cb d E (HtInsert v h) r E' /\ table_inv cb d E' s' /\ (length E' <= S (length E))%nat.
Proof.
  intros Hsc Hi Hh Hmax. pose proof Hi as (Ht & Hcb & Hd & Hsp & Hsz & Hdis). cbn [run_op]. unfold lyht_insert.
  pose proof (no_match_apart cb d E s v h Hsc Hcb Hd) as Hap.
  destruct (insert_table zero oom s v h None true E Ht (spacious_room _ _ Ht Hsp) Hh Hsz Hmax) as
    [(j & r & s' & He & Hk & Hj & Hu & Hhit)|(Hno & ret & idx & s' & He & (H1 & [H2 H3] & H4 & H5) & Hm)].
  - unfold resize_cb. cbn. by rewrite Hcb, Hd.
  - unfold resize_cb. cbn. by rewrite Hcb, Hd.
  - rewrite (bind_ret_eq _ _ _ _ _ He). cbn [fst snd]. pose proof (kept_inv _ _ _ _ _ Hi Hk) as Hi'.
    rewrite (bind_ret_eq _ _ _ _ _ (match_val_eq _ _ _ Hj)). eexists _, s', E. split; [done|]. split; [|split; [done|apply Nat.le_succ_diag_r]].
    apply (set_present cb d E v h (rec_hash r, rec_val r)); [eapply record_entry; [apply Hi'|done..]|by eapply hit_same].
  - rewrite (bind_ret_eq _ _ _ _ _ He). cbn [fst snd]. destruct H5 as [[-> Hsp']|(_ & Hf & _)]; [|by rewrite Hoom in Hf].
    unfold resize_cb in Hm. cbn in Hm. rewrite Hcb, Hd in Hm. destruct (Hm eq_refl) as (j & r & -> & Hj & Hu & Hrh & Hrv); [by apply cb_found|].
    rewrite (bind_ret_eq _ _ _ _ _ (match_val_eq _ _ _ Hj)). eexists _, s', ((h, v) :: E). split; [done|]. split; [|split; [|cbn [length]; lia]].
    + apply set_added; [by rewrite <- Hcb, <- Hd| |done]. rewrite <- Hrh at 1. by eapply record_entry.
    + split; [done|]. split; [congruence|]. split; [congruence|]. split; [auto|]. split; [done|]. split; [by apply Hap|done].
Qed.

Lemma run_remove cb d E s v h : table_inv cb d E s -> Z.of_nat (length E) < max_values ->
  exists r s' E', run_op (HtRemove v h) s = Ret r s' /\ set_step cb d E (HtRemove v h) r E' /\ table_inv cb d E' s' /\ (length E' <= S (length E))%nat.
Proof.
  intros Hi Hmax. pose proof Hi as (Ht & Hcb & Hd & Hsp & Hsz & Hdis). cbn [run_op]. unfold lyht_remove.
  destruct (remove_table zero oom s v h None E Ht (spacious_room _ _ Ht Hsp) Hsz Hmax) as
    [(e & E' & ret & s' & Htk & Heq & He & (H1 & [H2 H3] & H4 & H5))|(Hno & s' & He & Hk)].
  - unfold resize_cb. cbn. by rewrite Hcb, Hd.
  - rewrite (bind_ret_eq _ _ _ _ _ He). destruct H5 as [[-> Hsp']|[_ Hf]]; [|by rewrite Hoom in Hf].
    eexists _, s', E'. split; [done|]. split; [|split].
    + apply (set_removed cb d E v h e E' Htk). by rewrite <- Hcb, <- Hd.
    + split; [done|]. split; [congruence|]. split; [congruence|]. split; [auto|]. split; [done|]. rewrite Htk in Hdis. apply Hdis.
    + rewrite Htk. cbn [length]. lia.
  - rewrite (bind_ret_eq _ _ _ _ _ He). eexists _, s', E. split; [done|]. split; [|split; [by eapply kept_inv|lia]].
    apply set_absent. by rewrite <- Hcb, <- Hd.
Qed.

Lemma run_ops_set cb d : SetCallback cb d -> forall os E s, table_inv cb d E s -> Forall (fun o => 0 <= op_hash o < 2 ^ 32) os ->
  Z.of_nat (length E + length os) < max_values ->
  exists rs s' E', run_ops os s = Ret rs s' /\ set_run cb d E os rs E' /\ table_inv cb d E' s'.
Proof.
  intros Hsc. induction os as [|o os IH]; intros E s Hi Hh Hmax; cbn [run_ops].
  { eexists _, s, E. split; [done|]. split; [constructor|done]. }
  apply Forall_cons in Hh as [Ho Hh]. cbn [length] in Hmax.
  assert (exists r s' E', run_op o s = Ret r s' /\ set_step cb d E o r E' /\ table_inv cb d E' s' /\ (length E' <= S (length E))%nat) as
    (r & s1 & E1 & He & Hst & Hi1 & Hl).
  { destruct o as [v h|v h|v h]; [|apply run_insert; [done..|lia]|apply run_remove; [done|lia]].
    destruct (run_find cb d E s v h Hi) as (r & s' & H1 & H2 & H3). exists r, s', E. split_and!; try done. lia. }
  destruct (IH E1 s1 Hi1 Hh ltac:(lia)) as (rs & s2 & E2 & He2 & Hr2 & Hi2).
  rewrite (bind_ret_eq _ _ _ _ _ He), (bind_ret_eq _ _ _ _ _ He2). eexists _, s2, E2. split; [done|]. split; [by econstructor|done].
Qed.
End Run.

(** ** lyht_new *)
Lemma lyht_new_eq {V D} (zero : V) (oom : nat -> bool) k (cb : values_equal_cb V D) d r n :
  0 <= k <= 30 -> r = 0 \/ r = 1 -> oom n = false -> oom (S n) = false ->
  let size := 2 ^ Z.max 3 k in
  lyht_new zero oom (2 ^ k) cb d r n =
    Ret (Some (HashTable 0 size cb d r (replicate (Z.to_nat size) (empty_rec zero)))) (S (S n)) /\ size_ok size.
Proof.
  intros Hk Hr Ho1 Ho2 size. split; [|exists (Z.max 3 k); lia]. unfold lyht_new. rewrite Ho1, Ho2.
  assert (0 < 2 ^ k) as Hpos by (apply Z.pow_pos_nonneg; lia).
  assert (Z.land (2 ^ k) (2 ^ k - 1) = 0) as Hand.
  { rewrite Z.sub_1_r, <- Z.ones_equiv, Z.land_ones by lia. apply Z_mod_same_full. }
  rewrite (proj2 (Z.ltb_lt _ _) Hpos), Hand. cbn [Z.eqb andb negb].
  assert (negb ((r =? 0) || (r =? 1)) = false) as -> by (by destruct Hr as [-> | ->]).
  assert ((if 2 ^ k <? LYHT_MIN_SIZE then LYHT_MIN_SIZE else 2 ^ k) = size) as ->; [|done].
  unfold size, LYHT_MIN_SIZE. change 8 with (2 ^ 3). destruct (Z.ltb_spec (2 ^ k) (2 ^ 3)) as [H|H].
  - apply Z.pow_lt_mono_r_iff in H; [|lia..]. by rewrite Z.max_l by lia.
  - apply Z.pow_le_mono_r_iff in H; [|lia..]. by rewrite Z.max_r by lia.
Qed.

(** C12. The hash table of libyang refines a set. For every callback that is
    symmetric and finds a value equal to itself, any sequence of lyht_find,
    lyht_insert and lyht_remove on a new resizable table returns, without a failed
    allocation, a failed assertion or an access outside the array, and for fewer than
    25165824 operations, the codes and the values that the set of the inserted values
    gives; the table ends in order, with those values. *)
Theorem table_refines_set {V D} (zero : V) (oom : nat -> bool) (cb : values_equal_cb V D) (d : D) (k : Z) (ops : list (ht_op V)) :
  SetCallback cb d -> (forall n, oom n = false) -> 0 <= k <= 25 ->
  Forall (fun o => 0 <= op_hash o < 2 ^ 32) ops -> Z.of_nat (length ops) < max_values ->
  exists t results s E, lyht_new zero oom (2 ^ k) cb d 1 0%nat = Ret (Some t) 2%nat /\
    run_ops zero oom ops (HtMem t 2%nat) = Ret results s /\ set_run cb d [] ops results E /\ table_is (ht s) E.
Proof.
  intros Hsc Ho Hk Hh Hmax. destruct (lyht_new_eq zero oom k cb d 1 0 ltac:(lia) ltac:(lia) (Ho _) (Ho _)) as [He Hsz]. cbv zeta in He.
  set (t := HashTable _ _ _ _ _ _) in He.
  destruct (run_ops_set zero oom Ho cb d Hsc ops [] (HtMem t 2)) as (rs & s & E & Hr & Hs & Hi); try done.
  - split; [by apply table_is_empty|]. split; [done|]. split; [done|]. split; [|split; [|done]].
    + left. split; [done|]. pose proof (size_ok_pos _ Hsz). cbn. lia.
    + apply (Z.pow_le_mono_r 2 (Z.max 3 k) 25); lia.
  - exists t, rs, s, E. split_and!; try done. apply Hi.
Qed.

(** Numbers, compared by value. *)
Definition num_cb : values_equal_cb Z unit := fun v w _ _ => v =? w.

#[global] Instance num_cb_set : SetCallback num_cb tt.
Proof. split; unfold num_cb; [apply Z.eqb_refl|apply Z.eqb_sym]. Qed.

Definition num_ops : list (ht_op Z) :=
  HtInsert 5 3 :: HtInsert 6 11 :: HtInsert 5 3 :: map (fun i => HtInsert (Z.of_nat i) (Z.of_nat i * 8)) (seq 10 6) ++
  [HtFind 6 11; HtRemove 5 3; HtFind 5 3; HtFind 12 96; HtRemove 7 3].

Lemma table_refines_set_witness :
  exists t results s E, lyht_new 0 (fun _ => false) (2 ^ 0) num_cb tt 1 0%nat = Ret (Some t) 2%nat /\
    run_ops 0 (fun _ => false) num_ops (HtMem t 2%nat) = Ret results s /\ set_run num_cb tt [] num_ops results E /\ table_is (ht s) E.
Proof.
  apply (table_refines_set 0 (fun _ => false) num_cb tt 0 num_ops num_cb_set); [done|lia| |vm_compute; reflexivity].
  repeat constructor; vm_compute; congruence.
Defined.

Lemma num_ops_results :
  match lyht_new 0 (fun _ => false) 1 num_cb tt 1 0%nat with
  | Ret (Some t) n => (fun o => match o with Ret l s => Some (l.*1, ht_size (ht s), ht_used (ht s)) | _ => None end) (run_ops 0 (fun _ => false) num_ops (HtMem t n))
  | _ => None
  end = Some ([0; 0; 1; 0; 0; 0; 0; 0; 0; 0; 0; 1; 0; 1], 16, 7).
Proof. vm_compute. reflexivity. Qed.

(** ** When the table cannot be resized *)

(** C28. The error code of the table does not mean that nothing was done. A table of
    at most 2^25 records with room: when lyht_insert returns -1 because the larger
    array could not be allocated, the value has been inserted, and lyht_find finds it;
    when lyht_remove returns -1, a value equal to the given one has been removed. *)
Theorem table_failed_resize {V D} (zero : V) (oom : nat -> bool) (cb : values_equal_cb V D) (d : D) E (s : htmem V D) (v : V) (h : Z) :
  SetCallback cb d -> table_inv cb d E s -> 0 <= h < 2 ^ 32 -> Z.of_nat (S (length E)) < max_values ->
  (forall idx s', lyht_insert zero oom v h true s = Ret (-1, idx) s' ->
     oom (ht_allocs s) = true /\ table_is (ht s') ((h, v) :: E) /\ exists j s'', lyht_find v h s' = Ret (0, Some j) s'') /\
  (forall s', lyht_remove zero oom v h s = Ret (-1) s' ->
     oom (ht_allocs s) = true /\ exists e E', same cb d v h true e /\ E ≡ₚ e :: E' /\ table_is (ht s') E').
Proof.
  intros Hsc Hi Hh Hmax. pose proof Hi as (Ht & Hcb & Hd & Hsp & Hsz & Hdis). pose proof (spacious_room _ _ Ht Hsp) as Hroom. split.
  - intros idx s' He. unfold lyht_insert in He.
    destruct (insert_table zero oom s v h None true E Ht Hroom Hh Hsz Hmax) as
      [(j & r & s1 & He1 & _)|(Hno & ret & idx1 & s1 & He1 & (H1 & [H2 H3] & H4 & H5) & _)].
    + unfold resize_cb. cbn. by rewrite Hcb, Hd.
    + unfold resize_cb. cbn. rewrite Hcb, Hd. by apply (no_match_apart cb d E s).
    + congruence.
    + rewrite He in He1. injection He1 as <- <- <-. destruct H5 as [[? _]|(_ & Ho & Hsame)]; [done|]. split; [done|]. split; [done|].
      assert (Z.of_nat (length ((h, v) :: E)) < ht_size (ht s')) as Hlt.
      { rewrite Hsame. pose proof (size_ok_pos _ (proj1 Ht)). destruct Ht as (_ & _ & _ & Hu). cbn [length].
        destruct Hsp as [[_ Hf]|[_ Hf]]; rewrite Hu in Hf; lia. }
      destruct (find_table s' v h _ H1 Hlt) as (s2 & _ & [(j & r & Hf & _)|[_ Hn]]); [by exists j, s2|].
      destruct Hn. apply Exists_cons_hd. split; [done|]. cbn. rewrite H2, H3, Hcb, Hd. apply cb_found.
  - intros s' He. unfold lyht_remove in He.
    destruct (remove_table zero oom s v h None E Ht Hroom Hsz ltac:(lia)) as
      [(e & E' & ret & s1 & Htk & Heq & He1 & (H1 & [H2 H3] & H4 & H5))|(Hno & s1 & He1 & Hk)].
    + unfold resize_cb. cbn. by rewrite Hcb, Hd.
    + rewrite He in He1. injection He1 as <- <-. destruct H5 as [[? _]|[_ Ho]]; [done|]. split; [done|]. exists e, E'. split; [|done].
      by rewrite <- Hcb, <- Hd.
    + congruence.
Qed.

(** Five values in a table of eight; there is no memory for a larger array. *)
Definition five_ops : list (ht_op Z) := map (fun i => HtInsert (Z.of_nat i) (Z.of_nat i)) (seq 0 5).
Definition eight : hash_table Z unit := HashTable 0 8 num_cb tt 1 (replicate 8 (empty_rec 0)).
Definition five : htmem Z unit :=
  HtMem (HashTable 5 8 num_cb tt 2 (map (fun i => HtRec (Z.of_nat i) 1 (Z.of_nat i)) (seq 0 5) ++ replicate 3 (empty_rec 0))) 2.

Lemma eight_inv : table_inv num_cb tt [] (HtMem eight 2).
Proof.
  split; [apply table_is_empty; by exists 3|]. split; [done|]. split; [done|]. split; [left; by split|]. by split.
Qed.

Lemma five_inv : exists E, table_inv num_cb tt E five /\ length E = 5%nat.
Proof.
  destruct (run_ops_set 0 (fun _ => false) (fun _ => eq_refl) num_cb tt num_cb_set five_ops [] (HtMem eight 2)) as (rs & s & E & He & _ & Hi).
  - apply eight_inv.
  - repeat constructor; vm_compute; congruence.
  - vm_compute. reflexivity.
  - assert (s = five) as -> by (vm_compute in He; vm_compute; congruence). exists E. split; [done|].
    destruct Hi as ((_ & _ & _ & Hu) & _). cbn in Hu. lia.
Qed.

Lemma table_failed_resize_witness :
  let oom := fun n => (2 <=? n)%nat in
  exists E s idx j s', lyht_insert 0 oom 5 5 true five = Ret (-1, idx) s /\ table_is (ht s) ((5, 5) :: E) /\ lyht_find 5 5 s = Ret (0, Some j) s'.
Proof.
  cbv zeta. destruct five_inv as (E & Hi & Hl).
  destruct (table_failed_resize 0 (fun n => (2 <=? n)%nat) num_cb tt E five 5 5 num_cb_set Hi) as [H _]; [lia|rewrite Hl; vm_compute; reflexivity|].
  edestruct H as (_ & Ht & j & s'' & Hf); [vm_compute; reflexivity|]. exists E. do 2 eexists. exists j, s''. split; [vm_compute; reflexivity|]. split; [exact Ht|exact Hf].
Defined.

(** ** lyht_dup *)

(** lyht_dup does not copy the table: it copies the first used records of the
    array instead of all of them, and so gives a table that counts all the values
    but contains only those whose record happens to come before that limit. *)
Theorem lyht_dup_contents {V D} (zero : V) (oom : nat -> bool) (t : hash_table V D) E (n : nat) :
  table_is t E -> Z.of_nat (length E) <= ht_size t -> oom n = false -> oom (S n) = false ->
  exists t', lyht_dup zero oom (Some t) n = Ret (Some t') (S (S n)) /\ ht_used t' = Z.of_nat (length E) /\ ht_size t' = ht_size t /\
    entries (ht_recs t') = entries (take (length E) (ht_recs t)).
Proof.
  intros ((k & Hk & Hsz) & (Hl & _) & HE & Hu) Hle Ho1 Ho2. unfold lyht_dup. rewrite Hsz, Hu, Nat2Z.id in *.
  destruct (lyht_new_eq zero oom k (ht_equal t) (ht_data t) (if ht_resize t =? 0 then 0 else 1) n ltac:(lia)) as [He _];
    [destruct (ht_resize t =? 0); auto|done..|]. cbv zeta in He. rewrite Z.max_r in He by lia.
  rewrite (bind_ret_eq _ _ _ _ _ He). cbn [ht_recs]. rewrite length_replicate, Hl.
  rewrite (proj2 (Nat.leb_le _ _)) by lia. cbn [andb]. eexists. split; [reflexivity|]. cbn [ht_used ht_size ht_recs with_used with_recs]. split; [done|]. split; [done|].
  by rewrite drop_replicate, entries_app, entries_empty, app_nil_r.
Qed.

(** One value, in the last record of the array: the copy is empty. *)
Lemma lyht_dup_contents_witness :
  let t := HashTable 1 8 num_cb tt 1 (replicate 7 (empty_rec 0) ++ [HtRec 7 1 7]) in
  table_is t [(7, 7)] /\ (exists s', lyht_find 7 7 (HtMem t 2) = Ret (0, Some 7%nat) s') /\
  exists t', lyht_dup 0 (fun _ => false) (Some t) 2%nat = Ret (Some t') 4%nat /\ entries (ht_recs t') = [] /\
    exists s', lyht_find 7 7 (HtMem t' 4) = Ret (1, None) s'.
Proof.
  cbv zeta. set (t := HashTable _ _ _ _ _ _).
  assert (table_is t [(7, 7)]) as Ht.
  { destruct (run_ops_set 0 (fun _ => false) (fun _ => eq_refl) num_cb tt num_cb_set [HtInsert 7 7] [] (HtMem eight 2)) as (rs & s & E & He & Hr & Hi).
    - apply eight_inv.
    - repeat constructor; vm_compute; congruence.
    - vm_compute. reflexivity.
    - assert (s = HtMem t 2) as -> by (vm_compute in He; vm_compute; congruence).
      inversion Hr as [|? ? ? E1 ? ? ? Hst Hrun]; subst. inversion Hrun; subst. inversion Hst; subst; [set_solver|]. apply Hi. }
  split; [done|]. split; [eexists; vm_compute; reflexivity|].
  destruct (lyht_dup_contents 0 (fun _ => false) t [(7, 7)] 2 Ht ltac:(vm_compute; congruence) eq_refl eq_refl) as (t' & He & _ & _ & Hent).
  exists t'. split; [exact He|]. split; [exact Hent|]. vm_compute in He. injection He as <-. eexists. vm_compute. reflexivity.
Defined.
