(* ===== verification/HashNext.v ===== *)
(** * Walking through the values of a hash

    lyht_find_next gives the value behind a given one among those of the same hash.
    The moves of the searches keep the order of every chain, so that calling it again
    and again visits each of these values once. *)

From S2P Require Import Prelude HashTable HashChain HashProbe HashFind HashOps HashUpdate HashResize HashSpec HashThms.

Section Next.
Context {V D : Type} (sz : Z) (Hsz : size_ok sz).
Implicit Types (r f y : ht_rec V) (L X Y A B R M : list (ht_rec V)) (s : htmem V D).

Abbreviation n := (Z.to_nat sz).
Abbreviation rot c p := (rotate_nat_add c p n).
Abbreviation scene := (@scene V D sz).
Abbreviation chain := (@chain V sz).
Abbreviation chain_ok := (@chain_ok V sz).
Abbreviation same_chain := (@same_chain V sz).
Abbreviation walked := (@walked V sz).

(** The records of the hash, in the order of their chain. *)
Definition of_hash (h : Z) R : list (ht_rec V) := filter (fun r => rec_hash r = h) R.

(** ** The loop on a chain *)
Fixpoint next_of (t : hash_table V D) (v : V) (h : Z) (found : bool) R : option (option (ht_rec V)) :=
  match R with
  | [] => if found then Some None else None
  | y :: R =>
      if negb (rec_hash y =? h) then next_of t v h found R
      else if found then Some (Some y)
      else next_of t v h (hit t v h true y) R
  end.

Lemma of_hash_cons h r R : of_hash h (r :: R) = if rec_hash r =? h then r :: of_hash h R else of_hash h R.
Proof.
  unfold of_hash. rewrite filter_cons. destruct (Z.eqb_spec (rec_hash r) h); [by rewrite decide_True|by rewrite decide_False].
Qed.

Lemma next_of_found t v h R : next_of t v h true R = Some (head (of_hash h R)).
Proof. induction R as [|y R IH]; [done|]. cbn [next_of]. rewrite of_hash_cons. by destruct (rec_hash y =? h). Qed.

Lemma next_of_first t v h R : forall pre x post, of_hash h R = pre ++ x :: post -> Forall (fun r => hit t v h true r = false) pre ->
  hit t v h true x = true -> next_of t v h false R = Some (head post).
Proof.
  induction R as [|y R IH]; intros pre x post He Hpre Hx; [by destruct pre|]. cbn [next_of]. rewrite of_hash_cons in He.
  destruct (rec_hash y =? h); cbn [negb]; [|by eapply IH].
  destruct pre as [|z pre]; cbn [app] in He; injection He as -> He.
  - by rewrite Hx, next_of_found, He.
  - apply Forall_cons in Hpre as [-> Hpre]. by eapply IH.
Qed.

(** The outcome of the loop, when the value is there. *)
Definition next_outcome c s0 L (o : option (ht_rec V)) (res : outcome (htmem V D) (Z * option nat)) : Prop :=
  exists L' s', scene c s0 L' s' /\ same_chain c L L' /\
    match o with
    | None => res = Ret (1, None) s'
    | Some y => exists p, res = Ret (0, Some (rot c p)) s' /\ L' !! p = Some y
    end.

Lemma next_outcome_trans c s0 L L' o res : same_chain c L L' -> next_outcome c s0 L' o res -> next_outcome c s0 L o res.
Proof. intros H (L2 & s2 & Hs & Hsame & Hres). exists L2, s2. split; [done|]. split; [by eapply same_chain_trans|done]. Qed.

Lemma next_loop_spec c s0 A f v h : ht_size (ht s0) = sz -> forall k found M B L s o,
  scene c s0 L s -> walked c A f M B L -> chain_ok c L -> has_room L -> length (chain c B) = k ->
  next_of (ht s0) v h found (chain c B) = Some o ->
  next_outcome c s0 L o (next_loop k found v h (rot c (length A + length M)) (rot c (length A)) s).
Proof.
  intros Hsize. induction k as [|k IH]; intros found M B L s o Hs Hw Hok Hroom Hk Ho; cbn [next_loop].
  { apply nil_length_inv in Hk. rewrite Hk in Ho. cbn in Ho. destruct found; [|done]. injection Ho as <-. by exists L, s. }
  destruct (find_collision_spec sz Hsz c s0 L s A f M B Hs Hsize Hw Hok Hroom) as
    [(C & y & B' & s' & Heq & Hs' & Hsame & Hw' & Hch)|(B1 & e & B2 & _ & _ & Hnil & _)]; [|by rewrite Hnil in Hk].
  rewrite (bind_ret_eq _ _ _ _ _ Heq). cbn [fst snd]. change (0 =? 0) with true. cbn [negb].
  set (L' := A ++ f :: (M ++ C ++ [y]) ++ B') in *.
  pose proof Hw' as Hw2. rewrite app_assoc in Hw2. apply walked_snoc in Hw2 as [Hy' _]. rewrite <- app_assoc in Hy'.
  rewrite (bind_ret_eq _ _ _ _ _ (scene_get _ _ _ _ _ _ _ Hs' Hy')). rewrite Hch in Hk, Ho. cbn [length] in Hk. injection Hk as Hk.
  pose proof (scene_room sz _ _ _ _ _ _ Hs Hs' Hsame Hroom) as Hroom'. apply (next_outcome_trans _ _ _ _ _ _ Hsame). cbn [next_of] in Ho.
  destruct (negb (rec_hash y =? h)); [by apply (IH _ _ B' _ _ _ Hs' Hw' (proj1 Hsame))|]. destruct found.
  - injection Ho as <-. exists L', s'. split; [done|]. split; [by apply same_chain_refl, Hsame|]. by eexists.
  - rewrite (bind_ret_eq _ _ _ _ _ (matches_rec_eq sz _ _ _ _ _ _ v h true Hs' Hy')). by apply (IH _ _ B' _ _ _ Hs' Hw' (proj1 Hsame)).
Qed.

(** ** lyht_find_next *)
Lemma of_hash_chain_full h pre x post f R : of_hash h (f :: R) = pre ++ x :: post -> R = [] -> pre = [] /\ x = f /\ post = [] /\ rec_hash f = h.
Proof.
  intros He ->. rewrite of_hash_cons in He. destruct (Z.eqb_spec (rec_hash f) h); [|by destruct pre].
  destruct pre as [|z [|]]; cbn in He; simplify_eq; done.
Qed.

Lemma find_next_chain s L v h pre x post : ht_size (ht s) = sz -> scene (shortened sz h) s L s -> chain_ok (shortened sz h) L -> has_room L ->
  of_hash h (chain (shortened sz h) L) = pre ++ x :: post -> Forall (fun r => hit (ht s) v h true r = false) pre -> hit (ht s) v h true x = true ->
  next_outcome (shortened sz h) s L (head post) (lyht_find_next v h s).
Proof.
  set (c := shortened sz h). intros Hsize Hs Hc Hroom Hof Hpre Hx. unfold lyht_find_next.
  destruct (find_first_spec sz Hsz s L s h Hs Hsize Hc Hroom) as [(A & f & B & s1 & He & Hs1 & Hsame & HA & Hf)|(X & e & Z & He & HL & Hnil & _)];
    fold c in He; [|fold c in Hnil; rewrite Hnil in Hof; by destruct pre].
  fold c in Hs1, Hsame, HA, Hf. rewrite (bind_ret_eq _ _ _ _ _ He). cbn [fst snd]. change (negb (0 =? 0)) with false. cbv iota.
  assert ((A ++ f :: B) !! length A = Some f) as Hlk by (by apply list_lookup_middle).
  rewrite (bind_ret_eq _ _ _ _ _ (matches_rec_eq sz _ _ _ _ _ _ v h true Hs1 Hlk)), (bind_ret_eq _ _ _ _ _ (scene_get _ _ _ _ _ _ _ Hs1 Hlk)).
  pose proof Hsame as (Hok1 & Hch1 & _). apply (next_outcome_trans _ _ _ _ _ _ Hsame). rewrite <- Hch1, (chain_first sz) in Hof by done.
  pose proof (first_hits sz c A f B Hok1 HA Hf) as Hhits. pose proof (scene_room sz _ _ _ _ _ _ Hs Hs1 Hsame Hroom) as Hroom1.
  destruct (Z.eqb_spec (rec_hits f) 1) as [H1|H1].
  - rewrite H1 in Hhits. symmetry in Hhits. apply nil_length_inv in Hhits.
    destruct (of_hash_chain_full _ _ _ _ _ _ Hof Hhits) as (-> & -> & -> & Hh). rewrite Hx, (proj2 (Z.eqb_eq _ _) Hh). cbn [andb].
    exists (A ++ f :: B), s1. split; [done|]. by split.
  - rewrite Hhits. pose proof (next_loop_spec c s A f v h Hsize (length (chain c B)) (hit (ht s) v h true f) [] B _ s1 (head post) Hs1
      (walked_start sz c A f B HA Hf) Hok1 Hroom1 eq_refl) as Hloop.
    cbn [length] in Hloop. rewrite Nat.add_0_r in Hloop. apply Hloop.
    pose proof (next_of_first (ht s) v h (f :: chain c B) pre x post Hof Hpre Hx) as Hn. cbn [next_of] in Hn.
    destruct (rec_hash f =? h) eqn:Hfh; cbn [negb] in Hn; [done|]. unfold hit. by rewrite Hfh.
Qed.
End Next.

Section Values.
Context {V D : Type}.
Implicit Types (s : htmem V D) (E : list (Z * V)).

(** The values of a hash, in the order of their chain. *)
Definition values_of (h : Z) s : list V :=
  let c := shortened (ht_size (ht s)) h in
  rec_val <$> of_hash h (chain (ht_size (ht s)) c (rotate c (ht_recs (ht s)))).

Lemma scene_values h s L s' : scene (ht_size (ht s)) (shortened (ht_size (ht s)) h) s L s' ->
  values_of h s' = rec_val <$> of_hash h (chain (ht_size (ht s)) (shortened (ht_size (ht s)) h) L).
Proof. by intros (recs & -> & <- & _). Qed.

Lemma find_next_table s v h E pre x post : table_is (ht s) E -> Z.of_nat (length E) < ht_size (ht s) ->
  values_of h s = pre ++ x :: post ->
  Forall (fun w => ht_equal (ht s) v w true (ht_data (ht s)) = false) pre -> ht_equal (ht s) v x true (ht_data (ht s)) = true ->
  exists s', kept s s' E /\ values_of h s' = values_of h s /\
    match post with
    | [] => lyht_find_next v h s = Ret (1, None) s'
    | y :: _ => exists j r, lyht_find_next v h s = Ret (0, Some j) s' /\ ht_recs (ht s') !! j = Some r /\ rec_val r = y
    end.
Proof.
  intros Ht Hlt Hv Hpre Hx. pose proof (table_room _ _ Ht Hlt) as Hroom. pose proof Ht as (Hsz & Hok & HE & _).
  set (sz := ht_size (ht s)) in *. set (c := shortened sz h).
  destruct (scene_start sz Hsz s h Hok Hroom) as (L & Hs & Hc & HroomL & HEL & _). fold c in Hs, Hc.
  rewrite (scene_values h s L s Hs) in Hv. apply fmap_app_inv in Hv as (P & Q & -> & HQ & HPQ). symmetry in HQ.
  apply fmap_cons_inv in HQ as (xr & Post & -> & -> & ->). fold sz c in HPQ.
  assert (forall r, r ∈ P ++ xr :: Post -> rec_hash r = h) as Hh by (intros r Hr; rewrite <- HPQ in Hr; by apply list_elem_of_filter in Hr as [? _]).
  destruct (find_next_chain sz Hsz s L v h P xr Post eq_refl Hs Hc HroomL HPQ) as (L' & s' & Hs' & Hsame & Hres).
  - apply Forall_forall. intros r Hr. unfold hit. rewrite Forall_forall in Hpre. rewrite (Hpre (rec_val r)) by (apply list_elem_of_fmap; eauto). apply andb_false_r.
  - unfold hit. rewrite Hx, (Hh xr) by set_solver. by rewrite Z.eqb_refl.
  - exists s'. pose proof Hsame as (Hok' & Hch & HE'). split; [|split].
    + apply holds_kept; [done|]. eapply scene_holds; [exact Hs'|done|]. by rewrite HE', HEL.
    + rewrite (scene_values h s L' s' Hs'), (scene_values h s L s Hs). fold sz. by rewrite Hch.
    + destruct Post as [|y Post]; cbn in Hres |- *; [done|]. destruct Hres as (p & Hr & Hp). eexists _, y. split; [done|]. split; [|done]. by eapply scene_record.
Qed.

(** They are the values of the contents with that hash. *)
Lemma of_hash_entries sz h (L : list (ht_rec V)) : (rec_val <$> of_hash h (chain sz (shortened sz h) L)) = (filter (fun e : Z * V => e.1 = h) (entries L)).*2.
Proof.
  induction L as [|r L IH]; [done|]. destruct (decide (0 < rec_hits r)) as [Hpos|Hneg].
  - rewrite entries_live by done. rewrite filter_cons. cbn [fst]. destruct (decide (rec_hash r = h)) as [Hh|Hh].
    + rewrite chain_cons_mine by (apply mine_true; by rewrite Hh). rewrite of_hash_cons, (proj2 (Z.eqb_eq _ _) Hh). cbn. by rewrite IH.
    + rewrite <- IH. destruct (mine sz (shortened sz h) r) eqn:Hm.
      * by rewrite chain_cons_mine, of_hash_cons, (proj2 (Z.eqb_neq _ _) Hh).
      * by rewrite chain_cons_other.
  - rewrite entries_dead by lia. rewrite chain_cons_other by (apply mine_dead; lia). done.
Qed.

Lemma values_of_contents h s E : table_is (ht s) E -> values_of h s ≡ₚ (filter (fun e : Z * V => e.1 = h) E).*2.
Proof.
  intros (_ & _ & HE & _). unfold values_of. cbv zeta. rewrite of_hash_entries. by rewrite rotate_Permutation, HE.
Qed.

(** Calling lyht_find_next until it has no more values. *)
Fixpoint next_all (fuel : nat) (h : Z) (v : V) : M (htmem V D) (list V) :=
  match fuel with
  | O => no_fuel
  | S fuel =>
      r ← lyht_find_next v h;
      match r.2 with
      | None => mret []
      | Some j => rec ← lyht_get_rec j; rest ← next_all fuel h (rec_val rec); mret (rec_val rec :: rest)
      end
  end.

Lemma get_rec_eq s j r : ht_recs (ht s) !! j = Some r -> lyht_get_rec j s = Ret r s.
Proof. intros Hj. unfold lyht_get_rec. rewrite (bind_ret_eq _ _ _ _ _ (get_table_eq s)). by rewrite Hj. Qed.

Lemma next_all_spec h E : forall post pre x s, table_is (ht s) E -> Z.of_nat (length E) < ht_size (ht s) ->
  (forall v w, ht_equal (ht s) v w true (ht_data (ht s)) = true <-> v = w) ->
  values_of h s = pre ++ x :: post -> NoDup (pre ++ x :: post) ->
  exists s', next_all (S (length post)) h x s = Ret post s' /\ kept s s' E.
Proof.
  induction post as [|y post IH]; intros pre x s Ht Hlt Hcb Hv Hnd; cbn [next_all length].
  all: assert (Forall (fun w => ht_equal (ht s) x w true (ht_data (ht s)) = false) pre) as Hpre
    by (apply Forall_forall; intros w Hw; apply not_true_is_false; intros <-%Hcb; apply NoDup_app in Hnd as (_ & Hnd & _); apply (Hnd x Hw); by left).
  all: destruct (find_next_table s x h E pre x _ Ht Hlt Hv Hpre) as (s1 & Hk & Hv1 & Hres); [by apply Hcb|].
  - rewrite (bind_ret_eq _ _ _ _ _ Hres). by exists s1.
  - destruct Hres as (j & r & He & Hj & Hr). rewrite (bind_ret_eq _ _ _ _ _ He). cbn [snd]. rewrite (bind_ret_eq _ _ _ _ _ (get_rec_eq _ _ _ Hj)), Hr.
    pose proof Hk as (Ht1 & [Hc1 Hc2] & Hc3 & _). replace (pre ++ x :: y :: post) with ((pre ++ [x]) ++ y :: post) in Hv, Hnd by (by rewrite <- app_assoc).
    destruct (IH (pre ++ [x]) y s1 Ht1) as (s2 & He2 & Hk2); [by rewrite Hc3|by rewrite Hc1, Hc2|by rewrite Hv1|done|].
    cbn [next_all length] in He2. rewrite (bind_ret_eq _ _ _ _ _ He2). exists s2. split; [done|]. by eapply kept_trans.
Qed.
End Values.

(** lyht_find_next visits every value of a hash once. In a table with room whose
    callback recognises, for a modification, exactly the value itself, the values with
    a hash have an order, and calling lyht_find_next from one of them, until it returns
    1, gives those behind it in that order; the contents of the table stay the same. *)
Theorem find_next_visits {V D} (s : htmem V D) E h pre x post :
  table_is (ht s) E -> Z.of_nat (length E) < ht_size (ht s) ->
  (forall v w, ht_equal (ht s) v w true (ht_data (ht s)) = true <-> v = w) ->
  values_of h s = pre ++ x :: post -> NoDup (values_of h s) ->
  values_of h s ≡ₚ (filter (fun e : Z * V => e.1 = h) E).*2 /\
  exists s', next_all (S (length post)) h x s = Ret post s' /\ table_is (ht s') E.
Proof.
  intros Ht Hlt Hcb Hv Hnd. split; [by apply values_of_contents|]. rewrite Hv in Hnd.
  destruct (next_all_spec h E post pre x s Ht Hlt Hcb Hv Hnd) as (s' & He & Hk). exists s'. split; [done|apply Hk].
Qed.

(** Three values with the hash 3, and one of another hash in their chain. *)
Definition chain_ops : list (ht_op Z) := [HtInsert 1 3; HtInsert 2 3; HtInsert 3 11; HtInsert 4 3].

Lemma find_next_visits_witness :
  exists s s' E, run_ops 0 (fun _ => false) chain_ops (HtMem eight 2) = Ret [(0, Some 1); (0, Some 2); (0, Some 3); (0, Some 4)] s /\
    values_of 3 s = [1; 2; 4] /\ next_all 3 3 1 s = Ret [2; 4] s' /\ table_is (ht s') E.
Proof.
  destruct (run_ops_set 0 (fun _ => false) (fun _ => eq_refl) num_cb tt num_cb_set chain_ops [] (HtMem eight 2)) as (rs & s & E & He & _ & Hi);
    [apply eight_inv|repeat constructor; vm_compute; congruence|vm_compute; reflexivity|].
  pose proof Hi as (Ht & Hcb & Hd & Hsp & _). pose proof He as He'. vm_compute in He'. injection He' as Hrs Hs.
  assert (values_of 3 s = [1; 2; 4]) as Hv by (rewrite <- Hs; reflexivity).
  destruct (find_next_visits s E 3 [] 1 [2; 4] Ht (spacious_room _ _ Ht Hsp)) as (_ & s' & Hn & Ht').
  - intros v w. rewrite Hcb. apply Z.eqb_eq.
  - exact Hv.
  - rewrite Hv. apply (bool_decide_unpack _). vm_compute. done.
  - exists s, s', E. split; [rewrite He, <- Hrs; reflexivity|]. split; [exact Hv|]. split; [exact Hn|exact Ht'].
Defined.
