(* ===== verification/Dict.v ===== *)
(** * libyang/src/hash_table.c: the dictionary of strings

    The dictionary keeps one copy of every string with the number of its users, in a
    hash table of pointers and counters. The strings, those of the callers included,
    are a map from locations to the characters before the NUL. The comparison
    callbacks read the strings: their data is the length that cb_data points to,
    together with the strings as they are when the operation starts, which no
    operation of the table changes. A pointer that is not in the map compares as
    unequal; the invariant of DictThms keeps such pointers out of the table. The lock
    is left out: an operation is one step. *)

From S2P Require Import Prelude CLib HashTable.

Abbreviation strings := (gmap positive (list ascii)).

(** struct dict_rec *)
Record dict_rec := DictRec { value : ptr; refcount : Z }.

(** The length, if cb_data is not NULL, and the strings. *)
Abbreviation cb_data := (option nat * strings)%type.

Abbreviation dict_cb := (values_equal_cb dict_rec cb_data).

(** The strings of two records, when both pointers are there. *)
Definition two_strings (val1 val2 : dict_rec) (m : strings) : option (list ascii * list ascii) :=
  p1 ← value val1; p2 ← value val2; s1 ← m !! p1; s2 ← m !! p2; Some (s1, s2).

Definition lydict_val_eq : dict_cb := fun val1 val2 _ d =>
  match two_strings val1 val2 d.2, d.1 with
  | Some (str1, str2), Some len => strneq str1 str2 len
  | _, _ => false
  end.

Definition lydict_resize_val_eq : dict_cb := fun val1 val2 modif d =>
  match two_strings val1 val2 d.2 with
  | Some (str1, str2) => if modif then streq str1 str2 else lydict_val_eq val1 val2 modif d
  | None => false
  end.

(** ** The hash of a string *)

(** char is signed. *)
Definition schar (c : ascii) : Z := if ord c <? 128 then ord c else ord c - 256.

(** hash += key[i]; hash += (hash << 10); hash ^= (hash >> 6); *)
Definition hash_char (hash : Z) (c : ascii) : Z :=
  let hash := wrap_u32 (hash + schar c) in
  let hash := wrap_u32 (hash + wrap_u32 (Z.shiftl hash 10)) in
  Z.lxor hash (Z.shiftr hash 6).

(** hash += (hash << 3); hash ^= (hash >> 11); hash += (hash << 15); *)
Definition hash_end (hash : Z) : Z :=
  let hash := wrap_u32 (hash + wrap_u32 (Z.shiftl hash 3)) in
  let hash := Z.lxor hash (Z.shiftr hash 11) in
  wrap_u32 (hash + wrap_u32 (Z.shiftl hash 15)).

(** i is a uint32_t and len a size_t: the loop ends for keys of fewer than 2^32
    characters, which the theorems on the dictionary assume. *)
Definition dict_hash (key : list ascii) : Z := hash_end (foldl hash_char 0 key).

Definition dict_hash_multi (hash : Z) (key_part : option (list ascii)) : Z :=
  match key_part with
  | Some key => foldl hash_char hash key
  | None => hash_end hash
  end.

(** ** The dictionary *)
Record dict := Dict { dict_tab : htmem dict_rec cb_data; dict_strings : strings }.

#[global] Program Instance dict_tab_lens : Lens dict (htmem dict_rec cb_data) := {
  view := dict_tab;
  upd t d := Dict t (dict_strings d) }.
Next Obligation. done. Qed.
Next Obligation. by intros []. Qed.
Next Obligation. done. Qed.

Definition no_rec : dict_rec := DictRec NULL 0.

Section Dict.
Context (oom : nat -> bool).

(** lydict_init, on the number of allocations made; without a table there is no
    dictionary. *)
Definition lydict_init (m : strings) : M nat (option dict) := fun n =>
  match lyht_new no_rec oom 1024 lydict_val_eq (None, ∅) 1 n with
  | Ret (Some t) n => Ret (Some (Dict (HtMem t n) m)) n
  | Ret None n => Ret None n
  | Exit c n => Exit c n
  | Undef => Undef
  | NoFuel => NoFuel
  end.

(** The string at a pointer, and free. *)
Definition load_string (p : positive) : M dict (list ascii) := fun d =>
  match dict_strings d !! p with Some s => Ret s d | None => Undef end.

Definition free_string (p : ptr) : M dict unit := fun d =>
  match p with
  | None => Ret tt d
  | Some l => if bool_decide (is_Some (dict_strings d !! l)) then Ret tt (Dict (dict_tab d) (delete l (dict_strings d))) else Undef
  end.

(** malloc and a copy of the bytes: a string that ends at their first NUL. *)
Definition alloc_string (bytes : list ascii) : M dict ptr := fun d =>
  let t := dict_tab d in
  let t' := HtMem (ht t) (S (ht_allocs t)) in
  if oom (ht_allocs t) then Ret NULL (Dict t' (dict_strings d))
  else
    let l := fresh (dom (dict_strings d)) in
    Ret (Some l) (Dict t' (<[l := cstr bytes]> (dict_strings d))).

(** lyht_set_cb_data(ctx->dict.hash_tab, (void * )&len) *)
Definition set_len (len : nat) : M dict unit := fun d =>
  match lyht_set_cb_data (Some len, dict_strings d) (dict_tab d) with
  | Ret _ t => Ret tt (Dict t (dict_strings d))
  | Exit c t => Exit c d
  | Undef => Undef
  | NoFuel => NoFuel
  end.

(** A write to the value that match points to. *)
Definition set_match (j : nat) (v : dict_rec) : M dict unit :=
  r ← lift (lyht_get_rec j); lift (set_rec j (HtRec (rec_hash r) (rec_hits r) v)).

Definition lydict_remove (val : ptr) : M dict unit :=
  match val with
  | None => mret tt
  | Some p =>
      str ← load_string p;
      let hash := dict_hash str in
      let rec := DictRec val 0 in
      _ ← set_len (length str);
      r ← lift (lyht_find rec hash);
      match r with
      | (0, Some j) =>
          m ← lift (lyht_get_rec j);
          let match_ := rec_val m in
          let n := wrap_u32 (refcount match_ - 1) in
          _ ← set_match j (DictRec (value match_) n);
          if n =? 0 then
            _ ← lift (lyht_remove_with_resize_cb no_rec oom rec hash (Some lydict_resize_val_eq));
            free_string (value match_)
          else mret tt
      | _ => mret tt
      end
  end.

Definition dict_insert (p : positive) (len : nat) (zerocopy : bool) : M dict ptr :=
  str ← load_string p;
  if (S (length str) <? len)%nat then undef
  else
    let bytes := take len (str ++ [NUL]) in
    let hash := dict_hash bytes in
    _ ← set_len len;
    r ← lift (lyht_insert_with_resize_cb no_rec oom (DictRec (Some p) 1) hash (Some lydict_resize_val_eq) true);
    match r with
    | (1, Some j) =>
        m ← lift (lyht_get_rec j);
        _ ← set_match j (DictRec (value (rec_val m)) (wrap_u32 (refcount (rec_val m) + 1)));
        _ ← (if zerocopy then free_string (Some p) else mret tt);
        mret (value (rec_val m))
    | (0, Some j) =>
        if zerocopy then m ← lift (lyht_get_rec j); mret (value (rec_val m))
        else
          l ← alloc_string bytes;
          m ← lift (lyht_get_rec j);
          _ ← set_match j (DictRec l (refcount (rec_val m)));
          mret l
    | (0, None) | (1, None) => undef
    | _ => mret NULL
    end.

Definition lydict_insert (val : ptr) (len : nat) : M dict ptr :=
  match val with
  | None => mret NULL
  | Some p =>
      str ← load_string p;
      dict_insert p (if (len =? 0)%nat then length str else len) false
  end.

Definition lydict_insert_zc (val : ptr) : M dict ptr :=
  match val with
  | None => mret NULL
  | Some p => str ← load_string p; dict_insert p (length str) true
  end.

(** lydict_clean: the records it warns about, before the table is freed. *)
Definition lydict_clean (d : dict) : list dict_rec :=
  omap (fun r => if rec_hits r =? 1 then Some (rec_val r) else None) (ht_recs (ht (dict_tab d))).
End Dict.
