(* ===== verification/DictThms.v ===== *)
(** * The dictionary as reference-counted strings

    The dictionary refines a finite map from strings to the location of their copy and
    the number of their users. *)

From S2P Require Import Prelude CLib HashTable HashChain HashProbe HashFind HashOps HashUpdate HashResize HashSpec HashValue HashThms Dict.

Abbreviation dict_map := (gmap (list ascii) (positive * Z)).

(** ** The map and the table *)
Definition dict_entry (kv : list ascii * (positive * Z)) : Z * dict_rec :=
  (dict_hash kv.1, DictRec (Some kv.2.1) kv.2.2).

Definition dict_entries (A : dict_map) : list (Z * dict_rec) := map dict_entry (map_to_list A).

(** Every copy is where the map says, and in use. *)
Definition store_ok (A : dict_map) (m : strings) : Prop :=
  map_Forall (fun s x => m !! x.1 = Some s /\ 0 < x.2 < 2 ^ 32) A.

Definition dict_rep (d : dict) (A : dict_map) : Prop :=
  table_is (ht (dict_tab d)) (dict_entries A) /\ ht_equal (ht (dict_tab d)) = lydict_val_eq /\
  spacious (ht (dict_tab d)) /\ ht_size (ht (dict_tab d)) <= 2 ^ 25 /\ store_ok A (dict_strings d).

(** No string of the dictionary goes on behind [s] with the hash of [s]. *)
Definition no_clash (s : list ascii) (A : dict_map) : Prop :=
  map_Forall (fun s' _ => dict_hash s = dict_hash s' -> s `prefix_of` s' -> s' = s) A.

Lemma dict_entries_insert A s x : A !! s = None -> dict_entries (<[s := x]> A) ≡ₚ dict_entry (s, x) :: dict_entries A.
Proof. intros Hs. unfold dict_entries. by rewrite map_to_list_insert. Qed.

Lemma dict_entries_delete A s x : A !! s = Some x -> dict_entries A ≡ₚ dict_entry (s, x) :: dict_entries (delete s A).
Proof. intros Hs. rewrite <- (insert_delete_id A s x Hs) at 1. apply dict_entries_insert. apply lookup_delete_eq. Qed.

Lemma dict_entries_replace A s x y E : A !! s = Some x -> dict_entries A ≡ₚ dict_entry (s, x) :: E ->
  E ≡ₚ dict_entries (delete s A) /\ dict_entry (s, y) :: E ≡ₚ dict_entries (<[s := y]> A).
Proof.
  intros Hs HE. assert (E ≡ₚ dict_entries (delete s A)) as HE'.
  { apply (Permutation_cons_inv (a := dict_entry (s, x))). rewrite <- HE. by apply dict_entries_delete. }
  split; [done|]. rewrite HE', <- (insert_delete_eq A s y), dict_entries_insert by apply lookup_delete_eq. done.
Qed.

Lemma elem_of_dict_entries A e : e ∈ dict_entries A <-> exists s x, A !! s = Some x /\ e = dict_entry (s, x).
Proof.
  unfold dict_entries. rewrite list_elem_of_fmap. split.
  - intros ([s x] & -> & Hs%elem_of_map_to_list). by exists s, x.
  - intros (s & x & Hs & ->). exists (s, x). split; [done|]. by apply elem_of_map_to_list.
Qed.

Lemma length_dict_entries A : length (dict_entries A) = size A.
Proof. unfold dict_entries. by rewrite length_fmap, length_map_to_list. Qed.

Lemma dict_hash_range s : 0 <= dict_hash s < 2 ^ 32.
Proof. unfold dict_hash, hash_end, wrap_u32. apply Z.mod_pos_bound. lia. Qed.

(** ** The callbacks *)
Lemma two_strings_eq m p l T s n c : m !! p = Some T -> m !! l = Some s ->
  two_strings (DictRec (Some p) n) (DictRec (Some l) c) m = Some (T, s).
Proof. intros H1 H2. unfold two_strings. cbn. by rewrite H1, H2. Qed.

Lemma resize_found v w d : lydict_resize_val_eq v w false d = true -> lydict_val_eq v w false d = true.
Proof. unfold lydict_resize_val_eq. by destruct (two_strings v w d.2) as [[]|]. Qed.

Lemma strneq_prefix T s len : (len <= length T)%nat -> strneq T s len = true <-> take len T `prefix_of` s.
Proof.
  intros Hlen. unfold strneq. rewrite bool_decide_eq_true. split.
  - intros He. rewrite He. apply prefix_take.
  - intros [k ->]. rewrite take_app_le by (rewrite length_take; lia). by rewrite take_take, Nat.min_id.
Qed.

Lemma map_distinct m len L : NoDup L.*1 -> Forall (fun kv => m !! kv.2.1 = Some kv.1) L ->
  distinct lydict_resize_val_eq (len, m) (map dict_entry L).
Proof.
  induction L as [|[s [l c]] L IH]; [done|]. cbn [fmap list_fmap map]. intros [Hs Hnd]%NoDup_cons [Hm HL]%Forall_cons.
  split; [|auto]. apply Forall_forall. intros e He _. apply list_elem_of_fmap in He as ([s' [l' c']] & -> & Hin). rewrite Forall_forall in HL.
  pose proof (HL _ Hin) as Hm'. cbn in *. unfold lydict_resize_val_eq. cbn [snd].
  rewrite (two_strings_eq _ _ _ _ _ _ _ Hm Hm'), (two_strings_eq _ _ _ _ _ _ _ Hm' Hm).
  assert (s <> s') as Hne by (intros ->; apply Hs, list_elem_of_fmap; by exists (s', (l', c'))).
  unfold streq. by rewrite !bool_decide_eq_false_2.
Qed.

Lemma dict_distinct m len A : store_ok A m -> distinct lydict_resize_val_eq (len, m) (dict_entries A).
Proof.
  intros Hm. apply map_distinct; [apply NoDup_fst_map_to_list|]. apply Forall_forall. intros [s x] Hin%elem_of_map_to_list.
  by apply Hm in Hin as [? _].
Qed.

(** ** Searching a string *)
Section Search.
Context (A : dict_map) (m : strings) (p : positive) (T : list ascii) (len : nat).
Context (Hm : store_ok A m) (Hp : m !! p = Some T) (Hlen : (len <= length T)%nat) (Hclash : no_clash (take len T) A).
Implicit Types (t : hash_table dict_rec cb_data).

Abbreviation s := (take len T).

Lemma key_equal t n b e : ht_equal t = lydict_val_eq -> ht_data t = (Some len, m) -> e ∈ dict_entries A ->
  equal_entry t (DictRec (Some p) n) (dict_hash s) b e <-> exists x, A !! s = Some x /\ e = dict_entry (s, x).
Proof.
  intros Hcb Hd (s' & [l c] & Hs' & ->)%elem_of_dict_entries. pose proof (Hm _ _ Hs') as [Hl _]. cbn in Hl.
  unfold equal_entry. rewrite Hcb, Hd. unfold lydict_val_eq. cbn [fst snd dict_entry].
  rewrite (two_strings_eq _ _ _ _ _ _ _ Hp Hl), strneq_prefix by done. split.
  - intros [Hh Hpre]. pose proof (Hclash _ _ Hs' (eq_sym Hh) Hpre) as ->. by exists (l, c).
  - intros (x & Hx & He). injection He as Hh Hl' Hc. destruct x as [l' c']. cbn in *. subst.
    pose proof (Hm _ _ Hx) as [Hl'' _]. cbn in Hl''. rewrite Hl in Hl''. injection Hl'' as ->. done.
Qed.

Lemma key_exists t n b : ht_equal t = lydict_val_eq -> ht_data t = (Some len, m) ->
  Exists (equal_entry t (DictRec (Some p) n) (dict_hash s) b) (dict_entries A) <-> is_Some (A !! s).
Proof.
  intros Hcb Hd. rewrite Exists_exists. split.
  - intros (e & He & Heq). apply (key_equal t n b e Hcb Hd He) in Heq as (x & Hx & _). by exists x.
  - intros [x Hx]. exists (dict_entry (s, x)). assert (dict_entry (s, x) ∈ dict_entries A) as Hin by (apply elem_of_dict_entries; eauto).
    split; [done|]. apply (key_equal t n b _ Hcb Hd Hin). by exists x.
Qed.

(** A string that is not there differs from all others while the table is resized. *)
Lemma new_apart n : A !! s = None -> Forall (apart lydict_resize_val_eq (Some len, m) (dict_hash s, DictRec (Some p) n)) (dict_entries A).
Proof.
  intros Hs. apply Forall_forall. intros e (s' & [l c] & Hs' & ->)%elem_of_dict_entries Hh. pose proof (Hm _ _ Hs') as [Hl _]. cbn in *.
  unfold lydict_resize_val_eq. cbn [snd]. rewrite (two_strings_eq _ _ _ _ _ _ _ Hp Hl), (two_strings_eq _ _ _ _ _ _ _ Hl Hp).
  assert (T <> s') as Hne; [|unfold streq; by rewrite !bool_decide_eq_false_2].
  intros ->. pose proof (Hclash _ _ Hs' Hh (prefix_take _ _)) as He. rewrite <- He in Hs. congruence.
Qed.
End Search.

(** ** Steps of the operations *)
Definition with_data (len : nat) (d : dict) : dict :=
  let t := ht (dict_tab d) in
  Dict (HtMem (HashTable (ht_used t) (ht_size t) (ht_equal t) (Some len, dict_strings d) (ht_resize t) (ht_recs t)) (ht_allocs (dict_tab d)))
       (dict_strings d).

Lemma set_len_eq len d : set_len len d = Ret tt (with_data len d).
Proof. done. Qed.

Lemma load_string_eq d p T : dict_strings d !! p = Some T -> load_string p d = Ret T d.
Proof. intros H. unfold load_string. by rewrite H. Qed.

Lemma lift_get_rec d j r : ht_recs (ht (dict_tab d)) !! j = Some r -> lift (lyht_get_rec j) d = Ret r d.
Proof.
  intros Hj. unfold lift, lyht_get_rec. cbn [view dict_tab_lens]. rewrite (bind_ret_eq _ _ _ _ _ (get_table_eq _)), Hj. by destruct d.
Qed.

(** The table of [d'] is that of [d] with the contents [E]. *)
Definition table_of (d d' : dict) (E : list (Z * dict_rec)) : Prop :=
  table_is (ht (dict_tab d')) E /\ ht_equal (ht (dict_tab d')) = ht_equal (ht (dict_tab d)) /\
  spacious (ht (dict_tab d')) /\ ht_size (ht (dict_tab d')) <= 2 ^ 25 /\ ht_data (ht (dict_tab d')) = ht_data (ht (dict_tab d)).

Lemma kept_table_of d t E E0 : kept (dict_tab d) t E -> table_is (ht (dict_tab d)) E0 -> length E = length E0 ->
  spacious (ht (dict_tab d)) -> ht_size (ht (dict_tab d)) <= 2 ^ 25 -> table_of d (upd t d) E.
Proof.
  intros (K1 & [K2 K3] & K4 & K5 & _) Ht Hl Hsp Hsz. split; [done|]. split; [done|]. split; [|split; [cbn; by rewrite K4|done]].
  eapply spacious_less; [exact Hsp|done|done|]. destruct K1 as (_ & _ & _ & K1), Ht as (_ & _ & _ & Ht). cbn. rewrite K1, Ht. lia.
Qed.

Lemma set_match_spec d E j r w : table_of d d E -> ht_recs (ht (dict_tab d)) !! j = Some r -> in_use r ->
  exists E1 d', E ≡ₚ (rec_hash r, rec_val r) :: E1 /\ set_match j w d = Ret tt d' /\ table_of d d' ((rec_hash r, w) :: E1) /\
    dict_strings d' = dict_strings d /\ ht_recs (ht (dict_tab d')) !! j = Some (put_val w r).
Proof.
  intros (Ht & Heq & Hsp & Hsz & _) Hj Hr. unfold set_match. rewrite (bind_ret_eq _ _ _ _ _ (lift_get_rec _ _ _ Hj)).
  destruct (set_value_spec (dict_tab d) E j r w Ht Hj Hr) as (E1 & t & HE & Hset & Hk & Hrecs).
  exists E1, (upd t d). split; [done|]. split; [by apply lift_ret_eq|]. split; [|split; [done|]].
  - eapply kept_table_of; [exact Hk|exact Ht| |done..]. rewrite HE. done.
  - cbn. rewrite Hrecs. apply list_lookup_insert_eq. by eapply lookup_lt_Some.
Qed.

Lemma rep_table d A len : dict_rep d A -> table_of (with_data len d) (with_data len d) (dict_entries A).
Proof. intros (H1 & H2 & H3 & H4 & _). by split_and!. Qed.

Lemma table_of_trans d1 d2 d3 E E' : table_of d1 d2 E -> table_of d2 d3 E' -> table_of d1 d3 E'.
Proof. intros (_ & H1 & _ & _ & H2) (H3 & H4 & H5 & H6 & H7). split_and!; try done; congruence. Qed.

Lemma table_of_self d d' E : table_of d d' E -> table_of d' d' E.
Proof. intros (H1 & H2 & H3 & H4 & H5). by split_and!. Qed.

Lemma table_of_perm d d' E E' : table_of d d' E -> E ≡ₚ E' -> table_of d d' E'.
Proof. intros (H1 & Hrest) HE. split; [by rewrite <- HE|done]. Qed.

Lemma rep_intro d d' m A : ht_equal (ht (dict_tab d)) = lydict_val_eq -> table_of d d' (dict_entries A) -> store_ok A m ->
  dict_rep (Dict (dict_tab d') m) A.
Proof. intros Hcb (H1 & H2 & H3 & H4 & H5) Hm. split_and!; try done. cbn. congruence. Qed.

Lemma store_ok_insert A m s l c : store_ok A m -> m !! l = Some s -> 0 < c < 2 ^ 32 -> store_ok (<[s := (l, c)]> A) m.
Proof. intros Hm Hl Hc. by apply map_Forall_insert_2. Qed.

(** ** lydict_insert *)
Section Insert.
Context (oom : nat -> bool).
Context (d : dict) (A : dict_map) (p : positive) (T : list ascii) (len : nat).
Context (Hrep : dict_rep d A) (Hp : dict_strings d !! p = Some T) (Hlen : (len <= length T)%nat) (Hnul : no_nul T).
Context (Hclash : no_clash (take len T) A) (Hmax : Z.of_nat (S (size A)) < max_values).

Abbreviation s := (take len T).
Abbreviation d1 := (with_data len d).
Abbreviation ins := (lyht_insert_with_resize_cb no_rec oom (DictRec (Some p) 1) (dict_hash s) (Some lydict_resize_val_eq) true).

Lemma insert_bytes : take len (T ++ [NUL]) = s.
Proof. by rewrite take_app_le. Qed.

(** The insertion into the table: the string's record, or a new one, or a new one in
    a table that could not grow. *)
Lemma insert_string :
  (exists l c j r d2, A !! s = Some (l, c) /\ lift ins d1 = Ret (1, Some j) d2 /\ table_of d1 d2 (dict_entries A) /\
     dict_strings d2 = dict_strings d /\ ht_recs (ht (dict_tab d2)) !! j = Some r /\ in_use r /\ (rec_hash r, rec_val r) = dict_entry (s, (l, c))) \/
  (exists j r d2, A !! s = None /\ lift ins d1 = Ret (0, Some j) d2 /\ table_of d1 d2 ((dict_hash s, DictRec (Some p) 1) :: dict_entries A) /\
     dict_strings d2 = dict_strings d /\ ht_recs (ht (dict_tab d2)) !! j = Some r /\ in_use r /\ rec_hash r = dict_hash s /\ rec_val r = DictRec (Some p) 1) \/
  (exists idx d2, A !! s = None /\ lift ins d1 = Ret (-1, idx) d2 /\ oom (ht_allocs (dict_tab d)) = true /\
     table_is (ht (dict_tab d2)) ((dict_hash s, DictRec (Some p) 1) :: dict_entries A) /\ dict_strings d2 = dict_strings d).
Proof.
  destruct Hrep as (Ht & Hcb & Hsp & Hsz & Hm). set (t1 := dict_tab d1).
  assert (table_is (ht t1) (dict_entries A)) as Ht1 by done. assert (spacious (ht t1)) as Hsp1 by done.
  pose proof (key_exists A (dict_strings d) p T len Hm Hp Hlen Hclash (ht t1) 1 true Hcb eq_refl) as Hex.
  destruct (insert_table no_rec oom t1 (DictRec (Some p) 1) (dict_hash s) (Some lydict_resize_val_eq) true (dict_entries A) Ht1
    (spacious_room _ _ Ht1 Hsp1) (dict_hash_range _) Hsz) as [(j & r & t2 & He & Hk & Hj & Hu & Hh)|(Hno & ret & idx & t2 & He & (H1 & [H2 H3] & H4 & H5) & Hmt)].
  - by rewrite length_dict_entries.
  - by apply dict_distinct.
  - rewrite Hex, <- eq_None_not_Some. by apply new_apart.
  - left. apply hit_entry in Hh. pose proof (record_entry _ _ _ _ (proj1 Hk) Hj Hu) as Hin.
    apply (key_equal A (dict_strings d) p T len Hm Hp Hlen Hclash (ht t1) 1 true _ Hcb eq_refl Hin) in Hh as ([l c] & Hx & Heq).
    exists l, c, j, r, (upd t2 d1). split; [done|]. split; [by apply lift_ret_eq|]. split; [by eapply kept_table_of|]. done.
  - right. rewrite Hex, <- eq_None_not_Some in Hno. destruct H5 as [[-> Hsp2]|(-> & Hf & _)].
    2: { right. exists idx, (upd t2 d1). split; [done|]. split; [by apply lift_ret_eq|]. done. }
    left. destruct (Hmt eq_refl) as (j & r & -> & Hj & Hu & Hrh & Hrv).
    { cbn. unfold lydict_resize_val_eq, lydict_val_eq. cbn [fst snd]. rewrite (two_strings_eq _ _ _ _ _ _ _ Hp Hp). by apply bool_decide_eq_true. }
    exists j, r, (upd t2 d1). split; [done|]. split; [by apply lift_ret_eq|]. split; [split_and!; try done; auto|].
    split; [done|]. split; [done|]. split; [done|]. split; [done|]. destruct Hrv as [Hrv|Hrv]; [done|].
    pose proof (record_entry _ _ _ _ H1 Hj Hu) as Hin. rewrite Hrh in Hin. apply elem_of_cons in Hin as [He'|Hin]; [congruence|]. exfalso.
    assert (equal_entry (ht t1) (DictRec (Some p) 1) (dict_hash s) false (dict_hash s, rec_val r)) as Heq.
    { split; [done|]. cbn [snd]. change (ht_equal (ht t1)) with (ht_equal (ht (dict_tab d))). rewrite Hcb. exact (resize_found _ _ _ Hrv). }
    apply (key_equal A (dict_strings d) p T len Hm Hp Hlen Hclash (ht t1) 1 false _ Hcb eq_refl Hin) in Heq as (x & Hx & _). congruence.
Qed.

Lemma dict_insert_start zc : dict_insert oom p len zc d =
  (r ← lift ins;
   match r with
   | (1, Some j) =>
        m ← lift (lyht_get_rec j);
        _ ← set_match j (DictRec (value (rec_val m)) (wrap_u32 (refcount (rec_val m) + 1)));
        _ ← (if zc then free_string (Some p) else mret tt);
        mret (value (rec_val m))
    | (0, Some j) =>
        if zc then m ← lift (lyht_get_rec j); mret (value (rec_val m))
        else
          l ← alloc_string oom s;
          m ← lift (lyht_get_rec j);
          _ ← set_match j (DictRec l (refcount (rec_val m)));
          mret l
    | (0, None) | (1, None) => undef
    | _ => mret NULL
    end) d1.
Proof.
  unfold dict_insert. rewrite (bind_ret_eq _ _ _ _ _ (load_string_eq _ _ _ Hp)), insert_bytes.
  rewrite (proj2 (Nat.ltb_ge _ _)) by lia. by rewrite (bind_ret_eq _ _ _ _ _ (set_len_eq _ _)).
Qed.

(** One more user of a string. *)
Lemma insert_again zc l c : A !! s = Some (l, c) -> c + 1 < 2 ^ 32 -> (zc = true -> map_Forall (fun _ x => x.1 <> p) A) ->
  exists d', dict_insert oom p len zc d = Ret (Some l) d' /\ dict_rep d' (<[s := (l, c + 1)]> A) /\
    dict_strings d' = if zc then delete p (dict_strings d) else dict_strings d.
Proof.
  intros Hs Hc Hzc. destruct insert_string as [(l' & c' & j & r & d2 & Hs' & He & Ht2 & Hm2 & Hj & Hu & Hr)|[(j & r & d2 & Hs' & _)|(idx & d2 & Hs' & _)]]; [|congruence..].
  rewrite Hs in Hs'. injection Hs' as <- <-. rewrite dict_insert_start, (bind_ret_eq _ _ _ _ _ He).
  rewrite (bind_ret_eq _ _ _ _ _ (lift_get_rec _ _ _ Hj)). unfold dict_entry in Hr. cbn [fst snd] in Hr. injection Hr as Hrh Hrv. rewrite Hrv. cbn [value refcount].
  pose proof Hrep as (_ & Hcb & _ & _ & Hm). pose proof (Hm _ _ Hs) as [Hl Hcr]. cbn in Hl, Hcr.
  unfold wrap_u32. rewrite Z.mod_small by lia.
  destruct (set_match_spec d2 _ j r (DictRec (Some l) (c + 1)) (table_of_self _ _ _ Ht2) Hj Hu) as (E1 & d3 & HE & Hset & Ht3 & Hm3 & _).
  rewrite (bind_ret_eq _ _ _ _ _ Hset). rewrite Hrh, Hrv in HE.
  destruct (dict_entries_replace A s (l, c) (l, c + 1) E1 Hs HE) as [_ HE'].
  assert (table_of d1 d3 (dict_entries (<[s := (l, c + 1)]> A))) as Ht4.
  { eapply table_of_trans; [exact Ht2|]. eapply table_of_perm; [exact Ht3|]. by rewrite Hrh, <- HE'. }
  assert (store_ok (<[s := (l, c + 1)]> A) (dict_strings d)) as Hst by (apply store_ok_insert; [done..|lia]).
  destruct zc.
  - assert (free_string (Some p) d3 = Ret tt (Dict (dict_tab d3) (delete p (dict_strings d)))) as Hfree.
    { unfold free_string. rewrite Hm3, Hm2, bool_decide_eq_true_2; [done|by eexists]. }
    rewrite (bind_ret_eq _ _ _ _ _ Hfree). eexists. split; [done|]. split; [|done].
    apply (rep_intro d1); [done..|]. intros s' x Hx. pose proof (Hst _ _ Hx) as [Hx1 Hx2]. split; [|done].
    rewrite lookup_delete_ne; [done|]. intros Hpx. apply lookup_insert_Some in Hx as [[_ <-]|[_ Hx]].
    + by apply (Hzc eq_refl s (l, c) Hs).
    + by apply (Hzc eq_refl s' x Hx).
  - rewrite (bind_ret_eq _ _ _ tt d3 eq_refl). exists d3. split; [done|]. rewrite Hm3, Hm2. split; [|done].
    replace d3 with (Dict (dict_tab d3) (dict_strings d)) by (destruct d3; cbn in *; congruence). by apply (rep_intro d1).
Qed.

(** A failed insertion leaves a record behind, with the pointer of the caller or NULL. *)
Lemma insert_failed d' : A !! s = None -> dict_insert oom p len false d = Ret NULL d' ->
  exists w, (w = Some p \/ w = NULL) /\ table_is (ht (dict_tab d')) ((dict_hash s, DictRec w 1) :: dict_entries A) /\ dict_strings d' = dict_strings d.
Proof.
  intros Hs. destruct insert_string as [(l' & c' & j & r & d2 & Hs' & _)|[(j & r & d2 & _ & He & Ht2 & Hm2 & Hj & Hu & Hrh & Hrv)|(idx & d2 & _ & He & _ & Ht2 & Hm2)]];
    [congruence| |]; rewrite dict_insert_start, (bind_ret_eq _ _ _ _ _ He); cbv iota.
  2: { intros [= <-]. exists (Some p). split; [by left|]. done. }
  unfold alloc_string, mbind at 1, M_bind at 1. destruct (oom (ht_allocs (dict_tab d2))); cbv iota zeta.
  - set (d3 := Dict _ _). rewrite (bind_ret_eq _ _ _ _ _ (lift_get_rec d3 _ _ Hj)), Hrv. cbn [refcount].
    destruct (set_match_spec d3 _ j r (DictRec NULL 1) (table_of_self _ _ _ Ht2) Hj Hu) as (E1 & d4 & HE & Hset & Ht4 & Hm4 & _).
    rewrite (bind_ret_eq _ _ _ _ _ Hset). intros [= <-]. rewrite Hrh, Hrv in HE. apply Permutation_cons_inv in HE.
    exists NULL. split; [by right|]. rewrite Hm4. split; [|done]. rewrite HE, <- Hrh. apply Ht4.
  - set (d3 := Dict _ _). rewrite (bind_ret_eq _ _ _ _ _ (lift_get_rec d3 _ _ Hj)). set (l := fresh _).
    destruct (set_match_spec d3 _ j r (DictRec (Some l) (refcount (rec_val r))) (table_of_self _ _ _ Ht2) Hj Hu) as (E1 & d4 & HE & Hset & _).
    by rewrite (bind_ret_eq _ _ _ _ _ Hset).
Qed.

Context (Hoom : forall n, oom n = false).

Lemma insert_first_zc : A !! s = None -> len = length T ->
  exists d', dict_insert oom p len true d = Ret (Some p) d' /\ dict_rep d' (<[s := (p, 1)]> A) /\ dict_strings d' = dict_strings d.
Proof.
  intros Hs HlenT. destruct insert_string as [(l' & c' & j & r & d2 & Hs' & _)|[(j & r & d2 & _ & He & Ht2 & Hm2 & Hj & Hu & Hrh & Hrv)|(idx & d2 & _ & _ & Hf & _)]]; [congruence| |by rewrite Hoom in Hf].
  rewrite dict_insert_start, (bind_ret_eq _ _ _ _ _ He). cbv iota. rewrite (bind_ret_eq _ _ _ _ _ (lift_get_rec _ _ _ Hj)), Hrv.
  exists d2. split; [done|]. split; [|done]. pose proof Hrep as (_ & Hcb & _ & _ & Hm).
  replace d2 with (Dict (dict_tab d2) (dict_strings d)) by (destruct d2; cbn in *; congruence). apply (rep_intro d1); [done| |].
  - eapply table_of_perm; [exact Ht2|]. by rewrite dict_entries_insert.
  - apply store_ok_insert; [done| |lia]. rewrite Hp. f_equal. rewrite HlenT. symmetry. apply take_ge. lia.
Qed.

Lemma no_nul_cstr x : no_nul x -> cstr x = x.
Proof. induction 1 as [|c x Hc Hx IH]; [done|]. cbn. destruct (Ascii.eqb_spec c NUL); [done|]. by rewrite IH. Qed.

Lemma insert_first : A !! s = None ->
  exists l d', dict_insert oom p len false d = Ret (Some l) d' /\ dict_rep d' (<[s := (l, 1)]> A) /\
    dict_strings d !! l = None /\ dict_strings d' = <[l := s]> (dict_strings d).
Proof.
  intros Hs. destruct insert_string as [(l' & c' & j & r & d2 & Hs' & _)|[(j & r & d2 & _ & He & Ht2 & Hm2 & Hj & Hu & Hrh & Hrv)|(idx & d2 & _ & _ & Hf & _)]]; [congruence| |by rewrite Hoom in Hf].
  rewrite dict_insert_start, (bind_ret_eq _ _ _ _ _ He). cbv iota. pose proof Hrep as (_ & Hcb & _ & _ & Hm).
  set (l := fresh (dom (dict_strings d2))).
  assert (dict_strings d !! l = None) as Hl by (rewrite <- Hm2; apply not_elem_of_dom, is_fresh).
  set (d3 := Dict (HtMem (ht (dict_tab d2)) (S (ht_allocs (dict_tab d2)))) (<[l := s]> (dict_strings d))).
  assert (alloc_string oom s d2 = Ret (Some l) d3) as Ha.
  { unfold alloc_string. rewrite Hoom. unfold d3, l. rewrite Hm2, no_nul_cstr; [done|]. by apply Forall_take. }
  rewrite (bind_ret_eq _ _ _ _ _ Ha). rewrite (bind_ret_eq _ _ _ _ _ (lift_get_rec d3 _ _ Hj)), Hrv. cbn [refcount].
  destruct (set_match_spec d3 _ j r (DictRec (Some l) 1) (table_of_self _ _ _ Ht2) Hj Hu) as (E1 & d4 & HE & Hset & Ht4 & Hm4 & _).
  rewrite (bind_ret_eq _ _ _ _ _ Hset). exists l, d4. split; [done|]. split; [|done]. rewrite Hrh, Hrv in HE. apply Permutation_cons_inv in HE.
  replace d4 with (Dict (dict_tab d4) (<[l := s]> (dict_strings d))) by (destruct d4; cbn in *; congruence). apply (rep_intro d1); [done| |].
  - eapply table_of_trans; [exact Ht2|]. eapply table_of_perm; [exact Ht4|]. by rewrite Hrh, <- HE, dict_entries_insert.
  - apply store_ok_insert; [|apply lookup_insert_eq|lia]. intros s' x Hx. pose proof (Hm _ _ Hx) as [H1 H2]. split; [|done].
    rewrite lookup_insert_ne; [done|]. intros ->. congruence.
Qed.
End Insert.

(** ** lydict_remove *)
Section Remove.
Context (oom : nat -> bool) (Hoom : forall n, oom n = false).
Context (d : dict) (A : dict_map) (p : positive) (T : list ascii).
Context (Hrep : dict_rep d A) (Hp : dict_strings d !! p = Some T) (Hclash : no_clash T A) (Hmax : Z.of_nat (size A) < max_values).

Abbreviation d1 := (with_data (length T) d).
Abbreviation key := (DictRec (Some p) 0).

Lemma whole_string : take (length T) T = T.
Proof. by apply take_ge. Qed.

(** Equal entries of any part of the dictionary. *)
Lemma remove_equal A' t b e : store_ok A' (dict_strings d) -> no_clash T A' -> ht_equal t = lydict_val_eq ->
  ht_data t = (Some (length T), dict_strings d) -> e ∈ dict_entries A' ->
  equal_entry t key (dict_hash T) b e <-> exists x, A' !! T = Some x /\ e = dict_entry (T, x).
Proof.
  intros Hm' Hc' Hcb Hd He. pose proof (key_equal A' (dict_strings d) p T (length T) Hm' Hp (le_n _)) as H.
  rewrite whole_string in H. by apply H.
Qed.

Lemma find_string :
  (exists l c j r d2, A !! T = Some (l, c) /\ lift (lyht_find key (dict_hash T)) d1 = Ret (0, Some j) d2 /\ table_of d1 d2 (dict_entries A) /\
     dict_strings d2 = dict_strings d /\ ht_recs (ht (dict_tab d2)) !! j = Some r /\ in_use r /\ (rec_hash r, rec_val r) = dict_entry (T, (l, c))) \/
  (exists d2, A !! T = None /\ lift (lyht_find key (dict_hash T)) d1 = Ret (1, None) d2 /\ table_of d1 d2 (dict_entries A) /\ dict_strings d2 = dict_strings d).
Proof.
  destruct Hrep as (Ht & Hcb & Hsp & Hsz & Hm). set (t1 := dict_tab d1). assert (table_is (ht t1) (dict_entries A)) as Ht1 by done.
  destruct (find_table t1 key (dict_hash T) _ Ht1 (spacious_room _ _ Ht Hsp)) as (t2 & Hk & [(j & r & He & Hj & Hu & Hh)|[He Hno]]).
  - left. apply hit_entry in Hh. pose proof (record_entry _ _ _ _ (proj1 Hk) Hj Hu) as Hin.
    apply (remove_equal A (ht t1) false _ Hm Hclash Hcb eq_refl Hin) in Hh as ([l c] & Hx & Heq).
    exists l, c, j, r, (upd t2 d1). split; [done|]. split; [by apply lift_ret_eq|]. split; [by eapply kept_table_of|]. done.
  - right. exists (upd t2 d1). split; [|split; [by apply lift_ret_eq|split; [by eapply kept_table_of|done]]].
    apply eq_None_not_Some. intros [x Hx]. apply Hno, Exists_exists. exists (dict_entry (T, x)).
    assert (dict_entry (T, x) ∈ dict_entries A) as Hin by (apply elem_of_dict_entries; eauto).
    split; [done|]. apply (remove_equal A (ht t1) false _ Hm Hclash Hcb eq_refl Hin). by exists x.
Qed.

(** The last user is gone: the record leaves the table. *)
Lemma remove_last d2 l : store_ok (delete T A) (dict_strings d) -> dict_strings d !! l = Some T -> dict_strings d2 = dict_strings d ->
  table_of d1 d2 ((dict_hash T, DictRec (Some l) 0) :: dict_entries (delete T A)) -> (size (delete T A) < size A)%nat ->
  exists ret d3, lift (lyht_remove_with_resize_cb no_rec oom key (dict_hash T) (Some lydict_resize_val_eq)) d2 = Ret ret d3 /\
    table_of d1 d3 (dict_entries (delete T A)) /\ dict_strings d3 = dict_strings d.
Proof.
  intros Hm Hl Hm2 (Ht & Hcb & Hsp & Hsz & Hd) Hsize. destruct Hrep as (_ & Hcb0 & _). set (E := _ :: _) in Ht.
  assert (ht_equal (ht (dict_tab d2)) = lydict_val_eq) as Hcb2 by (by rewrite Hcb). cbn in Hd.
  assert (no_clash T (delete T A)) as Hc' by (by apply map_Forall_delete).
  assert (distinct lydict_resize_val_eq (ht_data (ht (dict_tab d2))) E) as Hdis.
  { rewrite Hd. apply (map_distinct (dict_strings d) _ ((T, (l, 0)) :: map_to_list (delete T A))).
    - apply NoDup_cons. split; [|apply NoDup_fst_map_to_list]. intros ([s x] & Hs & Hin%elem_of_map_to_list)%list_elem_of_fmap. cbn in Hs. subst.
      by rewrite lookup_delete_eq in Hin.
    - constructor; [done|]. apply Forall_forall. intros [s x] Hin%elem_of_map_to_list. by apply Hm in Hin as [? _]. }
  assert (Z.of_nat (length E) < max_values) as HmaxE by (unfold E; cbn [length]; rewrite length_dict_entries; lia).
  destruct (remove_table no_rec oom (dict_tab d2) key (dict_hash T) (Some lydict_resize_val_eq) E Ht (spacious_room _ _ Ht Hsp) Hsz HmaxE Hdis) as
    [(e & E' & ret & t3 & HE & Heq & He & (H1 & [H2 H3] & H4 & H5))|(Hno & _)].
  - exists ret, (upd t3 d2). split; [by apply lift_ret_eq|]. split; [|done].
    assert (e = (dict_hash T, DictRec (Some l) 0)) as ->.
    { assert (e ∈ E) as Hin by (rewrite HE; by left). apply elem_of_cons in Hin as [?|Hin]; [done|].
      apply (remove_equal (delete T A) _ _ _ Hm Hc' Hcb2 Hd Hin) in Heq as (x & Hx & _). by rewrite lookup_delete_eq in Hx. }
    apply Permutation_cons_inv in HE. destruct H5 as [[_ H5]|[_ Hf]]; [|by rewrite Hoom in Hf].
    split; [cbn; by rewrite HE|]. split; [cbn; congruence|]. split; [auto|]. split; [done|]. cbn. congruence.
  - destruct Hno. apply Exists_cons_hd. split; [done|]. cbn [snd]. rewrite Hcb2, Hd. unfold lydict_val_eq. cbn [fst snd].
    rewrite (two_strings_eq _ _ _ _ _ _ _ Hp Hl). by apply bool_decide_eq_true.
Qed.

Lemma lydict_remove_spec : exists d', lydict_remove oom (Some p) d = Ret tt d' /\
  match A !! T with
  | Some (l, c) =>
      if c =? 1 then dict_rep d' (delete T A) /\ dict_strings d' = delete l (dict_strings d)
      else dict_rep d' (<[T := (l, c - 1)]> A) /\ dict_strings d' = dict_strings d
  | None => dict_rep d' A /\ dict_strings d' = dict_strings d
  end.
Proof.
  unfold lydict_remove. rewrite (bind_ret_eq _ _ _ _ _ (load_string_eq _ _ _ Hp)), (bind_ret_eq _ _ _ _ _ (set_len_eq _ _)).
  pose proof Hrep as (_ & Hcb & _ & _ & Hm).
  destruct find_string as [(l & c & j & r & d2 & Hs & He & Ht2 & Hm2 & Hj & Hu & Hr)|(d2 & Hs & He & Ht2 & Hm2)]; rewrite (bind_ret_eq _ _ _ _ _ He), Hs.
  2: { exists d2. split; [done|]. split; [|done].
    replace d2 with (Dict (dict_tab d2) (dict_strings d)) by (destruct d2; cbn in *; congruence). by apply (rep_intro d1). }
  rewrite (bind_ret_eq _ _ _ _ _ (lift_get_rec _ _ _ Hj)). unfold dict_entry in Hr. cbn [fst snd] in Hr. injection Hr as Hrh Hrv. rewrite Hrv. cbn [value refcount].
  pose proof (Hm _ _ Hs) as [Hl Hcr]. cbn in Hl, Hcr. unfold wrap_u32. rewrite Z.mod_small by lia.
  destruct (set_match_spec d2 _ j r (DictRec (Some l) (c - 1)) (table_of_self _ _ _ Ht2) Hj Hu) as (E1 & d3 & HE & Hset & Ht3 & Hm3 & _).
  rewrite (bind_ret_eq _ _ _ _ _ Hset). rewrite Hrh, Hrv in HE. rewrite Hrh in Ht3.
  destruct (dict_entries_replace A T (l, c) (l, c - 1) E1 Hs HE) as [HE1 HE'].
  pose proof (table_of_trans _ _ _ _ _ Ht2 Ht3) as Ht4. destruct (Z.eqb_spec (c - 1) 0) as [H0|H0].
  - replace (c =? 1) with true by (symmetry; apply Z.eqb_eq; lia). rewrite H0 in Ht4.
    destruct (remove_last d3 l) as (ret & d4 & Hrm & Ht5 & Hm5).
    + by apply map_Forall_delete.
    + done.
    + congruence.
    + eapply table_of_perm; [exact Ht4|]. by rewrite HE1.
    + rewrite map_size_delete_Some by (by eexists). assert (size A <> 0)%nat by (intros H%map_size_empty_inv; rewrite H in Hs; by rewrite lookup_empty in Hs). lia.
    + rewrite (bind_ret_eq _ _ _ _ _ Hrm). unfold free_string. rewrite Hm5, bool_decide_eq_true_2 by (by eexists). eexists. split; [done|]. split; [|done].
      apply (rep_intro d1); [done|done|]. intros s' x Hx. apply lookup_delete_Some in Hx as [Hne Hx]. pose proof (Hm _ _ Hx) as [Hx1 Hx2]. split; [|done].
      rewrite lookup_delete_ne; [done|]. intros ->. rewrite Hl in Hx1. congruence.
  - replace (c =? 1) with false by (symmetry; apply Z.eqb_neq; lia). exists d3. split; [done|]. rewrite Hm3, Hm2. split; [|done].
    replace d3 with (Dict (dict_tab d3) (dict_strings d)) by (destruct d3; cbn in *; congruence). apply (rep_intro d1); [done| |].
    + eapply table_of_perm; [exact Ht4|]. by rewrite <- HE'.
    + apply store_ok_insert; [done..|lia].
Qed.
End Remove.

(** ** The operations as steps of the map *)
Inductive dict_op :=
| DInsert (p : positive) (len : nat)
| DInsertZc (p : positive)
| DRemove (p : positive).

Definition run_dict (oom : nat -> bool) (o : dict_op) : M dict ptr :=
  match o with
  | DInsert p len => lydict_insert oom (Some p) len
  | DInsertZc p => lydict_insert_zc oom (Some p)
  | DRemove p => _ ← lydict_remove oom (Some p); mret NULL
  end.

(** The string an insertion is about. *)
Definition key_of (T : list ascii) (len : nat) : list ascii := if (len =? 0)%nat then T else take len T.

Definition more_users (s : list ascii) (A : dict_map) : Prop := forall l c, A !! s = Some (l, c) -> c + 1 < 2 ^ 32.

(** dict_hash counts the characters of a string in a uint32_t. *)
Definition hashable (T : list ascii) : Prop := Z.of_nat (length T) < 2^32.

(** When an operation may be called, with the string at its pointer. *)
Definition op_ok (A : dict_map) (m : strings) (o : dict_op) : Prop :=
  match o with
  | DInsert p len => exists T, m !! p = Some T /\ hashable T /\ (len <= length T)%nat /\ no_nul T /\ no_clash (key_of T len) A /\ more_users (key_of T len) A
  | DInsertZc p => exists T, m !! p = Some T /\ hashable T /\ no_nul T /\ no_clash T A /\ more_users T A /\ map_Forall (fun _ x => x.1 <> p) A
  | DRemove p => exists T, m !! p = Some T /\ hashable T /\ no_clash T A
  end.

(** What it does: the map and the strings before and after, and the pointer returned. *)
Inductive dict_step (A : dict_map) (m : strings) : dict_op -> ptr -> dict_map -> strings -> Prop :=
| step_again p len T l c : m !! p = Some T -> A !! key_of T len = Some (l, c) ->
    dict_step A m (DInsert p len) (Some l) (<[key_of T len := (l, c + 1)]> A) m
| step_copy p len T l : m !! p = Some T -> A !! key_of T len = None -> m !! l = None ->
    dict_step A m (DInsert p len) (Some l) (<[key_of T len := (l, 1)]> A) (<[l := key_of T len]> m)
| step_zc_again p T l c : m !! p = Some T -> A !! T = Some (l, c) ->
    dict_step A m (DInsertZc p) (Some l) (<[T := (l, c + 1)]> A) (delete p m)
| step_zc p T : m !! p = Some T -> A !! T = None -> dict_step A m (DInsertZc p) (Some p) (<[T := (p, 1)]> A) m
| step_remove p T l c : m !! p = Some T -> A !! T = Some (l, c) -> c <> 1 ->
    dict_step A m (DRemove p) NULL (<[T := (l, c - 1)]> A) m
| step_last p T l : m !! p = Some T -> A !! T = Some (l, 1) -> dict_step A m (DRemove p) NULL (delete T A) (delete l m)
| step_absent p T : m !! p = Some T -> A !! T = None -> dict_step A m (DRemove p) NULL A m.

Lemma key_of_take T len : key_of T len = take (if (len =? 0)%nat then length T else len) T.
Proof. unfold key_of. destruct (Nat.eqb_spec len 0); [by rewrite take_ge|done]. Qed.

Definition simulates (oom : nat -> bool) (d : dict) (A : dict_map) (o : dict_op) : Prop :=
  exists r d' A', run_dict oom o d = Ret r d' /\ dict_step A (dict_strings d) o r A' (dict_strings d') /\ dict_rep d' A'.

Section Simulation.
Context (oom : nat -> bool) (Hoom : forall n, oom n = false) (d : dict) (A : dict_map).
Context (Hrep : dict_rep d A) (Hmax : Z.of_nat (S (size A)) < max_values).

Lemma simulate_insert p len : op_ok A (dict_strings d) (DInsert p len) -> simulates oom d A (DInsert p len).
Proof.
  intros (T & Hp & _ & Hlen & Hnul & Hclash & Hmore). unfold simulates. cbn [run_dict]. unfold lydict_insert.
  rewrite (bind_ret_eq _ _ _ _ _ (load_string_eq _ _ _ Hp)). rewrite key_of_take in Hclash, Hmore. pose proof (key_of_take T len) as Hkey.
  set (n := if (len =? 0)%nat then length T else len) in *. assert (n <= length T)%nat as Hn by (unfold n; destruct (len =? 0)%nat; lia).
  destruct (A !! take n T) as [[l c]|] eqn:Hs.
  - destruct (insert_again oom d A p T n Hrep Hp Hn Hclash Hmax false l c Hs (Hmore _ _ Hs)) as (d' & He & Hr & Hm); [done|].
    eexists _, d', _. split; [exact He|]. split; [|exact Hr]. rewrite Hm, <- Hkey. apply step_again; [done|]. by rewrite Hkey.
  - destruct (insert_first oom d A p T n Hrep Hp Hn Hnul Hclash Hmax Hoom Hs) as (l & d' & He & Hr & Hl & Hm).
    eexists _, d', _. split; [exact He|]. split; [|exact Hr]. rewrite Hm, <- Hkey. apply step_copy; [done| |done]. by rewrite Hkey.
Qed.

Lemma simulate_insert_zc p : op_ok A (dict_strings d) (DInsertZc p) -> simulates oom d A (DInsertZc p).
Proof.
  intros (T & Hp & _ & Hnul & Hclash & Hmore & Hown). unfold simulates. cbn [run_dict]. unfold lydict_insert_zc.
  rewrite (bind_ret_eq _ _ _ _ _ (load_string_eq _ _ _ Hp)). assert (take (length T) T = T) as HT by (by apply take_ge).
  destruct (A !! T) as [[l c]|] eqn:Hs.
  - destruct (insert_again oom d A p T (length T) Hrep Hp (le_n _)) with (zc := true) (l := l) (c := c) as (d' & He & Hr & Hm); rewrite ?HT; try done.
    { by apply (Hmore _ _ Hs). }
    rewrite HT in Hr. eexists _, d', _. split; [exact He|]. split; [|exact Hr]. rewrite Hm. by apply step_zc_again.
  - destruct (insert_first_zc oom d A p T (length T) Hrep Hp (le_n _)) as (d' & He & Hr & Hm); rewrite ?HT; try done.
    rewrite HT in Hr. eexists _, d', _. split; [exact He|]. split; [|exact Hr]. rewrite Hm. by apply step_zc.
Qed.

Lemma simulate_remove p : op_ok A (dict_strings d) (DRemove p) -> simulates oom d A (DRemove p).
Proof.
  intros (T & Hp & _ & Hclash). unfold simulates. cbn [run_dict].
  destruct (lydict_remove_spec oom Hoom d A p T Hrep Hp Hclash ltac:(lia)) as (d' & He & Hcase). rewrite (bind_ret_eq _ _ _ _ _ He).
  destruct (A !! T) as [[l c]|] eqn:Hs; [destruct (Z.eqb_spec c 1) as [-> |Hc]|]; destruct Hcase as [Hr Hm]; eexists _, d', _;
    (split; [done|]); (split; [|exact Hr]); rewrite Hm; [by apply step_last|by eapply step_remove|by eapply step_absent].
Qed.
End Simulation.

(** C22. The dictionary refines reference-counted strings. Without a failed
    allocation, lydict_init gives an empty dictionary; and from any dictionary with
    fewer than 25165823 strings, lydict_insert, lydict_insert_zc and lydict_remove
    return and do what the map does: a string that is there gets one more user and its
    one copy is returned, a new one is copied (or the given one is kept), and the copy
    is freed when its last user removes it. The condition is that no string of the
    dictionary with the same hash goes on behind the given one, because the dictionary
    compares only as many characters as the given string has; and strings are shorter
    than 2^32 characters, because dict_hash counts in a uint32_t. lydict_remove finds its
    entry by the string alone: any pointer to an equal string gives one user back, although
    dict.h says that the address is compared too. *)
Theorem dict_refines_map (oom : nat -> bool) : (forall n, oom n = false) ->
  (forall m n, exists d, lydict_init oom m n = Ret (Some d) (S (S n)) /\ dict_rep d ∅ /\ dict_strings d = m) /\
  (forall d A o, dict_rep d A -> op_ok A (dict_strings d) o -> Z.of_nat (S (size A)) < max_values ->
     exists r d' A', run_dict oom o d = Ret r d' /\ dict_step A (dict_strings d) o r A' (dict_strings d') /\ dict_rep d' A').
Proof.
  intros Hoom. split.
  - intros m n. unfold lydict_init. destruct (lyht_new_eq no_rec oom 10 lydict_val_eq (None, ∅) 1 n) as [He Hsz]; [lia|by right|done..|].
    change 1024 with (2 ^ 10). rewrite He. eexists. split; [reflexivity|]. split; [|done]. split; [by apply table_is_empty|]. split; [done|].
    split; [left; by split|]. split; [done|]. apply map_Forall_empty.
  - intros d A o Hrep Hok Hmax. destruct o as [p len|p|p]; [by apply simulate_insert|by apply simulate_insert_zc|by apply simulate_remove].
Qed.

(** The steps of an insertion. *)
Lemma step_insert_inv A m p len r A' m' T : dict_step A m (DInsert p len) r A' m' -> m !! p = Some T ->
  match A !! key_of T len with
  | Some (l, c) => r = Some l /\ A' = <[key_of T len := (l, c + 1)]> A /\ m' = m
  | None => exists l, r = Some l /\ m !! l = None /\ A' = <[key_of T len := (l, 1)]> A /\ m' = <[l := key_of T len]> m
  end.
Proof.
  intros Hs Hp. inversion Hs as [? ? T' l c HT Hc|? ? T' l HT Hn Hl| | | | |]; subst; rewrite Hp in HT; injection HT as <-.
  - by rewrite Hc.
  - rewrite Hn. by exists l.
Qed.

(** Two callers, one with foo and one with the first three characters of foobar, get
    the same copy. *)
Definition two_callers : strings := {[1%positive := lit "foo"; 2%positive := lit "foobar"]}.

Lemma dict_refines_map_witness : let oom := fun _ => false in
  exists d0 d1 d2 l A, lydict_init oom two_callers 0%nat = Ret (Some d0) 2%nat /\ run_dict oom (DInsert 1 0) d0 = Ret (Some l) d1 /\
    run_dict oom (DInsert 2 3) d1 = Ret (Some l) d2 /\ dict_rep d2 A /\ A !! lit "foo" = Some (l, 2).
Proof.
  cbv zeta. destruct (dict_refines_map (fun _ => false) (fun _ => eq_refl)) as [Hinit Hstep].
  destruct (Hinit two_callers 0%nat) as (d0 & Hrun0 & Hr0 & Hm0).
  destruct (Hstep d0 ∅ (DInsert 1 0) Hr0) as (r1 & d1 & A1 & Hrun1 & Hs1 & Hr1).
  { exists (lit "foo"). rewrite Hm0. split; [reflexivity|]. split; [by vm_compute|]. split; [cbn; lia|]. split; [by repeat constructor|]. split; [apply map_Forall_empty|].
    intros l c Hl. by rewrite lookup_empty in Hl. }
  { vm_compute. reflexivity. }
  rewrite Hm0 in Hs1. apply (step_insert_inv _ _ _ _ _ _ _ (lit "foo")) in Hs1 as (l & -> & Hl & -> & Hm1); [|reflexivity].
  change (key_of (lit "foo") 0) with (lit "foo") in *. assert (l <> 2%positive) as Hl2 by (intros ->; vm_compute in Hl; done).
  assert (dict_strings d1 !! 2%positive = Some (lit "foobar")) as Hp2 by (rewrite Hm1, lookup_insert_ne by done; reflexivity).
  destruct (Hstep d1 _ (DInsert 2 3) Hr1) as (r2 & d2 & A2 & Hrun2 & Hs2 & Hr2).
  { exists (lit "foobar"). split; [exact Hp2|]. split; [by vm_compute|]. split; [cbn; lia|]. split; [by repeat constructor|].
    change (key_of (lit "foobar") 3) with (lit "foo"). split.
    - apply map_Forall_insert_2; [done|apply map_Forall_empty].
    - intros l' c'. rewrite lookup_insert_eq. intros [= <- <-]. lia. }
  { rewrite map_size_insert_None by apply lookup_empty. vm_compute. reflexivity. }
  exists d0, d1, d2, l, A2. split; [exact Hrun0|]. split; [exact Hrun1|].
  apply (step_insert_inv _ _ _ _ _ _ _ (lit "foobar")) in Hs2; [|exact Hp2]. change (key_of (lit "foobar") 3) with (lit "foo") in Hs2.
  rewrite lookup_insert_eq in Hs2. destruct Hs2 as (-> & -> & _). split; [exact Hrun2|]. split; [exact Hr2|]. apply lookup_insert_eq.
Defined.

(** C17. A failed insertion is not undone. When lydict_insert of a new string returns
    NULL, because the table could not grow or the copy could not be allocated, the
    table keeps a record for the string: with the pointer of the caller, which is not
    a copy, or with NULL. *)
Theorem dict_insert_failure (oom : nat -> bool) (d d' : dict) (A : dict_map) (p : positive) (T : list ascii) (len : nat) :
  dict_rep d A -> dict_strings d !! p = Some T -> (0 < len <= length T)%nat -> no_clash (take len T) A ->
  Z.of_nat (S (size A)) < max_values -> A !! take len T = None -> lydict_insert oom (Some p) len d = Ret NULL d' ->
  exists w, (w = Some p \/ w = NULL) /\ dict_strings d' = dict_strings d /\
    table_is (ht (dict_tab d')) ((dict_hash (take len T), DictRec w 1) :: dict_entries A).
Proof.
  intros Hrep Hp Hlen Hclash Hmax Hs He. unfold lydict_insert in He. rewrite (bind_ret_eq _ _ _ _ _ (load_string_eq _ _ _ Hp)) in He.
  rewrite (proj2 (Nat.eqb_neq _ _)) in He by lia.
  destruct (insert_failed oom d A p T len Hrep Hp ltac:(lia) Hclash Hmax d' Hs He) as (w & Hw & Ht & Hm). by exists w.
Qed.

(** The copy of the first string cannot be allocated. *)
Lemma dict_insert_failure_witness : let oom := fun n => (2 <=? n)%nat in
  exists d d', lydict_init oom two_callers 0%nat = Ret (Some d) 2%nat /\ lydict_insert oom (Some 1%positive) 3 d = Ret NULL d' /\
    exists w, (w = Some 1%positive \/ w = NULL) /\ table_is (ht (dict_tab d')) [(dict_hash (lit "foo"), DictRec w 1)].
Proof.
  cbv zeta. set (d := Dict (HtMem (HashTable 0 1024 lydict_val_eq (None, ∅) 1 (replicate 1024 (empty_rec no_rec))) 2) two_callers).
  assert (dict_rep d ∅) as Hrep.
  { split; [apply table_is_empty; by exists 10|]. split; [done|]. split; [left; by split|]. split; [done|apply map_Forall_empty]. }
  assert (exists d', lydict_insert (fun n => (2 <=? n)%nat) (Some 1%positive) 3 d = Ret NULL d') as [d' He] by (eexists; vm_compute; reflexivity).
  exists d, d'. split; [reflexivity|]. split; [exact He|].
  assert (two_callers !! 1%positive = Some (lit "foo")) as Hp by reflexivity.
  destruct (dict_insert_failure (fun n => (2 <=? n)%nat) d d' ∅ 1 (lit "foo") 3 Hrep Hp) as (w & Hw & _ & Ht);
    [cbn; lia|apply map_Forall_empty|vm_compute; reflexivity|apply lookup_empty|exact He|].
  exists w. split; [exact Hw|exact Ht].
Defined.

(** ** The hash in parts, and the end of a dictionary *)
Lemma dict_hash_parts parts : dict_hash_multi (foldl (fun h part => dict_hash_multi h (Some part)) 0 parts) None = dict_hash (concat parts).
Proof.
  unfold dict_hash, dict_hash_multi. f_equal. generalize 0 as h. induction parts as [|x parts IH]; intros h; [done|].
  cbn [foldl concat]. by rewrite foldl_app, IH.
Qed.

(** lydict_clean warns about the strings that are left only when they are not the
    first of a chain with collisions: of two colliding strings it reports one. *)
Lemma lydict_clean_first_of_chain v w m n :
  let recs := HtRec 0 2 v :: HtRec 1024 1 w :: replicate 1022 (empty_rec no_rec) in
  lydict_clean (Dict (HtMem (HashTable 2 1024 lydict_val_eq (None, ∅) 1 recs) n) m) = [w].
Proof. cbv zeta. vm_compute. reflexivity. Qed.
