(* ===== verification/SrXpath.v ===== *)
(** * sysrepo/src/utils/xpath.c: walking along a path in place

    The functions cut a path into names, keys and values by writing a NUL behind the
    part they return, and remember the character it replaced; the next call puts it
    back. The state holds the text of the path, which the functions change, and the
    fields of sr_xpath_ctx_t; pointers are offsets into the text, and the offset of
    its end is that of its NUL. A call with a new xpath starts over with that text. *)

From S2P Require Import Prelude CLib.

(** The text, and sr_xpath_ctx_t. *)
Record xctx := XCtx {
  xp_text : list ascii;
  begining : option nat;
  current_node : option nat;
  replaced_position : option nat;
  replaced_char : ascii }.

Definition slash : ascii := "/"%char.
Definition bracket : ascii := "["%char.
Definition apostrophe : ascii := "'"%char.

Definition eqc (c d : ascii) : bool := Ascii.eqb c d.
Definition is_quote (c : ascii) : bool := eqc c apostrophe || eqc c dquote.

(** ** Reading and writing the text *)
Definition read_char (i : nat) : M xctx ascii := fun s =>
  if (i <=? length (xp_text s))%nat then Ret (char_at (xp_text s) i) s else Undef.

(** Only a NUL may be written over the NUL at the end. *)
Definition write_char (i : nat) (c : ascii) : M xctx unit := fun s =>
  let put t := Ret tt (XCtx t (begining s) (current_node s) (replaced_position s) (replaced_char s)) in
  if (i <? length (xp_text s))%nat then put (<[i := c]> (xp_text s))
  else if (i =? length (xp_text s))%nat && eqc c NUL then put (xp_text s)
  else Undef.

Definition set_current (c : option nat) : M xctx unit :=
  modify (fun s => XCtx (xp_text s) (begining s) c (replaced_position s) (replaced_char s)).

Definition set_replaced (p : option nat) (c : ascii) : M xctx unit :=
  modify (fun s => XCtx (xp_text s) (begining s) (current_node s) p c).

Definition deref {A} (p : option nat) (k : nat -> M xctx A) : M xctx A :=
  match p with Some i => k i | None => undef end.

(** The string at a pointer compared with [name]. *)
Definition string_is (name : list ascii) (p : nat) : M xctx bool :=
  s ← get; mret (streq name (cstr (drop p (xp_text s)))).

Definition sr_xpath_recover : M xctx unit :=
  s ← get;
  match replaced_position s with
  | Some p => write_char p (replaced_char s)
  | None => mret tt
  end.

(** How every function starts. *)
Definition start (xpath : option (list ascii)) : M xctx unit :=
  match xpath with
  | Some t => put (XCtx t (Some 0%nat) None (Some 0%nat) (char_at t 0))
  | None => sr_xpath_recover
  end.

(** index = state->replaced_position, behind a quote that was replaced. *)
Definition first_index : M xctx nat :=
  s ← get;
  deref (replaced_position s) (fun p => mret (if is_quote (replaced_char s) then S p else p)).

(** ** The loops: how many characters they pass *)

(** while ( *index != 0 && (quot != NULL || !stop( *index))), following the quotes. *)
Fixpoint skip_quoted (stop : ascii -> bool) (quot : option ascii) (l : list ascii) : nat :=
  match l with
  | [] => 0
  | c :: l =>
      if eqc c NUL then 0
      else
        match quot with
        | Some q => S (skip_quoted stop (if eqc c q then None else quot) l)
        | None => if stop c then 0 else S (skip_quoted stop (if is_quote c then Some c else None) l)
        end
  end%nat.

(** while ( *index != 0 && !stop( *index)) *)
Fixpoint skip_until (stop : ascii -> bool) (l : list ascii) : nat :=
  match l with
  | [] => 0
  | c :: l => if eqc c NUL || stop c then 0 else S (skip_until stop l)
  end%nat.

(** The index a loop ends at, and the character there. *)
Definition scan_to (loop : list ascii -> nat) (i : nat) : M xctx (nat * ascii) :=
  s ← get;
  if (i <=? length (xp_text s))%nat then
    let j := (i + loop (drop i (xp_text s)))%nat in mret (j, char_at (xp_text s) j)
  else undef.

(** replaced_char = *index; replaced_position = index; *index = 0; *)
Definition cut (i : nat) : M xctx unit :=
  c ← read_char i; _ ← set_replaced (Some i) c; write_char i NUL.

(** ** Nodes *)
Definition sr_get_next_node_internal (xpath : option (list ascii)) (skip_namespace : bool) : M xctx (option nat) :=
  _ ← start xpath;
  index ← first_index;
  r ← scan_to (skip_quoted (eqc slash) None) index;
  if eqc r.2 NUL then mret None
  else
    let node := S r.1 in
    _ ← set_current (Some node);
    r ← scan_to (skip_until (fun c => eqc c slash || eqc c ":"%char || eqc c bracket)) node;
    i ← (if eqc r.2 ":"%char then
           _ ← (if skip_namespace then set_current (Some (S r.1)) else mret tt);
           r ← scan_to (skip_until (fun c => eqc c slash || eqc c bracket)) (if skip_namespace then S r.1 else r.1);
           mret r.1
         else mret r.1);
    _ ← cut i;
    s ← get;
    mret (current_node s).

Definition sr_xpath_next_node (xpath : option (list ascii)) : M xctx (option nat) := sr_get_next_node_internal xpath true.

Definition sr_xpath_next_node_with_ns (xpath : option (list ascii)) : M xctx (option nat) := sr_get_next_node_internal xpath false.

(** ** Keys *)
Definition sr_xpath_next_key_name (xpath : option (list ascii)) : M xctx (option nat) :=
  _ ← start xpath;
  index ← first_index;
  r ← scan_to (skip_quoted (fun c => eqc c bracket || eqc c slash) None) index;
  if eqc r.2 NUL || eqc r.2 slash then mret None
  else
    let key := S r.1 in
    r ← scan_to (skip_until (eqc "="%char)) key;
    _ ← (if eqc r.2 "="%char then cut r.1 else mret tt);
    mret (Some key).

Definition sr_xpath_next_key_value (xpath : option (list ascii)) : M xctx (option nat) :=
  _ ← start xpath;
  index ← first_index;
  r ← scan_to (skip_until (fun c => is_quote c || eqc c slash)) index;
  if eqc r.2 NUL || eqc r.2 slash then mret None
  else
    let val_quot := r.2 in
    let value := S r.1 in
    r ← scan_to (skip_until (eqc val_quot)) value;
    _ ← (if eqc r.2 val_quot then cut r.1 else mret tt);
    mret (Some value).

(** ** Searches *)

(** while (NULL != (index = next(NULL, state))) if (0 == strcmp(name, index)) break; *)
Fixpoint search (next : M xctx (option nat)) (fuel : nat) (name : list ascii) : M xctx (option nat) :=
  match fuel with
  | O => no_fuel
  | S fuel =>
      index ← next;
      match index with
      | None => mret None
      | Some p => b ← string_is name p; if b : bool then mret (Some p) else search next fuel name
      end
  end.

(** while (NULL != (node = next(NULL, state)) && cnt++ < index); *)
Fixpoint nth_part (next : M xctx (option nat)) (index : nat) : M xctx (option nat) :=
  node ← next;
  match node, index with
  | None, _ => mret None
  | Some p, O => mret (Some p)
  | Some _, S index => nth_part next index
  end.

(** One step of the text for every node, and one to see that there is none. *)
Definition node_fuel (s : xctx) : nat := S (S (length (xp_text s))).

(** old_pos, old_char *)
Definition saved : M xctx (option nat * ascii) := s ← get; mret (replaced_position s, replaced_char s).

Definition restore (old : option nat * ascii) : M xctx unit := set_replaced old.1 old.2.

(** Start the search from the beginning. *)
Definition rewind : M xctx unit :=
  _ ← set_current None;
  s ← get;
  deref (begining s) (fun b => c ← read_char b; set_replaced (Some b) c).

Definition no_text (xpath : option (list ascii)) (s : xctx) : bool :=
  match begining s, xpath with None, None => true | _, _ => false end.

Definition sr_xpath_node (xpath : option (list ascii)) (node_name : list ascii) : M xctx (option nat) :=
  s ← get;
  if no_text xpath s then mret None
  else
    _ ← start xpath;
    old ← saved;
    _ ← rewind;
    s ← get;
    index ← search (sr_xpath_next_node None) (node_fuel s) node_name;
    _ ← (match index with None => restore old | Some _ => mret tt end);
    mret index.

Definition sr_xpath_node_rel (xpath : option (list ascii)) (node_name : list ascii) : M xctx (option nat) :=
  _ ← start xpath;
  old ← saved;
  s ← get;
  _ ← search (sr_xpath_next_node None) (node_fuel s) node_name;
  s ← get;
  _ ← (match current_node s with None => restore old | Some _ => mret tt end);
  mret (current_node s).

Definition sr_xpath_node_idx (xpath : option (list ascii)) (index : nat) : M xctx (option nat) :=
  s ← get;
  if no_text xpath s then mret None
  else
    _ ← start xpath;
    old ← saved;
    _ ← rewind;
    node ← nth_part (sr_xpath_next_node None) index;
    _ ← (match node with None => restore old | Some _ => mret tt end);
    mret node.

Definition sr_xpath_node_idx_rel (xpath : option (list ascii)) (index : nat) : M xctx (option nat) :=
  _ ← start xpath;
  old ← saved;
  node ← nth_part (sr_xpath_next_node None) index;
  _ ← (match node with None => restore old | Some _ => mret tt end);
  mret node.

(** The keys of the current node, or of the next one if there is none: [find] searches
    them. *)
Definition node_key (xpath : option (list ascii)) (find : M xctx (option nat)) : M xctx (option nat) :=
  _ ← start xpath;
  old ← saved;
  s ← get;
  ok ← (match current_node s with
        | None =>
            index ← sr_xpath_next_node None;
            _ ← sr_xpath_recover;
            mret (match index with None => false | Some _ => true end)
        | Some _ => mret true
        end);
  if negb (ok : bool) then mret None
  else
    s ← get;
    _ ← deref (current_node s) (fun p => c ← read_char p; set_replaced (Some p) c);
    key_xp ← find;
    match key_xp with
    | None => _ ← restore old; mret None
    | Some _ => sr_xpath_next_key_value None
    end.

(** The search for a key by its name need not end: [fuel] bounds it. *)
Definition sr_xpath_node_key_value (fuel : nat) (xpath : option (list ascii)) (key : list ascii) : M xctx (option nat) :=
  node_key xpath (search (sr_xpath_next_key_name None) fuel key).

Definition sr_xpath_node_key_value_idx (xpath : option (list ascii)) (index : nat) : M xctx (option nat) :=
  node_key xpath (nth_part (sr_xpath_next_key_name None) index).

(** A node, then a key of it. *)
Definition key_of_node (xpath : option (list ascii)) (node key : M xctx (option nat)) : M xctx (option nat) :=
  _ ← start xpath;
  old ← saved;
  res ← node;
  match res with
  | None => mret None
  | Some _ =>
      res ← key;
      _ ← (match res with None => restore old | Some _ => mret tt end);
      mret res
  end.

Definition sr_xpath_key_value (fuel : nat) (xpath : option (list ascii)) (node_name key_name : list ascii) : M xctx (option nat) :=
  key_of_node xpath (sr_xpath_node None node_name) (sr_xpath_node_key_value fuel None key_name).

Definition sr_xpath_key_value_idx (xpath : option (list ascii)) (node_index key_index : nat) : M xctx (option nat) :=
  key_of_node xpath (sr_xpath_node_idx None node_index) (sr_xpath_node_key_value_idx None key_index).

(** while (NULL != (res = sr_xpath_next_node(NULL, state))); *)
Fixpoint all_nodes (fuel : nat) : M xctx unit :=
  match fuel with
  | O => no_fuel
  | S fuel =>
      res ← sr_xpath_next_node None;
      match res with None => mret tt | Some _ => all_nodes fuel end
  end.

Definition sr_xpath_last_node (xpath : option (list ascii)) : M xctx (option nat) :=
  _ ← start xpath;
  s ← get;
  _ ← all_nodes (node_fuel s);
  s ← get;
  mret (current_node s).

(** ** The name behind the last slash *)

(** The loop from res = xpath + n down. *)
Fixpoint back (t : list ascii) (quot : option ascii) (n : nat) : nat :=
  match n with
  | O => 0
  | S m =>
      let c := char_at t n in
      match quot with
      | Some q => back t (if eqc c q then None else quot) m
      | None => if eqc c slash then n else back t (if is_quote c then Some c else None) m
      end
  end%nat.

(** An empty text makes the loop start before it. *)
Definition sr_xpath_node_name {S} (xpath : option (list ascii)) : M S (option nat) :=
  match xpath with
  | None => mret None
  | Some [] => undef
  | Some t => mret (match back t None (length t - 1) with O => None | n => Some (1 + n)%nat end)
  end.

Definition sr_xpath_node_name_eq {S} (xpath : option (list ascii)) (node_name : option (list ascii)) : M S bool :=
  res ← sr_xpath_node_name xpath;
  match res, xpath, node_name with
  | Some p, Some t, Some name => mret (streq (drop p t) name)
  | _, _, _ => mret false
  end.
