(* ===== verification/SrXpathRun.v ===== *)
(** * The steps of the path functions

    In every state that the functions reach, the text is the original one but for the
    NUL at the replaced position. The three primitive functions are described on such
    states by what they find behind the replaced position. *)

From S2P Require Import Prelude CLib SrXpath.

(** ** Characters *)
Lemma eqc_spec c d : reflect (c = d) (eqc c d).
Proof. apply Ascii.eqb_spec. Qed.

Lemma eqc_refl c : eqc c c = true.
Proof. apply Ascii.eqb_refl. Qed.

Lemma eqc_ne c d : c <> d -> eqc c d = false.
Proof. intros H. by destruct (eqc_spec c d). Qed.

Lemma char_at_drop t p i : char_at (drop p t) i = char_at t (p + i).
Proof. unfold char_at. by rewrite lookup_drop. Qed.

Lemma char_at_nul t i : no_nul t -> (i < length t)%nat -> char_at t i <> NUL.
Proof.
  intros Ht Hi. unfold char_at. destruct (lookup_lt_is_Some_2 t i Hi) as [c Hc]. rewrite Hc. exact (Forall_lookup_1 _ _ _ _ Ht Hc).
Qed.

Lemma insert_char_at t p : <[p := char_at t p]> t = t.
Proof.
  unfold char_at. destruct (t !! p) as [c|] eqn:Hc; [by apply list_insert_id|]. apply list_insert_ge. by apply lookup_ge_None_1.
Qed.

Lemma skip_quoted_le stop q l : (skip_quoted stop q l <= length l)%nat.
Proof.
  revert q. induction l as [|c l IH]; intros q; [done|]. cbn. destruct (eqc c NUL); [lia|].
  destruct q as [q|]; [specialize (IH (if eqc c q then None else Some q)); lia|].
  destruct (stop c); [lia|]. specialize (IH (if is_quote c then Some c else None)). lia.
Qed.

Lemma skip_until_le stop l : (skip_until stop l <= length l)%nat.
Proof. induction l as [|c l IH]; [done|]. cbn. destruct (eqc c NUL || stop c); lia. Qed.

(** ** States *)
Section Text.
Context (t : list ascii) (Ht : no_nul t).

(** The original text, cut at [p] or not. *)
Definition mk (is_cut : bool) (cur : option nat) (p : nat) : xctx :=
  XCtx (if is_cut then <[p := NUL]> t else t) (Some 0%nat) cur (Some p) (char_at t p).

Definition pos_ok (cur : option nat) (p : nat) : Prop := (p <= length t)%nat /\ forall c, cur = Some c -> (c <= length t)%nat.

Definition xp_ok (s : xctx) : Prop := exists is_cut cur p, s = mk is_cut cur p /\ pos_ok cur p.

Lemma recover_eq b cur p : (p <= length t)%nat -> sr_xpath_recover (mk b cur p) = Ret tt (mk false cur p).
Proof.
  intros Hp. unfold sr_xpath_recover. cbn [replaced_position mk]. unfold mbind, M_bind, get. cbn [replaced_position mk replaced_char].
  unfold write_char. cbn [xp_text mk]. assert (length (if b then <[p:=NUL]> t else t) = length t) as -> by (destruct b; [apply length_insert|done]).
  destruct (Nat.ltb_spec p (length t)) as [H|H].
  - do 2 f_equal. unfold mk. f_equal. destruct b; [rewrite list_insert_insert_eq|]; apply insert_char_at.
  - assert (p = length t) as -> by lia. rewrite Nat.eqb_refl, char_at_end, eqc_refl by lia. cbn [andb].
    do 2 f_equal. unfold mk. f_equal; [by destruct b; [rewrite list_insert_ge|]|..]; by rewrite ?char_at_end.
Qed.

Lemma start_eq b cur p : (p <= length t)%nat -> start None (mk b cur p) = Ret tt (mk false cur p).
Proof. apply recover_eq. Qed.

Definition behind_quote (p : nat) : nat := if is_quote (char_at t p) then S p else p.

Lemma first_index_eq b cur p : first_index (mk b cur p) = Ret (behind_quote p) (mk b cur p).
Proof. done. Qed.

Lemma behind_quote_le p : (p <= length t)%nat -> (behind_quote p <= length t)%nat.
Proof.
  intros Hp. unfold behind_quote. destruct (is_quote (char_at t p)) eqn:Hq; [|done].
  destruct (decide (p < length t)%nat); [lia|]. by rewrite char_at_end in Hq by lia.
Qed.

Lemma behind_quote_ge p : (p <= behind_quote p)%nat.
Proof. unfold behind_quote. destruct (is_quote (char_at t p)); lia. Qed.

Definition stop_at (loop : list ascii -> nat) (i : nat) : nat := (i + loop (drop i t))%nat.

Lemma scan_to_eq loop i cur p : (i <= length t)%nat ->
  scan_to loop i (mk false cur p) = Ret (stop_at loop i, char_at t (stop_at loop i)) (mk false cur p).
Proof.
  intros Hi. unfold scan_to, mbind, M_bind, get. cbn [xp_text mk]. by rewrite (proj2 (Nat.leb_le _ _) Hi).
Qed.

Lemma cut_eq i cur p : (i <= length t)%nat -> cut i (mk false cur p) = Ret tt (mk true cur i).
Proof.
  intros Hi. unfold cut. unfold read_char, mbind at 1, M_bind at 1. cbn [xp_text mk]. rewrite (proj2 (Nat.leb_le _ _) Hi).
  unfold set_replaced, modify, mbind, M_bind. unfold write_char. cbn [xp_text mk begining current_node replaced_position replaced_char].
  destruct (Nat.ltb_spec i (length t)) as [H|H]; [done|].
  assert (i = length t) as -> by lia. rewrite Nat.eqb_refl. cbn. unfold mk. by rewrite list_insert_ge.
Qed.

Lemma set_current_eq c b cur p : set_current c (mk b cur p) = Ret tt (mk b c p).
Proof. done. Qed.

Lemma mret_eq {A} (a : A) (s : xctx) : (mret a : M xctx A) s = Ret a s.
Proof. done. Qed.

(** The string that a cut leaves. *)
Lemma cut_string n j cur : (n <= j <= length t)%nat -> cstr (drop n (xp_text (mk true cur j))) = take (j - n) (drop n t).
Proof.
  intros Hn. cbn [xp_text mk]. rewrite drop_insert_ge by lia. revert Hn. generalize (j - n)%nat as k. intros k Hk.
  assert (no_nul (drop n t)) as Hd by (by apply Forall_drop). revert k Hk Hd. generalize (drop n t) as l. clear.
  intros l k _ Hd. revert k. induction Hd as [|c l Hc Hd IH]; intros k; [by destruct k|]. destruct k as [|k]; [done|]. cbn.
  rewrite eqc_ne by done. by rewrite IH.
Qed.

Lemma no_nul_string l : no_nul l -> cstr l = l.
Proof. induction 1 as [|c l Hc Hl IH]; [done|]. cbn. by rewrite eqc_ne, IH. Qed.

Lemma uncut_string n cur p : cstr (drop n (xp_text (mk false cur p))) = drop n t.
Proof. apply no_nul_string. by apply Forall_drop. Qed.

(** ** The primitives *)

(** The node found from [p], and where it ends. *)
Definition node_at (ns : bool) (p : nat) : option (nat * nat) :=
  let i := stop_at (skip_quoted (eqc slash) None) (behind_quote p) in
  if eqc (char_at t i) NUL then None
  else
    let j := stop_at (skip_until (fun c => eqc c slash || eqc c ":"%char || eqc c bracket)) (S i) in
    let last := stop_at (skip_until (fun c => eqc c slash || eqc c bracket)) in
    if eqc (char_at t j) ":"%char then
      if ns then Some (S j, last (S j)) else Some (S i, last j)
    else Some (S i, j).

Lemma stop_at_le loop i : (forall l, (loop l <= length l)%nat) -> (i <= length t)%nat -> (i <= stop_at loop i <= length t)%nat.
Proof. intros Hl Hi. unfold stop_at. specialize (Hl (drop i t)). rewrite length_drop in Hl. lia. Qed.

Lemma char_in i : (i <= length t)%nat -> char_at t i <> NUL -> (S i <= length t)%nat.
Proof. intros Hi Hc. destruct (decide (i = length t)) as [-> |]; [|lia]. by rewrite char_at_end in Hc. Qed.

Lemma node_at_range ns p n j : (p <= length t)%nat -> node_at ns p = Some (n, j) -> (p < n <= j)%nat /\ (j <= length t)%nat.
Proof.
  intros Hp. unfold node_at. pose proof (behind_quote_le p Hp) as Hb. pose proof (behind_quote_ge p) as Hg.
  pose proof (stop_at_le _ _ (skip_quoted_le (eqc slash) None) Hb) as Hi. set (i := stop_at _ _) in *. clearbody i.
  destruct (eqc_spec (char_at t i) NUL) as [|Hc]; [done|]. apply char_in in Hc; [|lia].
  pose proof (stop_at_le _ _ (skip_until_le (fun c => eqc c slash || eqc c ":"%char || eqc c bracket)) Hc) as Hj. set (j0 := stop_at _ _) in *.
  destruct (eqc_spec (char_at t j0) ":"%char) as [Hcol|]; [|intros Heq; simplify_eq; lia].
  assert (S j0 <= length t)%nat as Hj0 by (apply char_in; [lia|by rewrite Hcol]).
  destruct ns; intros Heq; simplify_eq.
  - pose proof (stop_at_le _ _ (skip_until_le (fun c => eqc c slash || eqc c bracket)) Hj0). lia.
  - pose proof (stop_at_le (skip_until (fun c => eqc c slash || eqc c bracket)) j0 (skip_until_le _) ltac:(lia)). lia.
Qed.

Lemma next_node_eq ns b cur p : (p <= length t)%nat ->
  sr_get_next_node_internal None ns (mk b cur p) =
  match node_at ns p with
  | None => Ret None (mk false cur p)
  | Some (n, j) => Ret (Some n) (mk true (Some n) j)
  end.
Proof.
  intros Hp. unfold sr_get_next_node_internal. rewrite (bind_ret_eq _ _ _ _ _ (start_eq b cur p Hp)).
  rewrite (bind_ret_eq _ _ _ _ _ (first_index_eq _ _ _)). pose proof (behind_quote_le p Hp) as Hb.
  rewrite (bind_ret_eq _ _ _ _ _ (scan_to_eq _ _ _ _ Hb)). cbn [fst snd].
  pose proof (stop_at_le _ _ (skip_quoted_le (eqc slash) None) Hb) as Hi. unfold node_at. set (i := stop_at _ _) in *. clearbody i.
  destruct (eqc_spec (char_at t i) NUL) as [|Hc]; [done|]. apply char_in in Hc; [|lia].
  rewrite (bind_ret_eq _ _ _ _ _ (set_current_eq _ _ _ _)), (bind_ret_eq _ _ _ _ _ (scan_to_eq _ _ _ _ Hc)). cbn [fst snd].
  pose proof (stop_at_le _ _ (skip_until_le (fun c => eqc c slash || eqc c ":"%char || eqc c bracket)) Hc) as Hj. set (j0 := stop_at _ _) in *.
  destruct (eqc_spec (char_at t j0) ":"%char) as [Hcol|].
  2: { rewrite (bind_ret_eq _ _ _ _ _ (mret_eq _ _)). by rewrite (bind_ret_eq _ _ _ _ _ (cut_eq j0 _ _ ltac:(lia))). }
  assert (S j0 <= length t)%nat as Hj0 by (apply char_in; [lia|by rewrite Hcol]). destruct ns.
  - pose proof (stop_at_le _ _ (skip_until_le (fun c => eqc c slash || eqc c bracket)) Hj0) as Hk.
    erewrite bind_ret_eq; [by rewrite (bind_ret_eq _ _ _ _ _ (cut_eq _ (Some (S j0)) p (proj2 Hk)))|].
    rewrite (bind_ret_eq _ _ _ _ _ (set_current_eq _ _ _ _)). by rewrite (bind_ret_eq _ _ _ _ _ (scan_to_eq _ _ _ _ Hj0)).
  - pose proof (stop_at_le (skip_until (fun c => eqc c slash || eqc c bracket)) j0 (skip_until_le _) ltac:(lia)) as Hk.
    erewrite bind_ret_eq; [by rewrite (bind_ret_eq _ _ _ _ _ (cut_eq _ (Some (S i)) p (proj2 Hk)))|].
    rewrite (bind_ret_eq _ _ _ _ _ (mret_eq _ _)). by rewrite (bind_ret_eq _ _ _ _ _ (scan_to_eq _ j0 _ _ ltac:(lia))).
Qed.

(** The key found from [p], and where its name is cut, if it is. *)
Definition key_at (p : nat) : option (nat * option nat) :=
  let i := stop_at (skip_quoted (fun c => eqc c bracket || eqc c slash) None) (behind_quote p) in
  if eqc (char_at t i) NUL || eqc (char_at t i) slash then None
  else
    let j := stop_at (skip_until (eqc "="%char)) (S i) in
    Some (S i, if eqc (char_at t j) "="%char then Some j else None).

(** The value found from [p], and where it is cut. *)
Definition value_at (p : nat) : option (nat * option nat) :=
  let i := stop_at (skip_until (fun c => is_quote c || eqc c slash)) (behind_quote p) in
  if eqc (char_at t i) NUL || eqc (char_at t i) slash then None
  else
    let j := stop_at (skip_until (eqc (char_at t i))) (S i) in
    Some (S i, if eqc (char_at t j) (char_at t i) then Some j else None).

(** The state behind a part. *)
Definition part_state (cur : option nat) (p : nat) (j : option nat) : xctx :=
  match j with Some j => mk true cur j | None => mk false cur p end.

Lemma not_end_in i : (i <= length t)%nat -> eqc (char_at t i) NUL || eqc (char_at t i) slash = false -> (S i <= length t)%nat.
Proof. intros Hi [H _]%orb_false_iff. apply char_in; [done|]. intros He. by rewrite He, eqc_refl in H. Qed.

Lemma key_at_range p n j : (p <= length t)%nat -> key_at p = Some (n, j) -> (p < n <= length t)%nat /\ forall k, j = Some k -> (n <= k < length t)%nat.
Proof.
  intros Hp. unfold key_at. pose proof (behind_quote_le p Hp) as Hb. pose proof (behind_quote_ge p) as Hg.
  pose proof (stop_at_le _ _ (skip_quoted_le (fun c => eqc c bracket || eqc c slash) None) Hb) as Hi. set (i := stop_at _ _) in *. clearbody i.
  destruct (eqc (char_at t i) NUL || eqc (char_at t i) slash) eqn:Hc; [done|]. apply not_end_in in Hc; [|lia].
  pose proof (stop_at_le _ _ (skip_until_le (eqc "="%char)) Hc) as Hj. set (j0 := stop_at _ _) in *. clearbody j0.
  intros Heq. simplify_eq. split; [lia|]. intros k. destruct (eqc_spec (char_at t j0) "="%char) as [He|]; [|done]. intros [= <-].
  assert (S j0 <= length t)%nat by (apply char_in; [lia|by rewrite He]). lia.
Qed.

Lemma value_at_range p n j : (p <= length t)%nat -> value_at p = Some (n, j) -> (p < n <= length t)%nat /\ forall k, j = Some k -> (n <= k < length t)%nat.
Proof.
  intros Hp. unfold value_at. pose proof (behind_quote_le p Hp) as Hb. pose proof (behind_quote_ge p) as Hg.
  pose proof (stop_at_le _ _ (skip_until_le (fun c => is_quote c || eqc c slash)) Hb) as Hi. set (i := stop_at _ _) in *. clearbody i.
  destruct (eqc (char_at t i) NUL || eqc (char_at t i) slash) eqn:Hc; [done|]. pose proof (not_end_in i ltac:(lia) Hc) as Hin.
  pose proof (stop_at_le _ _ (skip_until_le (eqc (char_at t i))) Hin) as Hj. set (j0 := stop_at _ _) in *. clearbody j0.
  intros Heq. simplify_eq. split; [lia|]. intros k. destruct (eqc_spec (char_at t j0) (char_at t i)) as [He|]; [|done]. intros [= <-].
  apply orb_false_iff in Hc as [Hc _]. assert (S j0 <= length t)%nat; [|lia].
  apply char_in; [lia|]. intros Hn. by rewrite <- He, Hn, eqc_refl in Hc.
Qed.

Lemma cut_if_eq (b : bool) i cur p : (b = true -> i <= length t)%nat ->
  (if b then cut i else mret tt) (mk false cur p) = Ret tt (part_state cur p (if b then Some i else None)).
Proof. intros Hi. destruct b; [by apply cut_eq, Hi|done]. Qed.

Lemma next_key_name_eq b cur p : (p <= length t)%nat ->
  sr_xpath_next_key_name None (mk b cur p) =
  match key_at p with None => Ret None (mk false cur p) | Some (n, j) => Ret (Some n) (part_state cur p j) end.
Proof.
  intros Hp. unfold sr_xpath_next_key_name. rewrite (bind_ret_eq _ _ _ _ _ (start_eq b cur p Hp)).
  rewrite (bind_ret_eq _ _ _ _ _ (first_index_eq _ _ _)). pose proof (behind_quote_le p Hp) as Hb.
  rewrite (bind_ret_eq _ _ _ _ _ (scan_to_eq _ _ _ _ Hb)). cbn [fst snd].
  pose proof (stop_at_le _ _ (skip_quoted_le (fun c => eqc c bracket || eqc c slash) None) Hb) as Hi. unfold key_at. set (i := stop_at _ _) in *. clearbody i.
  destruct (eqc (char_at t i) NUL || eqc (char_at t i) slash) eqn:Hc; [done|]. apply not_end_in in Hc; [|lia].
  rewrite (bind_ret_eq _ _ _ _ _ (scan_to_eq _ _ _ _ Hc)). cbn [fst snd].
  pose proof (stop_at_le _ _ (skip_until_le (eqc "="%char)) Hc) as Hj. set (j0 := stop_at _ _) in *. clearbody j0.
  by rewrite (bind_ret_eq _ _ _ _ _ (cut_if_eq _ j0 cur p (fun _ => proj2 Hj))).
Qed.

Lemma next_key_value_eq b cur p : (p <= length t)%nat ->
  sr_xpath_next_key_value None (mk b cur p) =
  match value_at p with None => Ret None (mk false cur p) | Some (n, j) => Ret (Some n) (part_state cur p j) end.
Proof.
  intros Hp. unfold sr_xpath_next_key_value. rewrite (bind_ret_eq _ _ _ _ _ (start_eq b cur p Hp)).
  rewrite (bind_ret_eq _ _ _ _ _ (first_index_eq _ _ _)). pose proof (behind_quote_le p Hp) as Hb.
  rewrite (bind_ret_eq _ _ _ _ _ (scan_to_eq _ _ _ _ Hb)). cbn [fst snd].
  pose proof (stop_at_le _ _ (skip_until_le (fun c => is_quote c || eqc c slash)) Hb) as Hi. unfold value_at. set (i := stop_at _ _) in *. clearbody i.
  destruct (eqc (char_at t i) NUL || eqc (char_at t i) slash) eqn:Hc; [done|]. pose proof (not_end_in i ltac:(lia) Hc) as Hin.
  rewrite (bind_ret_eq _ _ _ _ _ (scan_to_eq _ _ _ _ Hin)). cbn [fst snd].
  pose proof (stop_at_le _ _ (skip_until_le (eqc (char_at t i))) Hin) as Hj. set (j0 := stop_at _ _) in *. clearbody j0.
  by rewrite (bind_ret_eq _ _ _ _ _ (cut_if_eq _ j0 cur p (fun _ => proj2 Hj))).
Qed.

(** ** Safety *)
Definition ptr_ok (r : option nat) : Prop := forall x, r = Some x -> (x <= length t)%nat.

(** The text is the original one. *)
Definition whole (s : xctx) : Prop := exists cur p, s = mk false cur p /\ pos_ok cur p.

Definition ends (endless : bool) (o : outcome xctx (option nat)) : Prop :=
  match o with
  | Ret r s' => ptr_ok r /\ xp_ok s' /\ (r = None -> whole s')
  | NoFuel => endless = true
  | _ => False
  end.

(** [m] returns a pointer into the text, in a state of this text, which is whole when
    there is no pointer; it may go on for ever only if [endless]. *)
Definition good (endless : bool) (m : M xctx (option nat)) : Prop := forall s, xp_ok s -> ends endless (m s).

Lemma mk_ok b cur p : pos_ok cur p -> xp_ok (mk b cur p).
Proof. intros H. by exists b, cur, p. Qed.

Lemma mk_whole cur p : pos_ok cur p -> whole (mk false cur p).
Proof. intros H. by exists cur, p. Qed.

Lemma whole_ok s : whole s -> xp_ok s.
Proof. intros (cur & p & -> & H). by apply mk_ok. Qed.

Lemma ends_none b cur p : pos_ok cur p -> ends b (Ret None (mk false cur p)).
Proof. intros H. split; [done|]. split; [by apply mk_ok|]. intros _. by apply mk_whole. Qed.

Lemma ends_some b n s : (n <= length t)%nat -> xp_ok s -> ends b (Ret (Some n) s).
Proof. intros Hn Hs. split; [by intros x [= <-]|]. by split. Qed.

Lemma ends_endless e o : ends false o -> ends e o.
Proof. by destruct o. Qed.

Lemma good_next_node ns : good false (sr_get_next_node_internal None ns).
Proof.
  intros s (b & cur & p & -> & Hp & Hcur). rewrite next_node_eq by done. destruct (node_at ns p) as [[n j]|] eqn:Hn; [|by apply ends_none].
  apply node_at_range in Hn as [H1 H2]; [|done]. apply ends_some; [lia|]. apply mk_ok. split; [done|]. intros c [= <-]. lia.
Qed.

Lemma part_state_ok cur p n j : pos_ok cur p -> (n <= length t)%nat -> (forall k, j = Some k -> (n <= k < length t)%nat) -> xp_ok (part_state cur p j).
Proof.
  intros [Hp Hcur] Hn Hj. destruct j as [k|]; apply mk_ok; [|done]. specialize (Hj k eq_refl). split; [lia|done].
Qed.

Lemma good_next_key_name : good false (sr_xpath_next_key_name None).
Proof.
  intros s (b & cur & p & -> & Hp & Hcur). rewrite next_key_name_eq by done. destruct (key_at p) as [[n j]|] eqn:Hn; [|by apply ends_none].
  apply key_at_range in Hn as [H1 H2]; [|done]. apply ends_some; [lia|]. eapply part_state_ok; [done| |exact H2]. lia.
Qed.

Lemma good_next_key_value : good false (sr_xpath_next_key_value None).
Proof.
  intros s (b & cur & p & -> & Hp & Hcur). rewrite next_key_value_eq by done. destruct (value_at p) as [[n j]|] eqn:Hn; [|by apply ends_none].
  apply value_at_range in Hn as [H1 H2]; [|done]. apply ends_some; [lia|]. eapply part_state_ok; [done| |exact H2]. lia.
Qed.

(** What follows a good computation. *)
Lemma ends_bind e (m : M xctx (option nat)) (k : option nat -> M xctx (option nat)) s : ends e (m s) ->
  (forall n s', (n <= length t)%nat -> xp_ok s' -> ends e (k (Some n) s')) -> (forall s', whole s' -> ends e (k None s')) ->
  ends e ((m ≫= k) s).
Proof.
  intros Hm Hs Hn. unfold mbind, M_bind. destruct (m s) as [r s'| | |]; try done. destruct Hm as (H1 & H2 & H3).
  destruct r as [n|]; [apply Hs; [by apply H1|done]|by apply Hn, H3].
Qed.

Lemma string_is_eq name p s : string_is name p s = Ret (streq name (cstr (drop p (xp_text s)))) s.
Proof. done. Qed.

Lemma good_search next fuel name : good false next -> good true (search next fuel name).
Proof.
  intros Hnext. induction fuel as [|fuel IH]; intros s Hs; [done|]. cbn [search].
  apply ends_bind; [by apply ends_endless, Hnext| |].
  - intros n s' Hn Hs'. rewrite (bind_ret_eq _ _ _ _ _ (string_is_eq _ _ _)). destruct (streq _ _); [by apply ends_some|by apply IH].
  - intros s' Hw. split; [done|]. split; [by apply whole_ok|done].
Qed.

Lemma good_nth next index : good false next -> good false (nth_part next index).
Proof.
  intros Hnext. induction index as [|index IH]; intros s Hs; cbn [nth_part]; (apply ends_bind; [by apply Hnext| |]).
  - intros n s' Hn Hs'. by apply ends_some.
  - intros s' Hw. split; [done|]. split; [by apply whole_ok|done].
  - intros n s' Hn Hs'. by apply IH.
  - intros s' Hw. split; [done|]. split; [by apply whole_ok|done].
Qed.

(** Every node is behind the last: the search for a node ends. *)
Lemma search_node_spec name fuel : forall b cur p, pos_ok cur p -> (length t - p < fuel)%nat ->
  exists r s', search (sr_xpath_next_node None) fuel name (mk b cur p) = Ret r s' /\ ends false (Ret r s') /\ (r <> None -> current_node s' = r).
Proof.
  induction fuel as [|fuel IH]; intros b cur p [Hp Hcur] Hf; [lia|]. cbn [search].
  pose proof (next_node_eq true b cur p Hp) as He. unfold sr_xpath_next_node. destruct (node_at true p) as [[n j]|] eqn:Hn;
    rewrite (bind_ret_eq _ _ _ _ _ He); [|eexists _, _; split; [done|]; split; [by apply ends_none|done]].
  apply node_at_range in Hn as [H1 H2]; [|done]. rewrite (bind_ret_eq _ _ _ _ _ (string_is_eq _ _ _)).
  assert (pos_ok (Some n) j) as Hj by (split; [done|]; intros c [= <-]; lia).
  destruct (streq _ _); [|apply IH; [done|lia]]. eexists _, _. split; [done|]. split; [|done]. apply ends_some; [lia|by apply mk_ok].
Qed.

Lemma search_node_ends name b cur p fuel : pos_ok cur p -> (length t - p < fuel)%nat ->
  ends false (search (sr_xpath_next_node None) fuel name (mk b cur p)).
Proof. intros Hp Hf. by destruct (search_node_spec name fuel b cur p Hp Hf) as (r & s' & -> & ? & _). Qed.

Lemma all_nodes_ends fuel : forall b cur p, pos_ok cur p -> (length t - p < fuel)%nat ->
  exists cur' p', all_nodes fuel (mk b cur p) = Ret tt (mk false cur' p') /\ pos_ok cur' p'.
Proof.
  induction fuel as [|fuel IH]; intros b cur p [Hp Hcur] Hf; [lia|]. cbn [all_nodes].
  pose proof (next_node_eq true b cur p Hp) as He. unfold sr_xpath_next_node. destruct (node_at true p) as [[n j]|] eqn:Hn;
    rewrite (bind_ret_eq _ _ _ _ _ He); [|by exists cur, p].
  apply node_at_range in Hn as [H1 H2]; [|done]. apply IH; [|lia]. split; [done|]. intros c [= <-]. lia.
Qed.

(** ** The composed functions *)
Definition here (p : nat) : option nat * ascii := (Some p, char_at t p).

Lemma saved_eq b cur p : saved (mk b cur p) = Ret (here p) (mk b cur p).
Proof. done. Qed.

Lemma rewind_eq cur p : rewind (mk false cur p) = Ret tt (mk false None 0).
Proof. done. Qed.

Lemma restore_whole p s : whole s -> (p <= length t)%nat -> exists s', restore (here p) s = Ret tt s' /\ whole s'.
Proof. intros (cur & q & -> & Hq & Hc) Hp. eexists. split; [reflexivity|]. exists cur, p. by split. Qed.

Lemma ends_restored e m p s : (p <= length t)%nat -> ends e (m s) ->
  ends e ((r ← m; _ ← (match r with None => restore (here p) | Some _ => mret tt end); mret r) s).
Proof.
  intros Hp Hm. apply ends_bind; [done| |].
  - intros n s' Hn Hs. rewrite (bind_ret_eq _ _ _ _ _ (mret_eq _ _)). by apply ends_some.
  - intros s' Hw. destruct (restore_whole p s' Hw Hp) as (s2 & He & Hw2). rewrite (bind_ret_eq _ _ _ _ _ He).
    split; [done|]. split; [by apply whole_ok|done].
Qed.

Lemma good_node name : good false (sr_xpath_node None name).
Proof.
  intros s (b & cur & p & -> & Hp & Hcur). unfold sr_xpath_node. rewrite (bind_ret_eq get _ _ _ _ eq_refl). cbn [no_text begining mk].
  rewrite (bind_ret_eq _ _ _ _ _ (start_eq b cur p Hp)), (bind_ret_eq _ _ _ _ _ (saved_eq _ _ _)), (bind_ret_eq _ _ _ _ _ (rewind_eq _ _)).
  rewrite (bind_ret_eq get _ _ _ _ eq_refl). apply ends_restored; [done|]. apply search_node_ends; [split; [lia|done]|]. unfold node_fuel. cbn [xp_text mk]. lia.
Qed.

Lemma good_node_rel name : good false (sr_xpath_node_rel None name).
Proof.
  intros s (b & cur & p & -> & Hp & Hcur). unfold sr_xpath_node_rel.
  rewrite (bind_ret_eq _ _ _ _ _ (start_eq b cur p Hp)), (bind_ret_eq _ _ _ _ _ (saved_eq _ _ _)), (bind_ret_eq get _ _ _ _ eq_refl).
  destruct (search_node_spec name (node_fuel (mk false cur p)) false cur p) as (r & s' & He & (H1 & H2 & H3) & H4); [done|unfold node_fuel; cbn [xp_text mk]; lia|].
  rewrite (bind_ret_eq _ _ _ _ _ He), (bind_ret_eq get _ _ _ _ eq_refl). destruct (current_node s') as [c|] eqn:Hc.
  - rewrite (bind_ret_eq _ _ _ _ _ (mret_eq _ _)). apply ends_some; [|done].
    destruct H2 as (b' & cur' & p' & -> & _ & Hcur'). by apply Hcur'.
  - assert (r = None) as -> by (destruct r; [by specialize (H4 ltac:(done))|done]).
    destruct (restore_whole p s' (H3 eq_refl) Hp) as (s2 & He2 & Hw2). rewrite (bind_ret_eq _ _ _ _ _ He2). split; [done|]. split; [by apply whole_ok|done].
Qed.

Lemma good_node_idx index : good false (sr_xpath_node_idx None index).
Proof.
  intros s (b & cur & p & -> & Hp & Hcur). unfold sr_xpath_node_idx. rewrite (bind_ret_eq get _ _ _ _ eq_refl). cbn [no_text begining mk].
  rewrite (bind_ret_eq _ _ _ _ _ (start_eq b cur p Hp)), (bind_ret_eq _ _ _ _ _ (saved_eq _ _ _)), (bind_ret_eq _ _ _ _ _ (rewind_eq _ _)).
  apply ends_restored; [done|]. apply good_nth; [apply good_next_node|]. apply mk_ok. split; [lia|done].
Qed.

Lemma good_node_idx_rel index : good false (sr_xpath_node_idx_rel None index).
Proof.
  intros s (b & cur & p & -> & Hp & Hcur). unfold sr_xpath_node_idx_rel.
  rewrite (bind_ret_eq _ _ _ _ _ (start_eq b cur p Hp)), (bind_ret_eq _ _ _ _ _ (saved_eq _ _ _)).
  apply ends_restored; [done|]. apply good_nth; [apply good_next_node|]. by apply mk_ok.
Qed.

(** The current node, after the next one was looked for if there was none. *)
Lemma node_key_start cur p : pos_ok cur p -> exists cur' p' ok,
  (match cur with
   | None => index ← sr_xpath_next_node None; _ ← sr_xpath_recover; mret (match index with None => false | Some _ => true end)
   | Some _ => mret true
   end) (mk false cur p) = Ret ok (mk false cur' p') /\ pos_ok cur' p' /\ (ok = true -> cur' <> None).
Proof.
  intros [Hp Hcur]. destruct cur as [c|]; [by exists (Some c), p, true|].
  pose proof (next_node_eq true false None p Hp) as He. unfold sr_xpath_next_node. destruct (node_at true p) as [[n j]|] eqn:Hn; rewrite (bind_ret_eq _ _ _ _ _ He).
  - apply node_at_range in Hn as [H1 H2]; [|done]. rewrite (bind_ret_eq _ _ _ _ _ (recover_eq true (Some n) j H2)).
    exists (Some n), j, true. split; [done|]. split; [|done]. split; [done|]. intros c [= <-]. lia.
  - rewrite (bind_ret_eq _ _ _ _ _ (recover_eq false None p Hp)). by exists None, p, false.
Qed.

Lemma to_current_eq c p : (c <= length t)%nat ->
  deref (Some c) (fun p => c ← read_char p; set_replaced (Some p) c) (mk false (Some c) p) = Ret tt (mk false (Some c) c).
Proof. intros Hc. cbn [deref]. unfold read_char, mbind, M_bind. cbn [xp_text mk]. by rewrite (proj2 (Nat.leb_le _ _) Hc). Qed.

Lemma good_node_key e find : good e find -> good e (node_key None find).
Proof.
  intros Hfind s (b & cur & p & -> & Hp & Hcur). unfold node_key.
  rewrite (bind_ret_eq _ _ _ _ _ (start_eq b cur p Hp)), (bind_ret_eq _ _ _ _ _ (saved_eq _ _ _)), (bind_ret_eq get _ _ _ _ eq_refl). cbn [current_node mk].
  destruct (node_key_start cur p (conj Hp Hcur)) as (cur' & p' & ok & He & [Hp' Hcur'] & Hok). rewrite (bind_ret_eq _ _ _ _ _ He).
  destruct ok; cbn [negb]; [|by apply ends_none]. rewrite (bind_ret_eq get _ _ _ _ eq_refl). cbn [current_node mk].
  destruct cur' as [c|]; [|by specialize (Hok eq_refl)]. specialize (Hcur' c eq_refl).
  rewrite (bind_ret_eq _ _ _ _ _ (to_current_eq c p' Hcur')). apply ends_bind.
  - apply Hfind, mk_ok. split; [done|]. by intros x [= <-].
  - intros n s' _ Hs'. apply ends_endless. by apply good_next_key_value.
  - intros s' Hw. destruct (restore_whole p s' Hw Hp) as (s2 & He2 & Hw2). rewrite (bind_ret_eq _ _ _ _ _ He2). split; [done|]. split; [by apply whole_ok|done].
Qed.

Lemma good_key_of_node e node key : good e node -> good e key -> good e (key_of_node None node key).
Proof.
  intros Hn Hk s (b & cur & p & -> & Hp & Hcur). unfold key_of_node.
  rewrite (bind_ret_eq _ _ _ _ _ (start_eq b cur p Hp)), (bind_ret_eq _ _ _ _ _ (saved_eq _ _ _)).
  apply ends_bind; [by apply Hn, mk_ok| |].
  - intros n s' _ Hs'. apply ends_restored; [done|]. by apply Hk.
  - intros s' Hw. split; [done|]. split; [by apply whole_ok|done].
Qed.

Lemma good_last_node : good false (sr_xpath_last_node None).
Proof.
  intros s (b & cur & p & -> & Hp & Hcur). unfold sr_xpath_last_node. rewrite (bind_ret_eq _ _ _ _ _ (start_eq b cur p Hp)), (bind_ret_eq get _ _ _ _ eq_refl).
  destruct (all_nodes_ends (node_fuel (mk false cur p)) false cur p) as (cur' & p' & He & [Hp' Hcur']); [done|unfold node_fuel; cbn [xp_text mk]; lia|].
  rewrite (bind_ret_eq _ _ _ _ _ He), (bind_ret_eq get _ _ _ _ eq_refl). cbn [current_node mk].
  split; [done|]. split; [by apply mk_ok|]. intros _. by apply mk_whole.
Qed.

Lemma good_endless e m : good false m -> good e m.
Proof. intros H s Hs. by apply ends_endless, H. Qed.
End Text.
