(* ===== verification/SrXpathPath.v ===== *)
(** * Paths as texts

    A path of names, with keys in brackets and quoted values, and the text it is
    written as. The lemmas say what the primitive functions find in such a text. *)

From S2P Require Import Prelude CLib SrXpath SrXpathRun.

(** ** Paths *)
Record pred := Pred { p_key : list ascii; p_quote : ascii; p_value : list ascii }.
Record pstep := PStep { st_ns : option (list ascii); st_name : list ascii; st_preds : list pred }.

Definition render_pred (x : pred) : list ascii :=
  bracket :: p_key x ++ "="%char :: p_quote x :: p_value x ++ [p_quote x; "]"%char].

Definition render_preds (ps : list pred) : list ascii := concat (map render_pred ps).

Definition render_name (st : pstep) : list ascii :=
  match st_ns st with Some ns => ns ++ ":"%char :: st_name st | None => st_name st end.

Definition render_step (st : pstep) : list ascii := slash :: render_name st ++ render_preds (st_preds st).

Definition render (path : list pstep) : list ascii := concat (map render_step path).

(** The characters of names, and of keys, that have no meaning of their own. *)
Definition name_char (c : ascii) : Prop := c <> NUL /\ c <> slash /\ c <> ":"%char /\ c <> bracket /\ is_quote c = false.
Definition key_char (c : ascii) : Prop := c <> NUL /\ c <> slash /\ c <> "="%char /\ c <> bracket /\ is_quote c = false.

Definition pred_ok (x : pred) : Prop :=
  Forall key_char (p_key x) /\ is_quote (p_quote x) = true /\ Forall (fun c => c <> NUL /\ c <> p_quote x) (p_value x).

Definition step_ok (st : pstep) : Prop :=
  (match st_ns st with Some ns => Forall name_char ns | None => True end) /\ Forall name_char (st_name st) /\ Forall pred_ok (st_preds st).

Definition path_ok (path : list pstep) : Prop := Forall step_ok path.

Lemma quote_cases q : is_quote q = true -> q = apostrophe \/ q = dquote.
Proof. unfold is_quote. intros [H|H]%orb_true_iff; [left|right]; by apply Ascii.eqb_eq. Qed.

Lemma pred_no_nul x : pred_ok x -> no_nul (render_pred x).
Proof.
  intros (Hk & Hq & Hv). unfold render_pred, no_nul. assert (p_quote x <> NUL) as Hqn by (by apply quote_cases in Hq as [-> | ->]).
  constructor; [done|]. apply Forall_app. split; [eapply Forall_impl; [exact Hk|]; by intros c [? _]|]. constructor; [done|]. constructor; [done|].
  apply Forall_app. split; [eapply Forall_impl; [exact Hv|]; by intros c [? _]|]. by repeat constructor.
Qed.

Lemma concat_no_nul (l : list (list ascii)) : Forall no_nul l -> no_nul (concat l).
Proof. induction 1 as [|x l Hx Hl IH]; [constructor|]. cbn. by apply Forall_app. Qed.

Lemma step_no_nul st : step_ok st -> no_nul (render_step st).
Proof.
  intros (Hns & Hn & Hp). unfold render_step, render_name. constructor; [done|]. apply Forall_app. split.
  - assert (no_nul (st_name st)) as Hname by (eapply Forall_impl; [exact Hn|]; by intros c [? _]).
    destruct (st_ns st) as [ns|]; [|done]. apply Forall_app. split; [eapply Forall_impl; [exact Hns|]; by intros c [? _]|]. by constructor.
  - apply concat_no_nul. apply Forall_map. eapply Forall_impl; [exact Hp|]. apply pred_no_nul.
Qed.

Lemma render_length path : (length path <= length (render path))%nat.
Proof. induction path as [|st path IH]; [done|]. unfold render in *. cbn [map concat]. rewrite length_app. cbn. lia. Qed.

Lemma render_no_nul path : path_ok path -> no_nul (render path).
Proof. intros Hp. apply concat_no_nul. apply Forall_map. eapply Forall_impl; [exact Hp|]. apply step_no_nul. Qed.

(** ** The loops on parts of a text *)
Lemma skip_until_part stop a b : Forall (fun c => c <> NUL /\ stop c = false) a ->
  eqc (char_at b 0) NUL || stop (char_at b 0) = true -> skip_until stop (a ++ b) = length a.
Proof.
  intros Ha Hb. induction Ha as [|c a [H1 H2] Ha IH]; [|cbn; by rewrite eqc_ne, H2, IH].
  destruct b as [|c b]; [done|]. cbn in *. by rewrite Hb.
Qed.

(** A part that the loops that follow quotes pass. *)
Definition gap (stop : ascii -> bool) (x : list ascii) : Prop :=
  forall l, skip_quoted stop None (x ++ l) = (length x + skip_quoted stop None l)%nat.

Lemma gap_nil stop : gap stop [].
Proof. done. Qed.

Lemma gap_app stop x y : gap stop x -> gap stop y -> gap stop (x ++ y).
Proof. intros Hx Hy l. by rewrite <- app_assoc, Hx, Hy, length_app, Nat.add_assoc. Qed.

Lemma gap_plain stop x : Forall (fun c => c <> NUL /\ stop c = false /\ is_quote c = false) x -> gap stop x.
Proof. intros Hx l. induction Hx as [|c x (H1 & H2 & H3) Hx IH]; [done|]. cbn. by rewrite eqc_ne, H2, H3, IH. Qed.

Lemma skip_value stop q v l : q <> NUL -> Forall (fun c => c <> NUL /\ c <> q) v ->
  skip_quoted stop (Some q) (v ++ q :: l) = (S (length v) + skip_quoted stop None l)%nat.
Proof.
  intros Hq Hv. induction Hv as [|c v [H1 H2] Hv IH]; cbn.
  - by rewrite eqc_ne, eqc_refl.
  - rewrite eqc_ne, (eqc_ne c q), IH by done. done.
Qed.

Lemma gap_quoted stop q v : is_quote q = true -> stop q = false -> Forall (fun c => c <> NUL /\ c <> q) v -> gap stop (q :: v ++ [q]).
Proof.
  intros Hq Hs Hv l. assert (q <> NUL) as Hqn by (by apply quote_cases in Hq as [-> | ->]).
  cbn. rewrite eqc_ne, Hs, Hq, <- app_assoc by done. cbn [app]. rewrite skip_value by done. rewrite length_app. cbn. lia.
Qed.

(** The two loops with quotes stop at a slash, or at a slash or a bracket. *)
Definition stops (stop : ascii -> bool) : Prop := stop = eqc slash \/ stop = (fun c => eqc c bracket || eqc c slash).

Lemma stops_other stop c : stops stop -> c <> slash -> c <> bracket -> stop c = false.
Proof. intros [-> | ->] H1 H2; [by apply eqc_ne|]. by rewrite !eqc_ne. Qed.

Lemma stops_slash stop : stops stop -> stop slash = true.
Proof. by intros [-> | ->]. Qed.

(** What is behind the name of a key. *)
Definition pred_tail (x : pred) : list ascii := "="%char :: p_quote x :: p_value x ++ [p_quote x; "]"%char].

Lemma gap_tail stop x : stops stop -> pred_ok x -> gap stop (pred_tail x).
Proof.
  intros Hst (_ & Hq & Hv). unfold pred_tail.
  replace ("="%char :: p_quote x :: p_value x ++ [p_quote x; "]"%char]) with (["="%char] ++ (p_quote x :: p_value x ++ [p_quote x]) ++ ["]"%char])
    by (cbn; by rewrite <- app_assoc).
  assert (stop (p_quote x) = false) as Hsq by (apply quote_cases in Hq as [-> | ->]; by apply stops_other).
  repeat apply gap_app; [|by apply gap_quoted|]; apply gap_plain, Forall_singleton; (split; [done|]); (split; [by apply stops_other|done]).
Qed.

Lemma gap_pred x : pred_ok x -> gap (eqc slash) (render_pred x).
Proof.
  intros Hx. pose proof (gap_tail (eqc slash) x (or_introl eq_refl) Hx) as Ht. destruct Hx as (Hk & _).
  change (render_pred x) with ([bracket] ++ p_key x ++ pred_tail x). apply gap_app; [by apply gap_plain, Forall_singleton|]. apply gap_app; [|done].
  apply gap_plain. eapply Forall_impl; [exact Hk|]. intros c (H1 & H2 & H3 & H4 & H5). split; [done|]. split; [by apply not_eq_sym in H2; apply eqc_ne|done].
Qed.

Lemma gap_preds ps : Forall pred_ok ps -> gap (eqc slash) (render_preds ps).
Proof. induction 1 as [|x ps Hx Hps IH]; [apply gap_nil|]. apply gap_app; [by apply gap_pred|done]. Qed.

Lemma gap_name stop n : stops stop -> Forall name_char n -> gap stop n.
Proof.
  intros Hst Hn. apply gap_plain. eapply Forall_impl; [exact Hn|]. intros c (H1 & H2 & H3 & H4 & H5). split; [done|]. split; [by apply stops_other|done].
Qed.

(** ** Positions in a text *)
Lemma skip_quoted_stop stop l : eqc (char_at l 0) NUL || stop (char_at l 0) = true -> skip_quoted stop None l = 0%nat.
Proof. destruct l as [|c l]; [done|]. cbn. by intros [-> | ->]%orb_true_iff; [|destruct (eqc c NUL)]. Qed.

Lemma head_app (a b : list ascii) (P : ascii -> Prop) : Forall P a -> P (char_at b 0) -> P (char_at (a ++ b) 0).
Proof. intros Ha Hb. destruct Ha; [done|]. done. Qed.

Definition rest_ok (rest : list ascii) : Prop := rest = [] \/ exists r, rest = slash :: r.

Lemma rest_head rest : rest_ok rest -> char_at rest 0 = NUL \/ char_at rest 0 = slash.
Proof. intros [-> |[r ->]]; [by left|by right]. Qed.

Lemma render_rest path : rest_ok (render path).
Proof. destruct path as [|st path]; [by left|]. right. by eexists. Qed.

Lemma preds_head ps rest : rest_ok rest -> char_at (render_preds ps ++ rest) 0 = bracket \/ (ps = [] /\ (char_at rest 0 = NUL \/ char_at rest 0 = slash)).
Proof. intros Hr. destruct ps as [|x ps]; [right; split; [done|by apply rest_head]|by left]. Qed.

Section Positions.
Context (t : list ascii).
Implicit Types (p i j n : nat) (l rest : list ascii).

Lemma char_here i l : drop i t = l -> char_at t i = char_at l 0.
Proof. intros <-. by rewrite char_at_drop, Nat.add_0_r. Qed.

Lemma drop_more i a b : drop i t = a ++ b -> drop (i + length a) t = b.
Proof. intros H. by rewrite <- drop_drop, H, drop_app_length. Qed.

Lemma stop_here loop i a b : drop i t = a ++ b -> loop (a ++ b) = length a ->
  stop_at t loop i = (i + length a)%nat /\ drop (i + length a) t = b /\ char_at t (i + length a) = char_at b 0.
Proof.
  intros Hd Hl. split; [unfold stop_at; by rewrite Hd, Hl|]. pose proof (drop_more _ _ _ Hd) as Hb. split; [done|by apply char_here].
Qed.

Lemma not_behind_quote p : is_quote (char_at t p) = false -> behind_quote t p = p.
Proof. intros H. unfold behind_quote. by rewrite H. Qed.

(** From [p], the keys [ps] and then [rest] are ahead. *)
Definition ready p ps rest : Prop :=
  exists x, drop (behind_quote t p) t = x ++ render_preds ps ++ rest /\ (forall stop, stops stop -> gap stop x).

Lemma ready_here p x ps rest : rest_ok rest -> drop p t = x ++ render_preds ps ++ rest -> Forall (fun c => is_quote c = false) x ->
  (forall stop, stops stop -> gap stop x) -> ready p ps rest.
Proof.
  intros Hr Hd Hx Hg. exists x. split; [|done]. rewrite not_behind_quote; [done|]. rewrite (char_here _ _ Hd).
  apply (head_app x _ (fun c => is_quote c = false)); [done|].
  destruct (preds_head ps rest Hr) as [-> |[-> H]]; [done|]. change (render_preds [] ++ rest) with rest. by destruct H as [-> | ->].
Qed.

Lemma ready_preds p ps rest : rest_ok rest -> drop p t = render_preds ps ++ rest -> ready p ps rest.
Proof. intros Hr Hd. by apply (ready_here p [] ps rest). Qed.

Lemma ready_name p name ps rest : rest_ok rest -> drop p t = name ++ render_preds ps ++ rest -> Forall name_char name -> ready p ps rest.
Proof.
  intros Hr Hd Hn. apply (ready_here p name ps rest); [done..| |].
  - eapply Forall_impl; [exact Hn|]. by intros c (_ & _ & _ & _ & ?).
  - intros stop Hs. by apply gap_name.
Qed.

Lemma ready_tail p x ps rest : drop p t = pred_tail x ++ render_preds ps ++ rest -> pred_ok x -> ready p ps rest.
Proof.
  intros Hd Hx. exists (pred_tail x). split; [|intros stop Hs; by apply gap_tail]. rewrite not_behind_quote; [done|]. by rewrite (char_here _ _ Hd).
Qed.

Lemma ready_value p q ps rest : drop p t = q :: "]"%char :: render_preds ps ++ rest -> is_quote q = true -> ready p ps rest.
Proof.
  intros Hd Hq. exists ["]"%char]. split.
  - unfold behind_quote. rewrite (char_here _ _ Hd). cbn [char_at lookup list_lookup]. rewrite Hq. rewrite <- Nat.add_1_r. by apply (drop_more p [q]).
  - intros stop Hs. apply gap_plain, Forall_singleton. split; [done|]. split; [by apply stops_other|done].
Qed.

(** ** What the primitives find *)
Lemma key_none p rest : ready p [] rest -> rest_ok rest -> key_at t p = None.
Proof.
  intros (x & Hd & Hg) Hr. unfold key_at. cbn [render_preds map concat app] in Hd.
  destruct (stop_here (skip_quoted (fun c => eqc c bracket || eqc c slash) None) _ _ _ Hd) as (-> & _ & ->).
  - rewrite (Hg _ (or_intror eq_refl)), skip_quoted_stop; [lia|]. by destruct (rest_head rest Hr) as [-> | ->].
  - by destruct (rest_head rest Hr) as [-> | ->].
Qed.

Lemma key_some p x ps rest : ready p (x :: ps) rest -> pred_ok x ->
  exists n, key_at t p = Some (n, Some (n + length (p_key x))%nat) /\ drop n t = p_key x ++ pred_tail x ++ render_preds ps ++ rest.
Proof.
  intros (g & Hd & Hg) (Hk & _). unfold key_at.
  replace (render_preds (x :: ps) ++ rest) with (bracket :: p_key x ++ pred_tail x ++ render_preds ps ++ rest) in Hd.
  2: { unfold render_preds. cbn [map concat]. unfold render_pred, pred_tail. by simplify_list_eq. }
  destruct (stop_here (skip_quoted (fun c => eqc c bracket || eqc c slash) None) _ _ _ Hd) as (-> & Hd2 & ->).
  { rewrite (Hg _ (or_intror eq_refl)), skip_quoted_stop; [lia|done]. }
  set (i := (behind_quote t p + length g)%nat) in *. cbn [char_at lookup list_lookup]. change (eqc bracket NUL || eqc bracket slash) with false. cbv iota.
  assert (drop (S i) t = p_key x ++ pred_tail x ++ render_preds ps ++ rest) as Hd3 by (rewrite <- Nat.add_1_r; by apply (drop_more i [bracket])).
  destruct (stop_here (skip_until (eqc "="%char)) _ _ _ Hd3) as (-> & _ & ->).
  { apply skip_until_part; [|done]. eapply Forall_impl; [exact Hk|]. intros c (H1 & H2 & H3 & _). split; [done|]. apply eqc_ne. by apply not_eq_sym. }
  exists (S i). by split.
Qed.

Lemma value_some j x l : drop j t = pred_tail x ++ l -> pred_ok x ->
  exists n, value_at t j = Some (n, Some (n + length (p_value x))%nat) /\ drop n t = p_value x ++ p_quote x :: "]"%char :: l.
Proof.
  intros Hd (_ & Hq & Hv). unfold value_at. rewrite not_behind_quote by (by rewrite (char_here _ _ Hd)).
  change (pred_tail x ++ l) with (["="%char] ++ p_quote x :: (p_value x ++ [p_quote x; "]"%char]) ++ l) in Hd.
  destruct (stop_here (skip_until (fun c => is_quote c || eqc c slash)) _ _ _ Hd) as (-> & Hd2 & ->).
  { apply skip_until_part; [by apply Forall_singleton|]. cbn. rewrite Hq. apply orb_true_r. }
  cbn [char_at lookup list_lookup].
  assert (eqc (p_quote x) NUL || eqc (p_quote x) slash = false) as -> by (by apply quote_cases in Hq as [-> | ->]).
  cbn [length] in *. set (i := (j + 1)%nat) in *. rewrite <- app_assoc in Hd2.
  assert (drop (S i) t = p_value x ++ p_quote x :: "]"%char :: l) as Hd3 by (rewrite <- Nat.add_1_r; by apply (drop_more i [p_quote x])).
  destruct (stop_here (skip_until (eqc (p_quote x))) _ _ _ Hd3) as (-> & _ & ->).
  { apply skip_until_part; [|cbn; rewrite eqc_refl; apply orb_true_r]. eapply Forall_impl; [exact Hv|]. intros c [H1 H2]. split; [done|].
    apply eqc_ne. by apply not_eq_sym. }
  cbn [char_at lookup list_lookup]. rewrite eqc_refl. exists (S i). by split.
Qed.

Lemma node_none p ps : ready p ps [] -> Forall pred_ok ps -> node_at t true p = None.
Proof.
  intros (x & Hd & Hg) Hps. unfold node_at. rewrite app_assoc in Hd.
  destruct (stop_here (skip_quoted (eqc slash) None) _ _ _ Hd) as (-> & _ & ->); [|done].
  rewrite (gap_app _ _ _ (Hg _ (or_introl eq_refl)) (gap_preds ps Hps)). cbn. lia.
Qed.

Lemma node_some p ps st rest : ready p ps (render_step st ++ rest) -> Forall pred_ok ps -> step_ok st -> rest_ok rest ->
  exists n, node_at t true p = Some (n, (n + length (st_name st))%nat) /\ drop n t = st_name st ++ render_preds (st_preds st) ++ rest.
Proof.
  intros (x & Hd & Hg) Hps (Hns & Hn & _) Hr. unfold node_at. rewrite app_assoc in Hd.
  destruct (stop_here (skip_quoted (eqc slash) None) _ _ _ Hd) as (-> & Hd2 & ->).
  { rewrite (gap_app _ _ _ (Hg _ (or_introl eq_refl)) (gap_preds ps Hps)), skip_quoted_stop by done. lia. }
  set (i := (behind_quote t p + length (x ++ render_preds ps))%nat) in *. clearbody i. cbn [char_at lookup list_lookup].
  change (eqc slash NUL) with false. cbv iota.
  assert (drop (S i) t = render_name st ++ render_preds (st_preds st) ++ rest) as Hd3.
  { rewrite <- Nat.add_1_r. apply (drop_more i [slash]). rewrite Hd2. unfold render_step. cbn. by rewrite <- app_assoc. }
  assert (forall stop (w : list ascii), (forall c, name_char c -> stop c = false) -> stop slash = true -> stop bracket = true -> Forall name_char w ->
    skip_until stop (w ++ render_preds (st_preds st) ++ rest) = length w) as Hskip.
  { intros stop w Hs1 Hs2 Hs3 Hnn. apply skip_until_part; [eapply Forall_impl; [exact Hnn|]; intros c Hc; split; [apply Hc|by apply Hs1]|].
    destruct (preds_head (st_preds st) rest Hr) as [-> |[-> H]]; [by rewrite Hs3|]. cbn. destruct H as [-> | ->]; [done|by rewrite Hs2]. }
  unfold render_name in Hd3. destruct (st_ns st) as [ns|].
  - rewrite <- app_assoc in Hd3. cbn [app] in Hd3.
    destruct (stop_here (skip_until (fun c => eqc c slash || eqc c ":"%char || eqc c bracket)) _ _ _ Hd3) as (-> & Hd4 & ->).
    { apply skip_until_part; [|done]. eapply Forall_impl; [exact Hns|]. intros c (H1 & H2 & H3 & H4 & _). by rewrite !eqc_ne. }
    set (j := (S i + length ns)%nat) in *. cbn [char_at lookup list_lookup]. rewrite eqc_refl.
    assert (drop (S j) t = st_name st ++ render_preds (st_preds st) ++ rest) as Hd5 by (rewrite <- Nat.add_1_r; by apply (drop_more j [":"%char])).
    exists (S j). split; [|done]. destruct (stop_here (skip_until (fun c => eqc c slash || eqc c bracket)) _ _ _ Hd5) as (-> & _); [|done].
    apply Hskip; [|done..]. intros c (H1 & H2 & H3 & H4 & _). by rewrite !eqc_ne.
  - destruct (stop_here (skip_until (fun c => eqc c slash || eqc c ":"%char || eqc c bracket)) _ _ _ Hd3) as (-> & Hd4 & ->).
    { apply Hskip; [|done..]. intros c (H1 & H2 & H3 & H4 & _). by rewrite !eqc_ne. }
    assert (eqc (char_at (render_preds (st_preds st) ++ rest) 0) ":"%char = false) as ->
      by (by destruct (preds_head (st_preds st) rest Hr) as [-> |[-> [H|H]]]; cbn in *; rewrite ?H).
    by exists (S i).
Qed.
End Positions.
