(* ===== verification/SrXpathThms.v ===== *)
(** * Theorems on the path functions of sysrepo

    Every function keeps the text recoverable; on the text of a path the walk gives
    its names, keys and values, and the lookup of a key its value; and a predicate
    without an equals sign makes that lookup run for ever. *)

From S2P Require Import Prelude CLib SrXpath SrXpathRun SrXpathPath.

(** ** Any sequence of calls *)
Inductive xop :=
| XNextNode (with_ns : bool)
| XNextKeyName
| XNextKeyValue
| XNode (name : list ascii)
| XNodeRel (name : list ascii)
| XNodeIdx (index : nat)
| XNodeIdxRel (index : nat)
| XNodeKeyValue (key : list ascii)
| XNodeKeyValueIdx (index : nat)
| XKeyValue (name key : list ascii)
| XKeyValueIdx (node_index key_index : nat)
| XLastNode.

(** The searches for a key by its name. *)
Definition by_key_name (o : xop) : bool := match o with XNodeKeyValue _ | XKeyValue _ _ => true | _ => false end.

(** Calls that go on with the text of the state. *)
Definition run_xop (fuel : nat) (o : xop) : M xctx (option nat) :=
  match o with
  | XNextNode false => sr_xpath_next_node None
  | XNextNode true => sr_xpath_next_node_with_ns None
  | XNextKeyName => sr_xpath_next_key_name None
  | XNextKeyValue => sr_xpath_next_key_value None
  | XNode name => sr_xpath_node None name
  | XNodeRel name => sr_xpath_node_rel None name
  | XNodeIdx index => sr_xpath_node_idx None index
  | XNodeIdxRel index => sr_xpath_node_idx_rel None index
  | XNodeKeyValue key => sr_xpath_node_key_value fuel None key
  | XNodeKeyValueIdx index => sr_xpath_node_key_value_idx None index
  | XKeyValue name key => sr_xpath_key_value fuel None name key
  | XKeyValueIdx node_index key_index => sr_xpath_key_value_idx None node_index key_index
  | XLastNode => sr_xpath_last_node None
  end.

Fixpoint run_xops (fuel : nat) (os : list xop) : M xctx (list (option nat)) :=
  match os with
  | [] => mret []
  | o :: os => r ← run_xop fuel o; rs ← run_xops fuel os; mret (r :: rs)
  end.

Lemma run_xop_good t fuel o : good t (by_key_name o) (run_xop fuel o).
Proof.
  destruct o; cbn [run_xop by_key_name].
  - destruct with_ns; apply good_next_node.
  - apply good_next_key_name.
  - apply good_next_key_value.
  - apply good_node.
  - apply good_node_rel.
  - apply good_node_idx.
  - apply good_node_idx_rel.
  - apply good_node_key, good_search, good_next_key_name.
  - apply good_node_key, good_nth, good_next_key_name.
  - apply good_key_of_node; [apply good_endless, good_node|]. apply good_node_key, good_search, good_next_key_name.
  - apply good_key_of_node; [apply good_node_idx|]. apply good_node_key, good_nth, good_next_key_name.
  - apply good_last_node.
Qed.

Lemma run_xops_good t fuel : forall os s, xp_ok t s ->
  match run_xops fuel os s with
  | Ret rs s' => Forall (ptr_ok t) rs /\ xp_ok t s'
  | NoFuel => existsb by_key_name os = true
  | _ => False
  end.
Proof.
  induction os as [|o os IH]; intros s Hs; cbn [run_xops existsb]; [by split|].
  pose proof (run_xop_good t fuel o s Hs) as Ho. unfold mbind, M_bind. destruct (run_xop fuel o s) as [r s1| | |] eqn:He; [|done|done|].
  - destruct Ho as (H1 & H2 & _). specialize (IH s1 H2). destruct (run_xops fuel os s1) as [rs s2| | |]; [|done|done|by rewrite IH, orb_true_r].
    destruct IH as [H3 H4]. split; [by constructor|done].
  - cbn in Ho. by rewrite Ho.
Qed.

(** C24. The path functions keep the path. Whatever sequence of calls goes on from the
    start of a text, every pointer it returns is inside the text, and when it has
    returned, sr_xpath_recover makes the text what it was; no call reads or writes
    outside the text, and only the searches for a key by its name can fail to return. *)
Theorem xpath_recovers (t : list ascii) (fuel : nat) (os : list xop) (s0 : xctx) :
  match (_ ← start (Some t); run_xops fuel os) s0 with
  | Ret rs s => Forall (fun r => forall p, r = Some p -> (p <= length t)%nat) rs /\
      exists s', sr_xpath_recover s = Ret tt s' /\ xp_text s' = t
  | NoFuel => existsb by_key_name os = true
  | _ => False
  end.
Proof.
  rewrite (bind_ret_eq (start (Some t)) _ s0 tt (mk t false None 0) eq_refl).
  pose proof (run_xops_good t fuel os (mk t false None 0)) as H. destruct (run_xops fuel os (mk t false None 0)) as [rs s| | |].
  - destruct H as [H1 (b & cur & p & -> & Hp & _)]; [apply mk_ok; split; [lia|done]|]. split; [done|].
    rewrite recover_eq by done. by eexists.
  - apply H, mk_ok. split; [lia|done].
  - apply H, mk_ok. split; [lia|done].
  - apply H, mk_ok. split; [lia|done].
Qed.

(** ** Walking along a path *)
Definition string_at (p : nat) : M xctx (list ascii) := s ← get; mret (cstr (drop p (xp_text s))).

(** A caller that reads the keys of the current node. *)
Fixpoint walk_keys (fuel : nat) : M xctx (list (list ascii * list ascii)) :=
  match fuel with
  | O => no_fuel
  | S fuel =>
      k ← sr_xpath_next_key_name None;
      match k with
      | None => mret []
      | Some kp =>
          key ← string_at kp;
          v ← sr_xpath_next_key_value None;
          match v with
          | None => mret [(key, [])]
          | Some vp => val ← string_at vp; rest ← walk_keys fuel; mret ((key, val) :: rest)
          end
      end
  end.

(** And all nodes with their keys. *)
Fixpoint walk (fuel : nat) : M xctx (list (list ascii * list (list ascii * list ascii))) :=
  match fuel with
  | O => no_fuel
  | S fuel =>
      n ← sr_xpath_next_node None;
      match n with
      | None => mret []
      | Some p => name ← string_at p; keys ← walk_keys fuel; rest ← walk fuel; mret ((name, keys) :: rest)
      end
  end.

Definition keys_of (ps : list pred) : list (list ascii * list ascii) := map (fun x => (p_key x, p_value x)) ps.

Lemma string_at_eq p s : string_at p s = Ret (cstr (drop p (xp_text s))) s.
Proof. done. Qed.

Section Walk.
Context (t : list ascii) (Ht : no_nul t).

(** The string of a part that was cut behind it. *)
Lemma part_string n cur (a b : list ascii) : drop n t = a ++ b -> (n + length a <= length t)%nat ->
  cstr (drop n (xp_text (mk t true cur (n + length a)))) = a.
Proof. intros Hd Hl. rewrite cut_string by (done || lia). replace (n + length a - n)%nat with (length a) by lia. by rewrite Hd, take_app_length. Qed.

Lemma walk_keys_spec : forall ps fuel b cur p rest, (p <= length t)%nat -> ready t p ps rest -> Forall pred_ok ps -> rest_ok rest -> (length ps < fuel)%nat ->
  exists p', walk_keys fuel (mk t b cur p) = Ret (keys_of ps) (mk t false cur p') /\ (p' <= length t)%nat /\ ready t p' [] rest.
Proof.
  induction ps as [|x ps IH]; intros fuel b cur p rest Hp Hr Hps Hrest Hf; (destruct fuel as [|fuel]; [lia|]); cbn [walk_keys].
  - pose proof (next_key_name_eq t b cur p Hp) as He. rewrite (key_none t p rest Hr Hrest) in He. rewrite (bind_ret_eq _ _ _ _ _ He). by exists p.
  - apply Forall_cons in Hps as [Hx Hps]. destruct (key_some t p x ps rest Hr Hx) as (n & Hk & Hd).
    pose proof (key_at_range t p _ _ Hp Hk) as [Hn Hj]. specialize (Hj _ eq_refl).
    pose proof (next_key_name_eq t b cur p Hp) as He. rewrite Hk in He. rewrite (bind_ret_eq _ _ _ _ _ He). cbn [part_state].
    rewrite (bind_ret_eq _ _ _ _ _ (string_at_eq _ _)), (part_string n cur (p_key x) _ Hd) by lia.
    pose proof (drop_more _ _ _ _ Hd) as Hd2. set (j := (n + length (p_key x))%nat) in *.
    destruct (value_some t j x _ Hd2 Hx) as (n2 & Hv & Hd3). pose proof (value_at_range t j _ _ ltac:(lia) Hv) as [Hn2 Hj2]. specialize (Hj2 _ eq_refl).
    pose proof (next_key_value_eq t true cur j ltac:(lia)) as He2. rewrite Hv in He2. rewrite (bind_ret_eq _ _ _ _ _ He2). cbn [part_state].
    rewrite (bind_ret_eq _ _ _ _ _ (string_at_eq _ _)), (part_string n2 cur (p_value x) _ Hd3) by lia.
    pose proof (ready_value t _ _ ps rest (drop_more _ _ _ _ Hd3) (proj1 (proj2 Hx))) as Hr2.
    destruct (IH fuel true cur (n2 + length (p_value x))%nat rest ltac:(lia) Hr2 Hps Hrest) as (p' & He3 & Hp' & Hr'); [cbn in Hf; lia|].
    rewrite (bind_ret_eq _ _ _ _ _ He3). by exists p'.
Qed.

Lemma walk_spec : forall path fuel b cur p ps, (p <= length t)%nat -> ready t p ps (render path) -> Forall pred_ok ps -> path_ok path ->
  (length path < fuel)%nat -> Forall (fun st => length (st_preds st) + length path < fuel)%nat path ->
  exists cur' p', walk fuel (mk t b cur p) = Ret (map (fun st => (st_name st, keys_of (st_preds st))) path) (mk t false cur' p') /\ (p' <= length t)%nat.
Proof.
  induction path as [|st path IH]; intros fuel b cur p ps Hp Hr Hps Hpath Hf Hfuel; (destruct fuel as [|fuel]; [lia|]); cbn [walk];
    pose proof (next_node_eq t true b cur p Hp) as He; fold (sr_xpath_next_node None) in He.
  - rewrite (node_none t p ps Hr Hps) in He. rewrite (bind_ret_eq _ _ _ _ _ He). by exists cur, p.
  - apply Forall_cons in Hpath as [Hst Hpath]. apply Forall_cons in Hfuel as [Hf1 Hf2]. cbn [length] in *.
    destruct (node_some t p ps st (render path) Hr Hps Hst (render_rest path)) as (n & Hn & Hd).
    pose proof (node_at_range t true p _ _ Hp Hn) as [Hrange Hj]. rewrite Hn in He. rewrite (bind_ret_eq _ _ _ _ _ He).
    rewrite (bind_ret_eq _ _ _ _ _ (string_at_eq _ _)), (part_string n (Some n) (st_name st) _ Hd) by lia.
    pose proof (ready_preds t _ _ _ (render_rest path) (drop_more _ _ _ _ Hd)) as Hr2. destruct Hst as (_ & _ & Hsp).
    destruct (walk_keys_spec (st_preds st) fuel true (Some n) _ _ Hj Hr2 Hsp (render_rest path) ltac:(lia)) as (p' & He2 & Hp' & Hr').
    rewrite (bind_ret_eq _ _ _ _ _ He2).
    destruct (IH fuel false (Some n) p' [] Hp' Hr' (Forall_nil_2 _) Hpath ltac:(lia)) as (cur' & p2 & He3 & Hp2).
    { eapply Forall_impl; [exact Hf2|]. cbn. lia. }
    rewrite (bind_ret_eq _ _ _ _ _ He3). by exists cur', p2.
Qed.
End Walk.

(** C36. Walking along the text of a path gives the path back. For every path of names
    (with or without a prefix) and quoted keys, the calls of sr_xpath_next_node,
    sr_xpath_next_key_name and sr_xpath_next_key_value return its names, its keys and
    its values in their order, whatever slashes, brackets and other quotes the values
    contain, and then NULL; the text is whole again at the end. *)
Theorem xpath_walk_roundtrip (path : list pstep) (fuel : nat) (s0 : xctx) :
  path_ok path -> (length path < fuel)%nat -> Forall (fun st => length (st_preds st) + length path < fuel)%nat path ->
  exists s, (_ ← start (Some (render path)); walk fuel) s0 = Ret (map (fun st => (st_name st, keys_of (st_preds st))) path) s /\
    xp_text s = render path.
Proof.
  intros Hpath Hf Hfuel. rewrite (bind_ret_eq (start (Some (render path))) _ s0 tt (mk (render path) false None 0) eq_refl).
  destruct (walk_spec (render path) (render_no_nul path Hpath) path fuel false None 0 []) as (cur & p & He & Hp); try done; [lia|apply ready_preds; [apply render_rest|by rewrite drop_0]|].
  rewrite He. by eexists.
Qed.

(** The path m:a with two keys, one of them with a slash in its value, and b. *)
Definition sample_path : list pstep :=
  [PStep (Some (lit "m")) (lit "a") [Pred (lit "k") apostrophe (lit "v/w"); Pred (lit "j") dquote (lit "2")]; PStep None (lit "b") []].

Lemma sample_path_ok : path_ok sample_path.
Proof. by repeat constructor. Qed.

Lemma xpath_walk_roundtrip_witness : exists s,
  (_ ← start (Some (render sample_path)); walk 6) (XCtx [] None None None NUL) =
  Ret [(lit "a", [(lit "k", lit "v/w"); (lit "j", lit "2")]); (lit "b", [])] s /\ xp_text s = render sample_path.
Proof.
  apply (xpath_walk_roundtrip sample_path 6); [exact sample_path_ok|cbn; lia|]. repeat constructor; cbn; lia.
Defined.

(** ** Looking a key up *)
Section Lookup.
Context (t : list ascii) (Ht : no_nul t).

Lemma search_node_path name : forall path fuel b cur p ps, (p <= length t)%nat -> ready t p ps (render path) -> Forall pred_ok ps ->
  path_ok path -> (length path < fuel)%nat ->
  match List.find (fun st => streq name (st_name st)) path with
  | None => exists cur' p', search (sr_xpath_next_node None) fuel name (mk t b cur p) = Ret None (mk t false cur' p') /\ (p' <= length t)%nat
  | Some st => exists n j rest, search (sr_xpath_next_node None) fuel name (mk t b cur p) = Ret (Some n) (mk t true (Some n) j) /\
      (n <= j <= length t)%nat /\ drop n t = st_name st ++ render_preds (st_preds st) ++ rest /\ rest_ok rest /\ step_ok st
  end.
Proof.
  induction path as [|st path IH]; intros fuel b cur p ps Hp Hr Hps Hpath Hf; (destruct fuel as [|fuel]; [lia|]); cbn [search List.find];
    pose proof (next_node_eq t true b cur p Hp) as He; fold (sr_xpath_next_node None) in He.
  - rewrite (node_none t p ps Hr Hps) in He. rewrite (bind_ret_eq _ _ _ _ _ He). by exists cur, p.
  - apply Forall_cons in Hpath as [Hst Hpath].
    destruct (node_some t p ps st (render path) Hr Hps Hst (render_rest path)) as (n & Hn & Hd).
    pose proof (node_at_range t true p _ _ Hp Hn) as [Hrange Hj]. rewrite Hn in He. rewrite (bind_ret_eq _ _ _ _ _ He).
    rewrite (bind_ret_eq _ _ _ _ _ (string_is_eq _ _ _)), (part_string t Ht n (Some n) (st_name st) _ Hd) by lia.
    destruct (streq name (st_name st)); [|].
    + exists n, (n + length (st_name st))%nat, (render path). repeat split; (done || lia || apply render_rest || apply Hst).
    + apply (IH fuel true (Some n) _ (st_preds st)); [lia|apply ready_preds; [apply render_rest|by apply (drop_more t)]|apply Hst|done|cbn in Hf; lia].
Qed.

Lemma search_key_path key : forall ps fuel b cur p rest, (p <= length t)%nat -> ready t p ps rest -> Forall pred_ok ps -> rest_ok rest ->
  (length ps < fuel)%nat ->
  match List.find (fun x => streq key (p_key x)) ps with
  | None => exists p', search (sr_xpath_next_key_name None) fuel key (mk t b cur p) = Ret None (mk t false cur p') /\ (p' <= length t)%nat
  | Some x => exists n j l, search (sr_xpath_next_key_name None) fuel key (mk t b cur p) = Ret (Some n) (mk t true cur j) /\
      (j <= length t)%nat /\ drop j t = pred_tail x ++ l /\ pred_ok x
  end.
Proof.
  induction ps as [|x ps IH]; intros fuel b cur p rest Hp Hr Hps Hrest Hf; (destruct fuel as [|fuel]; [lia|]); cbn [search List.find];
    pose proof (next_key_name_eq t b cur p Hp) as He.
  - rewrite (key_none t p rest Hr Hrest) in He. rewrite (bind_ret_eq _ _ _ _ _ He). by exists p.
  - apply Forall_cons in Hps as [Hx Hps]. destruct (key_some t p x ps rest Hr Hx) as (n & Hk & Hd).
    pose proof (key_at_range t p _ _ Hp Hk) as [Hn Hj]. specialize (Hj _ eq_refl).
    rewrite Hk in He. rewrite (bind_ret_eq _ _ _ _ _ He). cbn [part_state].
    rewrite (bind_ret_eq _ _ _ _ _ (string_is_eq _ _ _)), (part_string t Ht n cur (p_key x) _ Hd) by lia.
    pose proof (drop_more _ _ _ _ Hd) as Hd2. destruct (streq key (p_key x)).
    + exists n, (n + length (p_key x))%nat, (render_preds ps ++ rest). repeat split; (done || lia || apply Hx).
    + apply (IH fuel true cur _ rest); [lia|by apply (ready_tail t _ x)|done|done|cbn in Hf; lia].
Qed.

(** From a node that was found, its key. *)
Lemma node_key_value_path key st fuel b n j rest : (n <= length t)%nat -> (j <= length t)%nat ->
  drop n t = st_name st ++ render_preds (st_preds st) ++ rest -> rest_ok rest -> step_ok st -> (length (st_preds st) < fuel)%nat ->
  match List.find (fun x => streq key (p_key x)) (st_preds st) with
  | None => exists p', sr_xpath_node_key_value fuel None key (mk t b (Some n) j) = Ret None (mk t false (Some n) p') /\ (p' <= length t)%nat
  | Some x => exists v s, sr_xpath_node_key_value fuel None key (mk t b (Some n) j) = Ret (Some v) s /\ cstr (drop v (xp_text s)) = p_value x
  end.
Proof.
  intros Hn Hj Hd Hrest (Hns & Hname & Hps) Hf. unfold sr_xpath_node_key_value, node_key.
  rewrite (bind_ret_eq _ _ _ _ _ (start_eq t b (Some n) j Hj)), (bind_ret_eq _ _ _ _ _ (saved_eq t _ _ _)), (bind_ret_eq get _ _ _ _ eq_refl).
  cbn [current_node mk]. rewrite (bind_ret_eq _ _ _ _ _ (mret_eq _ _)). cbn [negb].
  rewrite (bind_ret_eq get _ _ _ _ eq_refl). cbn [current_node mk]. rewrite (bind_ret_eq _ _ _ _ _ (to_current_eq t n j Hn)).
  pose proof (search_key_path key (st_preds st) fuel false (Some n) n rest Hn (ready_name t n _ _ _ Hrest Hd Hname) Hps Hrest Hf) as Hs.
  destruct (List.find _ (st_preds st)) as [x|].
  - destruct Hs as (k & i & l & He & Hi & Hd2 & Hx). rewrite (bind_ret_eq _ _ _ _ _ He).
    destruct (value_some t i x l Hd2 Hx) as (v & Hv & Hd3). pose proof (value_at_range t i _ _ Hi Hv) as [Hn2 Hj2]. specialize (Hj2 _ eq_refl).
    pose proof (next_key_value_eq t true (Some n) i Hi) as He2. rewrite Hv in He2. rewrite He2. eexists _, _. split; [done|].
    cbn [part_state]. apply (part_string t Ht v (Some n) (p_value x) _ Hd3). lia.
  - destruct Hs as (p' & He & Hp'). rewrite (bind_ret_eq _ _ _ _ _ He). by exists j.
Qed.
End Lookup.

(** The node of that name, found from the beginning of the text of a path. *)
Lemma node_path path name : path_ok path -> let t := render path in
  match List.find (fun st => streq name (st_name st)) path with
  | None => exists cur, sr_xpath_node None name (mk t false None 0) = Ret None (mk t false cur 0)
  | Some st => exists n j rest, sr_xpath_node None name (mk t false None 0) = Ret (Some n) (mk t true (Some n) j) /\
      (n <= j <= length t)%nat /\ drop n t = st_name st ++ render_preds (st_preds st) ++ rest /\ rest_ok rest /\ step_ok st
  end.
Proof.
  intros Hpath t. unfold sr_xpath_node. rewrite (bind_ret_eq get _ _ _ _ eq_refl). cbn [no_text begining mk].
  rewrite (bind_ret_eq _ _ _ _ _ (start_eq t false None 0 ltac:(lia))), (bind_ret_eq _ _ _ _ _ (saved_eq _ _ _ _)), (bind_ret_eq _ _ _ _ _ (rewind_eq _ _ _)).
  rewrite (bind_ret_eq get _ _ _ _ eq_refl).
  pose proof (search_node_path t (render_no_nul path Hpath) name path (node_fuel (mk t false None 0)) false None 0 []) as Hs.
  destruct (List.find _ path) as [st|].
  - destruct Hs as (n & j & rest & He & Hrest); [lia|apply ready_preds; [apply render_rest|by rewrite drop_0]|done|done| |].
    { unfold node_fuel. cbn [xp_text mk]. pose proof (render_length path). fold t in H. lia. }
    rewrite (bind_ret_eq _ _ _ _ _ He). by exists n, j, rest.
  - destruct Hs as (cur & p & He & Hp); [lia|apply ready_preds; [apply render_rest|by rewrite drop_0]|done|done| |].
    { unfold node_fuel. cbn [xp_text mk]. pose proof (render_length path). fold t in H. lia. }
    rewrite (bind_ret_eq _ _ _ _ _ He). by exists cur.
Qed.

(** C38. The lookup of a key. On the text of a path, sr_xpath_key_value returns the value of
    the first key of the wanted name in the first node of the wanted name, as a
    terminated string in the text; if there is no such node, or that node has no such
    key, it returns NULL and leaves the text as it was. *)
Theorem key_value_correct (path : list pstep) (fuel : nat) (node key : list ascii) (s0 : xctx) :
  path_ok path -> Forall (fun st => length (st_preds st) < fuel)%nat path ->
  match List.find (fun st => streq node (st_name st)) path ≫= (fun st => List.find (fun x => streq key (p_key x)) (st_preds st)) with
  | Some x => exists v s, sr_xpath_key_value fuel (Some (render path)) node key s0 = Ret (Some v) s /\ cstr (drop v (xp_text s)) = p_value x
  | None => exists s, sr_xpath_key_value fuel (Some (render path)) node key s0 = Ret None s /\ xp_text s = render path
  end.
Proof.
  intros Hpath Hfuel. unfold sr_xpath_key_value, key_of_node. set (t := render path).
  rewrite (bind_ret_eq (start (Some t)) _ s0 tt (mk t false None 0) eq_refl), (bind_ret_eq _ _ _ _ _ (saved_eq t _ _ _)).
  pose proof (node_path path node Hpath) as Hn. fold t in Hn. destruct (List.find _ path) as [st|] eqn:Hfind; cbn [option_bind mbind].
  - destruct Hn as (n & j & rest & He & Hj & Hd & Hrest & Hst). rewrite (bind_ret_eq _ _ _ _ _ He).
    pose proof (proj1 (Forall_forall _ _) Hfuel st (proj2 (list_elem_of_In _ _) (proj1 (find_some _ _ Hfind)))) as Hf. cbn in Hf.
    pose proof (node_key_value_path t (render_no_nul path Hpath) key st fuel true n j rest ltac:(lia) (proj2 Hj) Hd Hrest Hst Hf) as Hk.
    destruct (List.find _ (st_preds st)) as [x|].
    + destruct Hk as (v & s & He2 & Hv). rewrite (bind_ret_eq _ _ _ _ _ He2). by exists v, s.
    + destruct Hk as (p' & He2 & _). rewrite (bind_ret_eq _ _ _ _ _ He2). by eexists.
  - destruct Hn as (cur & He). rewrite (bind_ret_eq _ _ _ _ _ He). by eexists.
Qed.

Lemma key_value_correct_witness :
  (exists v s, sr_xpath_key_value 3 (Some (render sample_path)) (lit "a") (lit "j") (XCtx [] None None None NUL) = Ret (Some v) s /\
    cstr (drop v (xp_text s)) = lit "2") /\
  (exists s, sr_xpath_key_value 3 (Some (render sample_path)) (lit "b") (lit "j") (XCtx [] None None None NUL) = Ret None s /\
    xp_text s = render sample_path).
Proof.
  split.
  - apply (key_value_correct sample_path 3 (lit "a") (lit "j")); [exact sample_path_ok|]. repeat constructor; cbn; lia.
  - apply (key_value_correct sample_path 3 (lit "b") (lit "j")); [exact sample_path_ok|]. repeat constructor; cbn; lia.
Defined.

(** ** A predicate without an equals sign *)
Lemma bind_no_fuel {A B} (m : M xctx A) (k : A -> M xctx B) s : m s = NoFuel -> (m ≫= k) s = NoFuel.
Proof. intros H. unfold mbind, M_bind. by rewrite H. Qed.

Section Endless.
Context (t : list ascii).

(** Then the search for a key finds the same key again. *)
Lemma search_key_endless key cur p k : no_nul t -> (p <= length t)%nat -> key_at t p = Some (k, None) -> drop k t <> key ->
  forall fuel b, search (sr_xpath_next_key_name None) fuel key (mk t b cur p) = NoFuel.
Proof.
  intros Ht Hp Hk Hne fuel. induction fuel as [|fuel IH]; intros b; [done|]. cbn [search].
  pose proof (next_key_name_eq t b cur p Hp) as He. rewrite Hk in He. rewrite (bind_ret_eq _ _ _ _ _ He). cbn [part_state].
  rewrite (bind_ret_eq _ _ _ _ _ (string_is_eq _ _ _)), (uncut_string t Ht). unfold streq. rewrite bool_decide_eq_false_2 by (by apply not_eq_sym). apply IH.
Qed.

Lemma plain_name name : Forall name_char name -> no_nul name.
Proof. intros H. eapply Forall_impl; [exact H|]. by intros c [? _]. Qed.
End Endless.

(** The node and the key that a text with such a predicate has. *)
Section OpenPred.
Context (name w : list ascii) (Hname : Forall name_char name) (Hw : Forall (fun c => c <> NUL /\ c <> "="%char) w).
Let t : list ascii := slash :: name ++ bracket :: w.

Lemma open_no_nul : no_nul t.
Proof.
  constructor; [done|]. apply Forall_app. split; [by apply plain_name|]. constructor; [done|].
  eapply Forall_impl; [exact Hw|]. by intros c [? _].
Qed.

Lemma open_node : node_at t true 0 = Some (1%nat, (1 + length name)%nat).
Proof.
  unfold node_at. change (behind_quote t 0) with 0%nat.
  destruct (stop_here t (skip_quoted (eqc slash) None) 0 [] t eq_refl eq_refl) as (-> & _ & ->). cbn [length Nat.add]. change (char_at t 0) with slash.
  change (eqc slash NUL) with false. cbv iota.
  destruct (stop_here t (skip_until (fun c => eqc c slash || eqc c ":"%char || eqc c bracket)) 1 name (bracket :: w) eq_refl) as (-> & _ & ->); [|done].
  apply skip_until_part; [|done]. eapply Forall_impl; [exact Hname|]. intros c (H1 & H2 & H3 & H4 & _). split; [done|]. by rewrite !eqc_ne.
Qed.

Lemma open_key : key_at t 1 = Some ((2 + length name)%nat, None).
Proof.
  unfold key_at. rewrite not_behind_quote.
  2: { rewrite (char_here t 1 (name ++ bracket :: w) eq_refl). apply (head_app name _ (fun c => is_quote c = false)); [|done].
    eapply Forall_impl; [exact Hname|]. by intros c (_ & _ & _ & _ & ?). }
  destruct (stop_here t (skip_quoted (fun c => eqc c bracket || eqc c slash) None) 1 name (bracket :: w) eq_refl) as (-> & Hd & ->).
  { rewrite (gap_name _ name (or_intror eq_refl) Hname), skip_quoted_stop by done. lia. }
  cbn [char_at lookup list_lookup]. change (eqc bracket NUL || eqc bracket slash) with false. cbv iota.
  assert (drop (2 + length name) t = w ++ []) as Hd2.
  { rewrite app_nil_r. replace (2 + length name)%nat with (1 + length name + length [bracket])%nat by (cbn; lia). by apply drop_more. }
  change (S (1 + length name)) with (2 + length name)%nat. destruct (stop_here t (skip_until (eqc "="%char)) (2 + length name) w [] Hd2) as (-> & _ & ->); [|done].
  apply skip_until_part; [|done]. eapply Forall_impl; [exact Hw|]. intros c [H1 H2]. split; [done|]. apply eqc_ne. by apply not_eq_sym.
Qed.

Lemma open_rest : drop (2 + length name) t = w.
Proof. unfold t. cbn. by rewrite skipn_app, skipn_all2, Nat.sub_succ_l, Nat.sub_diag by lia. Qed.

(** sr_xpath_node finds the node. *)
Lemma open_search : sr_xpath_node None name (mk t false None 0) = Ret (Some 1%nat) (mk t true (Some 1%nat) (1 + length name)).
Proof.
  unfold sr_xpath_node. rewrite (bind_ret_eq get _ _ _ _ eq_refl). cbn [no_text begining mk].
  rewrite (bind_ret_eq _ _ _ _ _ (start_eq t false None 0 ltac:(lia))), (bind_ret_eq _ _ _ _ _ (saved_eq _ _ _ _)), (bind_ret_eq _ _ _ _ _ (rewind_eq _ _ _)).
  rewrite (bind_ret_eq get _ _ _ _ eq_refl). unfold node_fuel. cbn [search].
  pose proof (next_node_eq t true false None 0 ltac:(lia)) as He. rewrite open_node in He.
  assert (search (sr_xpath_next_node None) (S (S (length t))) name (mk t false None 0) = Ret (Some 1%nat) (mk t true (Some 1%nat) (1 + length name))) as Hs.
  { cbn [search]. unfold sr_xpath_next_node. rewrite (bind_ret_eq _ _ _ _ _ He), (bind_ret_eq _ _ _ _ _ (string_is_eq _ _ _)).
    rewrite (part_string t open_no_nul 1 (Some 1%nat) name (bracket :: w) eq_refl) by (unfold t; cbn; rewrite length_app; lia).
    unfold streq. by rewrite bool_decide_eq_true_2. }
  by rewrite (bind_ret_eq _ _ _ _ _ Hs).
Qed.
End OpenPred.

(** C35. A predicate without an equals sign makes the lookup of a key run for ever. On the
    text of a node with an opening bracket and then no equals sign, as in a[1],
    sr_xpath_key_value does not return when the wanted key is not the rest of the text:
    sr_xpath_next_key_name leaves the state as it was and returns the same pointer again. *)
Theorem key_value_endless (name w key : list ascii) (fuel : nat) (s0 : xctx) :
  Forall name_char name -> Forall (fun c => c <> NUL /\ c <> "="%char) w -> w <> key ->
  sr_xpath_key_value fuel (Some (slash :: name ++ bracket :: w)) name key s0 = NoFuel.
Proof.
  intros Hname Hw Hne. set (t := slash :: name ++ bracket :: w). unfold sr_xpath_key_value, key_of_node.
  rewrite (bind_ret_eq (start (Some t)) _ s0 tt (mk t false None 0) eq_refl), (bind_ret_eq _ _ _ _ _ (saved_eq t _ _ _)).
  rewrite (bind_ret_eq _ _ _ _ _ (open_search name w Hname Hw)). unfold sr_xpath_node_key_value, node_key. fold t.
  assert (1 + length name <= length t)%nat as Hl by (unfold t; cbn; rewrite length_app; lia). apply bind_no_fuel.
  rewrite (bind_ret_eq _ _ _ _ _ (start_eq t true (Some 1%nat) _ Hl)), (bind_ret_eq _ _ _ _ _ (saved_eq t _ _ _)), (bind_ret_eq get _ _ _ _ eq_refl).
  cbn [current_node mk]. rewrite (bind_ret_eq _ _ _ _ _ (mret_eq _ _)). cbn [negb].
  rewrite (bind_ret_eq get _ _ _ _ eq_refl). cbn [current_node mk]. rewrite (bind_ret_eq _ _ _ _ _ (to_current_eq t 1 _ ltac:(lia))).
  apply bind_no_fuel, (search_key_endless t key (Some 1%nat) 1 (2 + length name) (open_no_nul name w Hname Hw)); [lia|by apply open_key|].
  unfold t. by rewrite open_rest.
Qed.

Lemma key_value_endless_witness :
  sr_xpath_key_value 1000 (Some (lit "/a[1]")) (lit "a") (lit "k") (XCtx [] None None None NUL) = NoFuel.
Proof.
  apply (key_value_endless (lit "a") (lit "1]") (lit "k") 1000); [by repeat constructor|by repeat constructor|done].
Defined.

(** ** A node that is not found *)

(** sr_xpath_node_rel returns the node it saw last, where sr_xpath_node returns NULL. *)
Example node_rel_not_found :
  (exists s, sr_xpath_node_rel (Some (lit "/a/b")) (lit "x") (XCtx [] None None None NUL) = Ret (Some 3%nat) s) /\
  (exists s, sr_xpath_node (Some (lit "/a/b")) (lit "x") (XCtx [] None None None NUL) = Ret None s).
Proof. split; eexists; vm_compute; reflexivity. Qed.
