(* ===== verification/SrXpathName.v ===== *)
(** * The name behind the last slash

    sr_xpath_node_name reads a text from its end and passes quoted values; on the text
    of a path it finds the last step, unless that is the only one. *)

From S2P Require Import Prelude CLib SrXpath SrXpathRun SrXpathPath.

(** A part that the loop from the end passes; something is before it. *)
Definition back_gap (x : list ascii) : Prop :=
  forall a b, a <> [] -> back (a ++ x ++ b) None (length a + length x - 1) = back (a ++ x ++ b) None (length a - 1).

Lemma char_at_mid (a b : list ascii) c : char_at (a ++ c :: b) (length a) = c.
Proof. unfold char_at. by rewrite lookup_app_r, Nat.sub_diag by lia. Qed.

Lemma back_gap_nil : back_gap [].
Proof. intros a b _. by rewrite Nat.add_0_r. Qed.

Lemma back_gap_app x y : back_gap x -> back_gap y -> back_gap (x ++ y).
Proof.
  intros Hx Hy a b Ha. specialize (Hx a (y ++ b) Ha). specialize (Hy (a ++ x) b ltac:(by destruct a)).
  rewrite <- !app_assoc in *. rewrite !length_app in *. replace (length a + (length x + length y) - 1)%nat with (length a + length x + length y - 1)%nat by lia.
  by rewrite Hy.
Qed.

Lemma back_gap_char c : c <> slash -> is_quote c = false -> back_gap [c].
Proof.
  intros Hc Hq a b Ha. cbn [app length]. replace (length a + 1 - 1)%nat with (length a) by lia. pose proof (char_at_mid a b c) as Hm.
  destruct a as [|d a]; [done|]. cbn [length] in *. cbn [back]. rewrite Hm, eqc_ne, Hq by done. f_equal. lia.
Qed.

Lemma back_gap_plain x : Forall (fun c => c <> slash /\ is_quote c = false) x -> back_gap x.
Proof. induction 1 as [|c x [H1 H2] Hx IH]; [apply back_gap_nil|]. apply (back_gap_app [c] x); [by apply back_gap_char|done]. Qed.

(** Inside a value, back to its opening quote. *)
Lemma back_value q v : Forall (fun c => c <> NUL /\ c <> q) v -> forall a b, a <> [] ->
  back (a ++ q :: v ++ b) (Some q) (length a + length v) = back (a ++ q :: v ++ b) None (length a - 1).
Proof.
  intros Hv a. induction v as [|c v IH] using rev_ind; intros b Ha.
  - pose proof (char_at_mid a b q) as Hm. destruct a as [|d a]; [done|]. cbn [length app Nat.add] in *. rewrite Nat.add_0_r. cbn [back].
    rewrite Hm, eqc_refl. f_equal. lia.
  - apply Forall_app in Hv as [Hv Hc]. apply Forall_singleton in Hc as [_ Hc]. rewrite <- app_assoc. cbn [app].
    rewrite <- (IH Hv (c :: b) Ha). rewrite length_app. cbn [length]. replace (length a + (length v + 1))%nat with (S (length a + length v)) by lia.
    cbn [back]. pose proof (char_at_mid (a ++ q :: v) b c) as Hm. rewrite <- app_assoc in Hm. cbn [app] in Hm. rewrite length_app in Hm. cbn [length] in Hm.
    replace (length a + S (length v))%nat with (S (length a + length v)) in Hm by lia. by rewrite Hm, eqc_ne.
Qed.

Lemma back_gap_quoted q v : is_quote q = true -> Forall (fun c => c <> NUL /\ c <> q) v -> back_gap (q :: v ++ [q]).
Proof.
  intros Hq Hv a b Ha. assert (q <> slash) as Hs by (by apply quote_cases in Hq as [-> | ->]).
  cbn [app]. rewrite <- app_assoc. cbn [app length]. rewrite length_app. cbn [length].
  replace (length a + S (length v + 1) - 1)%nat with (S (length a + length v)) by lia. rewrite <- (back_value q v Hv a (q :: b) Ha).
  pose proof (char_at_mid (a ++ q :: v) b q) as Hm. rewrite <- app_assoc in Hm. cbn [app] in Hm. rewrite length_app in Hm. cbn [length] in Hm.
  replace (length a + S (length v))%nat with (S (length a + length v)) in Hm by lia. cbn [back]. by rewrite Hm, eqc_ne, Hq.
Qed.

Lemma back_gap_pred x : pred_ok x -> back_gap (render_pred x).
Proof.
  intros (Hk & Hq & Hv).
  replace (render_pred x) with ([bracket] ++ p_key x ++ ["="%char] ++ (p_quote x :: p_value x ++ [p_quote x]) ++ ["]"%char]).
  2: { unfold render_pred. cbn. by simplify_list_eq. }
  repeat apply back_gap_app; [by apply back_gap_char| |by apply back_gap_char|by apply back_gap_quoted|by apply back_gap_char].
  apply back_gap_plain. eapply Forall_impl; [exact Hk|]. intros c (_ & H2 & _ & _ & H5). done.
Qed.

Lemma back_gap_preds ps : Forall pred_ok ps -> back_gap (render_preds ps).
Proof. induction 1 as [|x ps Hx Hps IH]; [apply back_gap_nil|]. apply back_gap_app; [by apply back_gap_pred|done]. Qed.

Lemma back_gap_name st : step_ok st -> back_gap (render_name st).
Proof.
  intros (Hns & Hn & _). assert (forall n, Forall name_char n -> back_gap n) as Hplain.
  { intros n H. apply back_gap_plain. eapply Forall_impl; [exact H|]. intros c (_ & H2 & _ & _ & H5). done. }
  unfold render_name. destruct (st_ns st) as [ns|]; [|by apply Hplain].
  apply back_gap_app; [by apply Hplain|]. apply (back_gap_app [":"%char]); [by apply back_gap_char|by apply Hplain].
Qed.

Definition step_text (st : pstep) : list ascii := render_name st ++ render_preds (st_preds st).

(** The loop ends at the slash of the last step. *)
Lemma back_step a st : step_ok st -> back (a ++ slash :: step_text st) None (length (a ++ slash :: step_text st) - 1) = length a.
Proof.
  intros Hst. pose proof (back_gap_app _ _ (back_gap_name st Hst) (back_gap_preds _ (proj2 (proj2 Hst)))) as Hg. fold (step_text st) in Hg.
  specialize (Hg (a ++ [slash]) [] ltac:(by destruct a)). rewrite app_nil_r, <- app_assoc in Hg. cbn [app] in Hg.
  rewrite !length_app in *. cbn [length] in *. replace (length a + S (length (step_text st)) - 1)%nat with (length a + 1 + length (step_text st) - 1)%nat by lia.
  rewrite Hg. replace (length a + 1 - 1)%nat with (length a) by lia. pose proof (char_at_mid a (step_text st) slash) as Hm.
  destruct (length a); [done|]. cbn [back]. by rewrite Hm, eqc_refl.
Qed.

(** The name behind the last slash. On the text of a path of at least two steps
    sr_xpath_node_name returns the text of the last step with its prefix and keys, whatever
    its values contain, and sr_xpath_node_name_eq compares that text; on the text of a
    single step, where the slash is the first character, the slash is not found and
    the result is NULL. *)
Theorem node_name_correct (path : list pstep) (st : pstep) (name : list ascii) (s : unit) : path_ok (path ++ [st]) ->
  let t := render (path ++ [st]) in
  match path with
  | [] => sr_xpath_node_name (Some t) s = Ret None s /\ sr_xpath_node_name_eq (Some t) (Some name) s = Ret false s
  | _ => exists p, sr_xpath_node_name (Some t) s = Ret (Some p) s /\ drop p t = render_name st ++ render_preds (st_preds st) /\
      sr_xpath_node_name_eq (Some t) (Some name) s = Ret (bool_decide (render_name st ++ render_preds (st_preds st) = name)) s
  end.
Proof.
  intros Hpath t. unfold path_ok in Hpath. apply Forall_app in Hpath as [_ Hst]. apply Forall_cons in Hst as [Hst _].
  assert (t = render path ++ slash :: step_text st) as Ht.
  { unfold t, render. rewrite map_app, concat_app. cbn [map concat]. by rewrite app_nil_r. }
  pose proof (back_step (render path) st Hst) as Hb. rewrite <- Ht in Hb.
  assert (sr_xpath_node_name (Some t) s = Ret (match length (render path) with O => None | n => Some (1 + n)%nat end) s) as Hn.
  { unfold sr_xpath_node_name. rewrite Hb. rewrite Ht. by destruct (render path). }
  unfold sr_xpath_node_name_eq. rewrite (bind_ret_eq _ _ _ _ _ Hn), Hn. destruct path as [|st0 path]; [done|].
  assert (exists n, length (render (st0 :: path)) = S n) as [n Hl] by (by eexists). rewrite Hl. eexists. split; [done|].
  assert (drop (1 + S n) t = render_name st ++ render_preds (st_preds st)) as Hd.
  { rewrite Ht, <- Hl, Nat.add_comm, <- drop_drop, drop_app_length. done. }
  by rewrite Hd.
Qed.

Lemma node_name_correct_witness :
  exists p, sr_xpath_node_name (Some (lit "/a/b[k='x/y']")) tt = Ret (Some p) tt /\ drop p (lit "/a/b[k='x/y']") = lit "b[k='x/y']" /\
    sr_xpath_node_name_eq (Some (lit "/a/b[k='x/y']")) (Some (lit "y']")) tt = Ret false tt.
Proof.
  apply (node_name_correct [PStep None (lit "a") []] (PStep None (lit "b") [Pred (lit "k") apostrophe (lit "x/y")]) (lit "y']") tt). by repeat constructor.
Defined.
