(* ===== verification/LySet.v ===== *)
(** * libyang/src/tree_data.c: sets of nodes

    An array of pointers that grows by eight. The state holds the sets by their
    location and the number of allocations made; the n-th one fails when [oom n]
    holds. The array of a set is a part of it, since no other pointer to it exists:
    an element that was never written is [None]. Nodes are pointers that are only
    compared. Copying no elements does nothing, also when the array is NULL. *)

From S2P Require Import Prelude.

Record ly_set := LySet { set_size : Z; set_number : Z; set_g : option (list (option ptr)) }.

Record lsmem := LsMem { ls_sets : gmap positive ly_set; ls_calls : nat }.

Definition LY_SET_OPT_USEASLIST : Z := 1.

Definition EXIT_SUCCESS : Z := 0.
Definition EXIT_FAILURE : Z := 1.

Section LySet.
Context (oom : nat -> bool).

(** ** Memory *)
Definition load_set (set : positive) : M lsmem ly_set := fun m =>
  match ls_sets m !! set with Some s => Ret s m | None => Undef end.

Definition store_set (set : positive) (s : ly_set) : M lsmem unit := fun m =>
  match ls_sets m !! set with
  | Some _ => Ret tt (LsMem (<[set := s]> (ls_sets m)) (ls_calls m))
  | None => Undef
  end.

(** Whether the next allocation succeeds. *)
Definition next_alloc : M lsmem bool := fun m => Ret (negb (oom (ls_calls m))) (LsMem (ls_sets m) (S (ls_calls m))).

Definition new_set (s : ly_set) : M lsmem positive := fun m =>
  let l := fresh (dom (ls_sets m)) in Ret l (LsMem (<[l := s]> (ls_sets m)) (ls_calls m)).

(** g[i] *)
Definition get_g (s : ly_set) (i : Z) : M lsmem ptr := fun m =>
  match set_g s with
  | Some b => match b !! Z.to_nat i with Some (Some node) => Ret node m | _ => Undef end
  | None => Undef
  end.

(** g[i] = node *)
Definition put_g (set : positive) (i : Z) (node : ptr) : M lsmem unit :=
  s ← load_set set;
  match set_g s with
  | Some b =>
      if i <? Z.of_nat (length b) then store_set set (LySet (set_size s) (set_number s) (Some (<[Z.to_nat i := Some node]> b)))
      else undef
  | None => undef
  end.

(** realloc to [n] elements; whether it succeeded. [n] is not 0 but after a wrap. *)
Definition realloc_g (set : positive) (n : Z) : M lsmem bool :=
  ok ← next_alloc;
  if negb (ok : bool) then mret false
  else if n =? 0 then undef
  else
    s ← load_set set;
    let b := match set_g s with Some b => b | None => [] end in
    _ ← store_set set (LySet n (set_number s) (Some (take (Z.to_nat n) b ++ replicate (Z.to_nat n - length b) None)));
    mret true.

(** The first [n] elements from a pointer, for memcpy. *)
Definition elements (s : ly_set) (n : nat) : M lsmem (list (option ptr)) := fun m =>
  match n, set_g s with
  | O, _ => Ret [] m
  | _, Some b => if (n <=? length b)%nat then Ret (take n b) m else Undef
  | _, None => Undef
  end.

(** memcpy to g + number *)
Definition append_g (set : positive) (b : list (option ptr)) : M lsmem unit :=
  s ← load_set set;
  match b, set_g s with
  | [], _ => mret tt
  | _, Some g =>
      let n := Z.to_nat (set_number s) in
      if (n + length b <=? length g)%nat then
        store_set set (LySet (set_size s) (set_number s) (Some (take n g ++ b ++ drop (n + length b) g)))
      else undef
  | _, None => undef
  end.

(** ** Operations *)
Definition ly_set_new : M lsmem ptr :=
  ok ← next_alloc;
  if (ok : bool) then p ← new_set (LySet 0 0 None); mret (Some p) else mret NULL.

Definition ly_set_free (set : ptr) : M lsmem unit := fun m =>
  match set with
  | None => Ret tt m
  | Some p =>
      match ls_sets m !! p with
      | Some _ => Ret tt (LsMem (delete p (ls_sets m)) (ls_calls m))
      | None => Undef
      end
  end.

(** for (i = 0; i < set->number; i++), [n] times more: the index of the node. *)
Fixpoint find_node (n : nat) (s : ly_set) (i : Z) (node : ptr) : M lsmem (option Z) :=
  match n with
  | O => mret None
  | S n => x ← get_g s i; if bool_decide (x = node) then mret (Some i) else find_node n s (i + 1) node
  end.

Definition ly_set_contains (set : ptr) (node : ptr) : M lsmem Z :=
  match set with
  | None => mret (-1)
  | Some p =>
      s ← load_set p;
      i ← find_node (Z.to_nat (set_number s)) s 0 node;
      mret (match i with Some i => wrap_int i | None => -1 end)
  end.

Definition ly_set_dup (set : ptr) : M lsmem ptr :=
  match set with
  | None => mret NULL
  | Some p =>
      ok ← next_alloc;
      if negb (ok : bool) then mret NULL
      else
        ok ← next_alloc;
        if negb (ok : bool) then mret NULL
        else
          s ← load_set p;
          b ← elements s (Z.to_nat (set_size s));
          new ← new_set (LySet (set_size s) (set_number s) (Some b));
          mret (Some new)
  end.

Definition use_as_list (options : Z) : bool := negb (Z.land options LY_SET_OPT_USEASLIST =? 0).

Definition ly_set_add (set : ptr) (node : ptr) (options : Z) : M lsmem Z :=
  match set with
  | None => mret (-1)
  | Some p =>
      s ← load_set p;
      found ← (if use_as_list options then mret None else find_node (Z.to_nat (set_number s)) s 0 node);
      match found with
      | Some i => mret (wrap_int i)
      | None =>
          ok ← (if set_size s =? set_number s then realloc_g p (wrap_u32 (set_size s + 8)) else mret true);
          if negb (ok : bool) then mret (-1)
          else
            _ ← put_g p (set_number s) node;
            s ← load_set p;
            let number := wrap_u32 (set_number s + 1) in
            _ ← store_set p (LySet (set_size s) number (set_g s));
            mret (wrap_int (number - 1))
      end
  end.

Definition ly_set_rm_index (set : ptr) (index : Z) : M lsmem Z :=
  match set with
  | None => mret EXIT_FAILURE
  | Some p =>
      s ← load_set p;
      if wrap_u32 (index + 1) >? set_number s then mret EXIT_FAILURE
      else
        let last := wrap_u32 (set_number s - 1) in
        _ ← (if index =? last then put_g p index NULL
             else x ← get_g s last; _ ← put_g p index x; put_g p last NULL);
        s ← load_set p;
        _ ← store_set p (LySet (set_size s) (wrap_u32 (set_number s - 1)) (set_g s));
        mret EXIT_SUCCESS
  end.

Definition ly_set_rm (set : ptr) (node : ptr) : M lsmem Z :=
  match set, node with
  | Some p, Some _ =>
      s ← load_set p;
      i ← find_node (Z.to_nat (set_number s)) s 0 node;
      match i with None => mret EXIT_FAILURE | Some i => ly_set_rm_index set i end
  | _, _ => mret EXIT_FAILURE
  end.

Definition ly_set_clean (set : ptr) : M lsmem Z :=
  match set with
  | None => mret EXIT_FAILURE
  | Some p => s ← load_set p; _ ← store_set p (LySet (set_size s) 0 (set_g s)); mret EXIT_SUCCESS
  end.

(** The elements of src that trg contains are removed from src: every step makes
    src->number - i smaller. *)
Fixpoint remove_common (fuel : nat) (trg src : positive) (i : Z) : M lsmem unit :=
  s ← load_set src;
  if i <? set_number s then
    match fuel with
    | O => no_fuel
    | S fuel =>
        x ← get_g s i;
        r ← ly_set_contains (Some trg) x;
        if r >? -1 then _ ← ly_set_rm_index (Some src) i; remove_common fuel trg src i
        else remove_common fuel trg src (i + 1)
    end
  else mret tt.

Definition ly_set_merge (trg src : ptr) (options : Z) : M lsmem Z :=
  match trg, src with
  | None, _ => mret (-1)
  | Some _, None => mret 0
  | Some t, Some p =>
      s ← load_set p;
      _ ← (if use_as_list options then mret tt else remove_common (Z.to_nat (set_number s)) t p 0);
      ts ← load_set t;
      s ← load_set p;
      let total := wrap_u32 (set_number ts + set_number s) in
      ok ← (if set_size ts <? total then realloc_g t total else mret true);
      if negb (ok : bool) then mret (-1)
      else
        b ← elements s (Z.to_nat (set_number s));
        _ ← append_g t b;
        ts ← load_set t;
        _ ← store_set t (LySet (set_size ts) (wrap_u32 (set_number ts + set_number s)) (set_g ts));
        _ ← ly_set_free (Some p);
        mret (wrap_int (set_number s))
  end.
End LySet.
