(* ===== verification/LySetRep.v ===== *)
(** * The sets of nodes as lists

    [set_rep l s]: the set [s] holds the list [l] in its array. Every operation of
    LySet is followed on the list. *)

From S2P Require Import Prelude LySet.

(** ** Lists *)
Fixpoint index_of (node : ptr) (l : list ptr) : option nat :=
  match l with
  | [] => None
  | x :: l => if bool_decide (x = node) then Some 0%nat else S <$> index_of node l
  end.

(** The last element takes the place of the one that is removed. *)
Definition swap_remove (i : nat) (l : list ptr) : list ptr :=
  match last l with Some y => take (length l - 1) (<[i := y]> l) | None => [] end.

Lemma index_of_Some node l i : index_of node l = Some i -> l !! i = Some node.
Proof.
  revert i. induction l as [|x l IH]; [done|]. intros i. cbn. case_bool_decide as Hx; [by intros [= <-]; subst|].
  destruct (index_of node l) as [j|]; [|done]. intros [= <-]. by apply IH.
Qed.

Lemma index_of_None node l : index_of node l = None <-> node ∉ l.
Proof.
  induction l as [|x l IH]; cbn; [split; [intros _; apply not_elem_of_nil|done]|]. rewrite not_elem_of_cons. case_bool_decide as Hx.
  - split; [done|]. by intros [[] _].
  - destruct (index_of node l); [split; [done|]; intros [_ H]; by apply IH in H|]. split; [|done]. intros _. split; [done|by apply IH].
Qed.

Lemma swap_remove_last l y : swap_remove (length l) (l ++ [y]) = l.
Proof.
  unfold swap_remove. rewrite last_snoc, length_app. cbn [length]. replace (length l + 1 - 1)%nat with (length l) by lia.
  rewrite insert_app_r_alt, Nat.sub_diag by done. by rewrite take_app_length.
Qed.

Lemma swap_remove_mid k1 x k2 y : swap_remove (length k1) (k1 ++ x :: k2 ++ [y]) = k1 ++ y :: k2.
Proof.
  unfold swap_remove. rewrite app_comm_cons, app_assoc, last_snoc, !length_app. cbn [length].
  replace (length k1 + S (length k2) + 1 - 1)%nat with (length (k1 ++ y :: k2)) by (rewrite length_app; cbn; lia).
  rewrite <- app_assoc, insert_app_r_alt, Nat.sub_diag by done. cbn. rewrite app_comm_cons, app_assoc. by rewrite take_app_length.
Qed.

(** A position is that of the last element or one before it. *)
Lemma position_cases (l : list ptr) i x : l !! i = Some x ->
  (exists k, l = k ++ [x] /\ i = length k) \/ (exists k1 k2 y, l = k1 ++ x :: k2 ++ [y] /\ i = length k1).
Proof.
  intros H. pose proof (take_drop_middle _ _ _ H) as Hl. pose proof (lookup_lt_Some _ _ _ H) as Hi.
  destruct (drop (S i) l) as [|z k] eqn:Hd using rev_ind.
  - left. exists (take i l). split; [done|]. rewrite length_take. lia.
  - right. exists (take i l), k, z. split; [done|]. rewrite length_take. lia.
Qed.

Lemma swap_remove_perm i l x : l !! i = Some x -> l ≡ₚ x :: swap_remove i l.
Proof.
  intros [(k & -> & ->)|(k1 & k2 & y & -> & ->)]%position_cases; [rewrite swap_remove_last|rewrite swap_remove_mid]; solve_Permutation.
Qed.

Lemma swap_remove_take i l x : l !! i = Some x -> take i (swap_remove i l) = take i l.
Proof.
  intros [(k & -> & ->)|(k1 & k2 & y & -> & ->)]%position_cases; [rewrite swap_remove_last|rewrite swap_remove_mid]; by rewrite !take_app_length, ?firstn_all.
Qed.

Lemma swap_remove_length i l x : l !! i = Some x -> length l = S (length (swap_remove i l)).
Proof. intros H. by rewrite (swap_remove_perm _ _ _ H) at 1. Qed.

Lemma insert_two {A} (k1 k2 k3 : list A) x y z w :
  <[(length k1 + S (length k2))%nat := w]> (<[length k1 := y]> (k1 ++ x :: k2 ++ z :: k3)) = k1 ++ y :: k2 ++ w :: k3.
Proof.
  induction k1 as [|a k1 IH].
  - change (y :: <[length k2 := w]> (k2 ++ z :: k3) = y :: k2 ++ w :: k3). by rewrite insert_app_r_alt, Nat.sub_diag.
  - cbn. by f_equal.
Qed.

Lemma filter_none_in (l1 l2 : list ptr) : Forall (fun x => x ∉ l1) l2 -> filter (fun x => x ∉ l1) l2 = l2.
Proof. induction 1 as [|x l2 Hx Hl IH]; [done|]. by rewrite filter_cons_True, IH. Qed.

(** ** A list in an array *)

(** The most elements the theorems allow: their index is an int, and the room fits. *)
Definition LIMIT : nat := Z.to_nat (2^31 - 8).

Definition set_rep (l : list ptr) (s : ly_set) : Prop :=
  exists junk, set_number s = Z.of_nat (length l) /\ set_size s = Z.of_nat (length l + length junk) /\
    default [] (set_g s) = (Some <$> l) ++ junk /\ (length l <= LIMIT)%nat /\ set_size s <= 2^31.

Lemma rep_number l s : set_rep l s -> set_number s = Z.of_nat (length l) /\ 0 <= set_number s <= 2^31 - 8.
Proof. intros (junk & H1 & _ & _ & H4 & _). unfold LIMIT in H4. split; [done|lia]. Qed.

Section Arrays.
Context (oom : nat -> bool).
Implicit Types (l : list ptr) (s : ly_set) (m : lsmem) (p : positive) (node : ptr).

(** Some allocation fails. *)
Definition can_fail : Prop := exists n, oom n = true.

Definition with_set m p s : lsmem := LsMem (<[p := s]> (ls_sets m)) (ls_calls m).

Lemma load_eq m p s : ls_sets m !! p = Some s -> load_set p m = Ret s m.
Proof. unfold load_set. by intros ->. Qed.

Lemma store_eq m p s s' : ls_sets m !! p = Some s -> store_set p s' m = Ret tt (with_set m p s').
Proof. unfold store_set. by intros ->. Qed.

Lemma with_set_lookup m p s : ls_sets (with_set m p s) !! p = Some s.
Proof. apply lookup_insert_eq. Qed.

Lemma with_set_twice m p s s' : with_set (with_set m p s) p s' = with_set m p s'.
Proof. unfold with_set. cbn. by rewrite insert_insert_eq. Qed.

Lemma with_set_same m p s : ls_sets m !! p = Some s -> with_set m p s = m.
Proof. intros H. unfold with_set. rewrite insert_id by done. by destruct m. Qed.

Lemma get_g_eq l s m i x : set_rep l s -> l !! i = Some x -> get_g s (Z.of_nat i) m = Ret x m.
Proof.
  intros (junk & _ & _ & Hg & _) Hx. unfold get_g. rewrite Nat2Z.id. destruct (set_g s) as [b|]; cbn in Hg; subst.
  - rewrite lookup_app_l by (rewrite length_fmap; by eapply lookup_lt_Some). by rewrite list_lookup_fmap, Hx.
  - destruct l; [done|]. done.
Qed.

Lemma find_node_eq l s m node : set_rep l s -> forall l2 l1, l = l1 ++ l2 ->
  find_node (length l2) s (Z.of_nat (length l1)) node m = Ret ((fun j => Z.of_nat (length l1 + j)) <$> index_of node l2) m.
Proof.
  intros Hs l2. induction l2 as [|x l2 IH]; intros l1 Hl; [done|]. cbn [find_node length index_of].
  assert (l !! length l1 = Some x) as Hx by (rewrite Hl; by apply list_lookup_middle).
  rewrite (bind_ret_eq _ _ _ _ _ (get_g_eq l s m _ x Hs Hx)). case_bool_decide; [cbn; by rewrite Nat.add_0_r|].
  specialize (IH (l1 ++ [x])). rewrite length_app in IH. cbn [length] in IH. replace (Z.of_nat (length l1) + 1) with (Z.of_nat (length l1 + 1)) by lia.
  rewrite IH by (rewrite Hl; by rewrite <- app_assoc). destruct (index_of node l2) as [j|]; [|done]. cbn. do 2 f_equal. lia.
Qed.

Lemma find_whole l s m node : set_rep l s -> find_node (Z.to_nat (set_number s)) s 0 node m = Ret (Z.of_nat <$> index_of node l) m.
Proof. intros Hs. destruct (rep_number l s Hs) as [-> _]. rewrite Nat2Z.id. exact (find_node_eq l s m node Hs l [] eq_refl). Qed.

Lemma index_small l s node i : set_rep l s -> index_of node l = Some i -> (i < length l)%nat /\ wrap_int (Z.of_nat i) = Z.of_nat i.
Proof.
  intros Hs Hi. apply index_of_Some, lookup_lt_Some in Hi. destruct (rep_number l s Hs) as [H1 H2]. split; [done|]. apply wrap_int_id. unfold INT_MIN, INT_MAX. lia.
Qed.

Definition index_or (l : list ptr) (node : ptr) : Z := match index_of node l with Some i => Z.of_nat i | None => -1 end.

Lemma contains_eq l s m p node : ls_sets m !! p = Some s -> set_rep l s -> ly_set_contains (Some p) node m = Ret (index_or l node) m.
Proof.
  intros Hp Hs. unfold ly_set_contains. rewrite (bind_ret_eq _ _ _ _ _ (load_eq m p s Hp)), (bind_ret_eq _ _ _ _ _ (find_whole l s m node Hs)).
  unfold index_or. destruct (index_of node l) as [i|] eqn:Hi; [|done]. cbn. by rewrite (proj2 (index_small l s node i Hs Hi)).
Qed.

Lemma put_g_eq m p s b i node : ls_sets m !! p = Some s -> set_g s = Some b -> (i < length b)%nat ->
  put_g p (Z.of_nat i) node m = Ret tt (with_set m p (LySet (set_size s) (set_number s) (Some (<[i := Some node]> b)))).
Proof.
  intros Hp Hb Hi. unfold put_g. rewrite (bind_ret_eq _ _ _ _ _ (load_eq m p s Hp)), Hb. rewrite (proj2 (Z.ltb_lt _ _)) by lia. rewrite Nat2Z.id.
  by apply (store_eq m p s).
Qed.

(** Reallocating keeps the elements. *)
Lemma realloc_eq m p s l n : ls_sets m !! p = Some s -> set_rep l s -> set_size s < n <= 2^31 ->
  if oom (ls_calls m) then realloc_g oom p n m = Ret false (LsMem (ls_sets m) (S (ls_calls m)))
  else exists s', realloc_g oom p n m = Ret true (LsMem (<[p := s']> (ls_sets m)) (S (ls_calls m))) /\ set_rep l s' /\ set_size s' = n /\ set_number s' = set_number s.
Proof.
  intros Hp (junk & Hn & Hz & Hg & Hl & Hb) Hsz. unfold realloc_g. rewrite (bind_ret_eq (next_alloc oom) _ _ _ _ eq_refl).
  destruct (oom (ls_calls m)); cbn [negb]; [done|]. rewrite (proj2 (Z.eqb_neq n 0)) by lia.
  set (m1 := LsMem (ls_sets m) (S (ls_calls m))). change (ls_sets m) with (ls_sets m1) in Hp.
  rewrite (bind_ret_eq _ _ _ _ _ (load_eq m1 p s Hp)), (bind_ret_eq _ _ _ _ _ (store_eq m1 p s _ Hp)).
  eexists. split; [reflexivity|]. split; [|done]. set (b := match set_g s with Some b => b | None => [] end).
  change (b = (Some <$> l) ++ junk) in Hg. exists (junk ++ replicate (Z.to_nat n - length b) None). cbn [set_number set_size set_g default].
  assert (length b = length l + length junk)%nat as Hlb by (by rewrite Hg, length_app, length_fmap).
  split; [done|]. split; [|split; [|split; [done|lia]]].
  - rewrite length_app, length_replicate. lia.
  - rewrite take_ge by lia. rewrite Hg at 1. by rewrite <- app_assoc.
Qed.

(** An array with elements is there. *)
Lemma rep_block l s : set_rep l s -> 0 < set_size s -> exists b, set_g s = Some b /\ Z.of_nat (length b) = set_size s.
Proof.
  intros (junk & _ & Hz & Hg & _) H. destruct (set_g s) as [b|]; cbn in Hg; subst.
  - eexists. split; [done|]. rewrite length_app, length_fmap. lia.
  - symmetry in Hg. apply app_nil in Hg as [H1 H2]. apply fmap_nil_inv in H1. subst. cbn in Hz. lia.
Qed.

Lemma push_eq l s m p node : ls_sets m !! p = Some s -> set_rep l s -> (length l < LIMIT)%nat -> set_number s < set_size s ->
  exists s', (_ ← put_g p (Z.of_nat (length l)) node;
     s ← load_set p;
     let number := wrap_u32 (set_number s + 1) in
     _ ← store_set p (LySet (set_size s) number (set_g s));
     mret (wrap_int (number - 1))) m = Ret (Z.of_nat (length l)) (with_set m p s') /\ set_rep (l ++ [node]) s'.
Proof.
  intros Hp Hs Hlim Hroom. destruct (rep_block l s Hs ltac:(destruct (rep_number l s Hs); lia)) as (b & Hb & Hlen).
  destruct (rep_number l s Hs) as [Hn1 Hn2]. pose proof Hs as (junk & Hn & Hz & Hg & Hl & Hsz). rewrite Hb in Hg. cbn in Hg.
  rewrite (bind_ret_eq _ _ _ _ _ (put_g_eq m p s b (length l) node Hp Hb ltac:(lia))).
  rewrite (bind_ret_eq _ _ _ _ _ (load_eq _ _ _ (with_set_lookup _ _ _))). cbn [set_number set_size set_g].
  rewrite (bind_ret_eq _ _ _ _ _ (store_eq _ _ _ _ (with_set_lookup _ _ _))), with_set_twice.
  assert (wrap_u32 (set_number s + 1) = Z.of_nat (S (length l))) as -> by (unfold wrap_u32; rewrite Z.mod_small; lia).
  eexists. split; [unfold mret, M_ret; f_equal; rewrite wrap_int_id; unfold INT_MIN, INT_MAX; lia|].
  destruct junk as [|z junk]; [cbn in Hz; lia|]. exists junk. cbn [set_number set_size set_g default].
  rewrite !length_app. cbn [length] in *. split; [lia|]. split; [lia|]. split; [|split; [lia|done]].
  rewrite Hg, fmap_app, <- app_assoc. rewrite insert_app_r_alt by (rewrite length_fmap; lia). rewrite length_fmap, Nat.sub_diag. done.
Qed.

Lemma add_found l s m p node opts i : ls_sets m !! p = Some s -> set_rep l s -> use_as_list opts = false -> index_of node l = Some i ->
  ly_set_add oom (Some p) node opts m = Ret (Z.of_nat i) m.
Proof.
  intros Hp Hs Ho Hi. unfold ly_set_add. rewrite (bind_ret_eq _ _ _ _ _ (load_eq m p s Hp)), Ho.
  rewrite (bind_ret_eq _ _ _ _ _ (find_whole l s m node Hs)), Hi. cbn. by rewrite (proj2 (index_small l s node i Hs Hi)).
Qed.

Lemma add_new l s m p node opts : ls_sets m !! p = Some s -> set_rep l s -> (use_as_list opts = false -> node ∉ l) -> (length l < LIMIT)%nat ->
  (can_fail /\ ly_set_add oom (Some p) node opts m = Ret (-1) (LsMem (ls_sets m) (S (ls_calls m)))) \/
  exists s' c, ly_set_add oom (Some p) node opts m = Ret (Z.of_nat (length l)) (LsMem (<[p := s']> (ls_sets m)) c) /\ set_rep (l ++ [node]) s'.
Proof.
  intros Hp Hs Ho Hlim. unfold ly_set_add. rewrite (bind_ret_eq _ _ _ _ _ (load_eq m p s Hp)).
  assert ((if use_as_list opts then mret None else find_node (Z.to_nat (set_number s)) s 0 node) m = Ret None m) as Hf.
  { destruct (use_as_list opts); [done|]. rewrite (find_whole l s m node Hs). specialize (Ho eq_refl). by apply index_of_None in Ho as ->. }
  rewrite (bind_ret_eq _ _ _ _ _ Hf). destruct (rep_number l s Hs) as [Hn1 Hn2]. pose proof Hs as (junk & _ & Hz & _ & _ & Hsz).
  destruct (Z.eqb_spec (set_size s) (set_number s)) as [Heq|Hne].
  - replace (wrap_u32 (set_size s + 8)) with (set_size s + 8) by (unfold wrap_u32; rewrite Z.mod_small; lia).
    pose proof (realloc_eq m p s l (set_size s + 8) Hp Hs ltac:(lia)) as Hr. destruct (oom (ls_calls m)) eqn:Hoom.
    + rewrite (bind_ret_eq _ _ _ _ _ Hr). left. split; [by eexists|done].
    + destruct Hr as (s1 & He & Hs1 & Hz1 & Hn). rewrite (bind_ret_eq _ _ _ _ _ He). cbn [negb]. right. rewrite Hn1.
      destruct (push_eq l s1 (LsMem (<[p := s1]> (ls_sets m)) (S (ls_calls m))) p node) as (s2 & He2 & Hs2); [apply lookup_insert_eq|done|done|lia|].
      exists s2, (S (ls_calls m)). split; [|done]. etransitivity; [exact He2|]. unfold with_set. cbn. by rewrite insert_insert_eq.
  - rewrite (bind_ret_eq (mret true) _ _ _ _ eq_refl). cbn [negb]. right. rewrite Hn1.
    destruct (push_eq l s m p node Hp Hs Hlim ltac:(lia)) as (s2 & He2 & Hs2). exists s2, (ls_calls m). by split; [exact He2|].
Qed.

(** What the two branches of ly_set_rm_index leave in the array. *)
Lemma rm_element_eq l s m p i : ls_sets m !! p = Some s -> set_rep l s -> (i < length l)%nat ->
  exists s', (if Z.of_nat i =? Z.of_nat (length l - 1) then put_g p (Z.of_nat i) NULL
     else x ← get_g s (Z.of_nat (length l - 1)); _ ← put_g p (Z.of_nat i) x; put_g p (Z.of_nat (length l - 1)) NULL) m = Ret tt (with_set m p s') /\
    set_number s' = set_number s /\ set_rep (swap_remove i l) (LySet (set_size s') (set_number s' - 1) (set_g s')).
Proof.
  intros Hp Hs Hi. destruct (rep_number l s Hs) as [Hn1 Hn2]. pose proof Hs as (junk & Hn & Hz & Hg & Hl & Hsz).
  destruct (rep_block l s Hs ltac:(lia)) as (b & Hb & Hlen). rewrite Hb in Hg. cbn in Hg. destruct (lookup_lt_is_Some_2 l i Hi) as [x Hx].
  destruct (position_cases l i x Hx) as [(k & -> & ->)|(k1 & k2 & y & -> & ->)].
  - rewrite length_app in *. cbn [length] in *. replace (length k + 1 - 1)%nat with (length k) by lia. rewrite Z.eqb_refl.
    rewrite (put_g_eq m p s b (length k) NULL Hp Hb ltac:(lia)). eexists. split; [done|]. split; [done|]. rewrite swap_remove_last.
    exists (Some NULL :: junk). cbn [set_number set_size set_g default length]. repeat split; (lia || idtac).
    rewrite Hg, fmap_app, <- app_assoc, insert_app_r_alt by (rewrite length_fmap; lia). by rewrite length_fmap, Nat.sub_diag.
  - set (l := k1 ++ x :: k2 ++ [y]) in *. assert (length l = S (length k1 + S (length k2))) as Hll by (unfold l; rewrite length_app; cbn; rewrite length_app; cbn; lia).
    rewrite (proj2 (Z.eqb_neq _ _)) by lia.
    assert (l !! (length l - 1)%nat = Some y) as Hy.
    { unfold l. replace (length (k1 ++ x :: k2 ++ [y]) - 1)%nat with (length (k1 ++ x :: k2)) by (fold l; rewrite length_app; cbn; lia).
      rewrite app_comm_cons, app_assoc. by apply list_lookup_middle. }
    rewrite (bind_ret_eq _ _ _ _ _ (get_g_eq l s m _ y Hs Hy)), (bind_ret_eq _ _ _ _ _ (put_g_eq m p s b (length k1) y Hp Hb ltac:(lia))).
    rewrite (put_g_eq _ p (LySet (set_size s) (set_number s) (Some (<[length k1 := Some y]> b))) _ (length l - 1) NULL (with_set_lookup _ _ _) eq_refl)
      by (rewrite length_insert; lia).
    rewrite with_set_twice. eexists. split; [done|]. split; [done|]. assert (swap_remove (length k1) l = k1 ++ y :: k2) as -> by apply swap_remove_mid.
    exists (Some NULL :: junk). cbn [set_number set_size set_g default length]. rewrite length_app. cbn [length]. repeat split; (lia || idtac).
    rewrite Hg, Hll. unfold l. rewrite !fmap_app, !fmap_cons, fmap_app, <- !app_assoc. cbn [app fmap list_fmap]. rewrite <- app_assoc. cbn [app].
    pose proof (insert_two (Some <$> k1) (Some <$> k2) junk (Some x) (Some y) (Some y) (Some NULL)) as Hins. rewrite !length_fmap in Hins.
    replace (S (length k1 + S (length k2)) - 1)%nat with (length k1 + S (length k2))%nat by lia. exact Hins.
Qed.

Lemma rm_index_eq l s m p i : ls_sets m !! p = Some s -> set_rep l s -> (i < length l)%nat ->
  exists s', ly_set_rm_index (Some p) (Z.of_nat i) m = Ret EXIT_SUCCESS (with_set m p s') /\ set_rep (swap_remove i l) s'.
Proof.
  intros Hp Hs Hi. destruct (rep_number l s Hs) as [Hn1 Hn2]. unfold ly_set_rm_index. rewrite (bind_ret_eq _ _ _ _ _ (load_eq m p s Hp)).
  assert (wrap_u32 (Z.of_nat i + 1) = Z.of_nat i + 1) as -> by (unfold wrap_u32; rewrite Z.mod_small; lia).
  replace (Z.of_nat i + 1 >? set_number s) with false by (symmetry; rewrite Z.gtb_ltb; apply Z.ltb_ge; lia).
  assert (wrap_u32 (set_number s - 1) = Z.of_nat (length l - 1)) as -> by (unfold wrap_u32; rewrite Z.mod_small; lia).
  destruct (rm_element_eq l s m p i Hp Hs Hi) as (s1 & He & Hns & Hs1). rewrite (bind_ret_eq _ _ _ _ _ He).
  rewrite (bind_ret_eq _ _ _ _ _ (load_eq _ _ _ (with_set_lookup _ _ _))), (bind_ret_eq _ _ _ _ _ (store_eq _ _ _ _ (with_set_lookup _ _ _))), with_set_twice.
  eexists. split; [reflexivity|]. replace (wrap_u32 (set_number s1 - 1)) with (set_number s1 - 1) by (unfold wrap_u32; rewrite Z.mod_small; lia). done.
Qed.

Lemma rm_index_fail l s m p i : ls_sets m !! p = Some s -> set_rep l s -> Z.of_nat (length l) <= i < 2^32 - 1 ->
  ly_set_rm_index (Some p) i m = Ret EXIT_FAILURE m.
Proof.
  intros Hp Hs Hi. destruct (rep_number l s Hs) as [Hn1 Hn2]. unfold ly_set_rm_index. rewrite (bind_ret_eq _ _ _ _ _ (load_eq m p s Hp)).
  unfold wrap_u32 at 1. rewrite Z.mod_small by lia. replace (i + 1 >? set_number s) with true by (symmetry; rewrite Z.gtb_ltb; apply Z.ltb_lt; lia). done.
Qed.

(** The index that stands for a node that is not there passes the check. *)
Lemma rm_index_last l s m p : ls_sets m !! p = Some s -> set_rep l s -> ly_set_rm_index (Some p) (2^32 - 1) m = Undef.
Proof.
  intros Hp Hs. destruct (rep_number l s Hs) as [Hn1 Hn2]. pose proof Hs as (junk & Hn & Hz & Hg & Hl & Hsz).
  unfold ly_set_rm_index. rewrite (bind_ret_eq _ _ _ _ _ (load_eq m p s Hp)).
  change (wrap_u32 (2^32 - 1 + 1)) with 0. replace (0 >? set_number s) with false by (symmetry; rewrite Z.gtb_ltb; apply Z.ltb_ge; lia).
  assert (forall m' s' node, ls_sets m' !! p = Some s' -> set_g s' = set_g s -> put_g p (2^32 - 1) node m' = Undef) as Hput.
  { intros m' s' node Hp' Hg'. unfold put_g. rewrite (bind_ret_eq _ _ _ _ _ (load_eq m' p s' Hp')), Hg'. destruct (set_g s) as [b|]; [|done].
    cbn in Hg. subst b. rewrite (proj2 (Z.ltb_ge _ _)); [done|]. rewrite length_app, length_fmap. lia. }
  apply bind_undef_eq. destruct (2^32 - 1 =? wrap_u32 (set_number s - 1)) eqn:He; [by apply (Hput m s)|].
  destruct (get_g s (wrap_u32 (set_number s - 1)) m) as [x m'| | |] eqn:Hx.
  - assert (m' = m) as -> by (unfold get_g in Hx; repeat case_match; by simplify_eq). rewrite (bind_ret_eq _ _ _ _ _ Hx). apply bind_undef_eq. by apply (Hput m s).
  - unfold get_g in Hx. repeat case_match; done.
  - by apply bind_undef_eq.
  - unfold get_g in Hx. repeat case_match; done.
Qed.

Lemma rm_eq l s m p node : ls_sets m !! p = Some s -> set_rep l s -> node <> NULL ->
  match index_of node l with
  | None => ly_set_rm (Some p) node m = Ret EXIT_FAILURE m
  | Some i => exists s', ly_set_rm (Some p) node m = Ret EXIT_SUCCESS (with_set m p s') /\ set_rep (swap_remove i l) s'
  end.
Proof.
  intros Hp Hs Hn. unfold ly_set_rm. destruct node as [n|]; [|done].
  rewrite (bind_ret_eq _ _ _ _ _ (load_eq m p s Hp)), (bind_ret_eq _ _ _ _ _ (find_whole l s m _ Hs)).
  destruct (index_of (Some n) l) as [i|] eqn:Hi; [|done]. cbn. apply (rm_index_eq l s m p i Hp Hs). by apply (index_small l s _ i Hs Hi).
Qed.

Lemma clean_eq l s m p : ls_sets m !! p = Some s -> set_rep l s ->
  exists s', ly_set_clean (Some p) m = Ret EXIT_SUCCESS (with_set m p s') /\ set_rep [] s'.
Proof.
  intros Hp (junk & Hn & Hz & Hg & Hl & Hsz). unfold ly_set_clean. rewrite (bind_ret_eq _ _ _ _ _ (load_eq m p s Hp)), (bind_ret_eq _ _ _ _ _ (store_eq m p s _ Hp)).
  eexists. split; [reflexivity|]. exists ((Some <$> l) ++ junk). cbn [set_number set_size set_g length]. rewrite length_app, length_fmap.
  repeat split; (done || unfold LIMIT; lia).
Qed.

Lemma elements_eq s m b n : (n <= length b)%nat -> default [] (set_g s) = b -> elements s n m = Ret (take n b) m.
Proof.
  intros Hn Hb. unfold elements. destruct n as [|n]; [done|]. destruct (set_g s) as [b'|]; cbn in Hb; subst; [|cbn in Hn; lia].
  by rewrite (proj2 (Nat.leb_le _ _) Hn).
Qed.

Lemma dup_eq l s m p : ls_sets m !! p = Some s -> set_rep l s ->
  (can_fail /\ exists c, ly_set_dup oom (Some p) m = Ret NULL (LsMem (ls_sets m) c)) \/
  (exists q s' c, ly_set_dup oom (Some p) m = Ret (Some q) (LsMem (<[q := s']> (ls_sets m)) c) /\ ls_sets m !! q = None /\ set_rep l s').
Proof.
  intros Hp (junk & Hn & Hz & Hg & Hl & Hsz). unfold ly_set_dup. rewrite (bind_ret_eq (next_alloc oom) _ _ _ _ eq_refl).
  destruct (oom (ls_calls m)) eqn:Ho1; cbn [negb]; [left; split; by eexists|]. rewrite (bind_ret_eq (next_alloc oom) _ _ _ _ eq_refl). cbn [ls_calls].
  destruct (oom (S (ls_calls m))) eqn:Ho2; cbn [negb ls_sets]; [left; split; by eexists|]. right.
  assert (length ((Some <$> l) ++ junk) = Z.to_nat (set_size s)) as Hlen by (rewrite length_app, length_fmap; lia).
  erewrite bind_ret_eq; [|by apply load_eq]. rewrite (bind_ret_eq _ _ _ _ _ (elements_eq s _ _ _ (eq_ind _ (fun n => (n <= _)%nat) (le_n _) _ Hlen) Hg)).
  rewrite (bind_ret_eq (new_set _) _ _ _ _ eq_refl). eexists _, _, _. split; [reflexivity|]. split; [apply not_elem_of_dom, is_fresh|].
  exists junk. cbn [set_number set_size set_g default]. repeat split; try done. rewrite <- Hlen. apply firstn_all.
Qed.

(** The common elements leave src, in whatever order. *)
Lemma remove_common_eq t p l1 ts : t <> p -> set_rep l1 ts -> forall fuel l2 i s m, ls_sets m !! t = Some ts -> ls_sets m !! p = Some s ->
  set_rep l2 s -> (i <= length l2)%nat -> (length l2 - i <= fuel)%nat -> Forall (fun x => x ∉ l1) (take i l2) ->
  exists s' l2', remove_common fuel t p (Z.of_nat i) m = Ret tt (with_set m p s') /\ set_rep l2' s' /\ l2' ≡ₚ filter (fun x => x ∉ l1) l2.
Proof.
  intros Htp Hts fuel. induction fuel as [|fuel IH]; intros l2 i s m Ht Hp Hs Hi Hf Hpre; cbn [remove_common];
    rewrite (bind_ret_eq _ _ _ _ _ (load_eq m p s Hp)); destruct (rep_number l2 s Hs) as [-> _].
  1,2: destruct (decide (i = length l2)) as [-> |Hne]; [rewrite Z.ltb_irrefl; exists s, l2; rewrite with_set_same by done; split; [done|]; split; [done|]; rewrite firstn_all in Hpre; by rewrite filter_none_in|].
  { lia. }
  rewrite (proj2 (Z.ltb_lt _ _)) by lia. destruct (lookup_lt_is_Some_2 l2 i ltac:(lia)) as [x Hx].
  rewrite (bind_ret_eq _ _ _ _ _ (get_g_eq l2 s m i x Hs Hx)), (bind_ret_eq _ _ _ _ _ (contains_eq l1 ts m t x Ht Hts)). unfold index_or.
  destruct (index_of x l1) as [j|] eqn:Hj.
  - replace (Z.of_nat j >? -1) with true by (symmetry; rewrite Z.gtb_ltb; apply Z.ltb_lt; lia).
    destruct (rm_index_eq l2 s m p i Hp Hs ltac:(lia)) as (s1 & He & Hs1). rewrite (bind_ret_eq _ _ _ _ _ He).
    pose proof (swap_remove_length i l2 x Hx) as Hlen. destruct (IH (swap_remove i l2) i s1 (with_set m p s1)) as (s2 & l3 & He2 & Hs2 & Hperm); [..|lia|lia| |].
    + unfold with_set. cbn. by rewrite lookup_insert_ne.
    + apply with_set_lookup.
    + done.
    + by rewrite (swap_remove_take i l2 x Hx).
    + rewrite He2, with_set_twice. exists s2, l3. split; [done|]. split; [done|]. rewrite Hperm. symmetry.
      etransitivity; [apply filter_Permutation, (swap_remove_perm i l2 x Hx)|]. rewrite filter_cons_False; [done|]. intros Hc. apply Hc. apply index_of_Some, list_elem_of_lookup_2 in Hj. done.
  - change (-1 >? -1) with false. replace (Z.of_nat i + 1) with (Z.of_nat (S i)) by lia. apply (IH l2 (S i) s m Ht Hp Hs); [lia|lia|].
    rewrite (take_S_r l2 i x Hx). apply Forall_app. split; [done|]. apply Forall_singleton. by apply index_of_None.
Qed.

Lemma append_eq l1 l2 ts m t : ls_sets m !! t = Some ts -> set_rep l1 ts -> Z.of_nat (length l1 + length l2) <= set_size ts -> (length l1 + length l2 <= LIMIT)%nat ->
  exists ts', append_g t (Some <$> l2) m = Ret tt (with_set m t ts') /\ set_number ts' = set_number ts /\
    set_rep (l1 ++ l2) (LySet (set_size ts') (set_number ts' + Z.of_nat (length l2)) (set_g ts')).
Proof.
  intros Ht Hts Hroom Hlim. unfold append_g. rewrite (bind_ret_eq _ _ _ _ _ (load_eq m t ts Ht)). destruct l2 as [|y l2].
  - exists ts. rewrite with_set_same by done. split; [done|]. split; [done|]. rewrite app_nil_r. cbn. rewrite Z.add_0_r. by destruct ts.
  - set (l := y :: l2) in *. destruct (rep_block l1 ts Hts) as (b & Hb & Hlen); [unfold l in Hroom; cbn in Hroom; lia|].
    destruct (rep_number l1 ts Hts) as [Hn1 Hn2]. pose proof Hts as (junk & Hn & Hz & Hg & Hl & Hsz). rewrite Hb in *. cbn in Hg.
    remember (Some <$> l) as bl eqn:Ebl. destruct bl as [|z k]; [done|]. rewrite Ebl, Hn1, Nat2Z.id, length_fmap.
    rewrite (proj2 (Nat.leb_le _ _)) by lia. rewrite (store_eq m t ts _ Ht). eexists. split; [reflexivity|]. split; [done|].
    exists (drop (length l) junk). cbn [set_number set_size set_g default]. rewrite !length_app, length_drop. repeat split; [lia|lia| |lia|lia].
    rewrite Hg, fmap_app, <- app_assoc. replace (length l1) with (length (Some <$> l1)) at 1 2 by apply length_fmap. by rewrite take_app_length, drop_app_add.
Qed.

(** What src keeps. *)
Definition merged (opts : Z) (l1 l2 l3 : list ptr) : Prop :=
  if use_as_list opts then l3 = l2 else l3 ≡ₚ filter (fun x => x ∉ l1) l2.

Lemma merged_length opts l1 l2 l3 : merged opts l1 l2 l3 -> (length l3 <= length l2)%nat.
Proof. unfold merged. destruct (use_as_list opts); [by intros ->|]. intros ->. apply length_filter. Qed.

(** The room, the copy and the free. *)
Lemma merge_copy t p l1 l3 ts s m : t <> p -> ls_sets m !! t = Some ts -> ls_sets m !! p = Some s -> set_rep l1 ts -> set_rep l3 s ->
  (length l1 + length l3 <= LIMIT)%nat -> Z.of_nat (length l1 + length l3) <= set_size ts ->
  exists ts', (b ← elements s (Z.to_nat (set_number s));
    _ ← append_g t b;
    ts ← load_set t;
    _ ← store_set t (LySet (set_size ts) (wrap_u32 (set_number ts + set_number s)) (set_g ts));
    _ ← ly_set_free (Some p);
    mret (wrap_int (set_number s))) m = Ret (Z.of_nat (length l3)) (LsMem (<[t := ts']> (delete p (ls_sets m))) (ls_calls m)) /\ set_rep (l1 ++ l3) ts'.
Proof.
  intros Htp Ht Hp Hts Hs Hlim Hroom. destruct (rep_number l3 s Hs) as [Hn3 Hn3b]. destruct (rep_number l1 ts Hts) as [Hn1 Hn1b].
  pose proof Hs as (junk & _ & _ & Hg & _). assert (Z.to_nat (set_number s) <= length ((Some <$> l3) ++ junk))%nat as Hlen by (rewrite length_app, length_fmap; lia).
  rewrite (bind_ret_eq _ _ _ _ _ (elements_eq s m _ _ Hlen Hg)).
  replace (take (Z.to_nat (set_number s)) ((Some <$> l3) ++ junk)) with (Some <$> l3).
  2: { rewrite Hn3, Nat2Z.id. rewrite <- (length_fmap (Some (A := ptr)) l3) at 1. by rewrite take_app_length. }
  destruct (append_eq l1 l3 ts m t Ht Hts Hroom Hlim) as (ts1 & He & Hn & Hts1). rewrite (bind_ret_eq _ _ _ _ _ He).
  rewrite (bind_ret_eq _ _ _ _ _ (load_eq _ _ _ (with_set_lookup _ _ _))), (bind_ret_eq _ _ _ _ _ (store_eq _ _ _ _ (with_set_lookup _ _ _))), with_set_twice.
  set (ts2 := LySet _ _ _). assert (ly_set_free (Some p) (with_set m t ts2) = Ret tt (LsMem (<[t := ts2]> (delete p (ls_sets m))) (ls_calls m))) as Hfree.
  { unfold ly_set_free, with_set. cbn [ls_sets ls_calls]. rewrite lookup_insert_ne, Hp by done. by rewrite delete_insert_ne. }
  rewrite (bind_ret_eq _ _ _ _ _ Hfree). exists ts2. split.
  - unfold mret, M_ret. f_equal. rewrite wrap_int_id; unfold INT_MIN, INT_MAX; lia.
  - unfold ts2. unfold wrap_u32. unfold LIMIT in Hlim. rewrite Z.mod_small by lia. rewrite Hn3. done.
Qed.

Lemma merge_eq t p l1 l2 ts s m opts : t <> p -> ls_sets m !! t = Some ts -> ls_sets m !! p = Some s -> set_rep l1 ts -> set_rep l2 s ->
  (length l1 + length l2 <= LIMIT)%nat -> exists l3, merged opts l1 l2 l3 /\
  ((can_fail /\ exists s' c, ly_set_merge oom (Some t) (Some p) opts m = Ret (-1) (LsMem (<[p := s']> (ls_sets m)) c) /\ set_rep l3 s') \/
   (exists ts' c, ly_set_merge oom (Some t) (Some p) opts m = Ret (Z.of_nat (length l3)) (LsMem (<[t := ts']> (delete p (ls_sets m))) c) /\ set_rep (l1 ++ l3) ts')).
Proof.
  intros Htp Ht Hp Hts Hs Hlim. unfold ly_set_merge. rewrite (bind_ret_eq _ _ _ _ _ (load_eq m p s Hp)).
  assert (exists s1 l3, (if use_as_list opts then mret tt else remove_common (Z.to_nat (set_number s)) t p 0) m = Ret tt (with_set m p s1) /\
    set_rep l3 s1 /\ merged opts l1 l2 l3) as (s1 & l3 & He & Hs1 & Hm).
  { unfold merged. destruct (use_as_list opts); [exists s, l2; by rewrite with_set_same|].
    destruct (rep_number l2 s Hs) as [Hn _]. destruct (remove_common_eq t p l1 ts Htp Hts (Z.to_nat (set_number s)) l2 0 s m Ht Hp Hs) as (s1 & l3 & H1 & H2 & H3);
      [lia|lia|constructor|]. by exists s1, l3. }
  exists l3. split; [done|]. rewrite (bind_ret_eq _ _ _ _ _ He). set (m1 := with_set m p s1). pose proof (merged_length _ _ _ _ Hm) as Hlen.
  assert (ls_sets m1 !! t = Some ts) as Ht1 by (unfold m1, with_set; cbn; by rewrite lookup_insert_ne).
  assert (ls_sets m1 !! p = Some s1) as Hp1 by apply with_set_lookup.
  rewrite (bind_ret_eq _ _ _ _ _ (load_eq m1 t ts Ht1)), (bind_ret_eq _ _ _ _ _ (load_eq m1 p s1 Hp1)).
  destruct (rep_number l1 ts Hts) as [Hn1 Hn1b], (rep_number l3 s1 Hs1) as [Hn3 Hn3b].
  assert (wrap_u32 (set_number ts + set_number s1) = Z.of_nat (length l1 + length l3)) as ->.
  { unfold wrap_u32, LIMIT in *. rewrite Z.mod_small; lia. }
  destruct (Z.ltb_spec (set_size ts) (Z.of_nat (length l1 + length l3))) as [Hlt|Hge].
  - pose proof (realloc_eq m1 t ts l1 (Z.of_nat (length l1 + length l3)) Ht1 Hts ltac:(unfold LIMIT in Hlim; lia)) as Hr. destruct (oom (ls_calls m1)) eqn:Hoom.
    + rewrite (bind_ret_eq _ _ _ _ _ Hr). left. split; [by eexists|]. by exists s1, (S (ls_calls m1)).
    + destruct Hr as (ts1 & He1 & Hts1 & Hz1 & Hnum). rewrite (bind_ret_eq _ _ _ _ _ He1). right.
      destruct (merge_copy t p l1 l3 ts1 s1 (LsMem (<[t := ts1]> (ls_sets m1)) (S (ls_calls m1))) Htp) as (ts2 & He2 & Hts2);
        [apply lookup_insert_eq|cbn; by rewrite lookup_insert_ne|done|done|lia|lia|].
      exists ts2, (S (ls_calls m1)). split; [|done]. etransitivity; [exact He2|]. cbn [ls_sets ls_calls].
      rewrite delete_insert_ne, insert_insert_eq by done. unfold m1, with_set. cbn. by rewrite delete_insert_eq.
  - rewrite (bind_ret_eq (mret true) _ _ _ _ eq_refl). right.
    destruct (merge_copy t p l1 l3 ts s1 m1 Htp Ht1 Hp1 Hts Hs1 ltac:(lia) Hge) as (ts2 & He2 & Hts2).
    exists ts2, (ls_calls m1). split; [|done]. etransitivity; [exact He2|]. unfold m1, with_set. cbn. by rewrite delete_insert_eq.
Qed.
End Arrays.
