(* ===== verification/LySetThms.v ===== *)
(** * Theorems on the sets of nodes

    The sets refine a map from locations to lists, for every client that uses only
    sets it got and did not free; a client that does not ask for duplicates keeps
    every list free of them. *)

From S2P Require Import Prelude LySet LySetRep.

(** ** Calls and their results *)
Inductive sop :=
| SNew
| SFree (set : ptr)
| SContains (set node : ptr)
| SDup (set : ptr)
| SAdd (set node : ptr) (options : Z)
| SMerge (trg src : ptr) (options : Z)
| SRmIndex (set : ptr) (index : Z)
| SRm (set node : ptr)
| SClean (set : ptr).

Inductive sres := SPtr (p : ptr) | SInt (z : Z) | SVoid.

Definition run_sop (oom : nat -> bool) (o : sop) : M lsmem sres :=
  match o with
  | SNew => p ← ly_set_new oom; mret (SPtr p)
  | SFree set => _ ← ly_set_free set; mret SVoid
  | SContains set node => r ← ly_set_contains set node; mret (SInt r)
  | SDup set => p ← ly_set_dup oom set; mret (SPtr p)
  | SAdd set node options => r ← ly_set_add oom set node options; mret (SInt r)
  | SMerge trg src options => r ← ly_set_merge oom trg src options; mret (SInt r)
  | SRmIndex set index => r ← ly_set_rm_index set index; mret (SInt r)
  | SRm set node => r ← ly_set_rm set node; mret (SInt r)
  | SClean set => r ← ly_set_clean set; mret (SInt r)
  end.

(** ** The specification *)
Abbreviation lists := (gmap positive (list ptr)).

(** [fails]: whether an allocation may fail. *)
Inductive set_step (fails : Prop) (a : lists) : sop -> sres -> lists -> Prop :=
| step_new p : a !! p = None -> set_step fails a SNew (SPtr (Some p)) (<[p := []]> a)
| step_new_fail : fails -> set_step fails a SNew (SPtr NULL) a
| step_free p l : a !! p = Some l -> set_step fails a (SFree (Some p)) SVoid (delete p a)
| step_free_null : set_step fails a (SFree NULL) SVoid a
| step_contains p l node : a !! p = Some l -> set_step fails a (SContains (Some p) node) (SInt (index_or l node)) a
| step_contains_null node : set_step fails a (SContains NULL node) (SInt (-1)) a
| step_dup p q l : a !! p = Some l -> a !! q = None -> set_step fails a (SDup (Some p)) (SPtr (Some q)) (<[q := l]> a)
| step_dup_fail p : fails -> set_step fails a (SDup (Some p)) (SPtr NULL) a
| step_dup_null : set_step fails a (SDup NULL) (SPtr NULL) a
| step_add_found p l node opts i : a !! p = Some l -> use_as_list opts = false -> index_of node l = Some i ->
    set_step fails a (SAdd (Some p) node opts) (SInt (Z.of_nat i)) a
| step_add p l node opts : a !! p = Some l -> (use_as_list opts = false -> node ∉ l) ->
    set_step fails a (SAdd (Some p) node opts) (SInt (Z.of_nat (length l))) (<[p := l ++ [node]]> a)
| step_add_fail p l node opts : fails -> a !! p = Some l -> (use_as_list opts = false -> node ∉ l) ->
    set_step fails a (SAdd (Some p) node opts) (SInt (-1)) a
| step_add_null node opts : set_step fails a (SAdd NULL node opts) (SInt (-1)) a
| step_merge t p l1 l2 l3 opts : a !! t = Some l1 -> a !! p = Some l2 -> merged opts l1 l2 l3 ->
    set_step fails a (SMerge (Some t) (Some p) opts) (SInt (Z.of_nat (length l3))) (<[t := l1 ++ l3]> (delete p a))
| step_merge_fail t p l1 l2 l3 opts : fails -> a !! t = Some l1 -> a !! p = Some l2 -> merged opts l1 l2 l3 ->
    set_step fails a (SMerge (Some t) (Some p) opts) (SInt (-1)) (<[p := l3]> a)
| step_merge_no_trg p opts : set_step fails a (SMerge NULL p opts) (SInt (-1)) a
| step_merge_no_src t opts : set_step fails a (SMerge (Some t) NULL opts) (SInt 0) a
| step_rm_index p l i : a !! p = Some l -> (i < length l)%nat ->
    set_step fails a (SRmIndex (Some p) (Z.of_nat i)) (SInt 0) (<[p := swap_remove i l]> a)
| step_rm_index_fail p l i : a !! p = Some l -> Z.of_nat (length l) <= i -> set_step fails a (SRmIndex (Some p) i) (SInt 1) a
| step_rm_index_null i : set_step fails a (SRmIndex NULL i) (SInt 1) a
| step_rm p l node i : a !! p = Some l -> node <> NULL -> index_of node l = Some i ->
    set_step fails a (SRm (Some p) node) (SInt 0) (<[p := swap_remove i l]> a)
| step_rm_fail p l node : a !! p = Some l -> node = NULL \/ node ∉ l -> set_step fails a (SRm (Some p) node) (SInt 1) a
| step_rm_null node : set_step fails a (SRm NULL node) (SInt 1) a
| step_clean p l : a !! p = Some l -> set_step fails a (SClean (Some p)) (SInt 0) (<[p := []]> a)
| step_clean_null : set_step fails a (SClean NULL) (SInt 1) a.

(** A set that is there, or NULL. *)
Definition live (a : lists) (p : ptr) : Prop := forall q, p = Some q -> is_Some (a !! q).
Definition len (a : lists) (p : ptr) : nat := match p ≫= (a !!.) with Some l => length l | None => 0 end%nat.

(** The calls a client may make: on live sets, two different ones for a merge, within
    LIMIT elements, and with an index other than UINT_MAX. *)
Definition allowed (a : lists) (o : sop) : Prop :=
  match o with
  | SNew => True
  | SFree p | SContains p _ | SDup p | SRm p _ | SClean p => live a p
  | SAdd p _ _ => live a p /\ (len a p < LIMIT)%nat
  | SMerge t p _ => live a t /\ live a p /\ (t = p -> t = NULL) /\ (len a t + len a p <= LIMIT)%nat
  | SRmIndex p i => live a p /\ 0 <= i < 2^32 - 1
  end.

(** ** One call *)
Definition reps (a : lists) (m : lsmem) : Prop := map_Forall2 (fun _ l s => set_rep l s) a (ls_sets m).

Lemma reps_get a m p l : reps a m -> a !! p = Some l -> exists s, ls_sets m !! p = Some s /\ set_rep l s.
Proof. intros H Ha. specialize (H p). rewrite Ha in H. inversion H as [x s Hr Hx Hs|]; subst. by exists s. Qed.

Lemma reps_put a m p l s c : reps a m -> set_rep l s -> reps (<[p := l]> a) (LsMem (<[p := s]> (ls_sets m)) c).
Proof. intros H Hs. by apply map_Forall2_insert_2. Qed.

Lemma reps_drop a m p c : reps a m -> reps (delete p a) (LsMem (delete p (ls_sets m)) c).
Proof. intros H. by apply map_Forall2_delete. Qed.

Lemma reps_fresh a m p : reps a m -> ls_sets m !! p = None -> a !! p = None.
Proof. intros H Hp. specialize (H p). rewrite Hp in H. by inversion H. Qed.

Lemma reps_calls a m c : reps a m -> reps a (LsMem (ls_sets m) c).
Proof. done. Qed.

Lemma live_get a p : live a (Some p) -> exists l, a !! p = Some l.
Proof. intros H. exact (H p eq_refl). Qed.

Section Simulation.
Context (oom : nat -> bool).

(** The call returns, as the specification allows it, and the sets hold the lists. *)
Definition simulates (a : lists) (o : sop) (m : lsmem) : Prop :=
  exists r m' a', run_sop oom o m = Ret r m' /\ set_step (can_fail oom) a o r a' /\ reps a' m'.

Lemma simulate a o m r m' a' : run_sop oom o m = Ret r m' -> set_step (can_fail oom) a o r a' -> reps a' m' -> simulates a o m.
Proof. intros H1 H2 H3. by exists r, m', a'. Qed.

Lemma simulate_new a m : reps a m -> simulates a SNew m.
Proof.
  intros Hm. pose proof (is_fresh (dom (ls_sets m))) as Hf%not_elem_of_dom. destruct (oom (ls_calls m)) eqn:Ho.
  - apply (simulate a SNew m (SPtr NULL) (LsMem (ls_sets m) (S (ls_calls m))) a); [|constructor; by eexists|done].
    cbn [run_sop]. unfold ly_set_new, next_alloc, mbind, M_bind. by rewrite Ho.
  - eapply (simulate a SNew m (SPtr (Some (fresh (dom (ls_sets m)))))); [|constructor; by apply (reps_fresh a m)|].
    + cbn [run_sop]. unfold ly_set_new, next_alloc, mbind, M_bind. rewrite Ho. reflexivity.
    + apply reps_put; [done|]. exists []. cbn. unfold LIMIT. repeat split; lia.
Qed.

Lemma simulate_free a m p : reps a m -> live a p -> simulates a (SFree p) m.
Proof.
  intros Hm Hl. destruct p as [p|]; [|by eapply simulate; [reflexivity|constructor|]]. apply live_get in Hl as [l Ha].
  destruct (reps_get a m p l Hm Ha) as (s & Hs & _). eapply simulate; [|by econstructor|by apply reps_drop].
  cbn [run_sop]. unfold ly_set_free, mbind, M_bind. by rewrite Hs.
Qed.

Lemma simulate_contains a m p node : reps a m -> live a p -> simulates a (SContains p node) m.
Proof.
  intros Hm Hl. destruct p as [p|]; [|by eapply simulate; [reflexivity|constructor|]]. apply live_get in Hl as [l Ha].
  destruct (reps_get a m p l Hm Ha) as (s & Hs & Hr). eapply simulate; [|by econstructor|done].
  cbn [run_sop]. by rewrite (bind_ret_eq _ _ _ _ _ (contains_eq l s m p node Hs Hr)).
Qed.

Lemma simulate_dup a m p : reps a m -> live a p -> simulates a (SDup p) m.
Proof.
  intros Hm Hl. destruct p as [p|]; [|by eapply simulate; [reflexivity|constructor|]]. apply live_get in Hl as [l Ha].
  destruct (reps_get a m p l Hm Ha) as (s & Hs & Hr). destruct (dup_eq oom l s m p Hs Hr) as [[Hf [c He]]|(q & s' & c & He & Hq & Hr')].
  - eapply simulate; [cbn [run_sop]; by rewrite (bind_ret_eq _ _ _ _ _ He)|by apply step_dup_fail|done].
  - eapply simulate; [cbn [run_sop]; by rewrite (bind_ret_eq _ _ _ _ _ He)|eapply step_dup; [done|by apply (reps_fresh a m)]|by apply reps_put].
Qed.

Lemma simulate_add a m p node opts : reps a m -> live a p -> (len a p < LIMIT)%nat -> simulates a (SAdd p node opts) m.
Proof.
  intros Hm Hl Hlim. destruct p as [p|]; [|by eapply simulate; [reflexivity|constructor|]]. apply live_get in Hl as [l Ha].
  destruct (reps_get a m p l Hm Ha) as (s & Hs & Hr). unfold len in Hlim. cbn in Hlim. rewrite Ha in Hlim.
  assert ((use_as_list opts = false /\ exists i, index_of node l = Some i) \/ (use_as_list opts = false -> node ∉ l)) as [[Ho [i Hi]]|Ho].
  { destruct (use_as_list opts); [by right|]. destruct (index_of node l) eqn:Hi; [left; eauto|right; intros _; by apply index_of_None]. }
  - eapply simulate; [cbn [run_sop]; by rewrite (bind_ret_eq _ _ _ _ _ (add_found oom l s m p node opts i Hs Hr Ho Hi))|by eapply step_add_found|done].
  - destruct (add_new oom l s m p node opts Hs Hr Ho Hlim) as [[Hf He]|(s' & c & He & Hr')].
    + eapply simulate; [cbn [run_sop]; by rewrite (bind_ret_eq _ _ _ _ _ He)|by eapply step_add_fail|done].
    + eapply simulate; [cbn [run_sop]; by rewrite (bind_ret_eq _ _ _ _ _ He)|by eapply step_add|by apply reps_put].
Qed.

Lemma simulate_merge a m t p opts : reps a m -> allowed a (SMerge t p opts) -> simulates a (SMerge t p opts) m.
Proof.
  intros Hm (Ht & Hp & Hne & Hlim). destruct t as [t|]; [|by eapply simulate; [reflexivity|constructor|]].
  destruct p as [p|]; [|by eapply simulate; [reflexivity|constructor|]]. assert (t <> p) as Htp by (intros ->; by specialize (Hne eq_refl)).
  apply live_get in Ht as [l1 Ht], Hp as [l2 Hp]. destruct (reps_get a m t l1 Hm Ht) as (ts & Hts & Hr1), (reps_get a m p l2 Hm Hp) as (s & Hs & Hr2).
  unfold len in Hlim. cbn in Hlim. rewrite Ht, Hp in Hlim.
  destruct (merge_eq oom t p l1 l2 ts s m opts Htp Hts Hs Hr1 Hr2 Hlim) as (l3 & Hmg & [(Hf & s' & c & He & Hr)|(ts' & c & He & Hr)]).
  - eapply simulate; [cbn [run_sop]; by rewrite (bind_ret_eq _ _ _ _ _ He)|by eapply step_merge_fail|by apply reps_put].
  - eapply simulate; [cbn [run_sop]; by rewrite (bind_ret_eq _ _ _ _ _ He)|by eapply step_merge|].
    exact (reps_put (delete p a) (LsMem (delete p (ls_sets m)) c) t _ ts' c (reps_drop a m p c Hm) Hr).
Qed.

Lemma simulate_rm_index a m p i : reps a m -> live a p -> 0 <= i < 2^32 - 1 -> simulates a (SRmIndex p i) m.
Proof.
  intros Hm Hl Hi. destruct p as [p|]; [|by eapply simulate; [reflexivity|constructor|]]. apply live_get in Hl as [l Ha].
  destruct (reps_get a m p l Hm Ha) as (s & Hs & Hr). destruct (decide (Z.of_nat (length l) <= i)) as [Hge|Hlt].
  - eapply simulate; [cbn [run_sop]; by rewrite (bind_ret_eq _ _ _ _ _ (rm_index_fail l s m p i Hs Hr (conj Hge (proj2 Hi))))|by eapply step_rm_index_fail|done].
  - rewrite <- (Z2Nat.id i) by lia. destruct (rm_index_eq l s m p (Z.to_nat i) Hs Hr ltac:(lia)) as (s' & He & Hr').
    eapply simulate; [cbn [run_sop]; by rewrite (bind_ret_eq _ _ _ _ _ He)|eapply step_rm_index; [done|lia]|by apply reps_put].
Qed.

Lemma simulate_rm a m p node : reps a m -> live a p -> simulates a (SRm p node) m.
Proof.
  intros Hm Hl. destruct p as [p|]; [|by eapply simulate; [reflexivity|constructor|]]. apply live_get in Hl as [l Ha].
  destruct (reps_get a m p l Hm Ha) as (s & Hs & Hr). destruct (decide (node = NULL)) as [-> |Hn].
  { eapply simulate; [reflexivity|eapply step_rm_fail; [done|by left]|done]. }
  pose proof (rm_eq l s m p node Hs Hr Hn) as He. destruct (index_of node l) as [i|] eqn:Hi.
  - destruct He as (s' & He & Hr'). eapply simulate; [cbn [run_sop]; by rewrite (bind_ret_eq _ _ _ _ _ He)|by eapply step_rm|by apply reps_put].
  - eapply simulate; [cbn [run_sop]; by rewrite (bind_ret_eq _ _ _ _ _ He)|eapply step_rm_fail; [done|right; by apply index_of_None]|done].
Qed.

Lemma simulate_clean a m p : reps a m -> live a p -> simulates a (SClean p) m.
Proof.
  intros Hm Hl. destruct p as [p|]; [|by eapply simulate; [reflexivity|constructor|]]. apply live_get in Hl as [l Ha].
  destruct (reps_get a m p l Hm Ha) as (s & Hs & Hr). destruct (clean_eq l s m p Hs Hr) as (s' & He & Hr').
  eapply simulate; [cbn [run_sop]; by rewrite (bind_ret_eq _ _ _ _ _ He)|by eapply step_clean|by apply reps_put].
Qed.

Lemma simulate_all a o m : reps a m -> allowed a o -> simulates a o m.
Proof.
  intros Hm Ho. destruct o; cbn in Ho.
  - by apply simulate_new.
  - by apply simulate_free.
  - by apply simulate_contains.
  - by apply simulate_dup.
  - destruct Ho. by apply simulate_add.
  - by apply simulate_merge.
  - destruct Ho. by apply simulate_rm_index.
  - by apply simulate_rm.
  - by apply simulate_clean.
Qed.
End Simulation.

(** ** Clients *)

(** A client chooses its next call from the results it has got. *)
Definition client : Type := list sres -> option sop.

Fixpoint run_client (oom : nat -> bool) (n : nat) (c : client) (h : list sres) : M lsmem (list sres) :=
  match n with
  | O => mret h
  | S n => match c h with None => mret h | Some o => r ← run_sop oom o; run_client oom n c (h ++ [r]) end
  end.

(** The results and lists that the specification allows. *)
Inductive traces (fails : Prop) (c : client) : list sres -> lists -> Prop :=
| trace_start : traces fails c [] ∅
| trace_step h a o r a' : traces fails c h a -> c h = Some o -> set_step fails a o r a' -> traces fails c (h ++ [r]) a'.

Definition well_behaved (fails : Prop) (c : client) : Prop := forall h a o, traces fails c h a -> c h = Some o -> allowed a o.

(** A client that never asks for a list. *)
Definition plain (o : sop) : Prop :=
  match o with SAdd _ _ options | SMerge _ _ options => use_as_list options = false | _ => True end.

Lemma run_client_traces oom c n : well_behaved (can_fail oom) c -> forall h a m, traces (can_fail oom) c h a -> reps a m ->
  exists h' m' a', run_client oom n c h m = Ret h' m' /\ traces (can_fail oom) c h' a' /\ reps a' m'.
Proof.
  intros Hc. induction n as [|n IH]; intros h a m Ht Hm; cbn [run_client]; [by exists h, m, a|].
  destruct (c h) as [o|] eqn:Ho; [|by exists h, m, a]. destruct (simulate_all oom a o m Hm (Hc h a o Ht Ho)) as (r & m' & a' & He & Hs & Hm').
  rewrite (bind_ret_eq _ _ _ _ _ He). apply (IH _ a'); [by econstructor|done].
Qed.

(** *** No duplicates *)
Definition unique (a : lists) : Prop := map_Forall (fun _ l => NoDup l) a.

Lemma swap_remove_unique i l : (i < length l)%nat -> NoDup l -> NoDup (swap_remove i l).
Proof.
  intros Hi Hl. destruct (lookup_lt_is_Some_2 l i Hi) as [x Hx]. rewrite (swap_remove_perm i l x Hx) in Hl. by apply NoDup_cons in Hl as [_ ?].
Qed.

Lemma merged_unique opts l1 l2 l3 : use_as_list opts = false -> merged opts l1 l2 l3 -> NoDup l1 -> NoDup l2 -> NoDup l3 /\ NoDup (l1 ++ l3).
Proof.
  unfold merged. intros -> Hm H1 H2. assert (NoDup l3) as H3 by (rewrite Hm; by apply NoDup_filter). split; [done|].
  apply NoDup_app. split; [done|]. split; [|done]. intros x Hx1 Hx3. rewrite Hm in Hx3. by apply list_elem_of_filter in Hx3 as [? _].
Qed.

Lemma unique_put a p l : unique a -> NoDup l -> unique (<[p := l]> a).
Proof. intros Ha Hl. by apply map_Forall_insert_2. Qed.

Lemma set_step_unique fails a o r a' : plain o -> set_step fails a o r a' -> unique a -> unique a'.
Proof.
  intros Ho Hs Ha. destruct Hs; cbn in Ho; try done.
  - apply unique_put; [done|constructor].
  - by apply map_Forall_delete.
  - apply unique_put; [done|by eapply Ha].
  - apply unique_put; [done|]. apply NoDup_app. split; [by eapply Ha|]. split; [|apply NoDup_singleton].
    intros x Hx Hn%list_elem_of_singleton. subst. by apply (H0 Ho).
  - apply unique_put; [by apply map_Forall_delete|]. by apply (merged_unique opts l1 l2 l3 Ho H1 (Ha _ _ H) (Ha _ _ H0)).
  - apply unique_put; [done|]. by apply (merged_unique opts l1 l2 l3 Ho H2 (Ha _ _ H0) (Ha _ _ H1)).
  - apply unique_put; [done|]. apply swap_remove_unique; [done|by eapply Ha].
  - apply unique_put; [done|]. apply swap_remove_unique; [|by eapply Ha]. eapply lookup_lt_Some. by apply index_of_Some.
  - apply unique_put; [done|constructor].
Qed.

Lemma traces_unique fails c h a : (forall h o, c h = Some o -> plain o) -> traces fails c h a -> unique a.
Proof.
  intros Hc. induction 1 as [|h a o r a' Ht IH Ho Hs]; [by apply map_Forall_empty|]. by apply (set_step_unique fails a o r a' (Hc h o Ho) Hs).
Qed.

(** C31. The sets of nodes refine lists. Whatever a client does that chooses each call
    from the results so far and, as long as the specification is kept, calls the
    functions on live sets, with at most 2^31 - 8 elements and no index UINT_MAX: under
    every schedule of failed allocations each call returns, without undefined
    behaviour, what the specification on lists allows (set_step), failing only if some
    allocation can fail, and the arrays hold the lists; and unless the client uses
    LY_SET_OPT_USEASLIST, no list ever has a duplicate. *)
Theorem ly_set_refines_lists (oom : nat -> bool) (c : client) (n : nat) (calls : nat) : well_behaved (can_fail oom) c ->
  exists h m a, run_client oom n c [] (LsMem ∅ calls) = Ret h m /\ traces (can_fail oom) c h a /\ reps a m /\
    ((forall h o, c h = Some o -> plain o) -> unique a).
Proof.
  intros Hc. destruct (run_client_traces oom c n Hc [] ∅ (LsMem ∅ calls)) as (h & m & a & He & Ht & Hm); [constructor|by apply map_Forall2_empty|].
  exists h, m, a. split; [done|]. split; [done|]. split; [done|]. intros Hp. by apply (traces_unique (can_fail oom) c h a Hp).
Qed.

(** A client that adds a node twice and asks for it. *)
Definition two_adds : client := fun h =>
  match h with
  | [] => Some SNew
  | [SPtr (Some p)] | [SPtr (Some p); _] => Some (SAdd (Some p) (Some 5%positive) 0)
  | [SPtr (Some p); _; _] => Some (SContains (Some p) (Some 5%positive))
  | _ => None
  end.

(** Its set is there after every call, with one element at most. *)
Lemma two_adds_traces fails h a : traces fails two_adds h a ->
  match h with
  | [] => True
  | SPtr (Some p) :: h' => exists l, a !! p = Some l /\ (length l <= length h')%nat
  | _ => two_adds h = None
  end.
Proof.
  induction 1 as [|h a o r a' Ht IH Ho Hs]; [done|]. destruct h as [|x h].
  - injection Ho as <-. inversion Hs; subst; [|done]. eexists. split; [apply lookup_insert_eq|]. done.
  - destruct x as [[p|]|z|]; cbn [app] in *; [|by rewrite Ho in IH..]. destruct IH as (l & Ha & Hl). rewrite length_app. cbn [length].
    assert (o = SAdd (Some p) (Some 5%positive) 0 \/ o = SContains (Some p) (Some 5%positive)) as Hcase.
    { destruct h as [|x1 [|x2 [|x3 h]]]; cbn in Ho; simplify_eq; auto. }
    destruct Hcase as [-> | ->]; inversion Hs; simplify_eq; try (eexists; split; [done|lia]).
    eexists. split; [apply lookup_insert_eq|]. rewrite length_app. cbn. lia.
Qed.

Lemma two_adds_behaved fails : well_behaved fails two_adds.
Proof.
  intros h a o Ht Ho. apply two_adds_traces in Ht. destruct h as [|x h]; [by injection Ho as <-|].
  destruct x as [[p|]|z|]; [|done..]. destruct Ht as (l & Ha & Hl). assert (live a (Some p)) as Hlive by (intros q [= <-]; by eexists).
  destruct h as [|x1 [|x2 [|x3 h]]]; cbn in Ho; simplify_eq; cbn; try done; (split; [done|]); unfold len, LIMIT; cbn in *; rewrite Ha; lia.
Qed.

Lemma ly_set_refines_lists_witness :
  run_client (fun _ => false) 5 two_adds [] (LsMem ∅ 0) =
    Ret [SPtr (Some 1%positive); SInt 0; SInt 0; SInt 0] (LsMem {[1%positive := LySet 8 1 (Some (Some (Some 5%positive) :: replicate 7 None))]} 2) /\
  exists h m a, run_client (fun n => Nat.eqb n 1) 5 two_adds [] (LsMem ∅ 0) = Ret h m /\ traces (can_fail (fun n => Nat.eqb n 1)) two_adds h a /\ reps a m /\
    ((forall h o, two_adds h = Some o -> plain o) -> unique a).
Proof. split; [vm_compute; reflexivity|]. apply (ly_set_refines_lists (fun n => Nat.eqb n 1) two_adds 5 0). apply two_adds_behaved. Defined.

(** The result of ly_set_contains for a node that is not in the set, used as an index,
    makes ly_set_rm_index write outside the array. *)
Lemma remove_missing l s m p node : ls_sets m !! p = Some s -> set_rep l s -> node ∉ l ->
  (i ← ly_set_contains (Some p) node; ly_set_rm_index (Some p) (wrap_u32 i)) m = Undef.
Proof.
  intros Hp Hs Hn. rewrite (bind_ret_eq _ _ _ _ _ (contains_eq l s m p node Hp Hs)). unfold index_or. apply index_of_None in Hn as ->.
  change (wrap_u32 (-1)) with (2^32 - 1). by apply (rm_index_last l s).
Qed.
