(* ===== verification/NcSession.v ===== *)
(** * libnetconf2/src/io.c: sessions and their transport

    The state is the session and what surrounds it. The transport is described by
    what its next calls give: a script of results for reading and one for writing;
    when the first is used up the other side has closed the connection, when the
    second is used up everything is accepted. The clock gives the time of its n-th
    reading in nanoseconds, and the n-th allocation fails when [oom n] holds. Messages
    to the log and waiting are left out. *)

From S2P Require Import Prelude CLib.

Inductive NC_STATUS := NC_STATUS_STARTING | NC_STATUS_CLOSING | NC_STATUS_INVALID | NC_STATUS_RUNNING.

(** The reasons io.c gives; a session that is not terminated has none. *)
Inductive NC_SESSION_TERM_REASON := NC_SESSION_TERM_NONE | NC_SESSION_TERM_DROPPED | NC_SESSION_TERM_OTHER.

Inductive NC_SIDE := NC_CLIENT | NC_SERVER.
Inductive NC_VERSION := NC_VERSION_10 | NC_VERSION_11.
Inductive NC_TRANSPORT_IMPL := NC_TI_NONE | NC_TI_FD | NC_TI_UNIX | NC_TI_LIBSSH | NC_TI_OPENSSL.

(** struct nc_session, as far as io.c uses it; [io_lock]: this thread holds the lock. *)
Record nc_session := NcSession {
  status : NC_STATUS;
  term_reason : NC_SESSION_TERM_REASON;
  side : NC_SIDE;
  version : NC_VERSION;
  ti_type : NC_TRANSPORT_IMPL;
  io_lock : bool;
  msgid : Z }.

(** What the next read gives: bytes that have arrived, nothing yet (EAGAIN, SSH_AGAIN,
    SSL_ERROR_WANT_READ or _WRITE), EINTR, 0 without an end of file, another error,
    the end of the file. *)
Inductive rd_event := RdData (bs : list ascii) | RdAgain | RdIntr | RdZero | RdError | RdClosed.

(** What the next write does: accept up to [n] bytes, accept none now, be interrupted,
    fail, find the channel closed. *)
Inductive wr_event := WrSome (n : nat) | WrAgain | WrIntr | WrError | WrClosed.

Record nc_env := NcEnv {
  rd : list rd_event;
  wr : list wr_event;
  out : list ascii;          (* everything written *)
  connected : list (Z * Z);  (* what nc_session_is_connected finds, then no event *)
  locks : list Z;            (* results of nc_session_io_lock, then 1 *)
  polls : list (Z * Z);      (* results and revents of poll, then a timeout *)
  ticks : nat;
  allocations : nat }.

Record ncst := NcSt { sess : nc_session; env : nc_env }.

Definition set_sess (f : nc_session -> nc_session) : M ncst unit := modify (fun s => NcSt (f (sess s)) (env s)).
Definition set_env (f : nc_env -> nc_env) : M ncst unit := modify (fun s => NcSt (sess s) (f (env s))).

Definition with_status (st : NC_STATUS) (r : NC_SESSION_TERM_REASON) (x : nc_session) : nc_session :=
  NcSession st r (side x) (version x) (ti_type x) (io_lock x) (msgid x).
Definition with_lock (b : bool) (x : nc_session) : nc_session :=
  NcSession (status x) (term_reason x) (side x) (version x) (ti_type x) b (msgid x).
Definition with_msgid (n : Z) (x : nc_session) : nc_session :=
  NcSession (status x) (term_reason x) (side x) (version x) (ti_type x) (io_lock x) n.

Definition with_rd (l : list rd_event) (e : nc_env) : nc_env :=
  NcEnv l (wr e) (out e) (connected e) (locks e) (polls e) (ticks e) (allocations e).
Definition with_wr (l : list wr_event) (o : list ascii) (e : nc_env) : nc_env :=
  NcEnv (rd e) l o (connected e) (locks e) (polls e) (ticks e) (allocations e).
Definition with_connected (l : list (Z * Z)) (e : nc_env) : nc_env :=
  NcEnv (rd e) (wr e) (out e) l (locks e) (polls e) (ticks e) (allocations e).
Definition with_locks (l : list Z) (e : nc_env) : nc_env :=
  NcEnv (rd e) (wr e) (out e) (connected e) l (polls e) (ticks e) (allocations e).
Definition with_polls (l : list (Z * Z)) (e : nc_env) : nc_env :=
  NcEnv (rd e) (wr e) (out e) (connected e) (locks e) l (ticks e) (allocations e).
Definition with_ticks (n : nat) (e : nc_env) : nc_env :=
  NcEnv (rd e) (wr e) (out e) (connected e) (locks e) (polls e) n (allocations e).
Definition with_allocations (n : nat) (e : nc_env) : nc_env :=
  NcEnv (rd e) (wr e) (out e) (connected e) (locks e) (polls e) (ticks e) n.

(** session->status = NC_STATUS_INVALID; session->term_reason = r; *)
Definition invalidate (r : NC_SESSION_TERM_REASON) : M ncst unit := set_sess (with_status NC_STATUS_INVALID r).

(** status is NC_STATUS_RUNNING or NC_STATUS_STARTING *)
Definition usable (x : nc_session) : bool :=
  match status x with NC_STATUS_RUNNING | NC_STATUS_STARTING => true | _ => false end.

(** ** Time and memory *)
Section Environment.
Context (oom : nat -> bool) (clock : nat -> Z).

(** nc_gettimespec_mono: a timespec as nanoseconds. *)
Definition now : M ncst Z :=
  s ← get; _ ← set_env (with_ticks (S (ticks (env s)))); mret (clock (ticks (env s))).

Definition nc_addtimespec (ts : Z) (msec : Z) : Z := ts + msec * 1000000.

Definition nc_difftimespec (ts1 ts2 : Z) : Z := wrap_int (Z.quot (ts2 - ts1) 1000000).

(** Whether malloc or realloc of [n] bytes succeeds; more than PTRDIFF_MAX never does. *)
Definition alloc (n : Z) : M ncst bool :=
  s ← get;
  _ ← set_env (with_allocations (S (allocations (env s))));
  mret (negb (oom (allocations (env s))) && (n <=? LONG_MAX)).

(** ** The lock *)
Definition nc_session_io_lock : M ncst Z :=
  s ← get;
  match locks (env s) with
  | r :: l =>
      _ ← set_env (with_locks l);
      if r >? 0 then if io_lock (sess s) then undef else _ ← set_sess (with_lock true); mret 1
      else mret r
  | [] => if io_lock (sess s) then undef else _ ← set_sess (with_lock true); mret 1
  end.

Definition nc_session_io_unlock : M ncst unit :=
  s ← get;
  if io_lock (sess s) then set_sess (with_lock false) else undef.
End Environment.

(** ** Reading *)
Inductive rd_result := Got (bs : list ascii) | Nothing | Failed (r : NC_SESSION_TERM_REASON).

(** The count as the function of the transport takes it: read, which refuses one above
    SSIZE_MAX; ssh_channel_read; SSL_read. *)
Definition request (ti : NC_TRANSPORT_IMPL) (n : Z) : Z :=
  match ti with
  | NC_TI_LIBSSH => wrap_u32 n
  | NC_TI_OPENSSL => wrap_int n
  | _ => if n >? LONG_MAX then -1 else n
  end.

(** How nc_read takes a result without data. *)
Definition no_data (ti : NC_TRANSPORT_IMPL) (e : rd_event) : rd_result :=
  match ti, e with
  | NC_TI_LIBSSH, (RdAgain | RdIntr | RdZero) => Nothing
  | NC_TI_LIBSSH, RdError => Failed NC_SESSION_TERM_OTHER
  | NC_TI_OPENSSL, RdAgain => Nothing
  | NC_TI_OPENSSL, (RdIntr | RdError) => Failed NC_SESSION_TERM_OTHER
  | _, (RdAgain | RdIntr) => Nothing
  | _, RdError => Failed NC_SESSION_TERM_OTHER
  | _, (RdZero | RdClosed) => Failed NC_SESSION_TERM_DROPPED
  | _, RdData _ => Nothing
  end.

(** One call of the transport. A script is finite and then the connection is closed: a
    transport that never has data again and never fails is not modelled, there the loop
    of nc_read ends by its timeouts, which depend on the clock. *)
Definition transport_read (n : Z) : M ncst rd_result :=
  s ← get;
  let ti := ti_type (sess s) in
  match rd (env s) with
  | [] => mret (no_data ti RdClosed)
  | RdData bs :: l =>
      let n := request ti n in
      if n <=? 0 then mret (match ti with NC_TI_LIBSSH => Nothing | _ => Failed NC_SESSION_TERM_OTHER end)
      else
        let k := Z.to_nat (Z.min n (Z.of_nat (length bs))) in
        _ ← set_env (with_rd (match drop k bs with [] => l | bs => RdData bs :: l end));
        mret (match take k bs with [] => Nothing | bs => Got bs end)
  | e :: l => _ ← set_env (with_rd l); mret (no_data ti e)
  end.

(** Every result and every byte takes at most one step. *)
Definition event_size (e : rd_event) : nat := match e with RdData bs => S (length bs) | _ => 1%nat end.
Definition rd_fuel (l : list rd_event) : nat := S (list_sum (map event_size l)).

(** ** Writing *)

(** What is written; None: nc_write returns -1. *)
Definition transport_write (rest : list ascii) : M ncst (option nat) :=
  s ← get;
  let ti := ti_type (sess s) in
  let accept n l :=
    let k := Z.to_nat (Z.min (Z.of_nat n) (request ti (Z.of_nat (length rest)))) in
    _ ← set_env (with_wr l (out (env s) ++ take k rest)); mret (Some k) in
  match wr (env s) with
  | [] => accept (length rest) []
  | WrSome n :: l => accept n l
  | e :: l =>
      _ ← set_env (with_wr l (out (env s)));
      match ti, e with
      | NC_TI_LIBSSH, WrClosed => _ ← invalidate NC_SESSION_TERM_DROPPED; mret None
      | NC_TI_OPENSSL, WrIntr => mret None
      | _, (WrAgain | WrIntr) => mret (Some 0%nat)
      | _, _ => mret None
      end
  end.

Definition POLLIN : Z := 1.
Definition POLLERR : Z := 8.
Definition POLLHUP : Z := 16.

Definition has_flag (revents flag : Z) : bool := negb (Z.land revents flag =? 0).

(** A result of ssh_is_connected, or the last result and the revents of poll; a closed
    descriptor, -1, counts as a poll that fails. *)
Definition link_up (ti : NC_TRANSPORT_IMPL) (p : Z * Z) : bool :=
  match ti with
  | NC_TI_NONE => false
  | NC_TI_LIBSSH => negb (p.1 =? 0)
  | _ => if p.1 =? -1 then false else if (p.1 >? 0) && has_flag p.2 (Z.lor POLLHUP POLLERR) then false else true
  end.

Definition nc_session_is_connected : M ncst bool :=
  s ← get;
  match ti_type (sess s), connected (env s) with
  | NC_TI_NONE, _ => mret false
  | _, [] => mret true
  | ti, p :: l => _ ← set_env (with_connected l); mret (link_up ti p)
  end.
