(* ===== verification/NcWrite.v ===== *)
(** * libnetconf2/src/io.c: writing messages

    A message is written in pieces through nc_write_clb, which collects them in a
    buffer of 1024 bytes. The functions that write a message ignore the results of
    these calls, so what they do is the list of the calls. The texts that libyang
    prints (lyd_print_clb, lyxml_print_clb) come as the pieces it passes to the
    callback, with the result of the printer. *)

From S2P Require Import Prelude CLib NcSession.

Definition BUFFERSIZE : Z := 512.
Definition WRITE_BUFSIZE : Z := 2 * BUFFERSIZE.

Definition zlen {A} (l : list A) : Z := Z.of_nat (length l).

(** ret += c, for int *)
Definition ret_add (ret c : Z) : M ncst Z := if in_int (ret + c) then mret (ret + c) else undef.

(** ** nc_write *)
Fixpoint write_loop (fuel : nat) (buf : list ascii) (written : nat) : M ncst Z :=
  match fuel with
  | O => no_fuel
  | S fuel =>
      c ← transport_write (drop written buf);
      match c with
      | None => mret (-1)
      | Some c =>
          let written := (written + c)%nat in
          if (written <? length buf)%nat then write_loop fuel buf written else mret (wrap_int (Z.of_nat written))
      end
  end.

Definition nc_write (buf : list ascii) : M ncst Z :=
  s ← get;
  if negb (usable (sess s)) then mret (-1)
  else
    c ← nc_session_is_connected;
    if negb (c : bool) then _ ← invalidate NC_SESSION_TERM_DROPPED; mret (-1)
    else
      s ← get;
      write_loop (S (length (wr (env s)) + length buf)) buf 0.

(** ** Framing *)
Definition LF : ascii := "010"%char.

Definition nc_write_starttag_and_msg (buf : list ascii) : M ncst Z :=
  s ← get;
  ret ← (match version (sess s) with
         | NC_VERSION_11 => nc_write (LF :: "#"%char :: show_Z (zlen buf) ++ [LF])
         | NC_VERSION_10 => mret 0
         end);
  if ret =? -1 then mret (-1)
  else
    c ← nc_write buf;
    if c =? -1 then mret (-1) else ret_add ret c.

Definition nc_write_endtag : M ncst Z :=
  s ← get;
  match version (sess s) with
  | NC_VERSION_11 => nc_write (LF :: lit "##" ++ [LF])
  | NC_VERSION_10 => nc_write (lit "]]>]]>")
  end.

(** ** The buffer: struct wclb_arg as its first len bytes *)
Definition nc_write_clb_flush (buf : list ascii) : M ncst (Z * list ascii) :=
  match buf with
  | [] => mret (0, [])
  | _ => ret ← nc_write_starttag_and_msg buf; mret (ret, [])
  end.

(** memcpy(&warg->buf[warg->len], text, ...) *)
Definition buf_append (buf text : list ascii) : M ncst (list ascii) :=
  if zlen buf + zlen text <=? WRITE_BUFSIZE then mret (buf ++ text) else undef.

Definition escape (c : ascii) : list ascii :=
  if Ascii.eqb c "&" then lit "&amp;" else if Ascii.eqb c "<" then lit "&lt;" else if Ascii.eqb c ">" then lit "&gt;" else [c].

Fixpoint xml_loop (text buf : list ascii) (ret : Z) : M ncst (Z * list ascii) :=
  match text with
  | [] => mret (ret, buf)
  | c :: text =>
      r ← (if zlen buf + 5 >=? WRITE_BUFSIZE then nc_write_clb_flush buf else mret (0, buf));
      if r.1 =? -1 then mret (-1, r.2)
      else
        buf ← buf_append r.2 (escape c);
        ret ← ret_add ret (zlen (escape c));
        xml_loop text buf ret
  end.

(** buf is NULL at the end of a message. *)
Definition nc_write_clb (warg : list ascii) (buf : option (list ascii)) (xmlcontent : bool) : M ncst (Z * list ascii) :=
  match buf with
  | None =>
      r ← nc_write_clb_flush warg;
      if r.1 =? -1 then mret (-1, r.2)
      else
        c ← nc_write_endtag;
        if c =? -1 then mret (-1, r.2) else ret ← ret_add r.1 c; mret (ret, r.2)
  | Some text =>
      r ← (if negb (zlen warg =? 0) && (zlen warg + zlen text >? WRITE_BUFSIZE) then nc_write_clb_flush warg else mret (0, warg));
      if r.1 =? -1 then mret (-1, r.2)
      else if negb xmlcontent && (zlen text >? WRITE_BUFSIZE) then
        c ← nc_write_starttag_and_msg text;
        if c =? -1 then mret (-1, r.2) else ret ← ret_add r.1 c; mret (ret, r.2)
      else if xmlcontent then xml_loop text r.2 r.1
      else warg ← buf_append r.2 text; mret (wrap_int (r.1 + zlen text), warg)
  end.

(** ** Calls of nc_write_clb whose results are ignored *)
Record wcall := WCall { w_text : list ascii; w_xml : bool }.

Fixpoint write_calls (cs : list wcall) (warg : list ascii) : M ncst (list ascii) :=
  match cs with
  | [] => mret warg
  | c :: cs => r ← nc_write_clb warg (Some (w_text c)) (w_xml c); write_calls cs r.2
  end.

(** A literal with the count of the source, and a string with its strlen. *)
Definition raw (s : string) (count : nat) : wcall := WCall (take count (qt s)) false.
Definition str (s : list ascii) : wcall := WCall s false.
Definition xml_call (s : list ascii) : wcall := WCall s true.

(** Pieces from a printer of libyang, through nc_write_xmlclb. *)
Definition nc_write_xmlclb (pieces : list (list ascii)) : list wcall := map str pieces.

Definition nc_write_error_elem (name : string) (nam_len : nat) (prefix : option (list ascii)) (open no_attr : bool) : list wcall :=
  (if open then [raw "<" 1] else [raw "</" 2])
  ++ (match prefix with
      | Some p => [str (take (Z.to_nat (zlen p mod 65536)) p); raw ":" 1]
      | None => []
      end)
  ++ [raw name nam_len]
  ++ (if negb open || negb no_attr then [raw ">" 1] else []).

Inductive NC_ERR_TYPE := NC_ERR_TYPE_UNKNOWN | NC_ERR_TYPE_TRAN | NC_ERR_TYPE_RPC | NC_ERR_TYPE_PROT | NC_ERR_TYPE_APP.

Inductive NC_ERR :=
| NC_ERR_UNKNOWN | NC_ERR_IN_USE | NC_ERR_INVALID_VALUE | NC_ERR_TOO_BIG | NC_ERR_MISSING_ATTR | NC_ERR_BAD_ATTR
| NC_ERR_UNKNOWN_ATTR | NC_ERR_MISSING_ELEM | NC_ERR_BAD_ELEM | NC_ERR_UNKNOWN_ELEM | NC_ERR_UNKNOWN_NS
| NC_ERR_ACCESS_DENIED | NC_ERR_LOCK_DENIED | NC_ERR_RES_DENIED | NC_ERR_ROLLBACK_FAILED | NC_ERR_DATA_EXISTS
| NC_ERR_DATA_MISSING | NC_ERR_OP_NOT_SUPPORTED | NC_ERR_OP_FAILED | NC_ERR_MALFORMED_MSG.

(** struct nc_server_error; the elements of [err_other] as libyang prints them. *)
Record nc_server_error := NcServerError {
  err_type : NC_ERR_TYPE;
  err_tag : NC_ERR;
  err_apptag : option (list ascii);
  err_path : option (list ascii);
  err_message : option (list ascii);
  err_message_lang : option (list ascii);
  err_sid : Z;
  err_attr : list (list ascii);
  err_elem : list (list ascii);
  err_ns : list (list ascii);
  err_other : list (list (list ascii)) }.

Definition type_call (t : NC_ERR_TYPE) : option wcall :=
  match t with
  | NC_ERR_TYPE_TRAN => Some (raw "transport" 9)
  | NC_ERR_TYPE_RPC => Some (raw "rpc" 3)
  | NC_ERR_TYPE_PROT => Some (raw "protocol" 8)
  | NC_ERR_TYPE_APP => Some (raw "application" 11)
  | NC_ERR_TYPE_UNKNOWN => None
  end.

Definition tag_call (t : NC_ERR) : option wcall :=
  match t with
  | NC_ERR_IN_USE => Some (raw "in-use" 6)
  | NC_ERR_INVALID_VALUE => Some (raw "invalid-value" 13)
  | NC_ERR_TOO_BIG => Some (raw "too-big" 7)
  | NC_ERR_MISSING_ATTR => Some (raw "missing-attribute" 17)
  | NC_ERR_BAD_ATTR => Some (raw "bad-attribute" 13)
  | NC_ERR_UNKNOWN_ATTR => Some (raw "unknown-attribute" 17)
  | NC_ERR_MISSING_ELEM => Some (raw "missing-element" 15)
  | NC_ERR_BAD_ELEM => Some (raw "bad-element" 11)
  | NC_ERR_UNKNOWN_ELEM => Some (raw "unknown-element" 15)
  | NC_ERR_UNKNOWN_NS => Some (raw "unknown-namespace" 17)
  | NC_ERR_ACCESS_DENIED => Some (raw "access-denied" 13)
  | NC_ERR_LOCK_DENIED => Some (raw "lock-denied" 11)
  | NC_ERR_RES_DENIED => Some (raw "resource-denied" 15)
  | NC_ERR_ROLLBACK_FAILED => Some (raw "rollback-failed" 15)
  | NC_ERR_DATA_EXISTS => Some (raw "data-exists" 11)
  | NC_ERR_DATA_MISSING => Some (raw "data-missing" 12)
  | NC_ERR_OP_NOT_SUPPORTED => Some (raw "operation-not-supported" 23)
  | NC_ERR_OP_FAILED => Some (raw "operation-failed" 16)
  | NC_ERR_MALFORMED_MSG => Some (raw "malformed-message" 17)
  | NC_ERR_UNKNOWN => None
  end.

(** An element around calls. *)
Definition full_elem (prefix : option (list ascii)) (name : string) (n : nat) (cs : list wcall) : list wcall :=
  nc_write_error_elem name n prefix true false ++ cs ++ nc_write_error_elem name n prefix false false.

Definition opt_elem (prefix : option (list ascii)) (name : string) (n : nat) (x : option (list ascii)) : list wcall :=
  match x with Some t => full_elem prefix name n [xml_call t] | None => [] end.

Definition message_calls (prefix : option (list ascii)) (err : nc_server_error) : list wcall :=
  match err_message err with
  | None => []
  | Some m =>
      nc_write_error_elem "error-message" 13 prefix true true
      ++ (match err_message_lang err with
          | Some lang => [raw " xml:lang='" 11; xml_call lang; raw "'" 1]
          | None => []
          end)
      ++ [raw ">" 1; xml_call m]
      ++ nc_write_error_elem "error-message" 13 prefix false false
  end.

Definition info_calls (prefix : option (list ascii)) (err : nc_server_error) : list wcall :=
  if (err_sid err >? -1) || negb (bool_decide (err_attr err = [])) || negb (bool_decide (err_elem err = []))
     || negb (bool_decide (err_ns err = [])) || negb (bool_decide (err_other err = [])) then
    full_elem prefix "error-info" 10
      ((if err_sid err >? -1 then full_elem prefix "session-id" 10 [str (show_Z (wrap_u32 (err_sid err)))] else [])
       ++ concat (map (fun a => full_elem prefix "bad-attribute" 13 [xml_call a]) (err_attr err))
       ++ concat (map (fun a => full_elem prefix "bad-element" 11 [xml_call a]) (err_elem err))
       ++ concat (map (fun a => full_elem prefix "bad-namespace" 13 [xml_call a]) (err_ns err))
       ++ concat (map nc_write_xmlclb (err_other err)))
  else [].

(** The calls of nc_write_error; an unknown type or tag ends them early. *)
Definition nc_write_error (err : nc_server_error) (prefix : option (list ascii)) : list wcall :=
  nc_write_error_elem "rpc-error" 9 prefix true false
  ++ nc_write_error_elem "error-type" 10 prefix true false
  ++ match type_call (err_type err) with
     | None => []
     | Some t =>
         t :: nc_write_error_elem "error-type" 10 prefix false false
         ++ nc_write_error_elem "error-tag" 9 prefix true false
         ++ match tag_call (err_tag err) with
            | None => []
            | Some t =>
                t :: nc_write_error_elem "error-tag" 9 prefix false false
                ++ full_elem prefix "error-severity" 14 [raw "error" 5]
                ++ opt_elem prefix "error-app-tag" 13 (err_apptag err)
                ++ opt_elem prefix "error-path" 10 (err_path err)
                ++ message_calls prefix err
                ++ info_calls prefix err
                ++ nc_write_error_elem "rpc-error" 9 prefix false false
            end
     end.

(** ** nc_write_msg_io *)
Inductive NC_MSG_TYPE :=
| NC_MSG_ERROR | NC_MSG_WOULDBLOCK | NC_MSG_NONE | NC_MSG_HELLO | NC_MSG_BAD_HELLO | NC_MSG_RPC | NC_MSG_REPLY
| NC_MSG_REPLY_ERR_MSGID | NC_MSG_NOTIF.

Definition NC_NS_BASE : string := "urn:ietf:params:xml:ns:netconf:base:1.0".
Definition NC_NS_NOTIF : string := "urn:ietf:params:xml:ns:netconf:notification:1.0".

(** What a printer of libyang passes to its callback, and whether it succeeds. *)
Record printed := Printed { pieces : list (list ascii); print_ok : bool }.

Inductive nc_server_reply := NC_RPL_OK | NC_RPL_DATA (data : printed) | NC_RPL_ERROR (err : list nc_server_error) | NC_RPL_NOTIF.

(** struct lyxml_elem of a request: the prefix of its namespace, its attributes as printed. *)
Record rpc_elem := RpcElem { elem_prefix : option (list ascii); elem_attrs : list (list ascii) }.

Inductive message :=
| MsgRpc (data : printed) (attrs : option (list ascii))
| MsgReply (rpc : option rpc_elem) (reply : option nc_server_reply)
| MsgNotif (eventtime : list ascii) (tree : printed)
| MsgHello (capabilities : list (list ascii)) (sid : option Z)
| MsgOther.

Definition message_type (m : message) : NC_MSG_TYPE :=
  match m with
  | MsgRpc _ _ => NC_MSG_RPC
  | MsgReply _ _ => NC_MSG_REPLY
  | MsgNotif _ _ => NC_MSG_NOTIF
  | MsgHello _ _ => NC_MSG_HELLO
  | MsgOther => NC_MSG_ERROR
  end.

Definition prefixed (prefix : option (list ascii)) (before : wcall) (after : wcall) (none : wcall) : list wcall :=
  match prefix with Some p => [before; str p; after] | None => [none] end.

Definition rpc_prefix (rpc : option rpc_elem) : option (list ascii) := rpc ≫= elem_prefix.

Definition reply_start (rpc : option rpc_elem) : list wcall :=
  prefixed (rpc_prefix rpc) (raw "<" 1) (raw ":rpc-reply" 10) (raw "<rpc-reply" 10)
  ++ match rpc with
     | Some e => nc_write_xmlclb (elem_attrs e) ++ [raw ">" 1]
     | None => [raw (" xmlns='" ++ NC_NS_BASE ++ "'>")%string 49]
     end.

Definition reply_end (rpc : option rpc_elem) : list wcall :=
  prefixed (rpc_prefix rpc) (raw "</" 2) (raw ":rpc-reply>" 11) (raw "</rpc-reply>" 12).

(** The calls of a message and whether it is complete; else it is left without its end. *)
Definition reply_calls (rpc : option rpc_elem) (reply : nc_server_reply) : list wcall * bool :=
  match reply with
  | NC_RPL_OK =>
      (reply_start rpc
       ++ (raw "<" 1 :: match rpc_prefix rpc with Some p => [str p; raw ":" 1] | None => [] end) ++ [raw "ok/>" 4]
       ++ reply_end rpc, true)
  | NC_RPL_DATA d =>
      if print_ok d then (reply_start rpc ++ nc_write_xmlclb (pieces d) ++ reply_end rpc, true)
      else (reply_start rpc ++ nc_write_xmlclb (pieces d), false)
  | NC_RPL_ERROR errs =>
      (reply_start rpc ++ concat (map (fun e => nc_write_error e (rpc_prefix rpc)) errs) ++ reply_end rpc, true)
  | NC_RPL_NOTIF => (reply_start rpc, false)
  end.

Definition notif_calls (eventtime : list ascii) (tree : printed) : list wcall * bool :=
  let start :=
    [raw ("<notification xmlns='" ++ NC_NS_NOTIF ++ "'>")%string (21 + 47 + 2); raw "<eventTime>" 11; str eventtime; raw "</eventTime>" 12]
    ++ nc_write_xmlclb (pieces tree) in
  if print_ok tree then (start ++ [raw "</notification>" 15], true) else (start, false).

(** Texts made by asprintf. *)
Definition rpc_start (msgid : Z) (attrs : option (list ascii)) : list ascii :=
  qt ("<rpc xmlns='" ++ NC_NS_BASE ++ "' message-id='")%string ++ show_Z (wrap_u64 (msgid + 1)) ++ qt "'" ++ default [] attrs ++ lit ">".
Definition hello_start : list ascii := qt ("<hello xmlns='" ++ NC_NS_BASE ++ "'><capabilities>")%string.
Definition hello_end (sid : Z) : list ascii := lit "</capabilities><session-id>" ++ show_Z sid ++ lit "</session-id></hello>".

Definition hello_calls (capabilities : list (list ascii)) : list wcall :=
  concat (map (fun c => [raw "<capability>" 12; xml_call c; raw "</capability>" 13]) capabilities).

Section Write.
Context (oom : nat -> bool).

(** asprintf *)
Definition text_alloc (t : list ascii) : M ncst bool := alloc oom (zlen t + 1).

(** The switch: the buffer and whether the message is complete. *)
Definition write_body (m : message) : M ncst (list ascii * bool) :=
  s ← get;
  match m with
  | MsgRpc data attrs =>
      let start := rpc_start (msgid (sess s)) attrs in
      ok ← text_alloc start;
      if negb (ok : bool) then mret ([], false)
      else
        arg ← write_calls (str start :: nc_write_xmlclb (pieces data)) [];
        if negb (print_ok data) then mret (arg, false)
        else
          arg ← write_calls [raw "</rpc>" 6] arg;
          _ ← set_sess (fun x => with_msgid (wrap_u64 (msgid x + 1)) x);
          mret (arg, true)
  | MsgReply rpc reply =>
      match reply with
      | None => _ ← write_calls (reply_start rpc) []; undef
      | Some reply =>
          let cs := reply_calls rpc reply in
          arg ← write_calls cs.1 [];
          match reply with
          | NC_RPL_NOTIF => r ← nc_write_clb arg None false; mret (r.2, false)
          | _ => mret (arg, cs.2)
          end
      end
  | MsgNotif eventtime tree =>
      let cs := notif_calls eventtime tree in
      arg ← write_calls cs.1 []; mret (arg, cs.2)
  | MsgHello capabilities sid =>
      match version (sess s) with
      | NC_VERSION_11 => mret ([], false)
      | NC_VERSION_10 =>
          ok ← text_alloc hello_start;
          if negb (ok : bool) then mret ([], false)
          else
            arg ← write_calls (str hello_start :: hello_calls capabilities) [];
            match sid with
            | Some sid =>
                ok ← text_alloc (hello_end sid);
                if negb (ok : bool) then mret (arg, false)
                else arg ← write_calls [str (hello_end sid)] arg; mret (arg, true)
            | None => arg ← write_calls [raw "</capabilities></hello>" 23] arg; mret (arg, true)
            end
      end
  | MsgOther => mret ([], false)
  end.

Definition nc_write_msg_io (m : message) : M ncst NC_MSG_TYPE :=
  s ← get;
  if negb (usable (sess s)) then mret NC_MSG_ERROR
  else
    ret ← nc_session_io_lock;
    if ret <? 0 then mret NC_MSG_ERROR
    else if ret =? 0 then mret NC_MSG_WOULDBLOCK
    else
      b ← write_body m;
      ret ← (if negb b.2 then mret NC_MSG_ERROR
             else
               _ ← nc_write_clb b.1 None false;
               s ← get;
               mret (if usable (sess s) then message_type m else NC_MSG_ERROR));
      _ ← nc_session_io_unlock;
      mret ret.
End Write.
