(* ===== verification/NcWriteRep.v ===== *)
(** * What the writer sends

    [touched]: what writing may change in any case; [wrote s t s']: from [s], with a
    transport that does not fail, exactly [t] was sent. *)

From Stdlib Require Import DecimalString.
From S2P Require Import Prelude CLib NcSession NcWrite.

(** ** States *)

(** A descriptor whose other end is open: errors of write do not change the session. *)
Definition open_fd (s : ncst) : Prop :=
  (ti_type (sess s) = NC_TI_FD \/ ti_type (sess s) = NC_TI_UNIX) /\ Forall (fun p => link_up (ti_type (sess s)) p = true) (connected (env s)).

Definition touched (s s' : ncst) : Prop :=
  (open_fd s -> sess s' = sess s /\ open_fd s') /\
  (status (sess s') = status (sess s) \/ status (sess s') = NC_STATUS_INVALID) /\
  sess s' = with_status (status (sess s')) (term_reason (sess s')) (sess s) /\
  env s' = with_wr (wr (env s')) (out (env s')) (with_connected (connected (env s')) (env s)).

Lemma touched_refl s : touched s s.
Proof. split; [done|]. destruct s as [x e]. split; [by left|]. by destruct x, e. Qed.

Lemma touched_trans s1 s2 s3 : touched s1 s2 -> touched s2 s3 -> touched s1 s3.
Proof.
  intros (Ho1 & Ha & Hb & Hc) (Ho2 & Hd & He & Hf). split; [|split].
  - intros H. destruct (Ho1 H) as [H1 H2]. destruct (Ho2 H2) as [H3 H4]. split; [by rewrite H3|done].
  - destruct Hd as [-> | ->]; [done|by right].
  - split.
    + rewrite He at 1. rewrite Hb. by destruct (sess s1).
    + rewrite Hf at 1. rewrite Hc. by destruct (env s1).
Qed.

Definition wr_calm (ti : NC_TRANSPORT_IMPL) (e : wr_event) : Prop :=
  match e with WrSome _ | WrAgain => True | WrIntr => ti <> NC_TI_OPENSSL | _ => False end.

(** A session whose transport does not fail. *)
Definition writable (s : ncst) : Prop :=
  usable (sess s) = true /\ ti_type (sess s) <> NC_TI_NONE /\ Forall (wr_calm (ti_type (sess s))) (wr (env s)) /\
  Forall (fun p => link_up (ti_type (sess s)) p = true) (connected (env s)).

Definition wrote (s : ncst) (t : list ascii) (s' : ncst) : Prop :=
  sess s' = sess s /\ out (env s') = out (env s) ++ t /\ writable s'.

Lemma wrote_nil s : writable s -> wrote s [] s.
Proof. intros H. split; [done|]. by rewrite app_nil_r. Qed.

Lemma wrote_trans s1 t1 s2 t2 s3 : wrote s1 t1 s2 -> wrote s2 t2 s3 -> wrote s1 (t1 ++ t2) s3.
Proof. intros (H1 & H2 & _) (H3 & H4 & H5). split; [by rewrite H3|]. split; [|done]. by rewrite H4, H2, app_assoc. Qed.

(** ** Writing bytes *)
Definition SMALL : Z := 400000000.

Lemma request_small ti n : 0 <= n < 2^31 -> request ti n = n.
Proof.
  intros H. assert ((if n >? LONG_MAX then -1 else n) = n) as Hd by (unfold LONG_MAX; destruct (Z.gtb_spec n (2^63 - 1)); lia).
  destruct ti; cbn; try done; [unfold wrap_u32; by rewrite Z.mod_small by lia|]. apply wrap_int_id. unfold INT_MIN, INT_MAX. lia.
Qed.

(** One call: what it accepts, or a failure. *)
Lemma transport_write_spec rest s : zlen rest < 2^31 ->
  returns (transport_write rest) s (fun c s' => touched s s' /\
    (length (wr (env s')) < length (wr (env s)) \/ c = Some (length rest))%nat /\
    (forall k, c = Some k -> (k <= length rest)%nat) /\
    (writable s -> exists k, c = Some k /\ wrote s (take k rest) s')).
Proof.
  intros Hl. unfold returns, transport_write. rewrite (bind_ret_eq get _ _ _ _ eq_refl). unfold zlen in Hl. rewrite request_small by lia.
  destruct s as [x e]. cbn [env sess]. destruct (wr e) as [|ev l] eqn:Hwr.
  - unfold set_env, modify, mbind, M_bind, mret, M_ret. cbn [env sess]. rewrite Z.min_id, Nat2Z.id.
    split; [split; [done|]; split; [by left|]; by destruct x, e|]. split; [by right|]. split; [by intros k [= <-]|]. intros (H1 & H2 & H3 & H4).
    exists (length rest). split; [done|]. by split.
  - assert (forall o, touched (NcSt x e) (NcSt x (with_wr l o e))) as Ht by (intros o; split; [done|]; split; [by left|]; by destruct x, e).
    assert (forall t, writable (NcSt x e) -> wrote (NcSt x e) t (NcSt x (with_wr l (out e ++ t) e))) as Hw.
    { intros t (H1 & H2 & H3 & H4). split; [done|]. split; [done|]. cbn in H1, H2, H3, H4.
      rewrite Hwr in H3. apply Forall_cons in H3 as [_ H3]. by repeat split. }
    assert (writable (NcSt x e) -> wr_calm (ti_type x) ev) as Hcalm.
    { intros (_ & _ & H3 & _). cbn in H3. rewrite Hwr in H3. by apply Forall_cons in H3 as [H3 _]. }
    pose proof (Hw []) as Hw0. rewrite app_nil_r in Hw0. cbn [length].
    destruct ev as [n| | | |]; unfold set_env, modify, mbind, M_bind, mret, M_ret; cbn [env sess].
    + split; [apply Ht|]. split; [left; cbn; lia|]. split; [intros k [= <-]; lia|]. intros H. eexists. split; [done|by apply Hw].
    + destruct (ti_type x); (split; [apply Ht|]); (split; [left; cbn; lia|]); (split; [intros k [= <-]; lia|]); intros H; exists 0%nat; (split; [done|by apply Hw0]).
    + destruct (ti_type x) eqn:Hti; (split; [apply Ht|]); (split; [left; cbn; lia|]); (split; [intros k [= <-]; lia|]); intros H;
        try (by specialize (Hcalm H)); exists 0%nat; (split; [done|by apply Hw0]).
    + destruct (ti_type x); (split; [apply Ht|]); (split; [left; cbn; lia|]); (split; [by intros k [=]|]); intros H; by specialize (Hcalm H).
    + destruct (ti_type x) eqn:Hti; try ((split; [apply Ht|]); (split; [left; cbn; lia|]); (split; [by intros k [=]|]); intros H; by specialize (Hcalm H)).
      unfold invalidate, set_sess, modify. split; [split; [intros [[H|H] _]; cbn in H; by rewrite Hti in H|]; split; [by right|]; by destruct x, e|]. split; [left; cbn; lia|]. split; [by intros k [=]|].
      intros H. by specialize (Hcalm H).
Qed.

(** [sends m t P]: [m] touches only what it may, its result satisfies [P], and on a
    transport that does not fail it sends [t], with a result that is not -1. *)
Definition sends {A} (m : M ncst A) (s : ncst) (t : list ascii) (P ok : A -> Prop) : Prop :=
  returns m s (fun r s' => touched s s' /\ P r /\ (writable s -> ok r /\ wrote s t s')).

Definition length_or_error (n : Z) (r : Z) : Prop := r = -1 \/ r = n.

Lemma write_loop_spec : forall fuel buf k s, (length (wr (env s)) < fuel)%nat -> (k <= length buf)%nat -> zlen buf < 2^31 ->
  sends (write_loop fuel buf k) s (drop k buf) (length_or_error (zlen buf)) (eq (zlen buf)).
Proof.
  induction fuel as [|fuel IH]; intros buf k s Hf Hk Hb; [lia|]. unfold sends. cbn [write_loop]. apply returns_bind.
  assert (zlen (drop k buf) < 2^31) as Hr by (unfold zlen in *; rewrite length_drop; lia).
  eapply returns_mono; [apply (transport_write_spec _ s Hr)|]. intros c s1 (Ht & Hlt & Hc & Hw). destruct c as [c|].
  2: { apply returns_ret. split; [done|]. split; [by left|]. intros H. by destruct (Hw H) as (? & ? & _). }
  specialize (Hc c eq_refl). rewrite length_drop in *. destruct (Nat.ltb_spec (k + c) (length buf)) as [Hlt2|Hge].
  - eapply returns_mono; [apply (IH buf (k + c)%nat s1); [|lia|done]|].
    + destruct Hlt as [?|[= ->]]; lia.
    + intros r s2 (Ht2 & HP & Hw2). split; [by eapply touched_trans|]. split; [done|]. intros H. destruct (Hw H) as (c' & [= <-] & Hwr).
      destruct (Hw2 (proj2 (proj2 Hwr))) as [Hok Hwr2]. split; [done|]. rewrite <- drop_drop in Hwr2.
      rewrite <- (take_drop c (drop k buf)). by eapply wrote_trans.
  - apply returns_ret. assert (wrap_int (Z.of_nat (k + c)) = zlen buf) as -> by (rewrite wrap_int_id; unfold INT_MIN, INT_MAX, zlen in *; lia).
    split; [done|]. split; [by right|]. intros H. split; [done|]. destruct (Hw H) as (c' & [= <-] & Hwr). by rewrite take_ge in Hwr by (rewrite length_drop; lia).
Qed.

Lemma sends_mono {A} (m : M ncst A) s t P ok (P' ok' : A -> Prop) : sends m s t P ok -> (forall r, P r -> P' r) -> (forall r, ok r -> ok' r) -> sends m s t P' ok'.
Proof. intros H HP Hok. eapply returns_mono; [exact H|]. intros r s' (H1 & H2 & H3). split; [done|]. split; [by apply HP|]. intros Hw. destruct (H3 Hw). split; [by apply Hok|done]. Qed.

Lemma sends_ret {A} (a : A) s (P ok : A -> Prop) : P a -> ok a -> sends (mret a) s [] P ok.
Proof. intros HP Hok. apply returns_ret. split; [apply touched_refl|]. split; [done|]. intros H. split; [done|by apply wrote_nil]. Qed.

(** A failure on a transport that does not fail cannot happen. *)
Lemma sends_bind {A B} (m : M ncst A) (k : A -> M ncst B) s t1 t2 P ok P' ok' : sends m s t1 P ok ->
  (forall a s1, touched s s1 -> P a -> (writable s -> ok a) ->
     returns (k a) s1 (fun r s' => touched s1 s' /\ P' r /\ (ok a -> writable s1 -> ok' r /\ wrote s1 t2 s'))) ->
  sends (m ≫= k) s (t1 ++ t2) P' ok'.
Proof.
  intros Hm Hk. apply returns_bind. eapply returns_mono; [exact Hm|]. intros a s1 (Ht & HP & Hw).
  eapply returns_mono; [apply (Hk a s1 Ht HP); intros H; by apply Hw|]. intros r s2 (Ht2 & HP2 & Hw2).
  split; [by eapply touched_trans|]. split; [done|]. intros H. destruct (Hw H) as [Hok Hwr]. destruct (Hw2 Hok (proj2 (proj2 Hwr))) as [Hok2 Hwr2].
  split; [done|by eapply wrote_trans].
Qed.

Lemma connected_spec s : returns nc_session_is_connected s (fun b s' => touched s s' /\ (open_fd s -> b = true) /\ (writable s -> b = true /\ wrote s [] s')).
Proof.
  unfold returns, nc_session_is_connected. rewrite (bind_ret_eq get _ _ _ _ eq_refl).
  assert (touched s s /\ (open_fd s -> true = true) /\ (writable s -> true = true /\ wrote s [] s)) as Hs.
  { split; [apply touched_refl|]. split; [done|]. intros H. split; [done|by apply wrote_nil]. }
  destruct (ti_type (sess s)) eqn:Hti; [|destruct (connected (env s)) as [|p l] eqn:Hc; [exact Hs|]..].
  { unfold mret, M_ret. split; [apply touched_refl|]. split; [intros [[H|H] _]; by rewrite Hti in H|]. by intros (_ & ? & _). }
  all: unfold set_env, modify, mbind, M_bind, mret, M_ret;
    assert (Forall (fun p => link_up (ti_type (sess s)) p = true) (connected (env s)) -> link_up (ti_type (sess s)) p = true /\ Forall (fun p => link_up (ti_type (sess s)) p = true) l) as Hb by (rewrite Hc; intros H; by apply Forall_cons in H);
    rewrite <- Hti in *;
    (split; [split; [intros [H1 H2]; split; [done|]; split; [exact H1|by apply Hb]|]; destruct s as [x e]; split; [by left|]; by destruct x, e|]);
    (split; [intros [_ H]; by apply Hb|]);
    intros (H1 & H2 & H3 & H4); destruct (Hb H4) as [-> H5]; (split; [done|]); (split; [done|]); rewrite app_nil_r; (split; [done|]);
    by repeat split.
Qed.

Lemma nc_write_spec buf s : zlen buf < 2^31 -> sends (nc_write buf) s buf (length_or_error (zlen buf)) (eq (zlen buf)).
Proof.
  intros Hb. unfold sends, nc_write. apply returns_bind. unfold returns at 1, get. destruct (usable (sess s)) eqn:Hu; cbn [negb].
  2: { apply returns_ret. split; [apply touched_refl|]. split; [by left|]. intros (H & _). by rewrite Hu in H. }
  apply returns_bind. eapply returns_mono; [apply connected_spec|]. intros b s1 (Ht & Hop & Hw). destruct b; cbn [negb].
  - apply returns_bind. unfold returns at 1, get.
    eapply returns_mono; [apply (write_loop_spec _ buf 0 s1); [lia|lia|done]|].
    intros r s2 (Ht2 & HP & Hw2). split; [by eapply touched_trans|]. split; [done|]. intros H. destruct (Hw H) as [_ Hwr1].
    destruct (Hw2 (proj2 (proj2 Hwr1))) as [Hok Hwr2]. split; [done|]. by apply (wrote_trans s [] s1 buf s2).
  - apply returns_bind. unfold invalidate, set_sess, modify. unfold returns at 1. apply returns_ret. split; [|split; [by left|]].
    + destruct Ht as (Ho1 & Ht1 & Ht2 & Ht3). split; [intros H; by specialize (Hop H)|]. split; [by right|].
      cbn. split; [rewrite Ht2; by destruct (sess s)|done].
    + intros H. by destruct (Hw H).
Qed.

(** ** The length of a number *)
Lemma double_digits d : (Decimal.nb_digits (Decimal.Little.double d) <= S (Decimal.nb_digits d) /\
  Decimal.nb_digits (Decimal.Little.succ_double d) <= S (Decimal.nb_digits d))%nat.
Proof. induction d; cbn; lia. Qed.

Lemma little_digits p : (Decimal.nb_digits (Pos.to_little_uint p) <= Pos.size_nat p)%nat.
Proof. induction p as [p IH|p IH|]; cbn; [|..|lia]; pose proof (double_digits (Pos.to_little_uint p)); lia. Qed.

Lemma uint_length d : length (lit (NilEmpty.string_of_uint d)) = Decimal.nb_digits d.
Proof. induction d; cbn; by f_equal. Qed.

Lemma size_nat_bound n : forall p, Zpos p < 2 ^ Z.of_nat n -> (Pos.size_nat p <= n)%nat.
Proof.
  induction n as [|n IH]; intros p Hp; [cbn in Hp; lia|]. rewrite Nat2Z.inj_succ, Z.pow_succ_r in Hp by lia.
  destruct p as [p|p|]; cbn; [apply le_n_S, IH; lia..|lia].
Qed.

Lemma show_length n : 0 <= n < 2^31 -> (1 <= length (show_Z n) <= 31)%nat.
Proof.
  intros Hn. split; [destruct (show_digits n) as (_ & H & _); [lia|]; destruct (show_Z n); [done|]; cbn; lia|].
  unfold show_Z. destruct n as [|p|p]; [vm_compute; lia| |lia]. cbn [Z.to_int NilZero.string_of_int].
  assert (NilZero.string_of_uint (Pos.to_uint p) = NilEmpty.string_of_uint (Pos.to_uint p)) as ->.
  { pose proof (DecimalPos.Unsigned.to_uint_nonnil p) as Hne. by destruct (Pos.to_uint p). }
  rewrite uint_length. unfold Pos.to_uint. rewrite DecimalFacts.nb_digits_rev. etransitivity; [apply little_digits|]. apply (size_nat_bound 31). lia.
Qed.

(** ** Framing *)
Definition frame_chunk (v : NC_VERSION) (c : list ascii) : list ascii :=
  match v with NC_VERSION_11 => (LF :: "#"%char :: show_Z (zlen c) ++ [LF]) ++ c | NC_VERSION_10 => c end.

Definition endtag (v : NC_VERSION) : list ascii :=
  match v with NC_VERSION_11 => LF :: lit "##" ++ [LF] | NC_VERSION_10 => lit "]]>]]>" end.

Definition framed (v : NC_VERSION) (cs : list (list ascii)) : list ascii := concat (map (frame_chunk v) cs).

(** A length that fits an int with room for a few headers, or -1. *)
Definition result_ok (n : Z) (r : Z) : Prop := r = -1 \/ 0 <= r <= n.
Definition sent_ok (r : Z) : Prop := 0 <= r.

Lemma touched_version s s' : touched s s' -> version (sess s') = version (sess s).
Proof. intros (_ & _ & -> & _). done. Qed.

Lemma starttag_spec buf s : zlen buf < 2^31 - 100 ->
  sends (nc_write_starttag_and_msg buf) s (frame_chunk (version (sess s)) buf) (result_ok (zlen buf + 40)) sent_ok.
Proof.
  intros Hb. unfold nc_write_starttag_and_msg. unfold sends. apply returns_bind. unfold returns at 1, get.
  set (hd := match version (sess s) with NC_VERSION_11 => LF :: "#"%char :: show_Z (zlen buf) ++ [LF] | NC_VERSION_10 => [] end).
  assert (frame_chunk (version (sess s)) buf = hd ++ buf) as -> by (unfold hd; by destruct (version (sess s))).
  assert (0 <= zlen hd <= 40) as Hhd.
  { unfold hd, zlen in *. destruct (version (sess s)); [cbn; lia|]. cbn [length]. rewrite length_app. cbn [length].
    pose proof (show_length (Z.of_nat (length buf))). lia. }
  eapply (sends_bind _ _ s hd buf (length_or_error (zlen hd)) (eq (zlen hd))).
  - unfold hd in *. destruct (version (sess s)); [by apply sends_ret; [right|]|]. apply nc_write_spec. lia.
  - intros r s1 Ht HP Hok. assert (0 <= zlen buf) by (unfold zlen; lia). destruct (Z.eqb_spec r (-1)) as [-> |Hne].
    + apply returns_ret. split; [apply touched_refl|]. split; [by left|]. intros Hz. lia.
    + destruct HP as [|Hr]; [done|]. apply returns_bind. eapply returns_mono; [apply (nc_write_spec buf s1); lia|].
      intros c s2 (Ht2 & HP2 & Hw2). destruct (Z.eqb_spec c (-1)) as [-> |Hc].
      * apply returns_ret. split; [done|]. split; [by left|]. intros _ Hw. destruct (Hw2 Hw). lia.
      * destruct HP2 as [|Hc2]; [done|]. unfold ret_add. replace (in_int (r + c)) with true by (unfold in_int, INT_MIN, INT_MAX; lia).
        apply returns_ret. split; [done|]. split; [right; lia|]. intros _ Hw. destruct (Hw2 Hw) as [_ Hwr]. split; [unfold sent_ok; lia|done].
Qed.

Lemma endtag_spec s : sends nc_write_endtag s (endtag (version (sess s))) (result_ok 6) sent_ok.
Proof.
  unfold nc_write_endtag, sends. apply returns_bind. unfold returns at 1, get.
  destruct (version (sess s)); (eapply sends_mono; [apply nc_write_spec; by vm_compute|..]);
    unfold length_or_error, result_ok, sent_ok, zlen; cbn; lia.
Qed.

(** ** The buffer *)
Definition chunk_ok (c : list ascii) : Prop := c <> [] /\ zlen c <= SMALL.
Definition fits (warg : list ascii) : Prop := zlen warg <= WRITE_BUFSIZE.

(** Everything given so far is sent in chunks or is in the buffer. *)
Definition held (s : ncst) (given : list ascii) (warg : list ascii) (s' : ncst) : Prop :=
  exists cs, Forall chunk_ok cs /\ wrote s (framed (version (sess s)) cs) s' /\ given = concat cs ++ warg.

Definition buffers (m : M ncst (Z * list ascii)) (s : ncst) (given : list ascii) (P : Z -> Prop) : Prop :=
  returns m s (fun r s' => touched s s' /\ fits r.2 /\ P r.1 /\ (writable s -> sent_ok r.1 /\ held s given r.2 s')).

Lemma held_now s warg : writable s -> held s warg warg s.
Proof. intros H. exists []. split; [constructor|]. split; [by apply wrote_nil|done]. Qed.

Lemma held_trans s1 a w s2 b w' s3 : version (sess s2) = version (sess s1) -> held s1 a w s2 -> held s2 (w ++ b) w' s3 -> held s1 (a ++ b) w' s3.
Proof.
  intros Hv (cs & H1 & H2 & ->) (ds & H3 & H4 & H5). exists (cs ++ ds). split; [by apply Forall_app|]. split.
  - unfold framed. rewrite map_app, concat_app. unfold framed in H4. rewrite Hv in H4. by eapply wrote_trans.
  - rewrite concat_app, <- !app_assoc. by f_equal.
Qed.

Lemma held_writable s a w s' : held s a w s' -> writable s'.
Proof. by intros (cs & _ & (_ & _ & H) & _). Qed.

Lemma flush_spec warg s : fits warg -> buffers (nc_write_clb_flush warg) s warg (result_ok 1100) /\
  returns (nc_write_clb_flush warg) s (fun r _ => r.2 = []).
Proof.
  intros Hf. unfold nc_write_clb_flush. destruct warg as [|c w] eqn:Hw; [split|].
  - apply returns_ret. split; [apply touched_refl|]. split; [done|]. split; [by right|]. intros H. split; [done|by apply held_now].
  - done.
  - rewrite <- Hw in *. unfold fits, WRITE_BUFSIZE, BUFFERSIZE in Hf.
    assert (sends (nc_write_starttag_and_msg warg) s (frame_chunk (version (sess s)) warg) (result_ok (zlen warg + 40)) sent_ok) as Hs by (apply starttag_spec; lia).
    split.
    + apply returns_bind. eapply returns_mono; [exact Hs|]. intros r s1 (Ht & HP & Hwr). apply returns_ret. split; [done|]. split; [done|]. split.
      { destruct HP as [|]; [by left|right; cbn; lia]. }
      intros H. destruct (Hwr H) as [Hok Hwrote]. split; [done|]. exists [warg]. split.
      * apply Forall_singleton. split; [by subst|]. unfold SMALL. lia.
      * unfold framed. cbn. by rewrite !app_nil_r.
    + apply returns_bind. eapply returns_mono; [exact Hs|]. intros r s1 _. by apply returns_ret.
Qed.

Lemma returns_both {S A} (m : M S A) s P Q : returns m s P -> returns m s Q -> returns m s (fun a s' => P a s' /\ Q a s').
Proof. unfold returns. by destruct (m s). Qed.

(** A flush before the next text, if it is needed. *)
Lemma maybe_flush_spec (b : bool) warg s : fits warg ->
  returns (if b then nc_write_clb_flush warg else mret (0, warg)) s (fun r s' => touched s s' /\ fits r.2 /\ result_ok 1100 r.1 /\
    (if b then r.2 = [] else r.2 = warg) /\ (writable s -> sent_ok r.1 /\ held s warg r.2 s')).
Proof.
  intros Hf. destruct b.
  - destruct (flush_spec warg s Hf) as [H1 H2]. eapply returns_mono; [apply (returns_both _ _ _ _ H1 H2)|]. by intros r s' [(H3 & H4 & H5 & H6) H7].
  - apply returns_ret. split; [apply touched_refl|]. split; [done|]. split; [by right|]. split; [done|]. intros H. split; [done|by apply held_now].
Qed.

Definition escaped (text : list ascii) : list ascii := concat (map escape text).

Lemma escape_length c : 1 <= zlen (escape c) <= 5.
Proof. unfold escape, zlen. repeat case_match; cbn; lia. Qed.

Lemma buf_append_spec buf text s : zlen buf + zlen text <= WRITE_BUFSIZE -> buf_append buf text s = Ret (buf ++ text) s.
Proof. intros H. unfold buf_append. by rewrite (proj2 (Z.leb_le _ _) H). Qed.

Lemma ret_add_spec a b s : 0 <= a + b <= INT_MAX -> ret_add a b s = Ret (a + b) s.
Proof. intros H. unfold ret_add, in_int, INT_MIN, INT_MAX in *. by replace ((-2 ^ 31 <=? a + b) && (a + b <=? 2 ^ 31 - 1)) with true by lia. Qed.

Lemma zlen_app {A} (a b : list A) : zlen (a ++ b) = zlen a + zlen b.
Proof. unfold zlen. rewrite length_app. lia. Qed.

Lemma xml_loop_spec : forall text buf ret s, fits buf -> 0 <= ret -> ret + 5 * zlen text <= INT_MAX ->
  buffers (xml_loop text buf ret) s (buf ++ escaped text) (result_ok (ret + 5 * zlen text)).
Proof.
  induction text as [|c text IH]; intros buf ret s Hf Hr Hmax; cbn [xml_loop].
  - apply returns_ret. split; [apply touched_refl|]. split; [done|]. split; [right; unfold zlen in *; cbn in *; lia|]. intros H. split; [done|].
    unfold escaped. cbn. rewrite app_nil_r. by apply held_now.
  - unfold buffers. apply returns_bind. eapply returns_mono; [apply (maybe_flush_spec _ buf s Hf)|]. intros [r w] s1 (Ht & Hfw & Hres & Hw & Hk). cbn [fst snd] in *.
    destruct (Z.eqb_spec r (-1)) as [-> |Hne].
    { apply returns_ret. split; [done|]. split; [done|]. split; [by left|]. intros H. destruct (Hk H) as [Hs _]. unfold sent_ok in Hs. cbn in Hs. lia. }
    assert (zlen w + zlen (escape c) <= WRITE_BUFSIZE) as Hroom.
    { pose proof (escape_length c). destruct (zlen buf + 5 >=? WRITE_BUFSIZE) eqn:Hb; subst w; [unfold zlen at 1; cbn; unfold WRITE_BUFSIZE, BUFFERSIZE; lia|].
      rewrite Z.geb_leb in Hb. lia. }
    pose proof (escape_length c) as He. assert (zlen (c :: text) = zlen text + 1) as Hz by (unfold zlen; cbn; lia). rewrite Hz in *.
    assert (0 <= zlen text) as Hz0 by (unfold zlen; lia).
    apply returns_bind. unfold returns at 1. rewrite (buf_append_spec w (escape c) s1 Hroom). apply returns_bind. unfold returns at 1.
    rewrite ret_add_spec by lia.
    eapply returns_mono; [apply (IH (w ++ escape c) (ret + zlen (escape c)) s1)|]; [by unfold fits; rewrite zlen_app|lia|lia|].
    intros [r2 w2] s2 (Ht2 & Hf2 & HP2 & Hk2). cbn [fst snd] in *. split; [by eapply touched_trans|]. split; [done|]. split.
    { destruct HP2; [by left|right; lia]. }
    intros H. destruct (Hk H) as [_ Hk1]. destruct (Hk2 (held_writable _ _ _ _ Hk1)) as [Hs Hk3]. split; [done|].
    unfold escaped in *. cbn [map concat]. rewrite <- app_assoc in Hk3. by apply (held_trans s buf w s1 _ w2 s2 (touched_version _ _ Ht)).
Qed.

(** What a call gives. *)
Definition call_text (c : wcall) : list ascii := if w_xml c then escaped (w_text c) else w_text c.
Definition call_ok (c : wcall) : Prop := zlen (w_text c) <= SMALL.

Lemma clb_spec warg c s : fits warg -> call_ok c ->
  buffers (nc_write_clb warg (Some (w_text c)) (w_xml c)) s (warg ++ call_text c) (fun _ => True).
Proof.
  intros Hf Hc. unfold nc_write_clb, buffers, call_ok, SMALL in *. destruct c as [text xml]. cbn [w_text w_xml] in *.
  assert (0 <= zlen text) as Hz by (unfold zlen; lia). apply returns_bind. eapply returns_mono; [apply (maybe_flush_spec _ warg s Hf)|].
  intros [r w] s1 (Ht & Hfw & Hres & Hw & Hk). cbn [fst snd] in *. destruct (Z.eqb_spec r (-1)) as [-> |Hne].
  { apply returns_ret. split; [done|]. split; [done|]. split; [done|]. intros H. destruct (Hk H) as [Hs _]. unfold sent_ok in Hs. cbn in Hs. lia. }
  destruct Hres as [|Hres]; [done|]. unfold call_text. cbn [w_text w_xml]. destruct xml; cbn [negb andb].
  - eapply returns_mono; [apply (xml_loop_spec text w r s1 Hfw); [lia|unfold INT_MAX; lia]|].
    intros [r2 w2] s2 (Ht2 & Hf2 & _ & Hk2). cbn [fst snd] in *. split; [by eapply touched_trans|]. split; [done|]. split; [done|].
    intros H. destruct (Hk H) as [_ Hk1]. destruct (Hk2 (held_writable _ _ _ _ Hk1)) as [Hs Hk3]. split; [done|].
    by apply (held_trans s warg w s1 _ w2 s2 (touched_version _ _ Ht)).
  - destruct (Z.gtb_spec (zlen text) WRITE_BUFSIZE) as [Hbig|Hsmall].
    + assert (w = []) as ->.
      { destruct (zlen warg =? 0) eqn:Hw0; cbn [negb andb] in Hw; [subst w; apply Z.eqb_eq in Hw0; by destruct warg|].
        replace (zlen warg + zlen text >? WRITE_BUFSIZE) with true in Hw; [done|]. symmetry. rewrite Z.gtb_ltb. apply Z.ltb_lt. unfold zlen in *. lia. }
      apply returns_bind. eapply returns_mono; [apply (starttag_spec text s1); lia|]. intros c s2 (Ht2 & HP2 & Hw2).
      destruct (Z.eqb_spec c (-1)) as [-> |Hc2].
      { apply returns_ret. split; [by eapply touched_trans|]. split; [done|]. split; [done|]. intros H. destruct (Hk H) as [_ Hk1].
        destruct (Hw2 (held_writable _ _ _ _ Hk1)) as [Hs _]. unfold sent_ok in Hs. lia. }
      destruct HP2 as [|HP2]; [done|]. apply returns_bind. unfold returns at 1. rewrite ret_add_spec by (unfold INT_MAX; lia).
      apply returns_ret. cbn [fst snd]. split; [by eapply touched_trans|]. split; [done|]. split; [done|]. intros H. destruct (Hk H) as [_ Hk1].
      destruct (Hw2 (held_writable _ _ _ _ Hk1)) as [Hs Hwr]. split; [unfold sent_ok; lia|].
      apply (held_trans s warg [] s1 text [] s2 (touched_version _ _ Ht) Hk1). exists [text].
      split; [apply Forall_singleton; split; [by intros ->|unfold SMALL; lia]|]. unfold framed. cbn. by rewrite !app_nil_r.
    + assert (zlen w + zlen text <= WRITE_BUFSIZE) as Hroom.
      { unfold fits in *. destruct (zlen warg =? 0) eqn:Hw0; cbn [negb andb] in Hw; [subst w; lia|].
        destruct (Z.gtb_spec (zlen warg + zlen text) WRITE_BUFSIZE); subst w; [unfold zlen at 1; cbn; lia|lia]. }
      apply returns_bind. unfold returns at 1. rewrite (buf_append_spec w text s1 Hroom). apply returns_ret. cbn [fst snd].
      split; [done|]. split; [by unfold fits; rewrite zlen_app|]. split; [done|]. intros H. destruct (Hk H) as [_ Hk1].
      split; [unfold sent_ok; rewrite wrap_int_id; unfold INT_MIN, INT_MAX; lia|].
      apply (held_trans s warg w s1 text (w ++ text) s1 (touched_version _ _ Ht) Hk1). by apply held_now, (held_writable _ _ _ _ Hk1).
Qed.

Definition calls_text (cs : list wcall) : list ascii := concat (map call_text cs).

Lemma write_calls_spec : forall cs warg s, fits warg -> Forall call_ok cs ->
  returns (write_calls cs warg) s (fun w s' => touched s s' /\ fits w /\ (writable s -> held s (warg ++ calls_text cs) w s')).
Proof.
  induction cs as [|c cs IH]; intros warg s Hf Hcs; cbn [write_calls].
  - apply returns_ret. split; [apply touched_refl|]. split; [done|]. intros H. unfold calls_text. cbn. rewrite app_nil_r. by apply held_now.
  - apply Forall_cons in Hcs as [Hc Hcs]. apply returns_bind. eapply returns_mono; [apply (clb_spec warg c s Hf Hc)|].
    intros [r w] s1 (Ht & Hfw & _ & Hk). cbn [fst snd] in *. eapply returns_mono; [apply (IH w s1 Hfw Hcs)|]. intros w2 s2 (Ht2 & Hf2 & Hk2).
    split; [by eapply touched_trans|]. split; [done|]. intros H. destruct (Hk H) as [_ Hk1]. specialize (Hk2 (held_writable _ _ _ _ Hk1)).
    unfold calls_text in *. cbn [map concat]. rewrite app_assoc. by apply (held_trans s (warg ++ call_text c) w s1 _ w2 s2 (touched_version _ _ Ht)).
Qed.

(** The end of a message: the rest of the buffer and the end tag. *)
Lemma clb_end_spec warg s : fits warg ->
  returns (nc_write_clb warg None false) s (fun r s' => touched s s' /\ fits r.2 /\
    (writable s -> exists cs, Forall chunk_ok cs /\ warg = concat cs /\ wrote s (framed (version (sess s)) cs ++ endtag (version (sess s))) s')).
Proof.
  intros Hf. unfold nc_write_clb. apply returns_bind. destruct (flush_spec warg s Hf) as [H1 H2].
  eapply returns_mono; [apply (returns_both _ _ _ _ H1 H2)|]. intros [r w] s1 [(Ht & Hfw & Hres & Hk) Hw]. cbn [fst snd] in *. subst w.
  destruct (Z.eqb_spec r (-1)) as [-> |Hne].
  { apply returns_ret. split; [done|]. split; [done|]. intros H. destruct (Hk H) as [Hs _]. unfold sent_ok in Hs. cbn in Hs. lia. }
  destruct Hres as [|Hres]; [done|]. apply returns_bind. eapply returns_mono; [apply (endtag_spec s1)|]. intros c s2 (Ht2 & HP2 & Hw2).
  assert (writable s -> sent_ok c /\ exists cs, Forall chunk_ok cs /\ warg = concat cs /\ wrote s (framed (version (sess s)) cs ++ endtag (version (sess s))) s2) as Hall.
  { intros H. destruct (Hk H) as [_ (cs & Hcs & Hwr & Hgiven)]. destruct (Hw2 (proj2 (proj2 Hwr))) as [Hs Hwr2]. split; [done|].
    exists cs. split; [done|]. split; [by rewrite app_nil_r in Hgiven|]. rewrite (touched_version _ _ Ht) in Hwr2. by eapply wrote_trans. }
  destruct (Z.eqb_spec c (-1)) as [-> |Hc].
  { apply returns_ret. split; [by eapply touched_trans|]. split; [done|]. intros H. by destruct (Hall H). }
  destruct HP2 as [|HP2]; [done|]. apply returns_bind. unfold returns at 1. rewrite ret_add_spec by (unfold INT_MAX; lia).
  apply returns_ret. split; [by eapply touched_trans|]. split; [done|]. intros H. by destruct (Hall H).
Qed.
