(* ===== verification/NcMessage.v ===== *)
(** * Whole messages

    What nc_write_msg_io does to the session and what it sends, on any transport and on
    one that does not fail. *)

From S2P Require Import Prelude CLib NcSession NcWrite NcWriteRep.

(** All calls of nc_write_clb for a message, and whether the message is complete. *)
Definition all_calls (id : Z) (m : message) : list wcall :=
  match m with
  | MsgRpc data attrs => (str (rpc_start id attrs) :: nc_write_xmlclb (pieces data)) ++ [raw "</rpc>" 6]
  | MsgReply rpc (Some reply) => (reply_calls rpc reply).1
  | MsgReply rpc None => reply_start rpc
  | MsgNotif eventtime tree => (notif_calls eventtime tree).1
  | MsgHello capabilities sid =>
      (str hello_start :: hello_calls capabilities)
      ++ [match sid with Some sid => str (hello_end sid) | None => raw "</capabilities></hello>" 23 end]
  | MsgOther => []
  end.

Definition complete (v : NC_VERSION) (m : message) : bool :=
  match m with
  | MsgRpc data _ => print_ok data
  | MsgReply rpc (Some reply) => (reply_calls rpc reply).2
  | MsgNotif eventtime tree => (notif_calls eventtime tree).2
  | MsgHello _ _ => match v with NC_VERSION_10 => true | NC_VERSION_11 => false end
  | _ => false
  end.

Definition message_text (id : Z) (m : message) : list ascii := calls_text (all_calls id m).

(** ** States *)
Definition remains (s s' : ncst) : Prop :=
  (open_fd s -> status (sess s') = status (sess s) /\ open_fd s') /\
  (status (sess s') = status (sess s) \/ status (sess s') = NC_STATUS_INVALID) /\
  side (sess s') = side (sess s) /\ version (sess s') = version (sess s) /\ ti_type (sess s') = ti_type (sess s) /\
  io_lock (sess s') = io_lock (sess s) /\ rd (env s') = rd (env s).

Lemma remains_refl s : remains s s.
Proof. split; [done|]. split; [by left|done]. Qed.

Lemma remains_trans s1 s2 s3 : remains s1 s2 -> remains s2 s3 -> remains s1 s3.
Proof.
  intros (Ho & Hs & H1 & H2 & H3 & H4 & H5) (Ho' & Hs' & H1' & H2' & H3' & H4' & H5'). split.
  - intros H. destruct (Ho H) as [Ha Hb]. destruct (Ho' Hb) as [Hc Hd]. by rewrite Hc.
  - split; [destruct Hs' as [-> |]; [done|by right]|]. repeat split; congruence.
Qed.

Lemma touched_remains s s' : touched s s' -> remains s s'.
Proof.
  intros (Ho & Hs & Hx & He). split; [intros H; destruct (Ho H) as [H1 H2]; by rewrite H1|]. split; [done|].
  rewrite Hx, He. done.
Qed.

(** [given] is sent in chunks, but for what is in the buffer. *)
Definition delivered (s : ncst) (given : list ascii) (warg : list ascii) (s' : ncst) : Prop :=
  version (sess s') = version (sess s) /\ writable s' /\
  exists cs, Forall chunk_ok cs /\ out (env s') = out (env s) ++ framed (version (sess s)) cs /\ given = concat cs ++ warg.

Lemma held_delivered s given w s' : held s given w s' -> delivered s given w s'.
Proof. intros (cs & H1 & (H2 & H3 & H4) & H5). split; [by rewrite H2|]. split; [done|]. by exists cs. Qed.

Lemma delivered_same s w s' : version (sess s') = version (sess s) -> writable s' -> out (env s') = out (env s) -> delivered s w w s'.
Proof. intros H1 H2 H3. split; [done|]. split; [done|]. exists []. split; [constructor|]. cbn. by rewrite app_nil_r. Qed.

Lemma delivered_trans s1 a w s2 b w' s3 : delivered s1 a w s2 -> delivered s2 (w ++ b) w' s3 -> delivered s1 (a ++ b) w' s3.
Proof.
  intros (Hv & _ & cs & H1 & H2 & ->) (Hv' & Hw & ds & H3 & H4 & H5). split; [congruence|]. split; [done|]. exists (cs ++ ds).
  split; [by apply Forall_app|]. split.
  - unfold framed in *. rewrite H4, H2, Hv, map_app, concat_app. by rewrite app_assoc.
  - rewrite concat_app, <- !app_assoc. by f_equal.
Qed.

(** ** The parts of nc_write_msg_io *)
Section Message.
Context (oom : nat -> bool).

Definition no_failure : Prop := forall n, oom n = false.

(** [body m given]: [m] goes on from a buffer, and [given] was given since the start. *)
Definition gives (m : M ncst (list ascii)) (s : ncst) (given : list ascii) : Prop :=
  returns m s (fun w s' => remains s s' /\ fits w /\ (writable s -> delivered s given w s')).

Lemma calls_give cs warg s : fits warg -> Forall call_ok cs -> gives (write_calls cs warg) s (warg ++ calls_text cs).
Proof.
  intros Hf Hcs. eapply returns_mono; [apply (write_calls_spec cs warg s Hf Hcs)|]. intros w s' (H1 & H2 & H3).
  split; [by apply touched_remains|]. split; [done|]. intros H. by apply held_delivered, H3.
Qed.

Lemma alloc_spec n s : returns (alloc oom n) s (fun b s' => remains s s' /\ (writable s -> forall w, delivered s w w s') /\ (no_failure -> n <= LONG_MAX -> b = true)).
Proof.
  unfold returns, alloc. rewrite (bind_ret_eq get _ _ _ _ eq_refl). unfold set_env, modify, mbind, M_bind, mret, M_ret.
  split; [split; [done|]; split; [by left|done]|]. split; [intros H w; by apply delivered_same|]. intros Ho Hn. rewrite Ho. by apply Z.leb_le in Hn as ->.
Qed.

(** A text made by asprintf, then calls. *)
Lemma alloc_calls_give {B} t cs warg (k : list ascii -> M ncst B) (fail : B) s (Q : B -> ncst -> Prop) : fits warg -> Forall call_ok (t :: cs) ->
  (forall s', remains s s' -> (no_failure -> False) -> Q fail s') ->
  (forall w s', remains s s' -> fits w -> (writable s -> delivered s (warg ++ calls_text (t :: cs)) w s') -> returns (k w) s' Q) ->
  returns (ok ← text_alloc oom (w_text t); if negb (ok : bool) then mret fail else arg ← write_calls (t :: cs) warg; k arg) s Q.
Proof.
  intros Hf Hcs Hfail Hk. apply returns_bind. eapply returns_mono; [apply alloc_spec|]. intros b s1 (Ht & Hd & Hok). destruct b; cbn [negb].
  - apply returns_bind. eapply returns_mono; [apply (calls_give (t :: cs) warg s1 Hf Hcs)|]. intros w s2 (Ht2 & Hf2 & Hd2). apply Hk; [by eapply remains_trans|done|].
    intros H. apply (delivered_trans s warg warg s1); [by apply Hd|]. apply Hd2. by destruct (Hd H []) as (_ & ? & _).
  - apply returns_ret, Hfail; [done|]. intros Hn. assert (false = true) as Hc; [|done]. apply Hok; [done|].
    apply Forall_cons in Hcs as [Hc _]. unfold call_ok, SMALL, LONG_MAX in *. lia.
Qed.

(** What holds of the buffer and whether the message is complete. *)
Definition body_ok (m : message) (s : ncst) (r : list ascii * bool) (s' : ncst) : Prop :=
  remains s s' /\ fits r.1 /\
  (no_failure -> complete (version (sess s)) m = true ->
    r.2 = true /\ (writable s -> delivered s (message_text (msgid (sess s)) m) r.1 s')).

Lemma fits_nil : fits [].
Proof. done. Qed.

Lemma body_incomplete m s w s' : remains s s' -> fits w -> (no_failure -> complete (version (sess s)) m = true -> False) -> body_ok m s (w, false) s'.
Proof. intros H1 H2 H3. split; [done|]. split; [done|]. intros H4 H5. by destruct (H3 H4 H5). Qed.

Lemma calls_text_app a b : calls_text (a ++ b) = calls_text a ++ calls_text b.
Proof. unfold calls_text. by rewrite map_app, concat_app. Qed.

(** The last calls of a message. *)
Lemma last_calls m s w s1 given cs : remains s s1 -> fits w -> Forall call_ok cs -> message_text (msgid (sess s)) m = given ++ calls_text cs ->
  (writable s -> delivered s given w s1) -> returns (write_calls cs w) s1 (fun w2 s2 => body_ok m s (w2, true) s2).
Proof.
  intros Ht Hf Hcs Htext Hd. eapply returns_mono; [apply (calls_give cs w s1 Hf Hcs)|]. intros w2 s2 (Ht2 & Hf2 & Hd2).
  split; [by eapply remains_trans|]. split; [done|]. intros _ _. split; [done|]. intros H. rewrite Htext.
  apply (delivered_trans s given w s1); [by apply Hd|]. apply Hd2. by destruct (Hd H) as (_ & ? & _).
Qed.

(** A message whose calls are all made at once. *)
Lemma plain_calls m s cs (b : bool) : Forall call_ok cs -> message_text (msgid (sess s)) m = calls_text cs -> (complete (version (sess s)) m = true -> b = true) ->
  returns (write_calls cs []) s (fun w s' => body_ok m s (w, b) s').
Proof.
  intros Hcs Htext Hb. eapply returns_mono; [apply (calls_give cs [] s fits_nil Hcs)|]. intros w s1 (Ht & Hf & Hd).
  split; [done|]. split; [done|]. intros _ Hc. split; [by apply Hb|]. intros H. rewrite Htext. by apply Hd.
Qed.

Lemma body_msgid m s r s' f : body_ok m s r s' -> (forall x, f x = with_msgid (msgid (f x)) x) -> body_ok m s r (NcSt (f (sess s')) (env s')).
Proof.
  intros (Ht & Hf & Hc) Hx. assert (remains s' (NcSt (f (sess s')) (env s'))) as Ht2.
  { split; [intros H; cbn; rewrite Hx; by split|]. cbn. rewrite Hx. split; [by left|done]. }
  split; [by eapply remains_trans|]. split; [done|]. intros H1 H2. destruct (Hc H1 H2) as [H3 H4]. split; [done|]. intros H.
  destruct (H4 H) as (Ha & Hb & Hd). split; [cbn; by rewrite Hx|]. split; [|done]. unfold writable in *. cbn. by rewrite Hx.
Qed.

Lemma write_body_spec m s : (forall rpc, m <> MsgReply rpc None) -> Forall call_ok (all_calls (msgid (sess s)) m) ->
  returns (write_body oom m) s (body_ok m s).
Proof.
  intros Hm Hcs. unfold write_body. apply returns_bind. unfold returns at 1, get. destruct m as [data attrs|rpc reply|eventtime tree|caps sid|]; cbn [all_calls] in Hcs.
  - apply Forall_app in Hcs as [Hcs Hend]. apply (alloc_calls_give (str (rpc_start (msgid (sess s)) attrs)) _ [] (B := list ascii * bool)); [done|done| |].
    + intros s1 Ht Hn. by apply body_incomplete.
    + intros w s1 Ht Hf Hd. destruct (print_ok data) eqn:Hp; cbn [negb].
      2: { apply returns_ret, body_incomplete; [done..|]. cbn. by rewrite Hp. }
      apply returns_bind. eapply returns_mono.
      { apply (last_calls (MsgRpc data attrs) s w s1 ([] ++ calls_text (str (rpc_start (msgid (sess s)) attrs) :: nc_write_xmlclb (pieces data))) [raw "</rpc>" 6]);
          [done|done|done| |done]. unfold message_text. cbn [all_calls]. by rewrite calls_text_app. }
      intros w2 s2 Hb. apply returns_bind. unfold set_sess, modify. unfold returns at 1. apply returns_ret. by apply (body_msgid _ s (w2, true) s2).
  - destruct reply as [reply|]; [|by destruct (Hm rpc)]. apply returns_bind.
    eapply returns_mono; [apply (plain_calls (MsgReply rpc (Some reply)) s _ (reply_calls rpc reply).2); done|]. intros w s1 Hb.
    destruct reply; try (by apply returns_ret). destruct Hb as (Ht & Hf & _).
    apply returns_bind. eapply returns_mono; [apply (clb_end_spec w s1 Hf)|]. intros [r w2] s2 (Ht2 & Hf2 & _). apply returns_ret.
    apply body_incomplete; [|done|done]. eapply remains_trans; [done|by apply touched_remains].
  - apply returns_bind. eapply returns_mono; [apply (plain_calls (MsgNotif eventtime tree) s _ (notif_calls eventtime tree).2); done|]. intros w s1 Hb. by apply returns_ret.
  - destruct (version (sess s)) eqn:Hv; [|apply returns_ret, body_incomplete; [apply remains_refl|done|by rewrite Hv]].
    apply Forall_app in Hcs as [Hcs Hend]. apply (alloc_calls_give (str hello_start) _ [] (B := list ascii * bool)); [done|done| |].
    { intros s1 Ht Hn. by apply body_incomplete. }
    intros w s1 Ht Hf Hd. set (given := [] ++ calls_text (str hello_start :: hello_calls caps)) in *. destruct sid as [sid|].
    + apply (alloc_calls_give (str (hello_end sid)) [] w (B := list ascii * bool)); [done|done| |].
      { intros s2 Ht2 Hn. apply body_incomplete; [by eapply remains_trans|done|done]. }
      intros w2 s2 Ht2 Hf2 Hd2. apply returns_ret. split; [by eapply remains_trans|]. split; [done|]. intros _ _. split; [done|]. intros H.
      unfold message_text. cbn [all_calls]. rewrite calls_text_app. apply (delivered_trans s given w s1); [by apply Hd|]. apply Hd2. by destruct (Hd H) as (_ & ? & _).
    + apply returns_bind. eapply returns_mono.
      { apply (last_calls (MsgHello caps None) s w s1 given [raw "</capabilities></hello>" 23]); [done|done|done| |done].
        unfold message_text. cbn [all_calls]. by rewrite calls_text_app. }
      intros w2 s2 Hb. by apply returns_ret.
  - apply returns_ret, body_incomplete; [apply remains_refl|done|done].
Qed.

(** ** The lock and the whole call *)
Definition granted (s : ncst) : Prop := Forall (fun r => 0 < r) (locks (env s)).

Lemma lock_spec s : io_lock (sess s) = false ->
  returns nc_session_io_lock s (fun r s' => env s' = with_locks (locks (env s')) (env s) /\ (granted s -> r = 1) /\
    ((r <= 0 /\ sess s' = sess s) \/ (r = 1 /\ sess s' = with_lock true (sess s)))).
Proof.
  intros Hl. unfold returns, nc_session_io_lock. rewrite (bind_ret_eq get _ _ _ _ eq_refl). rewrite Hl.
  unfold set_env, set_sess, modify, mbind, M_bind, mret, M_ret. destruct (locks (env s)) as [|r l] eqn:Hlocks.
  - split; [by destruct s as [x []]; cbn in *; subst|]. split; [done|]. by right.
  - unfold granted. rewrite Hlocks. destruct (Z.gtb_spec r 0) as [Hr|Hr].
    + split; [done|]. split; [done|]. by right.
    + split; [done|]. split; [intros H; apply Forall_cons in H as [H _]; lia|]. left. split; [lia|done].
Qed.

Lemma unlock_spec s : io_lock (sess s) = true -> nc_session_io_unlock s = Ret tt (NcSt (with_lock false (sess s)) (env s)).
Proof. intros H. unfold nc_session_io_unlock. rewrite (bind_ret_eq get _ _ _ _ eq_refl). by rewrite H. Qed.

(** What remains of [remains] when the lock was taken and released. *)
Definition unlocked (s s' : ncst) : Prop :=
  io_lock (sess s') = false /\ (status (sess s') = status (sess s) \/ status (sess s') = NC_STATUS_INVALID) /\
  side (sess s') = side (sess s) /\ version (sess s') = version (sess s) /\ ti_type (sess s') = ti_type (sess s) /\ rd (env s') = rd (env s) /\
  (open_fd s -> status (sess s') = status (sess s)).

(** The result of a message that is sent. *)
Definition sent (s : ncst) (m : message) (s' : ncst) : Prop :=
  exists cs, Forall chunk_ok cs /\ concat cs = message_text (msgid (sess s)) m /\
    out (env s') = out (env s) ++ framed (version (sess s)) cs ++ endtag (version (sess s)).

(** The body and the end of the message, with the lock. *)
Lemma locked_spec m s : usable (sess s) = true -> (forall rpc, m <> MsgReply rpc None) -> Forall call_ok (all_calls (msgid (sess s)) m) ->
  returns (b ← write_body oom m;
    (if negb b.2 then mret NC_MSG_ERROR
     else _ ← nc_write_clb b.1 None false; s ← get; mret (if usable (sess s) then message_type m else NC_MSG_ERROR))) s
    (fun r s' => remains s s' /\ (no_failure -> complete (version (sess s)) m = true ->
      (open_fd s -> r = message_type m) /\ (writable s -> r = message_type m /\ sent s m s'))).
Proof.
  intros Hu Hm Hcs. apply returns_bind. eapply returns_mono; [apply (write_body_spec m s Hm Hcs)|]. intros [w b] s1 (Ht & Hf & Hc). cbn [fst snd] in *.
  destruct b; cbn [negb].
  2: { apply returns_ret. split; [done|]. intros H1 H2. by destruct (Hc H1 H2). }
  apply returns_bind. eapply returns_mono; [apply (clb_end_spec w s1 Hf)|]. intros [r w2] s2 (Ht2 & _ & Hd2). apply returns_bind. unfold returns at 1, get. apply returns_ret.
  assert (remains s s2) as Ht3 by (eapply remains_trans; [done|by apply touched_remains]). split; [done|]. intros H1 H2. destruct (Hc H1 H2) as [_ Hd]. split.
  - intros Ho. destruct Ht3 as (Ho3 & _). destruct (Ho3 Ho) as [Hst _]. unfold usable in *. by rewrite Hst, Hu.
  - intros Hw. destruct (Hd Hw) as (Hv & Hw1 & cs & H3 & H4 & H5). destruct (Hd2 Hw1) as (ds & H6 & H7 & (Hs & Ho & (Hu2 & _))).
    rewrite Hu2. split; [done|]. exists (cs ++ ds). split; [by apply Forall_app|]. split; [by rewrite concat_app, H5, H7|].
    rewrite Ho, H4. unfold framed. rewrite Hv, map_app, concat_app. by rewrite <- !app_assoc.
Qed.

Lemma write_msg_spec m s : io_lock (sess s) = false -> (forall rpc, m <> MsgReply rpc None) -> Forall call_ok (all_calls (msgid (sess s)) m) ->
  returns (nc_write_msg_io oom m) s (fun r s' => unlocked s s' /\
    (no_failure -> complete (version (sess s)) m = true -> usable (sess s) = true -> granted s ->
      (open_fd s -> r = message_type m) /\ (writable s -> r = message_type m /\ sent s m s'))).
Proof.
  intros Hl Hm Hcs. unfold nc_write_msg_io. apply returns_bind. unfold returns at 1, get. destruct (usable (sess s)) eqn:Hu; cbn [negb].
  2: { apply returns_ret. split; [|done]. split; [done|]. split; [by left|done]. }
  apply returns_bind. eapply returns_mono; [apply (lock_spec s Hl)|]. intros ret s1 (He & Hg & Hcase). destruct Hcase as [[Hr Hs]|[-> Hs]].
  { assert (unlocked s s1) as Hun by (split; [by rewrite Hs|]; rewrite Hs, He; split; [by left|done]).
    destruct (Z.ltb_spec ret 0); [|replace (ret =? 0) with true by lia]; apply returns_ret; (split; [done|]); intros _ _ _ Hgr; specialize (Hg Hgr); lia. }
  cbn [Z.ltb Z.eqb Z.compare].
  assert (open_fd s -> open_fd s1) as Hof by (intros [H1 H2]; split; [by rewrite Hs|by rewrite Hs, He]).
  assert (writable s -> writable s1) as Hwf by (intros (H1 & H2 & H3 & H4); unfold writable; rewrite Hs, He; done).
  pose proof (locked_spec m s1) as Hb. rewrite Hs in Hb. specialize (Hb Hu Hm Hcs).
  rewrite returns_bind in Hb. apply returns_bind. eapply returns_mono; [exact Hb|]. intros b s2 Hb2. apply returns_bind. eapply returns_mono; [exact Hb2|].
  intros r s3 [Ht Hc]. apply returns_bind. assert (io_lock (sess s3) = true) as Hl3 by (destruct Ht as (_ & _ & _ & _ & _ & -> & _); by rewrite Hs).
  unfold returns at 1. rewrite (unlock_spec s3 Hl3). apply returns_ret. split.
  - destruct Ht as (H0 & H1 & H2 & H3 & H4 & _ & H6). rewrite Hs in H0, H1, H2, H3, H4. rewrite He in H6. split; [done|]. cbn.
    do 5 (split; [done|]). intros Ho. by destruct (H0 (Hof Ho)).
  - intros H1 H2 _ _. destruct (Hc H1 H2) as [H3 H4]. split; [auto|]. intros H. destruct (H4 (Hwf H)) as [-> (cs & H5 & H6 & H7)]. split; [done|].
    exists cs. split; [done|]. rewrite Hs in H6, H7. rewrite He in H7. by split.
Qed.
End Message.
