(* ===== verification/NcRead.v ===== *)
(** * libnetconf2/src/io.c: reading messages

    nc_read gets the room behind its buffer, so that a write outside it is undefined,
    and returns what it read with its result. The XML parser of libyang is a
    parameter. *)

From S2P Require Import Prelude CLib NcSession NcWrite.

Definition NC_READ_INACT_TIMEOUT : Z := 20.
Definition NC_READ_ACT_TIMEOUT : Z := 300.
Definition NC_VERSION_10_ENDTAG : list ascii := lit "]]>]]>".
Definition NC_VERSION_10_ENDTAG_LEN : Z := 6.

(** The root of a message as the parser gives it. *)
Record lyxml_elem := LyxmlElem { root_ns : option (list ascii); root_name : list ascii }.

Section Read.
Context (oom : nat -> bool) (clock : nat -> Z) (lyxml_parse_mem : list ascii -> option lyxml_elem).

(** ** nc_read *)
Definition timed_out (cur deadline : Z) : bool := nc_difftimespec cur deadline <? 1.

Fixpoint nc_read_loop (fuel : nat) (room count inact_timeout ts_act_timeout ts_inact_timeout : Z) (buf : list ascii) : M ncst (Z * list ascii) :=
  match fuel with
  | O => no_fuel
  | S fuel =>
      r ← transport_read (count - zlen buf);
      match r with
      | Failed reason => _ ← invalidate reason; mret (-1, buf)
      | Nothing =>
          ts_cur ← now clock;
          if timed_out ts_cur ts_inact_timeout || timed_out ts_cur ts_act_timeout then
            _ ← invalidate NC_SESSION_TERM_OTHER; mret (-1, buf)
          else nc_read_loop fuel room count inact_timeout ts_act_timeout ts_inact_timeout buf
      | Got bs =>
          if zlen buf + zlen bs >? room then undef
          else
            let buf := buf ++ bs in
            ts ← now clock;
            if zlen buf <? count then nc_read_loop fuel room count inact_timeout ts_act_timeout (nc_addtimespec ts inact_timeout) buf
            else if count <? room then mret (zlen buf, buf) else undef
      end
  end.

Definition nc_read (room count inact_timeout ts_act_timeout : Z) : M ncst (Z * list ascii) :=
  s ← get;
  if negb (usable (sess s)) then mret (-1, [])
  else if count =? 0 then mret (0, [])
  else
    ts ← now clock;
    s ← get;
    match ti_type (sess s) with
    | NC_TI_NONE => mret (0, [])
    | _ => nc_read_loop (rd_fuel (rd (env s))) room count inact_timeout ts_act_timeout (nc_addtimespec ts inact_timeout) []
    end.

Definition nc_read_chunk (len inact_timeout ts_act_timeout : Z) : M ncst (Z * list ascii) :=
  if len =? 0 then mret (0, [])
  else
    let room := wrap_u64 (len + 1) in
    ok ← alloc oom room;
    if negb (ok : bool) then mret (-1, [])
    else
      r ← nc_read room len inact_timeout ts_act_timeout;
      if r.1 <=? 0 then mret (-1, []) else mret r.

(** ** nc_read_until *)

(** The loop over i: how much of the end tag the last characters match. *)
Fixpoint match_tag (endtag chunk : list ascii) (matched i : nat) : nat :=
  match i with
  | O => matched
  | S j => if strneq (drop matched endtag) (drop (length chunk - i) chunk) i then (matched + i)%nat else match_tag endtag chunk 0 j
  end.

Fixpoint until_loop (fuel : nat) (endtag : list ascii) (limit inact_timeout ts_act_timeout : Z) (size : Z) (matched : nat) (chunk : list ascii)
    : M ncst (Z * list ascii) :=
  match fuel with
  | O => no_fuel
  | S fuel =>
      if negb (limit =? 0) && (zlen chunk =? limit) then mret (-1, [])
      else
        let n := zlen endtag - Z.of_nat matched in
        let grow := zlen chunk + n >=? size in
        let size := if grow then size + BUFFERSIZE else size in
        ok ← (if grow then alloc oom (size + 1) else mret true);
        if negb (ok : bool) then mret (-1, [])
        else
          r ← nc_read (size + 1 - zlen chunk) n inact_timeout ts_act_timeout;
          if negb (r.1 =? n) then mret (-1, [])
          else
            let chunk := chunk ++ r.2 in
            let matched := match_tag endtag chunk matched (Z.to_nat n) in
            if (matched =? length endtag)%nat then
              if zlen chunk <=? size then mret (zlen chunk, chunk) else undef
            else until_loop fuel endtag limit inact_timeout ts_act_timeout size matched chunk
  end.

Definition nc_read_until (endtag : list ascii) (limit inact_timeout ts_act_timeout : Z) : M ncst (Z * list ascii) :=
  let size := if negb (limit =? 0) && (limit <? BUFFERSIZE) then limit else BUFFERSIZE in
  ok ← alloc oom (size + 1);
  if negb (ok : bool) then mret (-1, [])
  else
    s ← get;
    until_loop (rd_fuel (rd (env s))) endtag limit inact_timeout ts_act_timeout size 0 [].

(** ** nc_read_msg_io *)
Inductive read_result := RText (msg : list ascii) | RMalformed | RError.

(** ret == -1, after the result was stored in an int. *)
Definition is_error (r : Z) : bool := wrap_int r =? -1.

Fixpoint chunk_loop (fuel : nat) (inact_timeout ts_act_timeout : Z) (msg : option (list ascii)) : M ncst read_result :=
  match fuel with
  | O => no_fuel
  | S fuel =>
      r ← nc_read_until (LF :: lit "#") 0 inact_timeout ts_act_timeout;
      if is_error r.1 then mret RError
      else
        r ← nc_read_until [LF] 0 inact_timeout ts_act_timeout;
        if is_error r.1 then mret RError
        else if streq (cstr r.2) (lit "#" ++ [LF]) then mret (match msg with None => RMalformed | Some msg => RText msg end)
        else
          let chunk_len := strtoul (cstr r.2) in
          if chunk_len =? 0 then mret RMalformed
          else
            r ← nc_read_chunk chunk_len inact_timeout ts_act_timeout;
            if is_error r.1 then mret RError
            else
              let len := zlen (default [] msg) in
              ok ← alloc oom (wrap_u64 (len + chunk_len + 1));
              if negb (ok : bool) then mret RError
              else if zlen r.2 <? chunk_len then undef
              else chunk_loop fuel inact_timeout ts_act_timeout (Some (default [] msg ++ r.2))
  end.

Definition read_text (inact_timeout ts_act_timeout : Z) : M ncst read_result :=
  s ← get;
  match version (sess s) with
  | NC_VERSION_10 =>
      r ← nc_read_until NC_VERSION_10_ENDTAG 0 inact_timeout ts_act_timeout;
      if is_error r.1 then mret RError
      else
        let ret := wrap_int r.1 in
        if (ret <? NC_VERSION_10_ENDTAG_LEN) || (ret >? zlen r.2) then undef
        else mret (RText (take (Z.to_nat (ret - NC_VERSION_10_ENDTAG_LEN)) r.2))
  | NC_VERSION_11 => chunk_loop (rd_fuel (rd (env s))) inact_timeout ts_act_timeout None
  end.

(** The type of a message by its root; None: malformed. *)
Definition root_type (data : lyxml_elem) : option NC_MSG_TYPE :=
  match root_ns data with
  | None => None
  | Some ns =>
      if streq ns (lit NC_NS_BASE) then
        if streq (root_name data) (lit "rpc") then Some NC_MSG_RPC
        else if streq (root_name data) (lit "rpc-reply") then Some NC_MSG_REPLY
        else if streq (root_name data) (lit "hello") then Some NC_MSG_HELLO
        else None
      else if streq ns (lit NC_NS_NOTIF) then
        if streq (root_name data) (lit "notification") then Some NC_MSG_NOTIF else None
      else None
  end.

(** nc_err(NC_ERR_MALFORMED_MSG) *)
Definition malformed_error : nc_server_error :=
  NcServerError NC_ERR_TYPE_RPC NC_ERR_MALFORMED_MSG None None
    (Some (lit "A message could not be handled because it failed to be parsed correctly.")) (Some (lit "en")) (-1) [] [] [] [].

(** nc_server_reply_err(nc_err(NC_ERR_MALFORMED_MSG)): NULL when one of the three allocations fails. *)
Definition malformed_reply : M ncst (option nc_server_reply) :=
  ok ← alloc oom 1;
  if negb (ok : bool) then mret None
  else
    ok ← alloc oom 1;
    if negb (ok : bool) then mret None
    else ok ← alloc oom 1; mret (if (ok : bool) then Some (NC_RPL_ERROR [malformed_error]) else None).

(** malformed_msg: the answer of a server; [io_locked] is whether the lock is held. *)
Definition malformed_msg (io_locked : bool) : M ncst unit :=
  s ← get;
  match side (sess s), version (sess s) with
  | NC_SERVER, NC_VERSION_11 =>
      reply ← malformed_reply;
      _ ← (if io_locked then nc_session_io_unlock else mret tt);
      r ← nc_write_msg_io oom (MsgReply None reply);
      match r with
      | NC_MSG_REPLY => mret tt
      | _ =>
          s ← get;
          match status (sess s) with NC_STATUS_INVALID => mret tt | _ => invalidate NC_SESSION_TERM_OTHER end
      end
  | _, _ => if io_locked then nc_session_io_unlock else mret tt
  end.

(** From the text, or the label it was left by, to the result. *)
Definition msg_result (r : read_result) : M ncst (NC_MSG_TYPE * option lyxml_elem) :=
  match r with
  | RError => _ ← nc_session_io_unlock; mret (NC_MSG_ERROR, None)
  | RMalformed => _ ← malformed_msg true; mret (NC_MSG_ERROR, None)
  | RText msg =>
      _ ← nc_session_io_unlock;
      match lyxml_parse_mem (cstr msg) with
      | None => _ ← malformed_msg false; mret (NC_MSG_ERROR, None)
      | Some data =>
          match root_type data with
          | Some t => mret (t, Some data)
          | None => _ ← malformed_msg false; mret (NC_MSG_ERROR, None)
          end
      end
  end.

Definition nc_read_msg_io (passing_io_lock : bool) : M ncst (NC_MSG_TYPE * option lyxml_elem) :=
  s ← get;
  if negb (usable (sess s)) then
    _ ← (if passing_io_lock then nc_session_io_unlock else mret tt); mret (NC_MSG_ERROR, None)
  else
    ts ← now clock;
    ret ← (if passing_io_lock then mret 1 else nc_session_io_lock);
    if ret <? 0 then mret (NC_MSG_ERROR, None)
    else if ret =? 0 then mret (NC_MSG_WOULDBLOCK, None)
    else
      r ← read_text (NC_READ_INACT_TIMEOUT * 1000) (nc_addtimespec ts (NC_READ_ACT_TIMEOUT * 1000)); msg_result r.

(** ** Polling *)
Definition SSH_EOF : Z := -127.

Definition next_poll : M ncst (Z * Z) :=
  s ← get;
  match polls (env s) with [] => mret (0, 0) | p :: l => _ ← set_env (with_polls l); mret p end.

(** In TLS, data that OpenSSL has buffered counts as a result of poll with POLLIN. *)
Definition nc_read_poll : M ncst Z :=
  s ← get;
  if negb (usable (sess s)) then mret (-1)
  else
    match ti_type (sess s) with
    | NC_TI_NONE => mret (-1)
    | ti =>
        p ← next_poll;
        let p := match ti with NC_TI_LIBSSH => if p.1 >? 0 then (1, POLLIN) else (p.1, 0) | _ => p end in
        if match ti with NC_TI_LIBSSH => p.1 =? SSH_EOF | _ => false end then
          _ ← invalidate NC_SESSION_TERM_DROPPED; mret (-1)
        else if p.1 <? 0 then _ ← invalidate NC_SESSION_TERM_OTHER; mret (-1)
        else if has_flag p.2 POLLERR then _ ← invalidate NC_SESSION_TERM_OTHER; mret (-1)
        else if has_flag p.2 POLLHUP && negb (has_flag p.2 POLLIN) then _ ← invalidate NC_SESSION_TERM_DROPPED; mret (-1)
        else mret p.1
    end.

Definition nc_read_msg_poll_io : M ncst (NC_MSG_TYPE * option lyxml_elem) :=
  s ← get;
  if negb (usable (sess s)) then mret (NC_MSG_ERROR, None)
  else
    ret ← nc_session_io_lock;
    if ret <? 0 then mret (NC_MSG_ERROR, None)
    else if ret =? 0 then mret (NC_MSG_WOULDBLOCK, None)
    else
      ret ← nc_read_poll;
      if ret =? 0 then _ ← nc_session_io_unlock; mret (NC_MSG_WOULDBLOCK, None)
      else if ret <? 0 then _ ← nc_session_io_unlock; mret (NC_MSG_ERROR, None)
      else nc_read_msg_io true.
End Read.
