(* ===== verification/NcReadRep.v ===== *)
(** * What the reader takes from its transport

    [took s t s']: from [s] to [s'] exactly the bytes [t] were taken. The lemmas say what
    the functions do on any transport, and that they succeed when the bytes are there,
    nothing fails and the clock does not advance too far during the call. *)

From S2P Require Import Prelude CLib NcSession NcWrite NcWriteRep NcMessage NcRead.

(** ** The bytes of a script *)
Definition rd_bytes (l : list rd_event) : list ascii := concat (map (fun e => match e with RdData bs => bs | _ => [] end) l).
Definition rd_size (l : list rd_event) : nat := list_sum (map event_size l).

Lemma rd_size_cons e l : rd_size (e :: l) = (event_size e + rd_size l)%nat.
Proof. done. Qed.

Definition calm (ti : NC_TRANSPORT_IMPL) (e : rd_event) : Prop := match e with RdData _ => True | _ => no_data ti e = Nothing end.

Definition took (s : ncst) (t : list ascii) (s' : ncst) : Prop :=
  (status (sess s') = status (sess s) \/ status (sess s') = NC_STATUS_INVALID) /\
  sess s' = with_status (status (sess s')) (term_reason (sess s')) (sess s) /\
  env s' = with_rd (rd (env s')) (with_ticks (ticks (env s')) (with_allocations (allocations (env s')) (env s))) /\
  rd_bytes (rd (env s)) = t ++ rd_bytes (rd (env s')) /\
  ((rd_size (rd (env s')) + length t <= rd_size (rd (env s)) /\ ticks (env s) <= ticks (env s'))%nat).

Lemma took_nil s : took s [] s.
Proof. split; [by left|]. split; [by destruct s as [[] ?]|]. split; [by destruct s as [? []]|]. split; [done|]. cbn. lia. Qed.

Lemma took_trans s1 t1 s2 t2 s3 : took s1 t1 s2 -> took s2 t2 s3 -> took s1 (t1 ++ t2) s3.
Proof.
  intros (Ha & Hb & Hc & Hd & He) (Ha' & Hb' & Hc' & Hd' & He'). split; [destruct Ha' as [-> |]; [done|by right]|].
  split; [rewrite Hb' at 1; rewrite Hb; by destruct (sess s1)|]. split; [rewrite Hc' at 1; rewrite Hc; by destruct (env s1)|].
  split; [by rewrite Hd, Hd', app_assoc|]. rewrite length_app. lia.
Qed.

(** A session whose transport only gives data or nothing yet. *)
Definition readable (s : ncst) : Prop :=
  usable (sess s) = true /\ ti_type (sess s) <> NC_TI_NONE /\ Forall (calm (ti_type (sess s))) (rd (env s)).

(** [fetched s t s']: as [took], on such a session, which stays as it was. *)
Definition fetched (s : ncst) (t : list ascii) (s' : ncst) : Prop := took s t s' /\ sess s' = sess s /\ readable s'.

Lemma fetched_nil s : readable s -> fetched s [] s.
Proof. intros H. split; [apply took_nil|done]. Qed.

Lemma fetched_trans s1 t1 s2 t2 s3 : fetched s1 t1 s2 -> fetched s2 t2 s3 -> fetched s1 (t1 ++ t2) s3.
Proof. intros (Ha & Hb & _) (Ha' & Hb' & Hc'). split; [by eapply took_trans|]. split; [congruence|done]. Qed.

(** ** Steps that take nothing *)
Lemma invalidate_took r s : took s [] (NcSt (with_status NC_STATUS_INVALID r (sess s)) (env s)).
Proof. split; [by right|]. split; [by destruct s as [[] ?]|]. split; [by destruct s as [? []]|]. split; [done|]. cbn. lia. Qed.

Section Reader.
Context (oom : nat -> bool) (clock : nat -> Z) (t0 : Z).

(** From [s] to [s'] the clock was read only within 19.999 seconds from [t0] on; and a
    deadline that is at least 20 seconds from [t0]. *)
Definition window (s s' : ncst) : Prop := forall i, (ticks (env s) <= i < ticks (env s'))%nat -> t0 <= clock i < t0 + 19999000000.
Definition alive (deadline : Z) : Prop := t0 + 20000000000 <= deadline <= t0 + 400000000000.

Lemma window_left s t s1 s2 : took s1 t s2 -> window s s2 -> window s s1.
Proof. intros (_ & _ & _ & _ & H) Hw i Hi. apply Hw. lia. Qed.

Lemma window_right s t s1 s2 : took s t s1 -> window s s2 -> window s1 s2.
Proof. intros (_ & _ & _ & _ & H) Hw i Hi. apply Hw. lia. Qed.

Lemma not_timed_out c d : t0 <= c < t0 + 19999000000 -> alive d -> timed_out c d = false.
Proof.
  intros Hc Hd. unfold alive in Hd. unfold timed_out, nc_difftimespec. apply Z.ltb_ge.
  assert (1 <= Z.quot (d - c) 1000000 <= 400000) as Hq.
  { rewrite Z.quot_div_nonneg by lia. split; [apply Z.div_le_lower_bound; lia|]. apply Z.div_le_upper_bound; lia. }
  rewrite wrap_int_id; unfold INT_MIN, INT_MAX; lia.
Qed.

(** The time read is one of the window. *)
Lemma now_spec s : returns (now clock) s (fun ts s' => took s [] s' /\ sess s' = sess s /\ (readable s -> fetched s [] s') /\
  ts = clock (ticks (env s)) /\ (window s s' -> t0 <= ts < t0 + 19999000000)).
Proof.
  unfold returns, now. rewrite (bind_ret_eq get _ _ _ _ eq_refl). unfold set_env, modify, mbind, M_bind, mret, M_ret.
  assert (took s [] (NcSt (sess s) (with_ticks (S (ticks (env s))) (env s)))) as Ht.
  { split; [by left|]. split; [by destruct s as [[] ?]|]. split; [by destruct s as [? []]|]. split; [done|].
    change ((rd_size (rd (env s)) + 0 <= rd_size (rd (env s)) /\ ticks (env s) <= S (ticks (env s)))%nat). lia. }
  split; [done|]. split; [done|]. split; [by split|]. split; [done|]. intros Hw. apply Hw. cbn. lia.
Qed.

Lemma alloc_took n s : returns (alloc oom n) s (fun b s' => took s [] s' /\ sess s' = sess s /\ (readable s -> fetched s [] s') /\
  (no_failure oom -> n <= LONG_MAX -> b = true)).
Proof.
  unfold returns, alloc. rewrite (bind_ret_eq get _ _ _ _ eq_refl). unfold set_env, modify, mbind, M_bind, mret, M_ret.
  assert (took s [] (NcSt (sess s) (with_allocations (S (allocations (env s))) (env s)))) as Ht.
  { split; [by left|]. split; [by destruct s as [[] ?]|]. split; [by destruct s as [? []]|]. split; [done|].
    change ((rd_size (rd (env s)) + 0 <= rd_size (rd (env s)) /\ ticks (env s) <= ticks (env s))%nat). lia. }
  split; [done|]. split; [done|]. split; [by split|]. intros Ho Hn. rewrite Ho. by apply Z.leb_le in Hn as ->.
Qed.

(** ** One call of the transport *)
Definition got (r : rd_result) : list ascii := match r with Got bs => bs | _ => [] end.

Lemma took_rd s t l : rd_bytes (rd (env s)) = t ++ rd_bytes l -> (rd_size l + length t <= rd_size (rd (env s)))%nat ->
  took s t (NcSt (sess s) (with_rd l (env s))).
Proof. intros H1 H2. split; [by left|]. split; [by destruct s as [[] ?]|]. split; [by destruct s as [? []]|]. split; [done|]. split; [exact H2|exact (le_n _)]. Qed.

(** What holds after a call for [n] bytes. *)
Definition read_post (n : Z) (s : ncst) (r : rd_result) (s' : ncst) : Prop :=
  took s (got r) s' /\ sess s' = sess s /\
  (match r with Got bs => bs <> [] /\ zlen bs <= n | Nothing => (rd_size (rd (env s')) < rd_size (rd (env s)))%nat | Failed _ => True end) /\
  (readable s -> 0 < request (ti_type (sess s)) n -> rd_bytes (rd (env s)) <> [] -> fetched s (got r) s' /\ (forall t, r <> Failed t)).

Lemma readable_rest s e l : rd (env s) = e :: l -> readable s -> calm (ti_type (sess s)) e /\ readable (NcSt (sess s) (with_rd l (env s))).
Proof. intros Hrd (H1 & H2 & H3). rewrite Hrd in H3. apply Forall_cons in H3 as [H3 H4]. split; [done|]. by repeat split. Qed.

Lemma no_data_got ti e : match no_data ti e with Got _ => False | _ => True end.
Proof. by destruct ti, e. Qed.

Lemma popped_post n s e l : rd (env s) = e :: l -> (forall bs, e <> RdData bs) ->
  read_post n s (no_data (ti_type (sess s)) e) (NcSt (sess s) (with_rd l (env s))).
Proof.
  intros Hrd He. assert (rd_bytes (rd (env s)) = rd_bytes l /\ rd_size (rd (env s)) = S (rd_size l)) as [Hb Hz] by (rewrite Hrd; by destruct e; [destruct (He bs)|..]).
  pose proof (no_data_got (ti_type (sess s)) e) as Hg. assert (got (no_data (ti_type (sess s)) e) = []) as Hg0 by (by destruct (no_data _ e)).
  assert (took s [] (NcSt (sess s) (with_rd l (env s)))) as Ht by (apply took_rd; [done|rewrite Hz; cbn [length]; lia]).
  split; [by rewrite Hg0|]. split; [done|]. split; [destruct (no_data _ e); [done| |done]; change (rd_size l < rd_size (rd (env s)))%nat; rewrite Hz; lia|].
  intros Hr _ _. destruct (readable_rest s e l Hrd Hr) as [Hc Hr']. rewrite Hg0. split; [by split|].
  destruct e; cbn in Hc; [by destruct (He bs)|..]; rewrite Hc; done.
Qed.

Lemma data_post n s bs l : rd (env s) = RdData bs :: l -> 0 < n ->
  let k := Z.to_nat (Z.min n (Z.of_nat (length bs))) in
  read_post n s (match take k bs with [] => Nothing | bs => Got bs end) (NcSt (sess s) (with_rd (match drop k bs with [] => l | bs => RdData bs :: l end) (env s))).
Proof.
  intros Hrd Hn k. set (l' := match drop k bs with [] => l | bs => RdData bs :: l end).
  set (r := match take k bs with [] => Nothing | bs => Got bs end).
  assert (got r = take k bs) as Hg by (unfold r; by destruct (take k bs)).
  assert (rd_bytes l' = drop k bs ++ rd_bytes l) as Hb by (unfold l'; by destruct (drop k bs)).
  assert (rd_bytes (rd (env s)) = bs ++ rd_bytes l) as Hbs by (by rewrite Hrd).
  assert (rd_size (rd (env s)) = S (length bs) + rd_size l)%nat as Hz by (by rewrite Hrd).
  assert (rd_size l' <= S (length (drop k bs)) + rd_size l)%nat as Hz' by (unfold l'; destruct (drop k bs) as [|c t]; [cbn [length]; lia|]; rewrite rd_size_cons; cbn [event_size]; lia).
  pose proof (length_drop bs k) as Hd. assert (length (take k bs) = k) as Htk by (rewrite length_take; lia).
  assert (took s (got r) (NcSt (sess s) (with_rd l' (env s)))) as Ht.
  { apply took_rd; [by rewrite Hg, Hb, app_assoc, take_drop|]. rewrite Hg, Htk. lia. }
  split; [done|]. split; [done|]. split.
  - unfold r. destruct (take k bs) as [|c t] eqn:Hk.
    + cbn in Htk. assert (length bs = 0)%nat as Hz0 by lia. apply nil_length_inv in Hz0. subst bs. change (rd_size l' < rd_size (rd (env s)))%nat.
      rewrite Hz. unfold l'. rewrite drop_nil. cbn [length]. lia.
    + split; [done|]. rewrite <- Hk. unfold zlen. rewrite Hk, Htk. lia.
  - intros Hr _ _. destruct (readable_rest s _ l Hrd Hr) as [_ (H1 & H2 & H3)]. split.
    + split; [done|]. split; [done|]. split; [done|]. split; [done|]. cbn in *. unfold l'. destruct (drop k bs); [done|]. by constructor.
    + intros t. unfold r. by destruct (take k bs).
Qed.

Lemma request_le ti n : 0 < n -> request ti n <= n.
Proof.
  intros Hn. assert ((if n >? LONG_MAX then -1 else n) <= n) as Hd by (destruct (n >? LONG_MAX); lia).
  destruct ti; cbn; [done..| |]; [apply Z.mod_le; lia|]. unfold wrap_int. pose proof (Z.mod_le (n + 2^31) (2^32)). lia.
Qed.

Lemma request_twice ti n : request ti (request ti n) = request ti n.
Proof.
  assert (forall x, x = (if n >? LONG_MAX then -1 else n) -> (if x >? LONG_MAX then -1 else x) = x) as Hd.
  { intros x ->. destruct (n >? LONG_MAX) eqn:Hn; [done|]. by rewrite Hn. }
  destruct ti; cbn; try (by apply Hd); [apply Zmod_mod|]. apply wrap_int_id. unfold wrap_int, INT_MIN, INT_MAX.
  pose proof (Z.mod_pos_bound (n + 2^31) (2^32)). lia.
Qed.

Lemma transport_read_spec n s : 0 < n -> n < 2^32 \/ 0 < request (ti_type (sess s)) n -> returns (transport_read n) s (read_post n s).
Proof.
  intros Hn Hor. unfold returns, transport_read. rewrite (bind_ret_eq get _ _ _ _ eq_refl). destruct (rd (env s)) as [|e l] eqn:Hrd.
  { unfold mret, M_ret. assert (got (no_data (ti_type (sess s)) RdClosed) = []) as Hg by (by destruct (ti_type (sess s))). split; [rewrite Hg; apply took_nil|].
    split; [done|]. split; [by destruct (ti_type (sess s))|]. intros _ _ H. by rewrite Hrd in H. }
  destruct e as [bs| | | | |]; [|by apply (popped_post n s _ l Hrd)..].
  destruct (Z.leb_spec (request (ti_type (sess s)) n) 0) as [Hle|Hgt].
  - destruct Hor as [Hor|]; [|lia]. assert (ti_type (sess s) <> NC_TI_LIBSSH) as Hti.
    { intros Hti. rewrite Hti in Hle. cbn in Hle. unfold wrap_u32 in Hle. rewrite Z.mod_small in Hle; lia. }
    unfold mret, M_ret. destruct (ti_type (sess s)) eqn:Hx; try done; (split; [apply took_nil|]; split; [done|]; split; [done|]; rewrite Hx; intros; lia).
  - pose proof (data_post (request (ti_type (sess s)) n) s bs l Hrd Hgt) as Hp. unfold set_env, modify, mbind, M_bind, mret, M_ret.
    destruct Hp as (H1 & H2 & H3 & H4). split; [done|]. split; [done|]. pose proof (request_le (ti_type (sess s)) n Hn) as Hreq.
    split; [destruct (match take _ bs with [] => Nothing | _ => _ end); [destruct H3; split; [done|lia]|done..]|].
    intros Hr _ Hne. apply H4; [done|by rewrite request_twice|done].
Qed.

(** ** nc_read *)

Lemma inact_alive ts : t0 <= ts < t0 + 19999000000 -> alive (nc_addtimespec ts 20000).
Proof. unfold alive, nc_addtimespec. lia. Qed.

(** The bytes are there and the deadlines are far enough. *)
Definition could_read (count : Z) (buf : list ascii) (act : Z) (s : ncst) : Prop :=
  readable s /\ alive act /\ count < 2^31 /\ count <= zlen (buf ++ rd_bytes (rd (env s))).

(** Exactly [count] bytes are read, or -1 is returned; the latter not when they are there,
    [G] holds and the call is fast enough. *)
Definition reads_count (G : Prop) (count : Z) (buf : list ascii) (act : Z) (s : ncst) (r : Z * list ascii) (s' : ncst) : Prop :=
  exists t, took s t s' /\ (r.1 = -1 \/ r = (count, buf ++ t) /\ zlen (buf ++ t) = count) /\
    (could_read count buf act s -> G -> window s s' -> r.1 = count /\ fetched s t s').

Lemma reads_step (G G' : Prop) count buf t1 act s s1 r s2 : took s t1 s1 -> (could_read count buf act s -> window s s1 -> fetched s t1 s1) ->
  (G -> window s s1 -> G') -> reads_count G' count (buf ++ t1) act s1 r s2 -> reads_count G count buf act s r s2.
Proof.
  intros H1 H2 HG (t & H3 & H4 & H5). exists (t1 ++ t). split; [by eapply took_trans|]. rewrite <- app_assoc in H4. split; [done|].
  intros Hcan Hg Hw. pose proof (window_left _ _ _ _ H3 Hw) as Hwl. pose proof (window_right _ _ _ _ H1 Hw) as Hwr. specialize (H2 Hcan Hwl).
  destruct Hcan as (Hr & Ha & Hc & Hl). destruct H5 as [H5 H6]; [|by apply HG|done|].
  - split; [apply H2|]. split; [done|]. split; [done|]. destruct H1 as (_ & _ & _ & H1 & _). rewrite H1 in Hl. by rewrite <- app_assoc.
  - split; [done|]. by eapply fetched_trans.
Qed.

Lemma reads_failed (G : Prop) count buf act s t s' : took s t s' -> (could_read count buf act s -> G -> window s s' -> False) ->
  forall b, reads_count G count buf act s (-1, b) s'.
Proof. intros H1 H2 b. exists t. split; [done|]. split; [by left|]. intros Ha Hb Hc. by destruct (H2 Ha Hb Hc). Qed.

Lemma wanted count buf (l : list ascii) : zlen buf < count -> count <= zlen (buf ++ l) -> l <> [].
Proof. intros H1 H2 ->. rewrite app_nil_r in H2. lia. Qed.

Lemma nc_read_loop_spec act room count : 0 < count < 2^32 -> count < room -> forall fuel (G : Prop) buf inact s, (rd_size (rd (env s)) < fuel)%nat -> zlen buf < count ->
  (G -> alive inact) -> returns (nc_read_loop clock fuel room count 20000 act inact buf) s (reads_count G count buf act s).
Proof.
  intros Hc Hroom. induction fuel as [|fuel IH]; intros G buf inact s Hf Hb Hin; [lia|]. cbn [nc_read_loop]. apply returns_bind.
  assert (0 <= zlen buf) as Hb0 by (unfold zlen; lia).
  eapply returns_mono; [apply transport_read_spec; lia|]. intros r s1 (Ht & Hs & Hr & Hok).
  assert (could_read count buf act s -> fetched s (got r) s1 /\ forall t, r <> Failed t) as Hgood.
  { intros (H1 & _ & H2 & H3). apply Hok; [done|rewrite request_small; lia|]. by eapply wanted. }
  pose proof (proj2 (proj2 (proj2 (proj2 Ht)))) as Hsz. destruct r as [bs| |reason]; cbn [got] in *.
  - destruct Hr as [Hne Hlen]. rewrite <- (zlen_app buf bs). destruct (Z.gtb_spec (zlen (buf ++ bs)) room) as [Hgt|Hle]; [rewrite zlen_app in Hgt; lia|].
    apply returns_bind. eapply returns_mono; [apply now_spec|]. intros ts s2 (Ht2 & Hs2 & Hf2 & _ & Hts).
    assert (took s bs s2) as Ht3 by (rewrite <- (app_nil_r bs); by eapply took_trans).
    assert (could_read count buf act s -> fetched s bs s2) as Hg3.
    { intros H. destruct (Hgood H) as [Hg _]. rewrite <- (app_nil_r bs). eapply fetched_trans; [done|]. apply Hf2, Hg. }
    destruct (Z.ltb_spec (zlen (buf ++ bs)) count) as [Hlt|Hge].
    + eapply returns_mono; [apply (IH (window s1 s2) (buf ++ bs) _ s2)|].
      * destruct Ht3 as (_ & _ & _ & _ & H). assert (length bs <> 0%nat) by (by destruct bs). lia.
      * done.
      * intros H. by apply inact_alive, Hts.
      * intros r s3. apply reads_step; [done|auto|]. intros _. by apply (window_right s bs).
    + replace (count <? room) with true by lia. apply returns_ret. assert (zlen (buf ++ bs) = count) as Heq by (rewrite zlen_app in *; lia).
      exists bs. split; [done|]. rewrite Heq. split; [by right|]. intros H1 _ _. split; [done|by apply Hg3].
  - apply returns_bind. eapply returns_mono; [apply now_spec|]. intros ts s2 (Ht2 & Hs2 & Hf2 & _ & Hts).
    assert (took s [] s2) as Ht3 by (by apply (took_trans s [] s1 [] s2)).
    assert (could_read count buf act s -> fetched s [] s2) as Hg3.
    { intros H. destruct (Hgood H) as [Hg _]. apply (fetched_trans s [] s1 [] s2); [done|]. apply Hf2, Hg. }
    destruct (timed_out ts inact || timed_out ts act) eqn:Hto.
    + apply returns_bind. unfold invalidate, set_sess, modify. unfold returns at 1. apply returns_ret.
      eapply reads_failed; [eapply took_trans; [exact Ht3|apply invalidate_took]|]. intros (_ & Ha & _) HG Hw.
      specialize (Hts (window_right s [] s1 s2 Ht Hw)). by rewrite !not_timed_out in Hto by auto.
    + eapply returns_mono; [apply (IH G buf inact s2); [|done|done]|].
      * destruct Ht2 as (_ & _ & _ & _ & H). cbn in H. lia.
      * intros r s3 H. apply (reads_step G G count buf [] act s s2); [done|auto|done|]. by rewrite app_nil_r.
  - apply returns_bind. unfold invalidate, set_sess, modify. unfold returns at 1. apply returns_ret.
    eapply reads_failed; [eapply took_trans; [exact Ht|apply invalidate_took]|]. intros H1 _ _. destruct (Hgood H1) as [_ H]. by apply (H reason).
Qed.

Lemma nc_read_spec act room count s : 0 < count < 2^32 -> count < room ->
  returns (nc_read clock room count 20000 act) s (fun r s' => reads_count True count [] act s r s' \/ (r.1 = 0 /\ took s [] s' /\ ~ readable s)).
Proof.
  intros Hc Hr. unfold nc_read. apply returns_bind. unfold returns at 1, get. destruct (usable (sess s)) eqn:Hu; cbn [negb].
  2: { apply returns_ret. left. eapply reads_failed; [apply took_nil|]. intros ((H & _) & _). by rewrite Hu in H. }
  replace (count =? 0) with false by lia. apply returns_bind. eapply returns_mono; [apply now_spec|]. intros ts s1 (Ht & Hs & Hf & _ & Hts).
  apply returns_bind. unfold returns at 1, get. rewrite Hs.
  assert (returns (nc_read_loop clock (rd_fuel (rd (env s1))) room count 20000 act (nc_addtimespec ts 20000) []) s1 (reads_count True count [] act s)) as Hgo.
  { eapply returns_mono; [apply (nc_read_loop_spec act room count Hc Hr _ (window s s1)); [|unfold zlen; cbn [length]; lia|]|].
    - unfold rd_fuel, rd_size. lia.
    - intros H. by apply inact_alive, Hts.
    - intros r s2 H. apply (reads_step True (window s s1) count [] [] act s s1); [done| |done|done]. intros (H1 & _) _. by apply Hf. }
  destruct (ti_type (sess s)) eqn:Hti; [apply returns_ret; right; split; [done|]; split; [done|]; intros (_ & H & _); by rewrite Hti in H|..];
    (eapply returns_mono; [exact Hgo|]; by left).
Qed.
End Reader.
