(* ===== verification/NcUntil.v ===== *)
(** * nc_read_until

    It reads as many characters as the end tag still lacks and compares. It ends
    behind the end tag, or fails; it finds the first end tag when every earlier
    occurrence of the first character of the tag is far enough from it. *)

From S2P Require Import Prelude CLib NcSession NcWrite NcWriteRep NcMessage NcRead NcReadRep.

(** ** The comparison *)
Lemma strneq_last e c k i : (i <= length c)%nat -> strneq (drop k e) (drop (length c - i) c) i = true <-> take i (drop k e) = drop (length c - i) c.
Proof.
  intros H. unfold strneq. rewrite bool_decide_eq_true. by rewrite (take_ge (drop (length c - i) c)) by (rewrite length_drop; lia).
Qed.

(** [ends_in c k]: the last [k] characters are the first [k] of the end tag. *)
Definition ends_in (e c : list ascii) (k : nat) : Prop := (k <= length e)%nat /\ exists p, c = p ++ take k e.

Lemma ends_0 e c : ends_in e c 0.
Proof. split; [lia|]. exists c. by rewrite take_0, app_nil_r. Qed.

Lemma match_tag_ends e c : forall i k, (k + i <= length e)%nat -> (i <= length c)%nat -> ends_in e (take (length c - i) c) k -> ends_in e c (match_tag e c k i).
Proof.
  induction i as [|i IH]; intros k Hk Hi Hends; cbn [match_tag].
  { by rewrite take_ge in Hends by lia. }
  destruct (strneq _ _ _) eqn:Hs.
  - apply strneq_last in Hs; [|done]. split; [lia|]. destruct Hends as [_ [p Hp]]. exists p.
    rewrite <- (take_drop (length c - S i) c) at 1. rewrite Hp, <- Hs, <- app_assoc. f_equal. by rewrite take_take_drop.
  - apply IH; [lia|lia|apply ends_0].
Qed.

Lemma match_tag_hit e c k i : (0 < i <= length c)%nat -> take i (drop k e) = drop (length c - i) c -> match_tag e c k i = (k + i)%nat.
Proof. intros Hi H. destruct i as [|i]; [lia|]. cbn [match_tag]. by rewrite (proj2 (strneq_last e c k (S i) (proj2 Hi)) H). Qed.

(** Longer suffixes that do not begin with the first character of the tag are skipped. *)
Lemma match_tag_skip a e c d : head e = Some a -> forall i, (d <= i <= length c)%nat -> (0 < d)%nat -> (forall j, d < j <= i -> c !! (length c - j) <> Some a)%nat ->
  match_tag e c 0 i = match_tag e c 0 d.
Proof.
  intros Ha. destruct e as [|b e]; [done|]. injection Ha as ->.
  induction i as [|i IH]; intros Hd Hd0 Hno; [lia|]. destruct (decide (d = S i)) as [->|Hne]; [done|]. cbn [match_tag].
  destruct (strneq _ _ _) eqn:Hs; [|apply IH; [lia|lia|intros j Hj; apply Hno; lia]].
  apply strneq_last in Hs; [|lia]. destruct (Hno (S i)); [lia|]. cbn in Hs.
  replace (length c - S i)%nat with (length c - S i + 0)%nat by lia. by rewrite <- lookup_drop, <- Hs.
Qed.

(** ** Where the end tag is found *)

(** [clear_of m e]: the tag [e] is not in [m], and the first character of [e] is in [m] only
    as far from its end as [e] is long. *)
Definition clear_of (m e : list ascii) : Prop :=
  (forall i a, m !! i = Some a -> head e = Some a -> (i + length e <= length m)%nat) /\ (forall p q, m <> p ++ e ++ q).

(** How far the reader is in [m ++ e]. *)
Definition phase (m e chunk : list ascii) (k : nat) : Prop :=
  (k < length e)%nat /\ ((length chunk <= length m /\ ends_in e chunk k)%nat \/ (length m < length chunk /\ k = length chunk - length m)%nat).

Section Progress.
Context (m e rest chunk t u : list ascii) (k : nat).
Hypotheses (Hclear : clear_of m e) (Hstream : chunk ++ t ++ u = m ++ e ++ rest) (Hlen : length t = (length e - k)%nat) (Hphase : phase m e chunk k).
Let k' := match_tag e (chunk ++ t) k (length e - k).

Lemma stream_at i : (i < length (chunk ++ t))%nat -> (chunk ++ t) !! i = (m ++ e ++ rest) !! i.
Proof. intros H. rewrite <- Hstream, app_assoc. by rewrite (lookup_app_l (chunk ++ t)). Qed.

Lemma chunk_at i : (i < length chunk)%nat -> chunk !! i = (m ++ e ++ rest) !! i.
Proof. intros H. rewrite <- Hstream. by rewrite lookup_app_l. Qed.

Lemma stream_drop n : (length m <= n <= length (chunk ++ t))%nat -> (length (chunk ++ t) <= length m + length e)%nat ->
  drop n (chunk ++ t) = take (length (chunk ++ t) - n) (drop (n - length m) e).
Proof.
  intros Hn Hl. apply list_eq. intros i. rewrite lookup_drop. destruct (decide (n + i < length (chunk ++ t))%nat) as [Hi|Hi].
  - rewrite stream_at by done. rewrite lookup_app_r by lia. rewrite lookup_app_l by lia. rewrite lookup_take, lookup_drop. case_decide; [f_equal; lia|lia].
  - rewrite lookup_ge_None_2 by lia. symmetry. apply lookup_ge_None_2. rewrite length_take. lia.
Qed.

Lemma inside_prefix : (length (chunk ++ t) <= length m)%nat -> chunk ++ t = take (length (chunk ++ t)) m.
Proof.
  intros H. rewrite <- (take_app_length (chunk ++ t) u) at 1. rewrite <- app_assoc, Hstream. by rewrite take_app_le.
Qed.

(** The reader is still in [m]. *)
Lemma inside : (length (chunk ++ t) <= length m)%nat -> phase m e (chunk ++ t) k'.
Proof.
  intros H. destruct Hphase as [Hk [[Hc Hends]|[Hc _]]]; [|rewrite length_app in H; lia].
  assert (ends_in e (chunk ++ t) k') as Hends'.
  { apply match_tag_ends; rewrite ?length_app; [lia|lia|]. by replace (length chunk + length t - (length e - k))%nat with (length chunk) by lia; rewrite take_app_length. }
  split; [|by left]. destruct Hends' as [Hk' [p Hp]]. destruct (decide (k' = length e)) as [Heq|]; [|lia]. exfalso.
  rewrite Heq, firstn_all in Hp. rewrite inside_prefix in Hp by done. apply (proj2 Hclear p (drop (length (chunk ++ t)) m)).
  rewrite app_assoc, <- Hp. by rewrite take_drop.
Qed.

(** It gets from [m] into the end tag with nothing matched. *)
Lemma crossing : (length chunk <= length m < length (chunk ++ t))%nat -> k = 0%nat.
Proof.
  intros H. destruct Hphase as [Hk [[Hc [_ [p Hp]]]|[Hc _]]]; [|lia]. destruct (decide (k = 0%nat)) as [|Hne]; [done|]. exfalso.
  destruct (lookup_lt_is_Some_2 e 0) as [a He]; [lia|]. assert (length chunk = length p + k)%nat as Hlc by (rewrite Hp, length_app, length_take; lia).
  assert (m !! length p = Some a) as Ha.
  { rewrite <- (lookup_app_l m (e ++ rest)) by lia. rewrite <- chunk_at by lia. rewrite Hp, lookup_app_r, Nat.sub_diag by lia.
    rewrite lookup_take. case_decide; [done|lia]. }
  pose proof (proj1 Hclear _ a Ha ltac:(by rewrite head_lookup)). rewrite length_app in H. lia.
Qed.

Lemma behind : (length m < length (chunk ++ t))%nat -> (length (chunk ++ t) <= length m + length e)%nat /\ k' = (length (chunk ++ t) - length m)%nat.
Proof.
  intros H. unfold k'. destruct Hphase as [Hk [[Hc Hends]|[Hc Hkl]]].
  - assert (k = 0%nat) as Hk0 by (by apply crossing). rewrite Hk0, Nat.sub_0_r. pose proof Hlen as Hlen0. rewrite Hk0 in Hlen0. split; [rewrite length_app; lia|].
    destruct (lookup_lt_is_Some_2 e 0) as [a He]; [lia|]. rewrite <- head_lookup in He. assert (length (chunk ++ t) <= length m + length e)%nat as Hle by (rewrite length_app; lia).
    set (d := (length (chunk ++ t) - length m)%nat). rewrite (match_tag_skip a e (chunk ++ t) d He).
    + apply match_tag_hit; [unfold d; lia|]. unfold d. rewrite stream_drop by lia. rewrite drop_0. f_equal; [lia|]. by replace (_ - _)%nat with 0%nat by lia.
    + unfold d. rewrite length_app. lia.
    + unfold d. lia.
    + intros j Hj Ha. pose proof (length_app chunk t) as Hl. rewrite stream_at in Ha by lia. rewrite lookup_app_l in Ha by (unfold d in *; lia).
      pose proof (proj1 Hclear _ a Ha He). unfold d in *. lia.
  - pose proof (length_app chunk t) as Hl. split; [lia|]. rewrite match_tag_hit; [lia|lia|]. rewrite stream_drop by lia. f_equal; [lia|]. f_equal. lia.
Qed.

Lemma tag_progress : if (k' =? length e)%nat then chunk ++ t = m ++ e else phase m e (chunk ++ t) k'.
Proof.
  destruct (decide (length (chunk ++ t) <= length m)%nat) as [Hin|Hout].
  - pose proof (inside Hin) as [Hk Hp]. by replace (k' =? length e)%nat with false by (symmetry; apply Nat.eqb_neq; lia).
  - destruct (behind ltac:(lia)) as [Hle Heq]. destruct (Nat.eqb_spec k' (length e)) as [Hk|Hk].
    + apply (app_inj_1 _ _ u rest); [rewrite (length_app m); lia|]. by rewrite <- !app_assoc.
    + split; [lia|]. right. split; [lia|done].
Qed.
End Progress.

(** ** On any transport *)
Section Until.
Context (oom : nat -> bool) (clock : nat -> Z) (t0 : Z).

(** What is read ends with the end tag, or the result is -1. *)
Definition until_ok (e : list ascii) (chunk : list ascii) (s : ncst) (r : Z * list ascii) (s' : ncst) : Prop :=
  exists t, took s t s' /\ (r = (-1, []) \/ r = (zlen (chunk ++ t), chunk ++ t) /\ t <> [] /\ exists p, chunk ++ t = p ++ e).

Lemma until_failed e chunk s t s' : took s t s' -> until_ok e chunk s (-1, []) s'.
Proof. intros H. exists t. split; [done|by left]. Qed.

Lemma until_step e chunk s t s1 r s2 : took s t s1 -> until_ok e (chunk ++ t) s1 r s2 -> until_ok e chunk s r s2.
Proof.
  intros H1 (t2 & H2 & H3). exists (t ++ t2). split; [by eapply took_trans|]. rewrite <- app_assoc in H3. destruct H3 as [|(H3 & H4 & H5)]; [by left|].
  right. split; [done|]. split; [|done]. by destruct t.
Qed.
(** A session on which [n] more bytes can be read. *)
Definition can_read (act : Z) (n : Z) (s : ncst) : Prop :=
  readable s /\ alive t0 act /\ no_failure oom /\ n <= zlen (rd_bytes (rd (env s))) < 2^31.

(** The size of the buffer: no more than needed. *)
Definition sized (size : Z) (chunk : list ascii) : Prop := zlen chunk <= size <= zlen chunk + 512.

(** One round of the loop. *)
Lemma until_round fuel e act size k chunk s (Q : Z * list ascii -> ncst -> Prop) : (k < length e <= 6)%nat -> sized size chunk ->
  (forall t s', took s t s' -> ~ (can_read act (zlen e - Z.of_nat k) s /\ zlen chunk < 2^31 /\ window clock t0 s s') -> Q (-1, []) s') ->
  (forall t s' size', took s t s' -> zlen t = zlen e - Z.of_nat k -> sized size' (chunk ++ t) ->
     (can_read act (zlen e - Z.of_nat k) s -> zlen chunk < 2^31 -> window clock t0 s s' -> fetched s t s') ->
     let k' := match_tag e (chunk ++ t) k (length e - k) in
     if (k' =? length e)%nat then Q (zlen (chunk ++ t), chunk ++ t) s'
     else returns (until_loop oom clock fuel e 0 20000 act size' k' (chunk ++ t)) s' Q) ->
  returns (until_loop oom clock (S fuel) e 0 20000 act size k chunk) s Q.
Proof.
  intros Hk Hsize Hfail Hgo. unfold sized in *. cbn [until_loop]. change (negb (0 =? 0)) with false. cbn [andb].
  set (n := zlen e - Z.of_nat k) in *. assert (1 <= n <= 6) as Hn by (unfold n, zlen; lia). assert (0 <= zlen chunk) as Hz by (unfold zlen; lia).
  set (size' := if zlen chunk + n >=? size then size + BUFFERSIZE else size).
  assert (zlen chunk + n < size' <= zlen chunk + n + 512) as Hs' by (unfold size', BUFFERSIZE; destruct (Z.geb_spec (zlen chunk + n) size); lia).
  apply returns_bind. apply (returns_mono _ _ (fun b s' => took s [] s' /\ (readable s -> fetched s [] s') /\ (no_failure oom -> zlen chunk < 2^31 -> b = true))).
  { destruct (zlen chunk + n >=? size).
    - eapply returns_mono; [apply alloc_took|]. intros b s' (H1 & _ & H2 & H3). split; [done|]. split; [done|]. intros H4 H5. apply H3; [done|].
      unfold size', LONG_MAX in *. lia.
    - apply returns_ret. split; [apply took_nil|]. split; [apply fetched_nil|done]. }
  intros b s1 (Ht & Hf & Hb). destruct b; cbn [negb].
  2: { apply returns_ret, (Hfail [] s1 Ht). intros [(_ & _ & H1 & _) [H2 _]]. by specialize (Hb H1 H2). }
  apply returns_bind. eapply returns_mono; [apply (nc_read_spec clock t0 act (size' + 1 - zlen chunk) n s1); lia|].
  assert (rd_bytes (rd (env s)) = rd_bytes (rd (env s1))) as Hbytes by (destruct Ht as (_ & _ & _ & H & _); exact H).
  intros [r bs] s2 [(t & Ht2 & Hr & Hgood)|(Hr & Ht2 & Hnr)]; cbn [fst snd] in *.
  - assert (can_read act n s -> zlen chunk < 2^31 -> window clock t0 s s2 -> r = n /\ fetched s t s2) as Hg.
    { intros (H1 & H2 & H3 & H4) _ Hw. destruct (Hf H1) as (Ha & Hc & Hd). destruct Hgood as [H5 H6]; [|done|by apply (window_right _ _ s [] s1)|].
      - split; [done|]. split; [done|]. split; [lia|]. cbn [app]. rewrite <- Hbytes. lia.
      - split; [done|]. by apply (fetched_trans s [] s1 t s2). }
    assert (took s t s2) as Ht3 by (by apply (took_trans s [] s1 t s2)). destruct Hr as [->|[[= -> ->] Hlen]].
    + replace (-1 =? n) with false by lia. cbn [negb]. apply returns_ret, (Hfail t s2 Ht3). intros (H1 & H2 & H3). destruct (Hg H1 H2 H3). lia.
    + rewrite Z.eqb_refl. cbn [negb]. replace (Z.to_nat n) with (length e - k)%nat by (unfold n, zlen; lia). cbn [app] in *.
      specialize (Hgo t s2 size' Ht3 Hlen). rewrite zlen_app, Hlen in Hgo. specialize (Hgo ltac:(lia)). rewrite zlen_app, Hlen.
      destruct (match_tag e (chunk ++ t) k (length e - k) =? length e)%nat eqn:Hm.
      * replace (zlen chunk + n <=? size') with true by lia. apply returns_ret. apply Hgo. intros H1 H2 H3. by apply Hg.
      * apply Hgo. intros H1 H2 H3. by apply Hg.
  - subst r. replace (0 =? n) with false by lia. cbn [negb]. apply returns_ret, (Hfail [] s2).
    + by apply (took_trans s [] s1 [] s2).
    + intros [(H1 & _) _]. destruct Hnr. by apply Hf.
Qed.

Lemma until_loop_spec e act : (length e <= 6)%nat -> forall fuel size k chunk s, (rd_size (rd (env s)) < fuel)%nat -> sized size chunk ->
  (k < length e)%nat -> ends_in e chunk k -> returns (until_loop oom clock fuel e 0 20000 act size k chunk) s (until_ok e chunk s).
Proof.
  intros He. induction fuel as [|fuel IH]; intros size k chunk s Hf Hs Hk Hends; [lia|]. apply until_round; [lia|done| |].
  - intros t s' Ht _. by eapply until_failed.
  - intros t s' size' Ht Hlen Hs' _ k'. assert (length t = length e - k)%nat as Hlt by (unfold zlen in Hlen; lia).
    assert (ends_in e (chunk ++ t) k') as Hends'.
    { apply match_tag_ends; rewrite ?length_app; [lia|lia|]. by replace (length chunk + length t - (length e - k))%nat with (length chunk) by lia; rewrite take_app_length. }
    destruct (Nat.eqb_spec k' (length e)) as [Heq|Hne].
    + exists t. split; [done|]. right. split; [done|]. split; [intros ->; cbn in Hlt; lia|]. destruct Hends' as [_ [p Hp]]. exists p. by rewrite Hp, Heq, firstn_all.
    + eapply returns_mono; [apply (IH size' k' (chunk ++ t) s'); [|done| |done]|].
      * destruct Ht as (_ & _ & _ & _ & H). lia.
      * destruct Hends' as [? _]. lia.
      * intros r s2. by apply until_step.
Qed.

(** What holds after nc_read_until on any transport. *)
Lemma nc_read_until_spec e act s : (0 < length e <= 6)%nat -> returns (nc_read_until oom clock e 0 20000 act) s (until_ok e [] s).
Proof.
  intros He. unfold nc_read_until. cbn [negb Z.eqb andb]. apply returns_bind. eapply returns_mono; [apply alloc_took|]. intros b s1 (Ht & _).
  destruct b; cbn [negb]; [|by eapply returns_ret, until_failed].
  apply returns_bind. unfold returns at 1, get. eapply returns_mono; [apply (until_loop_spec e act); [lia| | |lia|apply ends_0]|].
  - unfold rd_fuel, rd_size. lia.
  - unfold sized, BUFFERSIZE, zlen. cbn [length]. lia.
  - intros r s2. by apply (until_step e [] s [] s1).
Qed.
(** ** When the end tag is there *)
Definition flowing (act : Z) (s : ncst) : Prop := readable s /\ alive t0 act /\ no_failure oom.

Lemma flowing_fetched act s t s' : flowing act s -> fetched s t s' -> flowing act s'.
Proof. intros (_ & H1 & H2) (_ & _ & H3). by split. Qed.

Lemma took_bytes s t s' rest : took s t s' -> rd_bytes (rd (env s)) = t ++ rest -> rd_bytes (rd (env s')) = rest.
Proof. intros (_ & _ & _ & H & _) Hb. rewrite Hb in H. by apply app_inv_head in H. Qed.

(** [m] gives [a] and takes [t], or gives [err]; the latter not on a flowing session when
    the call is fast enough. *)
Definition finds {A} (act : Z) (m : M ncst A) (s : ncst) (t : list ascii) (a err : A) : Prop :=
  returns m s (fun r s' => (exists t', took s t' s') /\ (r = err \/ r = a /\ took s t s') /\
    (flowing act s -> window clock t0 s s' -> r = a /\ fetched s t s')).

Lemma until_loop_finds m e rest act : (length e <= 6)%nat -> clear_of m e -> zlen (m ++ e ++ rest) < 2^31 -> forall fuel size k chunk s, (rd_size (rd (env s)) < fuel)%nat ->
  sized size chunk -> phase m e chunk k -> chunk ++ rd_bytes (rd (env s)) = m ++ e ++ rest ->
  exists t, chunk ++ t = m ++ e /\ finds act (until_loop oom clock fuel e 0 20000 act size k chunk) s t (zlen (m ++ e), m ++ e) (-1, []).
Proof.
  intros He Hclear Hbig. induction fuel as [|fuel IH]; intros size k chunk s Hf Hs Hphase Hstream; [lia|].
  assert (length chunk < length (m ++ e))%nat as Hlt by (rewrite length_app; destruct Hphase; lia).
  exists (drop (length chunk) (m ++ e)).
  assert (forall u, m ++ e = chunk ++ u -> drop (length chunk) (m ++ e) = u) as Hdrop by (intros u ->; by rewrite drop_app_length).
  assert (exists u, m ++ e = chunk ++ u) as [u Hu].
  { exists (drop (length chunk) (m ++ e)). rewrite <- (take_drop (length chunk) (m ++ e)) at 1. f_equal.
    symmetry. rewrite <- (take_app_length chunk (rd_bytes (rd (env s)))) at 1. rewrite Hstream, app_assoc. apply take_app_le. lia. }
  rewrite (Hdrop u Hu). split; [done|]. assert (zlen (chunk ++ rd_bytes (rd (env s))) < 2^31) as Hz by (by rewrite Hstream). rewrite zlen_app in Hz.
  assert (0 <= zlen chunk /\ 0 <= zlen (rd_bytes (rd (env s)))) as [Hz1 Hz2] by (unfold zlen; lia).
  assert (zlen e - Z.of_nat k <= zlen (rd_bytes (rd (env s)))) as Hneed.
  { assert (length chunk + length (rd_bytes (rd (env s))) = length m + (length e + length rest))%nat as Hl by (by rewrite <- !length_app, Hstream).
    destruct Hphase as [Hk [[H1 _]|[H1 H2]]]; unfold zlen; lia. }
  assert (flowing act s -> can_read act (zlen e - Z.of_nat k) s) as Hready by (intros (H1 & H2 & H3); split; [done|]; split; [done|]; split; [done|]; lia).
  apply until_round; [destruct Hphase; lia|done| |].
  - intros t s' Ht Hno. split; [by exists t|]. split; [by left|]. intros Hfl Hw. destruct Hno. split; [by apply Hready|]. split; [lia|done].
  - intros t s' size' Ht Hlen Hs' Hfetch k'.
    assert (flowing act s -> window clock t0 s s' -> fetched s t s') as Hft by (intros Hfl Hw; apply Hfetch; [by apply Hready|lia|done]). clear Hfetch.
    pose proof Ht as (_ & _ & _ & Hbytes & Hsz). rewrite Hbytes in Hstream.
    assert (length t = length e - k)%nat as Hlt2 by (unfold zlen in Hlen; destruct Hphase; lia).
    pose proof (tag_progress m e rest chunk t _ k Hclear Hstream Hlt2 Hphase) as Hp. fold k' in Hp. destruct (k' =? length e)%nat.
    + rewrite Hp. rewrite Hu in Hp. apply app_inv_head in Hp. subst u. split; [by exists t|]. split; [by right|]. intros Hfl Hw. split; [done|by apply Hft].
    + rewrite app_assoc in Hstream. destruct (IH size' k' (chunk ++ t) s') as (t2 & Ht2 & Hfind); [destruct Hphase; lia|done|done|done|].
      rewrite Hu, <- app_assoc in Ht2. apply app_inv_head in Ht2. subst u.
      eapply returns_mono; [exact Hfind|]. intros r s2 ((t' & Ht') & Hcase & Hgood). split; [eexists; by eapply took_trans|]. split.
      * destruct Hcase as [->|[-> Hc]]; [by left|right; split; [done|by eapply took_trans]].
      * intros Hfl Hw. specialize (Hft Hfl (window_left _ _ _ _ _ _ Ht' Hw)). destruct Hgood as [-> Hf2]; [by eapply flowing_fetched|by eapply window_right|].
        split; [done|by eapply fetched_trans].
Qed.

Lemma nc_read_until_finds m e rest act s : (0 < length e <= 6)%nat -> clear_of m e -> zlen (rd_bytes (rd (env s))) < 2^31 -> rd_bytes (rd (env s)) = m ++ e ++ rest ->
  finds act (nc_read_until oom clock e 0 20000 act) s (m ++ e) (zlen (m ++ e), m ++ e) (-1, []).
Proof.
  intros He Hclear Hsize Hbytes. unfold finds, nc_read_until. cbn [negb Z.eqb andb]. apply returns_bind. eapply returns_mono; [apply alloc_took|]. intros b s1 (Ht1 & _ & Hf & Hb).
  assert (window clock t0 s s1 -> flowing act s -> b = true) as Hb1 by (intros _ (_ & _ & Hn); apply Hb; [done|by vm_compute]).
  destruct b; cbn [negb].
  2: { apply returns_ret. split; [by exists []|]. split; [by left|]. intros Hfl Hw. by specialize (Hb1 Hw Hfl). }
  assert (rd_bytes (rd (env s1)) = m ++ e ++ rest) as Hbytes1 by (by apply (took_bytes s [])).
  apply returns_bind. unfold returns at 1, get. rewrite Hbytes in Hsize.
  destruct (until_loop_finds m e rest act ltac:(lia) Hclear Hsize (rd_fuel (rd (env s1))) BUFFERSIZE 0 [] s1) as (t & Ht & Hfind); [..|].
  - unfold rd_fuel, rd_size. lia.
  - unfold sized, BUFFERSIZE, zlen. cbn [length]. lia.
  - split; [lia|]. left. split; [cbn; lia|apply ends_0].
  - done.
  - cbn [app] in Ht. subst t. eapply returns_mono; [exact Hfind|]. intros r s2 ((t' & Ht') & Hcase & Hgood).
    split; [eexists; by eapply took_trans|]. split.
    + destruct Hcase as [->|[-> Hc]]; [by left|right; split; [done|by apply (took_trans s [] s1)]].
    + intros Hfl Hw. assert (fetched s [] s1) as Hf1 by (by apply Hf; destruct Hfl). destruct Hgood as [-> Hf2]; [by eapply flowing_fetched|by eapply window_right|].
      split; [done|by apply (fetched_trans s [] s1)].
Qed.
End Until.
