(* ===== verification/NcFrames.v ===== *)
(** * Chunks and messages as they are read

    The text of a message from its framing, in both versions of the protocol. *)

From S2P Require Import Prelude CLib NcSession NcWrite NcWriteRep NcMessage NcRead NcReadRep NcUntil.

(** ** The header of a chunk *)
Lemma digits_forall s : forallb isdigit s = true -> Forall (fun c => isdigit c = true) s.
Proof. intros H. apply Forall_forall. intros c Hc%list_elem_of_In. rewrite forallb_forall in H. by apply H. Qed.

Lemma header_no_nul n : 0 <= n -> no_nul (show_Z n ++ [LF]).
Proof.
  intros Hn. destruct (show_digits n Hn) as (Hd%digits_forall & _). apply Forall_app. split; [|by apply Forall_singleton].
  eapply Forall_impl; [exact Hd|]. by intros c Hc ->.
Qed.

Lemma strtoul_header n : 0 <= n <= ULONG_MAX -> strtoul (cstr (show_Z n ++ [LF])) = n.
Proof.
  intros Hn. rewrite cstr_id by (apply header_no_nul; lia). destruct (show_digits n) as (Hd%digits_forall & Hne & Hv); [lia|].
  unfold strtoul, skip_space. destruct (show_Z n) as [|c s] eqn:Hs; [done|].
  assert (isspace c = false /\ Ascii.eqb c "-" = false /\ Ascii.eqb c "+" = false) as (H1 & H2 & H3).
  { apply Forall_cons in Hd as [Hc _]. clear -Hc. destruct c as [[][][][][][][][]]; vm_compute in Hc |- *; intuition congruence. }
  cbn [app span_len]. rewrite H1, drop_0. cbn [take_sign]. rewrite H2, H3. rewrite app_comm_cons, span_len_all by done. rewrite take_app_length, Hv.
  by destruct (Z.gtb_spec n ULONG_MAX); [lia|].
Qed.

Lemma header_not_end n : 0 <= n -> streq (cstr (show_Z n ++ [LF])) (lit "#" ++ [LF]) = false.
Proof.
  intros Hn. rewrite cstr_id by by apply header_no_nul. destruct (show_digits n Hn) as (Hd%digits_forall & Hne & _). apply bool_decide_eq_false_2.
  destruct (show_Z n) as [|c s]; [done|]. apply Forall_cons in Hd as [Hc _]. intros [= -> _]. done.
Qed.

Lemma clear_absent m a e : a ∉ m -> clear_of m (a :: e).
Proof.
  intros Ha. split.
  - intros i b Hb [= ->]. destruct Ha. by eapply list_elem_of_lookup_2.
  - intros p q ->. destruct Ha. apply elem_of_app. right. cbn. by left.
Qed.

Lemma digits_clear n : 0 <= n -> clear_of (show_Z n) [LF].
Proof.
  intros Hn. apply clear_absent. intros H. destruct (show_digits n Hn) as (Hd%digits_forall & _). rewrite Forall_forall in Hd. by specialize (Hd _ H).
Qed.

Section Frames.
Context (oom : nat -> bool) (clock : nat -> Z) (t0 : Z).

(** ** One chunk *)
Lemma nc_read_chunk_spec len act s : 0 < len < 2^32 ->
  returns (nc_read_chunk oom clock len 20000 act) s (fun r s' => exists t, took s t s' /\ (r = (-1, []) \/ r = (len, t) /\ zlen t = len)).
Proof.
  intros Hl. unfold nc_read_chunk. replace (len =? 0) with false by lia. unfold wrap_u64. rewrite Z.mod_small by lia.
  apply returns_bind. eapply returns_mono; [apply alloc_took|]. intros b s1 (Ht & _). destruct b; cbn [negb]; [|apply returns_ret; exists []; by split; [|left]].
  apply returns_bind. eapply returns_mono; [apply (nc_read_spec clock t0); lia|]. intros [r bs] s2 [(t & Ht2 & Hr & _)|(Hr & Ht2 & _)]; cbn [fst snd] in *.
  - assert (took s t s2) as Ht3 by (by apply (took_trans s [] s1 t s2)). destruct Hr as [->|[[= -> ->] Hz]].
    + apply returns_ret. exists t. by split; [|left].
    + replace (len <=? 0) with false by lia. apply returns_ret. exists t. by split; [|right].
  - subst r. apply returns_ret. exists []. split; [|by left]. by apply (took_trans s [] s1 [] s2).
Qed.

Lemma nc_read_chunk_finds c rest act s : c <> [] -> zlen (rd_bytes (rd (env s))) < 2^31 -> rd_bytes (rd (env s)) = c ++ rest ->
  finds oom clock t0 act (nc_read_chunk oom clock (zlen c) 20000 act) s c (zlen c, c) (-1, []).
Proof.
  intros Hne Hsize Hbytes. rewrite Hbytes, zlen_app in Hsize.
  assert (0 < zlen c) as Hpos by (unfold zlen; destruct c; [done|cbn; lia]). assert (0 <= zlen rest) as Hz by (unfold zlen; lia).
  unfold finds, nc_read_chunk. replace (zlen c =? 0) with false by lia. unfold wrap_u64. rewrite Z.mod_small by lia.
  apply returns_bind. eapply returns_mono; [apply alloc_took|]. intros b s1 (Ht1 & _ & Hf & Hb). destruct b; cbn [negb].
  2: { apply returns_ret. split; [by exists []|]. split; [by left|]. intros (_ & _ & Hn) _. specialize (Hb Hn). unfold LONG_MAX in Hb. lia. }
  assert (rd_bytes (rd (env s1)) = c ++ rest) as Hbytes1 by (by apply (took_bytes s [])).
  apply returns_bind. eapply returns_mono; [apply (nc_read_spec clock t0 act (zlen c + 1) (zlen c) s1); lia|]. intros [r bs] s2 [(t & Ht2 & Hrt & Hgood)|(Hr & Ht2 & Hnr)]; cbn [fst snd app] in *.
  - assert (took s t s2) as Ht by (by apply (took_trans s [] s1)).
    assert (flowing oom t0 act s -> window clock t0 s s2 -> r = zlen c /\ fetched s t s2) as Hg.
    { intros (H1 & H2 & H3) Hw. destruct Hgood as [-> H4]; [|done|by apply (window_right _ _ s [] s1)|].
      - split; [apply Hf, H1|]. split; [done|]. split; [lia|]. cbn [app]. rewrite Hbytes1, zlen_app. lia.
      - split; [done|]. by apply (fetched_trans s [] s1); [apply Hf|]. }
    destruct Hrt as [->|[[= -> ->] Hlen]].
    + apply returns_ret. split; [by exists t|]. split; [by left|]. intros Hfl Hw. destruct (Hg Hfl Hw). lia.
    + replace (zlen c <=? 0) with false by lia. apply returns_ret. assert (t = c) as ->.
      { destruct Ht as (_ & _ & _ & Heq & _). rewrite Hbytes in Heq. apply app_inj_1 in Heq as [-> _]; [done|]. unfold zlen in Hlen. lia. }
      split; [by exists c|]. split; [by right|]. intros Hfl Hw. split; [done|by apply Hg].
  - subst r. apply returns_ret. split; [exists []; by apply (took_trans s [] s1 [] s2)|]. split; [by left|]. intros (H & _) _. destruct Hnr. by apply Hf.
Qed.

(** ** All chunks *)

(** No number after a line that begins with # is above the limit of RFC 6242. *)
Definition MAX_CHUNK : Z := 4294967295.
Definition sane (bytes : list ascii) : Prop :=
  forall p h q, bytes = p ++ (LF :: lit "#") ++ (h ++ [LF]) ++ q -> strtoul (cstr (h ++ [LF])) <= MAX_CHUNK.

Lemma sane_took s t s' : took s t s' -> sane (rd_bytes (rd (env s))) -> sane (rd_bytes (rd (env s'))).
Proof. intros (_ & _ & _ & H & _) Hs p h q Heq. rewrite Heq in H. apply (Hs (t ++ p) h q). rewrite H. by rewrite <- (app_assoc t). Qed.

Lemma chunk_loop_spec act : forall fuel msg s, (rd_size (rd (env s)) < fuel)%nat -> sane (rd_bytes (rd (env s))) ->
  returns (chunk_loop oom clock fuel 20000 act msg) s (fun _ s' => exists t, took s t s').
Proof.
  induction fuel as [|fuel IH]; intros msg s Hf Hsane; [lia|]. cbn [chunk_loop].
  apply returns_bind. eapply returns_mono; [apply (nc_read_until_spec oom clock t0); cbn; lia|]. intros r1 s1 (t1 & Ht1 & H1).
  destruct (is_error r1.1) eqn:He1; [apply returns_ret; by exists t1|]. destruct H1 as [->|(_ & _ & p1 & Hp1)]; [done|].
  apply returns_bind. eapply returns_mono; [apply (nc_read_until_spec oom clock t0); cbn; lia|]. intros r2 s2 (t2 & Ht2 & H2).
  assert (took s (t1 ++ t2) s2) as Ht12 by (by eapply took_trans).
  destruct (is_error r2.1) eqn:He2; [apply returns_ret; by eexists|]. destruct H2 as [->|(-> & Hne2 & p2 & Hp2)]; [done|]. cbn [fst snd app] in *.
  destruct (streq _ _); [apply returns_ret; by eexists|]. rewrite Hp2. set (len := strtoul (cstr (p2 ++ [LF]))).
  assert (len <= MAX_CHUNK) as Hlen.
  { apply (Hsane p1 p2 (rd_bytes (rd (env s2)))). destruct Ht12 as (_ & _ & _ & -> & _). rewrite Hp2. change (t1 = p1 ++ LF :: lit "#") in Hp1. rewrite Hp1. by rewrite <- !app_assoc. }
  pose proof (strtoul_range (cstr (p2 ++ [LF]))) as Hrange. fold len in Hrange. destruct (Z.eqb_spec len 0) as [|Hnz]; [apply returns_ret; by eexists|].
  apply returns_bind. eapply returns_mono; [apply nc_read_chunk_spec; unfold MAX_CHUNK in *; lia|]. intros r3 s3 (t3 & Ht3 & H3).
  assert (took s ((t1 ++ t2) ++ t3) s3) as Ht123 by (by eapply took_trans).
  destruct (is_error r3.1) eqn:He3; [apply returns_ret; by eexists|]. destruct H3 as [->|[-> Hz]]; [done|]. cbn [fst snd].
  apply returns_bind. eapply returns_mono; [apply alloc_took|]. intros b s4 (Ht4 & _). assert (took s (((t1 ++ t2) ++ t3) ++ []) s4) as Ht by (by eapply took_trans).
  destruct b; cbn [negb]; [|apply returns_ret; by eexists]. replace (zlen t3 <? len) with false by lia.
  eapply returns_mono; [apply IH|].
  - destruct Ht as (_ & _ & _ & _ & H). rewrite !length_app in H. destruct t2; [done|]. cbn [length] in H. lia.
  - by eapply sane_took.
  - intros r s5 (t & Ht5). eexists. by eapply took_trans.
Qed.

(** ** The chunks the writer made *)

(** After [m], which finds [t1]: a failure is passed on, or the rest is found. *)
Lemma finds_bind {A B} act (m : M ncst A) (k : A -> M ncst B) s t1 a err t2 b berr : finds oom clock t0 act m s t1 a err ->
  (forall s', returns (k err) s' (fun r s'' => r = berr /\ exists t, took s' t s'')) ->
  (forall s', took s t1 s' -> finds oom clock t0 act (k a) s' t2 b berr) -> a <> err -> finds oom clock t0 act (m ≫= k) s (t1 ++ t2) b berr.
Proof.
  intros H1 Herr H2 Hne. apply returns_bind. eapply returns_mono; [exact H1|]. intros r s1 ((t' & Ht') & Hcase & Hgood). destruct Hcase as [->|[-> Ht]].
  - eapply returns_mono; [apply Herr|]. intros r s2 [-> (t & Ht)]. split; [eexists; by eapply took_trans|]. split; [by left|].
    intros Hfl Hw. by destruct (Hgood Hfl (window_left _ _ _ _ _ _ Ht Hw)).
  - eapply returns_mono; [apply (H2 s1 Ht)|]. intros r s2 ((t'' & Ht'') & Hcase & Hgood2). split; [eexists; by eapply took_trans|]. split.
    + destruct Hcase as [->|[-> Hc]]; [by left|right; split; [done|by eapply took_trans]].
    + intros Hfl Hw. destruct (Hgood Hfl (window_left _ _ _ _ _ _ Ht'' Hw)) as [_ Hf]. destruct Hgood2 as [-> Hf2]; [by eapply flowing_fetched|by eapply window_right|].
      split; [done|by eapply fetched_trans].
Qed.

Lemma finds_ret {A} act s (a err : A) : finds oom clock t0 act (mret a) s [] a err.
Proof. apply returns_ret. split; [exists []; apply took_nil|]. split; [right; split; [done|apply took_nil]|]. intros (H & _) _. split; [done|by apply fetched_nil]. Qed.

Lemma returns_fail {A} (b : A) s : returns (mret b) s (fun r s' => r = b /\ exists t, took s t s').
Proof. apply returns_ret. split; [done|]. exists []. apply took_nil. Qed.

Lemma not_error {A} (l : list A) : zlen l < 2^31 -> is_error (zlen l) = false.
Proof. intros H. unfold is_error. rewrite wrap_int_id; unfold INT_MIN, INT_MAX, zlen in *; lia. Qed.

Lemma found_not_failed (l : list ascii) : (zlen l, l) <> (-1, []).
Proof. intros [= H ->]. done. Qed.

(** What a list of chunks gives. *)
Definition chunks_text (msg : option (list ascii)) (cs : list (list ascii)) : read_result :=
  match msg, cs with None, [] => RMalformed | _, _ => RText (default [] msg ++ concat cs) end.

(** The next tag after the text [m]. *)
Lemma until_next m e rest act s (k : Z * list ascii -> M ncst read_result) t b : (0 < length e <= 6)%nat -> clear_of m e -> zlen (rd_bytes (rd (env s))) < 2^31 ->
  rd_bytes (rd (env s)) = m ++ e ++ rest ->
  (forall s', rd_bytes (rd (env s')) = rest -> (rd_size (rd (env s')) < rd_size (rd (env s)))%nat -> finds oom clock t0 act (k (zlen (m ++ e), m ++ e)) s' t b RError) ->
  finds oom clock t0 act (r ← nc_read_until oom clock e 0 20000 act; if is_error r.1 then mret RError else k r) s ((m ++ e) ++ t) b RError.
Proof.
  intros He Hc Hz Hbytes Hk. eapply finds_bind; [by apply (nc_read_until_finds oom clock t0 m e rest)|intros s'; apply returns_fail| |apply found_not_failed].
  intros s' Ht. cbn [fst]. rewrite Hbytes, app_assoc, zlen_app in Hz. rewrite not_error by (unfold zlen in *; lia). apply Hk.
  - apply (took_bytes s (m ++ e)); [done|]. by rewrite Hbytes, app_assoc.
  - destruct Ht as (_ & _ & _ & _ & H). rewrite length_app in H. lia.
Qed.

(** A chunk is appended to the message, and the loop goes on. *)
Lemma append_finds fuel msg c cs act rest s : rd_bytes (rd (env s)) = framed NC_VERSION_11 cs ++ endtag NC_VERSION_11 ++ rest -> c <> [] -> Forall chunk_ok cs ->
  zlen (default [] msg) + zlen c + 1 < 2^31 ->
  (forall s', (rd_size (rd (env s')) <= rd_size (rd (env s)))%nat -> rd_bytes (rd (env s')) = rd_bytes (rd (env s)) ->
    finds oom clock t0 act (chunk_loop oom clock fuel 20000 act (Some (default [] msg ++ c))) s' (framed NC_VERSION_11 cs ++ endtag NC_VERSION_11) (chunks_text (Some (default [] msg ++ c)) cs) RError) ->
  finds oom clock t0 act (ok ← alloc oom (wrap_u64 (zlen (default [] msg) + zlen c + 1));
    if negb (ok : bool) then mret RError else if zlen c <? zlen c then undef else chunk_loop oom clock fuel 20000 act (Some (default [] msg ++ c))) s
    (framed NC_VERSION_11 cs ++ endtag NC_VERSION_11) (chunks_text msg (c :: cs)) RError.
Proof.
  intros Hb Hne Hcs Hz Hk. assert (chunks_text msg (c :: cs) = chunks_text (Some (default [] msg ++ c)) cs) as -> by (cbn; rewrite <- app_assoc; by destruct msg).
  unfold finds. apply returns_bind. eapply returns_mono; [apply alloc_took|]. intros b s1 (Ht1 & _ & Hf1 & Hb1).
  pose proof (Nat2Z.is_nonneg (length (default [] msg))) as Hz'. fold (zlen (default [] msg)) in Hz'. pose proof (Nat2Z.is_nonneg (length c)) as Hzc. fold (zlen c) in Hzc.
  unfold wrap_u64 in Hb1. rewrite Z.mod_small in Hb1 by lia. destruct b; cbn [negb].
  2: { apply returns_ret. split; [by exists []|]. split; [by left|]. intros (_ & _ & Hn) _. specialize (Hb1 Hn). unfold LONG_MAX in Hb1. lia. }
  rewrite Z.ltb_irrefl. pose proof Ht1 as (_ & _ & _ & Hbytes & Hsz). cbn [app length] in *.
  eapply returns_mono; [apply (Hk s1); [lia|done]|]. intros r s2 ((t' & Ht') & Hcase & Hgood). split; [eexists; by eapply took_trans|]. split.
  - destruct Hcase as [->|[-> Hc]]; [by left|right; split; [done|by apply (took_trans s [] s1)]].
  - intros Hfl Hw. assert (fetched s [] s1) as Hf by (by apply Hf1; destruct Hfl). destruct Hgood as [-> Hf2]; [by eapply flowing_fetched|by eapply window_right|].
    split; [done|by apply (fetched_trans s [] s1)].
Qed.

Lemma chunk_loop_finds act rest : forall cs fuel msg s, (rd_size (rd (env s)) < fuel)%nat -> Forall chunk_ok cs ->
  rd_bytes (rd (env s)) = framed NC_VERSION_11 cs ++ endtag NC_VERSION_11 ++ rest -> zlen (default [] msg) + zlen (rd_bytes (rd (env s))) < 2^31 ->
  finds oom clock t0 act (chunk_loop oom clock fuel 20000 act msg) s (framed NC_VERSION_11 cs ++ endtag NC_VERSION_11) (chunks_text msg cs) RError.
Proof.
  induction cs as [|c cs IH]; intros fuel msg s Hf Hcs Hbytes Hsize; (destruct fuel as [|fuel]; [lia|]); cbn [chunk_loop];
    pose proof (Nat2Z.is_nonneg (length (default [] msg))) as Hz'; fold (zlen (default [] msg)) in Hz'.
  - cbn in Hbytes. change (framed NC_VERSION_11 [] ++ endtag NC_VERSION_11) with (([] ++ (LF :: lit "#")) ++ ((lit "#" ++ [LF]) ++ [])).
    apply (until_next [] (LF :: lit "#") ((lit "#" ++ [LF]) ++ rest) act); [cbn; lia|apply clear_absent; by apply not_elem_of_nil|lia|done|].
    intros s1 Hb1 _. apply (until_next (lit "#") [LF] rest act); [cbn; lia|apply clear_absent; change (lit "#") with ["#"%char]; by intros ?%list_elem_of_singleton| |done|].
    { rewrite Hb1. rewrite Hbytes in Hsize. change ((lit "#" ++ [LF]) ++ rest) with ("#"%char :: LF :: rest). unfold zlen in *. cbn [length] in *. lia. }
    intros s2 Hb2 _. cbn [snd]. assert (chunks_text msg [] = match msg with None => RMalformed | Some msg => RText msg end) as -> by (destruct msg; [cbn; by rewrite app_nil_r|done]).
    apply finds_ret.
  - apply Forall_cons in Hcs as [[Hne Hsmall] Hcs]. unfold SMALL in Hsmall. assert (0 < zlen c) as Hpos by (unfold zlen; destruct c; [done|cbn; lia]).
    set (more := framed NC_VERSION_11 cs ++ endtag NC_VERSION_11).
    assert (framed NC_VERSION_11 (c :: cs) ++ endtag NC_VERSION_11 = ([] ++ LF :: lit "#") ++ (show_Z (zlen c) ++ [LF]) ++ c ++ more) as Htext.
    { unfold more. change (framed NC_VERSION_11 (c :: cs)) with (frame_chunk NC_VERSION_11 c ++ framed NC_VERSION_11 cs). cbn [frame_chunk app lit String.list_ascii_of_string].
      by rewrite <- !app_assoc. }
    rewrite app_assoc, Htext, <- !app_assoc in Hbytes. rewrite Htext.
    assert (zlen (default [] msg) + zlen c + zlen (more ++ rest) + zlen (show_Z (zlen c)) + 1 < 2^31) as Hsize3.
    { rewrite Hbytes in Hsize. rewrite !zlen_app in Hsize. rewrite zlen_app. unfold zlen in *. cbn [length] in Hsize. lia. }
    pose proof (Nat2Z.is_nonneg (length (show_Z (zlen c)))) as Hzs. fold (zlen (show_Z (zlen c))) in Hzs.
    pose proof (Nat2Z.is_nonneg (length (more ++ rest))) as Hz. fold (zlen (more ++ rest)) in Hz.
    apply (until_next [] (LF :: lit "#") (show_Z (zlen c) ++ [LF] ++ c ++ more ++ rest) act); [cbn; lia|apply clear_absent; by apply not_elem_of_nil|lia|done|].
    intros s1 Hb1 Hs1. apply (until_next (show_Z (zlen c)) [LF] (c ++ more ++ rest) act); [cbn; lia|apply digits_clear; lia| |done|].
    { rewrite Hb1, !zlen_app in *. unfold zlen in *. cbn [length]. lia. }
    intros s2 Hb2 Hs2. cbn [snd]. rewrite header_not_end, strtoul_header by (unfold ULONG_MAX; lia). replace (zlen c =? 0) with false by lia.
    eapply finds_bind; [apply (nc_read_chunk_finds c (more ++ rest)); [done| |done]|intros s'; apply returns_fail| |apply found_not_failed].
    { rewrite Hb2, zlen_app. unfold zlen in *. lia. }
    intros s3 Ht3. cbn [fst snd]. rewrite not_error by lia. pose proof (took_bytes _ _ _ _ Ht3 Hb2) as Hb3.
    apply (append_finds fuel msg c cs act rest s3); [|done|done|lia|].
    + rewrite Hb3. unfold more. by rewrite <- app_assoc.
    + intros s4 Hs4 Hb4. apply IH; [destruct Ht3 as (_ & _ & _ & _ & H3); lia|done|rewrite Hb4, Hb3; unfold more; by rewrite <- app_assoc|].
      rewrite Hb4, Hb3. change (default [] (Some (default [] msg ++ c))) with (default [] msg ++ c). rewrite (zlen_app _ c). lia.
Qed.
End Frames.
