(* ===== verification/NcReceive.v ===== *)
(** * Whole messages as they are read

    What nc_read_msg_io and nc_read_msg_poll_io do on any transport, and on one that
    delivers a framed message. *)

From S2P Require Import Prelude CLib NcSession NcWrite NcWriteRep NcMessage NcRead NcReadRep NcUntil NcFrames.

Section Receive.
Context (oom : nat -> bool) (clock : nat -> Z) (t0 : Z) (lyxml_parse_mem : list ascii -> option lyxml_elem).

Lemma returns_run {S A} (m m' : M S A) s s' Q : m s = m' s' -> returns m' s' Q -> returns m s Q.
Proof. intros H. unfold returns. by rewrite H. Qed.

(** ** The text of a message *)
Definition short (s : ncst) : Prop := zlen (rd_bytes (rd (env s))) < 2^31.

Lemma took_short s t s' : took s t s' -> short s -> zlen t < 2^31.
Proof. intros (_ & _ & _ & H & _) Hs. unfold short in Hs. rewrite H, zlen_app in Hs. unfold zlen in *. lia. Qed.

Lemma read_text_spec act s : short s -> (version (sess s) = NC_VERSION_11 -> sane (rd_bytes (rd (env s)))) ->
  returns (read_text oom clock 20000 act) s (fun _ s' => exists t, took s t s').
Proof.
  intros Hs Hsane. unfold read_text. apply returns_bind. unfold returns at 1, get. destruct (version (sess s)).
  - apply returns_bind. eapply returns_mono; [apply (nc_read_until_spec oom clock t0); cbn; lia|]. intros r s1 (t & Ht & Hr).
    destruct (is_error r.1) eqn:He; [apply returns_ret; by exists t|]. destruct Hr as [->|(-> & _ & p & Hp)]; [done|]. cbn [fst snd app] in *.
    pose proof (took_short s t s1 Ht Hs) as Hz. assert (6 <= zlen t) as H6 by (rewrite Hp, zlen_app; unfold zlen; cbn; lia).
    rewrite wrap_int_id by (unfold INT_MIN, INT_MAX; lia). unfold NC_VERSION_10_ENDTAG_LEN. replace ((zlen t <? 6) || (zlen t >? zlen t)) with false by lia.
    apply returns_ret. by exists t.
  - apply (chunk_loop_spec oom clock t0); [unfold rd_fuel, rd_size; lia|by apply Hsane].
Qed.

(** A text the reader of version 1.0 separates from the end tag. *)
Definition separable (v : NC_VERSION) (text : list ascii) : Prop := match v with NC_VERSION_10 => clear_of text NC_VERSION_10_ENDTAG | NC_VERSION_11 => True end.

Lemma frame_10 cs : framed NC_VERSION_10 cs = concat cs.
Proof. unfold framed. f_equal. cbn. apply map_id. Qed.

Lemma read_text_finds act s cs rest : short s -> Forall chunk_ok cs -> cs <> [] -> separable (version (sess s)) (concat cs) ->
  rd_bytes (rd (env s)) = framed (version (sess s)) cs ++ endtag (version (sess s)) ++ rest ->
  finds oom clock t0 act (read_text oom clock 20000 act) s (framed (version (sess s)) cs ++ endtag (version (sess s))) (RText (concat cs)) RError.
Proof.
  intros Hsize Hcs Hne Hsep Hbytes. unfold finds, read_text. apply returns_bind. unfold returns at 1, get. unfold short in Hsize.
  destruct (version (sess s)); cbn [separable] in Hsep.
  - rewrite frame_10 in *. change (endtag NC_VERSION_10) with NC_VERSION_10_ENDTAG in *. rewrite <- (app_nil_r (concat cs ++ NC_VERSION_10_ENDTAG)).
    apply (until_next oom clock t0 (concat cs) NC_VERSION_10_ENDTAG rest act); [cbn; lia|done|done|done|]. intros s1 _ _. cbn [fst snd].
    rewrite Hbytes, app_assoc, zlen_app in Hsize. assert (0 <= zlen rest) as Hz by (unfold zlen; lia).
    assert (zlen (concat cs ++ NC_VERSION_10_ENDTAG) = zlen (concat cs) + 6) as Hl by (by rewrite zlen_app).
    assert (0 <= zlen (concat cs)) by (unfold zlen; lia). rewrite wrap_int_id by (unfold INT_MIN, INT_MAX; lia). unfold NC_VERSION_10_ENDTAG_LEN.
    rewrite Hl. replace ((zlen (concat cs) + 6 <? 6) || (zlen (concat cs) + 6 >? zlen (concat cs) + 6)) with false by lia.
    replace (Z.to_nat (zlen (concat cs) + 6 - 6)) with (length (concat cs)) by (unfold zlen; lia). rewrite take_app_length. apply finds_ret.
  - assert (chunks_text None cs = RText (concat cs)) as <- by (by destruct cs).
    apply (chunk_loop_finds oom clock t0 act rest); [unfold rd_fuel, rd_size; lia|done|done|change (0 + zlen (rd_bytes (rd (env s))) < 2^31); lia].
Qed.

(** ** The answer to a malformed message *)
Definition answers (s : ncst) : Prop := no_failure oom \/ side (sess s) = NC_CLIENT \/ version (sess s) = NC_VERSION_10.

Lemma malformed_calls id : Forall call_ok (all_calls id (MsgReply None (Some (NC_RPL_ERROR [malformed_error])))).
Proof. repeat (constructor; [by vm_compute|]). constructor. Qed.

Lemma malformed_reply_spec s : no_failure oom -> returns (malformed_reply oom) s (fun r s' => r = Some (NC_RPL_ERROR [malformed_error]) /\ sess s' = sess s).
Proof.
  intros Hn. unfold malformed_reply. apply returns_bind. eapply returns_mono; [apply (alloc_took oom)|]. intros b s1 (_ & H1 & _ & Hb). rewrite (Hb Hn ltac:(done)). cbn [negb]. clear b Hb.
  apply returns_bind. eapply returns_mono; [apply (alloc_took oom)|]. intros b s2 (_ & H2 & _ & Hb). rewrite (Hb Hn ltac:(done)). cbn [negb]. clear b Hb.
  apply returns_bind. eapply returns_mono; [apply (alloc_took oom)|]. intros b s3 (_ & H3 & _ & Hb). rewrite (Hb Hn ltac:(done)). apply returns_ret. split; [done|congruence].
Qed.

Lemma maybe_unlock_spec (b : bool) s : io_lock (sess s) = b ->
  returns (if b then nc_session_io_unlock else mret tt) s (fun _ s' => sess s' = with_lock false (sess s) /\ env s' = env s).
Proof.
  intros H. destruct b; [unfold returns; by rewrite (unlock_spec s H)|]. apply returns_ret. split; [|done]. destruct s as [[] ?]. cbn in *. by subst.
Qed.

Lemma malformed_msg_spec b s : io_lock (sess s) = b -> answers s -> returns (malformed_msg oom b) s (fun _ s' => io_lock (sess s') = false).
Proof.
  intros Hb Ha. unfold malformed_msg. apply returns_bind. unfold returns at 1, get.
  assert (returns (if b then nc_session_io_unlock else mret tt) s (fun _ s' => io_lock (sess s') = false)) as Hu.
  { eapply returns_mono; [by apply maybe_unlock_spec|]. by intros [] s' [-> _]. }
  destruct (side (sess s)) eqn:Hside; [exact Hu|]. destruct (version (sess s)) eqn:Hv; [exact Hu|].
  destruct Ha as [Hn|[Ha|Ha]]; [|congruence..]. apply returns_bind. eapply returns_mono; [by apply malformed_reply_spec|]. intros r s1 [-> H1].
  apply returns_bind. eapply returns_mono; [apply maybe_unlock_spec; by rewrite H1|]. intros _ s2 [H2 _].
  apply returns_bind. eapply returns_mono; [apply (write_msg_spec oom _ s2); [by rewrite H2|done|apply malformed_calls]|]. intros r s3 [(H3 & _) _].
  destruct r; try (by apply returns_ret); apply returns_bind; unfold returns at 1, get; destruct (status (sess s3)); try (by apply returns_ret); done.
Qed.
(** ** On any transport *)

(** A message is given with its type, or there is no message. *)
Definition parsed (r : NC_MSG_TYPE * option lyxml_elem) : Prop :=
  match r.2 with
  | Some data => root_type data = Some r.1 /\ exists text, lyxml_parse_mem (cstr text) = Some data
  | None => r.1 = NC_MSG_ERROR \/ r.1 = NC_MSG_WOULDBLOCK
  end.

(** Data that the reader can take: less than 2 GiB, no chunk size above the limit. *)
Definition acceptable (s : ncst) : Prop := short s /\ (version (sess s) = NC_VERSION_11 -> sane (rd_bytes (rd (env s)))) /\ answers s.

Definition received (r : NC_MSG_TYPE * option lyxml_elem) (s' : ncst) : Prop := parsed r /\ io_lock (sess s') = false.

Lemma malformed_received b s : io_lock (sess s) = b -> answers s -> returns (_ ← malformed_msg oom b; mret (NC_MSG_ERROR, None)) s received.
Proof.
  intros H1 H2. apply returns_bind. eapply returns_mono; [by apply malformed_msg_spec|]. intros [] s1 H. apply returns_ret. split; [by left|done].
Qed.

(** The part behind the lock. *)
Lemma read_locked_spec act s : io_lock (sess s) = true -> acceptable s ->
  returns (read_text oom clock 20000 act ≫= msg_result oom lyxml_parse_mem) s received.
Proof.
  intros Hl (Hs & Hsane & Ha). apply returns_bind. eapply returns_mono; [by apply read_text_spec|]. intros r s1 (t & (_ & Hx & _)).
  assert (io_lock (sess s1) = true /\ answers s1) as [Hl1 Ha1] by (unfold answers; rewrite Hx; by split). destruct r as [msg| |].
  - apply returns_bind. unfold returns at 1. rewrite (unlock_spec s1 Hl1). destruct (lyxml_parse_mem (cstr msg)) as [data|] eqn:Hp; [|by apply malformed_received].
    destruct (root_type data) eqn:Hr; [|by apply malformed_received]. apply returns_ret. split; [|done]. split; [done|]. by exists msg.
  - by apply malformed_received.
  - apply returns_bind. unfold returns at 1. rewrite (unlock_spec s1 Hl1). apply returns_ret. split; [by left|done].
Qed.

Lemma nc_read_msg_io_spec b s : io_lock (sess s) = b -> acceptable s -> returns (nc_read_msg_io oom clock lyxml_parse_mem b) s received.
Proof.
  intros Hb Hok. unfold nc_read_msg_io. apply returns_bind. unfold returns at 1, get. destruct (usable (sess s)); cbn [negb].
  2: { apply returns_bind. eapply returns_mono; [by apply maybe_unlock_spec|]. intros [] s1 [H _]. apply returns_ret. split; [by left|by rewrite H]. }
  apply returns_bind. eapply returns_mono; [apply (now_spec clock t0)|]. intros ts s1 ((_ & _ & _ & Hbytes & _) & Hs1 & _). cbn [app] in Hbytes.
  assert (acceptable s1) as Hok1 by (unfold acceptable, short, answers in *; by rewrite Hs1, <- Hbytes). apply returns_bind. destruct b.
  - apply returns_ret. cbn [Z.ltb Z.eqb Z.compare]. apply read_locked_spec; [by rewrite Hs1|done].
  - eapply returns_mono; [apply lock_spec; by rewrite Hs1|]. intros r s2 (He & _ & [[Hr Hs2]|[-> Hs2]]).
    + assert (io_lock (sess s2) = false) as Hl by (by rewrite Hs2, Hs1). destruct (Z.ltb_spec r 0); [|replace (r =? 0) with true by lia]; apply returns_ret; (split; [|done]); [by left|by right].
    + cbn [Z.ltb Z.eqb Z.compare]. apply read_locked_spec; [by rewrite Hs2|]. unfold acceptable, short, answers in *. by rewrite Hs2, He.
Qed.

(** nc_read_poll may only end the session and use up a result of poll. *)
Definition polled (s s' : ncst) : Prop :=
  sess s' = with_status (status (sess s')) (term_reason (sess s')) (sess s) /\ rd (env s') = rd (env s).

Lemma polled_invalid r s s1 : sess s1 = sess s -> rd (env s1) = rd (env s) ->
  returns (_ ← invalidate r; mret (-1)) s1 (fun _ s' => polled s s').
Proof. intros H1 H2. apply returns_bind. unfold invalidate, set_sess, modify. unfold returns at 1. apply returns_ret. split; [cbn; by rewrite H1|done]. Qed.

Lemma polled_same s s' : sess s' = sess s -> rd (env s') = rd (env s) -> polled s s'.
Proof. intros H1 H2. split; [rewrite H1; by destruct (sess s)|done]. Qed.

Lemma next_poll_spec s : returns next_poll s (fun _ s' => sess s' = sess s /\ rd (env s') = rd (env s)).
Proof. unfold returns, next_poll. rewrite (bind_ret_eq get _ _ _ _ eq_refl). by destruct (polls (env s)). Qed.

Lemma nc_read_poll_spec s : returns nc_read_poll s (fun _ s' => polled s s').
Proof.
  unfold nc_read_poll. apply returns_bind. unfold returns at 1, get. destruct (usable (sess s)); cbn [negb]; [|apply returns_ret; by apply polled_same].
  destruct (ti_type (sess s)); [apply returns_ret; by apply polled_same|..];
    (apply returns_bind; eapply returns_mono; [apply next_poll_spec|]; intros p s1 [H1 H2]; cbv zeta);
    repeat match goal with |- returns (if ?b then _ else _) _ _ => destruct b; [by apply polled_invalid|] end; apply returns_ret; by apply polled_same.
Qed.

Lemma nc_read_msg_poll_io_spec s : io_lock (sess s) = false -> acceptable s -> returns (nc_read_msg_poll_io oom clock lyxml_parse_mem) s received.
Proof.
  intros Hb Hok. unfold nc_read_msg_poll_io. apply returns_bind. unfold returns at 1, get. destruct (usable (sess s)); cbn [negb].
  2: { apply returns_ret. split; [by left|done]. }
  apply returns_bind. eapply returns_mono; [by apply lock_spec|]. intros r s1 (He & _ & [[Hr Hs]|[-> Hs]]).
  { assert (io_lock (sess s1) = false) as Hl by (by rewrite Hs). destruct (Z.ltb_spec r 0); [|replace (r =? 0) with true by lia]; apply returns_ret; (split; [|done]); [by left|by right]. }
  cbn [Z.ltb Z.eqb Z.compare]. apply returns_bind. eapply returns_mono; [apply nc_read_poll_spec|]. intros r s2 [Hx Hrd].
  assert (io_lock (sess s2) = true /\ acceptable s2) as [Hl2 Hok2].
  { unfold acceptable, short, answers in *. rewrite Hx, Hrd, Hs, He. by split. }
  destruct (r =? 0); [|destruct (r <? 0); [|by apply nc_read_msg_io_spec]];
    (apply returns_bind; unfold returns at 1; rewrite (unlock_spec s2 Hl2); apply returns_ret; split; [|done]); [by right|by left].
Qed.

(** ** A framed message *)
Lemma alive_act ts : t0 <= ts < t0 + 19999000000 -> alive t0 (nc_addtimespec ts (NC_READ_ACT_TIMEOUT * 1000)).
Proof. unfold alive, nc_addtimespec, NC_READ_ACT_TIMEOUT. lia. Qed.

(** The message [cs] is next on the session [s], with [rest] behind it. *)
Definition arriving (s : ncst) (cs : list (list ascii)) (rest : list ascii) : Prop :=
  readable s /\ short s /\ Forall chunk_ok cs /\ cs <> [] /\ separable (version (sess s)) (concat cs) /\
  rd_bytes (rd (env s)) = framed (version (sess s)) cs ++ endtag (version (sess s)) ++ rest.

(** The call up to the text, when there is data. *)
Lemma read_msg_start s : io_lock (sess s) = false -> granted s -> no_failure oom -> readable s -> t0 <= clock (ticks (env s)) < t0 + 19999000000 ->
  exists act s2, flowing oom t0 act s2 /\ sess s2 = with_lock true (sess s) /\ rd_bytes (rd (env s2)) = rd_bytes (rd (env s)) /\ (ticks (env s) <= ticks (env s2))%nat /\
    nc_read_msg_io oom clock lyxml_parse_mem false s = (read_text oom clock 20000 act ≫= msg_result oom lyxml_parse_mem) s2.
Proof.
  intros Hl Hg Hn Hr Ht. destruct (proj1 (returns_eq _ _ _) (now_spec clock t0 s)) as (ts & s1 & Hnow & (_ & _ & He & Hb1 & Hticks) & Hs1 & Hf1 & -> & _).
  destruct (Hf1 Hr) as (_ & _ & Hr1). assert (io_lock (sess s1) = false) as Hl1 by (by rewrite Hs1).
  destruct (proj1 (returns_eq _ _ _) (lock_spec s1 Hl1)) as (r & s2 & Hlock & He2 & Hg2 & Hs2).
  assert (granted s1) as Hg1 by (unfold granted; by rewrite He). specialize (Hg2 Hg1). subst r. destruct Hs2 as [[]|[_ Hs2]]; [lia|].
  assert (readable s2) as Hr2 by (unfold readable; by rewrite Hs2, He2). rewrite Hs1 in Hs2.
  assert (rd_bytes (rd (env s2)) = rd_bytes (rd (env s))) as Hb2 by (by rewrite Hb1, He2).
  exists (nc_addtimespec (clock (ticks (env s))) (NC_READ_ACT_TIMEOUT * 1000)), s2. split; [split; [done|]; split; [by apply alive_act|done]|].
  split; [done|]. split; [done|]. split; [rewrite He2; cbn; lia|]. unfold nc_read_msg_io. rewrite (bind_ret_eq get _ _ _ _ eq_refl). destruct Hr as [-> _]. cbn [negb].
  rewrite (bind_ret_eq _ _ _ _ _ Hnow). by rewrite (bind_ret_eq _ _ _ _ _ Hlock).
Qed.

(** A message, or an error; the latter not when the call is fast enough. *)
Lemma nc_read_msg_io_finds s cs rest t data : io_lock (sess s) = false -> granted s -> no_failure oom -> clock (ticks (env s)) = t0 -> arriving s cs rest ->
  lyxml_parse_mem (cstr (concat cs)) = Some data -> root_type data = Some t ->
  returns (nc_read_msg_io oom clock lyxml_parse_mem false) s (fun r s' => (r = (t, Some data) \/ r = (NC_MSG_ERROR, None)) /\
    (window clock t0 s s' -> r = (t, Some data) /\ sess s' = sess s /\ rd_bytes (rd (env s')) = rest)).
Proof.
  intros Hl Hg Hn Ht (Hr & Hs & Hcs & Hne & Hsep & Hbytes) Hparse Hroot.
  destruct (read_msg_start s Hl Hg Hn Hr ltac:(lia)) as (act & s2 & Hfl & Hs2 & Hb2 & Hticks & Hrun). apply (returns_run _ _ _ _ _ Hrun).
  apply returns_bind. eapply returns_mono; [apply (read_text_finds act s2 cs rest); [unfold short; by rewrite Hb2|done|done|by rewrite Hs2|by rewrite Hb2, Hs2]|].
  intros r s3 ((t' & (_ & Hx & _)) & Hcase & Hgood). assert (io_lock (sess s3) = true) as Hl3 by (by rewrite Hx, Hs2).
  assert (forall s4, env s4 = env s3 -> window clock t0 s s4 -> window clock t0 s2 s3) as Hw by (intros s4 He Hw i Hi; apply Hw; rewrite He; lia).
  destruct Hcase as [->|[-> _]]; cbn [msg_result]; apply returns_bind; unfold returns at 1; rewrite (unlock_spec s3 Hl3).
  - apply returns_ret. split; [by right|]. intros Hwin. by destruct (Hgood Hfl (Hw _ eq_refl Hwin)).
  - rewrite Hparse, Hroot. apply returns_ret. split; [by left|]. intros Hwin. destruct (Hgood Hfl (Hw _ eq_refl Hwin)) as [_ ((_ & _ & _ & Hb3 & _) & Hs3 & _)]. split; [done|]. split.
    + cbn. rewrite Hs3, Hs2. destruct (sess s). cbn in *. by subst.
    + rewrite Hb2, Hbytes, Hs2 in Hb3. change (version (with_lock true (sess s))) with (version (sess s)) in Hb3. rewrite app_assoc in Hb3. by apply app_inv_head in Hb3.
Qed.
End Receive.
