(* ===== verification/NcThms.v ===== *)
(** * Messages of libnetconf2: properties *)

From S2P Require Import Prelude CLib NcSession NcWrite NcWriteRep NcMessage NcRead NcReadRep NcUntil NcFrames NcReceive.

(** ** The end of a message *)
Lemma clear_tail p q a e : a ∉ q -> (length e <= length q)%nat -> (forall x y, p ++ q <> x ++ (a :: e) ++ y) -> clear_of (p ++ q) (a :: e).
Proof.
  intros Hq Hl Hno. split; [|done]. intros i b Hb [= ->]. rewrite length_app. cbn [length].
  destruct (decide (i < length p)%nat); [lia|]. rewrite lookup_app_r in Hb by lia. destruct Hq. by eapply list_elem_of_lookup_2.
Qed.

(** A message that is complete ends with a closing tag. *)
Definition closing (t : list ascii) : Prop := ("]"%char ∉ t) /\ (5 <= length t)%nat.

Lemma closing_check t : forallb (fun c => negb (Ascii.eqb c "]")) t && (5 <=? length t)%nat = true -> closing t.
Proof.
  intros [H1 H2]%andb_true_iff. split; [|by apply Nat.leb_le]. intros Hin%list_elem_of_In. rewrite forallb_forall in H1. by specialize (H1 _ Hin).
Qed.

Lemma last_call cs c q : call_text c = q -> exists p, calls_text (cs ++ [c]) = p ++ q.
Proof. intros <-. exists (calls_text cs). unfold calls_text. rewrite map_app, concat_app. cbn. by rewrite app_nil_r. Qed.

Lemma reply_end_last rpc : exists cs c, reply_end rpc = cs ++ [c] /\ closing (call_text c).
Proof.
  unfold reply_end, prefixed. destruct (rpc_prefix rpc) as [p|].
  - exists [raw "</" 2; str p], (raw ":rpc-reply>" 11). split; [done|]. by apply closing_check.
  - exists [], (raw "</rpc-reply>" 12). split; [done|]. by apply closing_check.
Qed.

Lemma message_closes v id m : complete v m = true -> exists p q, message_text id m = p ++ q /\ closing q.
Proof.
  assert (forall cs c, closing (call_text c) -> exists p q, calls_text (cs ++ [c]) = p ++ q /\ closing q) as Hlast.
  { intros cs c Hc. destruct (last_call cs c _ eq_refl) as [p Hp]. by exists p, (call_text c). }
  assert (forall cs rpc, exists p q, calls_text (cs ++ reply_end rpc) = p ++ q /\ closing q) as Hreply.
  { intros cs rpc. destruct (reply_end_last rpc) as (ds & c & -> & Hc). rewrite app_assoc. by apply Hlast. }
  unfold message_text. destruct m as [data attrs|rpc reply|eventtime tree|caps sid|]; cbn [complete all_calls]; [..|done].
  - intros _. apply Hlast. by apply closing_check.
  - destruct reply as [reply|]; [|done]. destruct reply as [|d|errs|]; cbn [reply_calls]; [|destruct (print_ok d); [|done]| |done]; intros _; cbn [fst]; rewrite ?app_assoc; apply Hreply.
  - unfold notif_calls. destruct (print_ok tree); [|done]. intros _. cbn [fst]. apply Hlast. by apply closing_check.
  - intros _. destruct sid as [sid|]; [|apply Hlast; by apply closing_check].
    destruct (last_call (str hello_start :: hello_calls caps) (str (hello_end sid)) _ eq_refl) as [p ->].
    change (call_text (str (hello_end sid))) with (lit "</capabilities><session-id>" ++ show_Z sid ++ lit "</session-id></hello>").
    eexists (p ++ lit "</capabilities><session-id>" ++ show_Z sid), _. split; [by rewrite <- !app_assoc|]. by apply closing_check.
Qed.

Lemma message_separable v id m : complete v m = true -> (v = NC_VERSION_10 -> forall p q, message_text id m <> p ++ NC_VERSION_10_ENDTAG ++ q) ->
  separable v (message_text id m).
Proof.
  intros Hc Hno. destruct v; [|done]. destruct (message_closes _ id m Hc) as (p & q & Heq & Hq & Hl). specialize (Hno eq_refl). cbn. rewrite Heq in *.
  apply (clear_tail p q "]"%char); [done|cbn; lia|exact Hno].
Qed.

(** ** A message is received as it was sent *)

(** What arrives at the other side of a session: [bytes], in any pieces. *)
Definition peer (v : NC_VERSION) (x : ncst) (bytes : list ascii) : Prop :=
  readable x /\ short x /\ version (sess x) = v /\ io_lock (sess x) = false /\ granted x /\ rd_bytes (rd (env x)) = bytes.

(** From [x] to [x'] every reading of the clock is at most 19.999 seconds after the first. *)
Definition prompt (clock : nat -> Z) (x x' : ncst) : Prop :=
  forall i, (ticks (env x) <= i < ticks (env x'))%nat -> clock (ticks (env x)) <= clock i < clock (ticks (env x)) + 19999000000.

(** C37. A message written on a transport that does not fail is read by the peer as it
    was written, however the transport cuts the bytes and whatever follows them: the
    reader parses exactly the text of the message and leaves the rest. The reader has
    timeouts: the call gives the message or an error, and it gives the message when the
    clock, at whatever time it stands, advances by less than 19.999 seconds during the
    call (the timeout between two reads is 20 seconds, compared in milliseconds). In
    version 1.0 the text must not contain the end tag. *)
Theorem message_roundtrip oom oom' clock lyxml_parse_mem m s : no_failure oom -> no_failure oom' ->
  io_lock (sess s) = false -> writable s -> granted s -> complete (version (sess s)) m = true -> Forall call_ok (all_calls (msgid (sess s)) m) ->
  (version (sess s) = NC_VERSION_10 -> forall p q, message_text (msgid (sess s)) m <> p ++ NC_VERSION_10_ENDTAG ++ q) ->
  exists s' bytes, nc_write_msg_io oom m s = Ret (message_type m) s' /\ out (env s') = out (env s) ++ bytes /\
    forall x rest data t, peer (version (sess s)) x (bytes ++ rest) -> lyxml_parse_mem (cstr (message_text (msgid (sess s)) m)) = Some data -> root_type data = Some t ->
      exists r x', nc_read_msg_io oom' clock lyxml_parse_mem false x = Ret r x' /\ (r = (t, Some data) \/ r = (NC_MSG_ERROR, None)) /\
        (prompt clock x x' -> r = (t, Some data) /\ sess x' = sess x /\ rd_bytes (rd (env x')) = rest).
Proof.
  intros Hn Hn' Hl Hw Hg Hc Hcs Hno. pose proof Hw as (Hu & _).
  assert (forall rpc, m <> MsgReply rpc None) as Hm by (by intros rpc ->).
  destruct (proj1 (returns_eq _ _ _) (write_msg_spec oom m s Hl Hm Hcs)) as (r & s' & Hrun & _ & Hsent).
  destruct (Hsent Hn Hc Hu Hg) as [_ H]. destruct (H Hw) as [-> (cs & Hok & Htext & Hout)]. clear H Hsent.
  exists s', (framed (version (sess s)) cs ++ endtag (version (sess s))). split; [done|]. split; [done|].
  intros x rest data t (Hr & Hsh & Hv & Hlx & Hgx & Hb) Hparse Hroot.
  assert (cs <> []) as Hne.
  { intros ->. cbn in Htext. destruct (message_closes _ (msgid (sess s)) m Hc) as (p & q & Heq & _ & Hq). rewrite <- Htext in Heq.
    symmetry in Heq. apply app_nil in Heq as [_ ->]. cbn in Hq. lia. }
  rewrite <- Htext in Hparse.
  assert (arriving x cs rest) as Ha.
  { split; [done|]. split; [done|]. split; [done|]. split; [done|]. rewrite Hv, Htext. split; [by apply message_separable|]. by rewrite Hb, <- app_assoc. }
  destruct (proj1 (returns_eq _ _ _) (nc_read_msg_io_finds oom' clock _ lyxml_parse_mem x cs rest t data Hlx Hgx Hn' eq_refl Ha Hparse Hroot)) as (r & x' & Hrun' & H).
  by exists r, x'.
Qed.

(** ** Reading ends and is defined *)

(** C27. On every session whose data is less than 2 GiB and, in version 1.1, announces no
    chunk above the limit of 4294967295 bytes, nc_read_msg_io, called with or without the
    lock, and nc_read_msg_poll_io return for every way the transport delivers, delays,
    fails or closes and for every clock: without undefined behaviour, with the lock
    released, and either with a parsed message and its type or with an error or a
    timeout and no message. On a server of version 1.1 this needs that the answer to a
    malformed message can be allocated. *)
Theorem read_msg_safe oom clock lyxml_parse_mem s : acceptable oom s ->
  returns (nc_read_msg_io oom clock lyxml_parse_mem (io_lock (sess s))) s (received lyxml_parse_mem) /\
  (io_lock (sess s) = false -> returns (nc_read_msg_poll_io oom clock lyxml_parse_mem) s (received lyxml_parse_mem)).
Proof. intros H. split; [by apply (nc_read_msg_io_spec oom clock 0)|]. intros Hl. by apply (nc_read_msg_poll_io_spec oom clock 0). Qed.

(** ** Chunk sizes *)
Lemma returns_undef {S A B} (m : M S A) (k : A -> M S B) s : returns m s (fun a s' => k a s' = Undef) -> (m ≫= k) s = Undef.
Proof. unfold returns, mbind, M_bind. by destruct (m s). Qed.

(** From [s] on the clock stays within 19.999 seconds. *)
Definition steady_from (clock : nat -> Z) (t0 : Z) (n : nat) : Prop := forall i, (n <= i)%nat -> t0 <= clock i < t0 + 19999000000.
Definition steady (clock : nat -> Z) (s : ncst) : Prop := exists t0, steady_from clock t0 (ticks (env s)).

Lemma steady_window clock t0 s s' : steady_from clock t0 (ticks (env s)) -> window clock t0 s s'.
Proof. intros H i Hi. apply H. lia. Qed.

Lemma steady_took clock t0 s t s' : took s t s' -> steady_from clock t0 (ticks (env s)) -> steady_from clock t0 (ticks (env s')).
Proof. intros (_ & _ & _ & _ & H) Hs i Hi. apply Hs. lia. Qed.

(** Reading into a block without room. *)
Lemma nc_read_loop_no_room clock t0 act count : alive t0 act -> forall fuel inact s, steady_from clock t0 (ticks (env s)) -> (rd_size (rd (env s)) < fuel)%nat -> alive t0 inact -> readable s ->
  0 < request (ti_type (sess s)) count -> 0 < count -> rd_bytes (rd (env s)) <> [] -> nc_read_loop clock fuel 0 count 20000 act inact [] s = Undef.
Proof.
  intros Hact. induction fuel as [|fuel IH]; intros inact s Hst Hf Hin Hr Hreq Hc Hb; [lia|]. cbn [nc_read_loop]. change (zlen []) with 0. rewrite Z.sub_0_r. apply returns_undef.
  eapply returns_mono; [apply transport_read_spec; [lia|by right]|]. intros r s1 (Ht & Hs & Hp & Hgood).
  destruct (Hgood Hr Hreq Hb) as [Hf1 Hnf]. destruct r as [bs| |t]; [..|by destruct (Hnf t)].
  - destruct Hp as [Hne _]. replace (0 + zlen bs >? 0) with true; [done|]. symmetry. apply Z.gtb_gt. unfold zlen. destruct bs; [done|]. cbn. lia.
  - pose proof (steady_took clock t0 s _ s1 Ht Hst) as Hst1. apply returns_undef. eapply returns_mono; [apply (now_spec clock t0)|]. intros ts s2 (Ht2 & Hs2 & Hf2 & _ & Hts).
    specialize (Hts (steady_window clock t0 s1 s2 Hst1)). rewrite !(not_timed_out t0) by done. cbn [orb]. pose proof (steady_took clock t0 s1 _ s2 Ht2 Hst1) as Hst2. destruct Ht2 as (_ & _ & _ & Hb2 & Hz2).
    destruct Hf1 as ((_ & _ & _ & Hb1 & _) & _ & Hr1). cbn [got app length] in *. apply IH; [done|lia|done|apply Hf2, Hr1|congruence|done|congruence].
Qed.

(** The header of the chunk is read. *)
Lemma until_found oom clock t0 m e rest act s : flowing oom t0 act s -> steady_from clock t0 (ticks (env s)) -> (0 < length e <= 6)%nat -> clear_of m e ->
  zlen (rd_bytes (rd (env s))) < 2^31 -> rd_bytes (rd (env s)) = m ++ e ++ rest ->
  returns (nc_read_until oom clock e 0 20000 act) s (fun r s' => r = (zlen (m ++ e), m ++ e) /\ fetched s (m ++ e) s' /\ flowing oom t0 act s' /\
    steady_from clock t0 (ticks (env s')) /\ rd_bytes (rd (env s')) = rest).
Proof.
  intros Hfl Hst He Hc Hz Hb. eapply returns_mono; [by apply (nc_read_until_finds oom clock t0 m e rest act s)|]. intros r s' (_ & _ & Hgood).
  destruct (Hgood Hfl (steady_window _ _ _ _ Hst)) as [-> Hf]. split; [done|]. split; [done|]. split; [by eapply flowing_fetched|]. destruct Hf as (Ht & _).
  split; [by eapply steady_took|]. apply (took_bytes s (m ++ e)); [done|]. by rewrite <- app_assoc.
Qed.

(** C25. A chunk size that strtoul gives as ULONG_MAX, as for -1 or for a number out of
    range, makes len + 1 zero: the block has no room and the first byte that arrives on an
    SSH channel is written outside it, on a clock that stays within the timeout. *)
Theorem chunk_size_overflow oom clock lyxml_parse_mem s h data : no_failure oom -> steady clock s -> readable s -> short s -> io_lock (sess s) = false -> granted s ->
  ti_type (sess s) = NC_TI_LIBSSH -> version (sess s) = NC_VERSION_11 -> LF ∉ h -> strtoul (cstr (h ++ [LF])) = ULONG_MAX -> data <> [] ->
  rd_bytes (rd (env s)) = LF :: lit "#" ++ h ++ [LF] ++ data -> nc_read_msg_io oom clock lyxml_parse_mem false s = Undef.
Proof.
  intros Hn [t0 Hst] Hr Hsh Hl Hg Hti Hv Hh Hnum Hne Hbytes.
  destruct (read_msg_start oom clock t0 lyxml_parse_mem s Hl Hg Hn Hr (Hst _ (le_n _))) as (act & s1 & Hfl1 & Hs1 & Hb1 & Hticks & ->).
  assert (steady_from clock t0 (ticks (env s1))) as Hst1 by (intros i Hi; apply Hst; lia). unfold short in Hsh. rewrite <- Hb1 in Hsh. rewrite Hbytes in Hb1.
  apply bind_undef_eq. unfold read_text. rewrite (bind_ret_eq get _ _ _ _ eq_refl), Hs1. cbn [version with_lock]. rewrite Hv. cbn [rd_fuel chunk_loop].
  apply returns_undef. eapply returns_mono; [apply (until_found oom clock t0 [] (LF :: lit "#") (h ++ [LF] ++ data) act s1); [done|done|cbn; lia|apply clear_absent; by apply not_elem_of_nil|done|done]|].
  intros r s2 (-> & Hf2 & Hfl2 & Hst2 & Hb2). rewrite Hb1 in Hsh.
  assert (zlen (h ++ [LF] ++ data) < 2^31) as Hz2 by (change (zlen (LF :: "#"%char :: (h ++ [LF] ++ data)) < 2^31) in Hsh; unfold zlen in *; cbn [length] in Hsh; lia).
  assert (zlen (h ++ [LF]) < 2^31) as Hz by (rewrite app_assoc, zlen_app in Hz2; unfold zlen in *; lia).
  cbn [fst snd]. rewrite not_error by (by vm_compute). apply returns_undef.
  eapply returns_mono; [apply (until_found oom clock t0 h [LF] data act s2); [done|done|cbn; lia|by apply clear_absent|by rewrite Hb2|done]|].
  intros r s3 (-> & Hf3 & Hfl3 & Hst3 & Hb3). cbn [fst snd]. rewrite not_error by done. rewrite Hnum.
  destruct (streq _ _) eqn:Heq; [apply bool_decide_eq_true in Heq; by rewrite Heq in Hnum|].
  change (ULONG_MAX =? 0) with false. cbv iota. apply bind_undef_eq. unfold nc_read_chunk. change (ULONG_MAX =? 0) with false. cbv iota. change (wrap_u64 (ULONG_MAX + 1)) with 0.
  apply returns_undef. eapply returns_mono; [apply alloc_took|]. intros b s4 (Ht4 & Hs4 & Hf4 & Hb). rewrite (Hb Hn ltac:(done)). cbn [negb]. pose proof Hfl3 as (Hr3 & Hact & _).
  destruct (Hf4 Hr3) as (_ & _ & Hr4). pose proof (steady_took _ _ _ _ _ Ht4 Hst3) as Hst4. pose proof (took_bytes _ [] _ _ Ht4 Hb3) as Hb4.
  apply bind_undef_eq. unfold nc_read. rewrite (bind_ret_eq get _ _ _ _ eq_refl). pose proof Hr4 as [-> _]. cbn [negb].
  change (ULONG_MAX =? 0) with false. cbv iota. apply returns_undef. eapply returns_mono; [apply (now_spec clock t0)|]. intros ts s5 (Ht5 & Hs5 & Hf5 & _ & Hts).
  specialize (Hts (steady_window _ _ _ _ Hst4)). pose proof (took_bytes _ [] _ _ Ht5 Hb4) as Hb5.
  rewrite (bind_ret_eq get _ _ _ _ eq_refl). assert (ti_type (sess s5) = NC_TI_LIBSSH) as Hti5.
  { rewrite Hs5, Hs4. destruct Hf3 as (_ & -> & _). destruct Hf2 as (_ & -> & _). by rewrite Hs1. }
  rewrite Hti5. apply (nc_read_loop_no_room clock t0); [done|by eapply steady_took|unfold rd_fuel, rd_size; lia|by apply inact_alive|apply Hf5, Hr4|by rewrite Hti5|done|by rewrite Hb5].
Qed.

(** ** Failed writes *)


(** ** Witnesses *)
Definition no_oom : nat -> bool := fun _ => false.
(** A clock of a system that has been up for 100000 seconds. *)
Definition uptime : Z := 100000000000000.
Definition early : nat -> Z := fun i => uptime + Z.min (Z.of_nat i * 1000000) 1000000000.
Definition rpc_root : lyxml_elem := LyxmlElem (Some (lit NC_NS_BASE)) (lit "rpc").
Definition parser (text : list ascii) : option lyxml_elem := if bool_decide (take 4 text = lit "<rpc") then Some rpc_root else None.

Definition session (v : NC_VERSION) (ti : NC_TRANSPORT_IMPL) : nc_session := NcSession NC_STATUS_RUNNING NC_SESSION_TERM_NONE NC_CLIENT v ti false 0.
Definition environment (r : list rd_event) (w : list wr_event) : nc_env := NcEnv r w [] [] [] [] 0 0.
Definition get_rpc : message := MsgRpc (Printed [lit "<get>"; lit "</get>"] true) None.

Definition w_writer : ncst := NcSt (session NC_VERSION_11 NC_TI_UNIX) (environment [] [WrSome 3; WrAgain; WrSome 1]).
Definition w_bytes : list ascii := match nc_write_msg_io no_oom get_rpc w_writer with Ret _ s => out (env s) | _ => [] end.
Definition w_reader : ncst :=
  NcSt (session NC_VERSION_11 NC_TI_LIBSSH) (environment [RdAgain; RdData (take 7 w_bytes); RdZero; RdData (drop 7 w_bytes ++ lit "more")] []).

Lemma early_steady s : steady early s.
Proof. exists uptime. intros i _. unfold early, uptime. lia. Qed.

Lemma message_roundtrip_witness :
  exists s, nc_read_msg_io no_oom early parser false w_reader = Ret (NC_MSG_RPC, Some rpc_root) s /\ sess s = sess w_reader /\ rd_bytes (rd (env s)) = lit "more".
Proof.
  destruct (message_roundtrip no_oom no_oom early parser get_rpc w_writer) as (s' & bytes & Hrun & Hout & Hread); [done|done|done| |constructor|done| |done|].
  - split; [done|]. split; [done|]. split; [repeat constructor|constructor].
  - repeat (constructor; [by vm_compute|]). constructor.
  - assert (bytes = w_bytes) as -> by (unfold w_bytes; rewrite Hrun; symmetry; exact Hout).
    destruct (Hread w_reader (lit "more") rpc_root NC_MSG_RPC) as (r & x' & Hread' & _ & Hprompt); [|by vm_compute|by vm_compute|].
    2: { destruct Hprompt as (-> & H1 & H2); [|exists x'; exact (conj Hread' (conj H1 H2))].
         intros i _. change (ticks (env w_reader)) with 0%nat. unfold early. lia. }
    split; [split; [done|]; split; [done|]; repeat constructor|]. split; [by vm_compute|]. split; [done|]. split; [done|]. split; [constructor|]. by vm_compute.
Defined.

Definition sane_check (bytes : list ascii) : bool :=
  forallb (fun i => negb (bool_decide (take 2 (drop i bytes) = LF :: lit "#"))
    || forallb (fun j => strtoul (cstr (take j (drop (i + 2) bytes))) <=? MAX_CHUNK) (seq 0 (S (length bytes)))) (seq 0 (length bytes)).

Lemma sane_by_check bytes : sane_check bytes = true -> sane bytes.
Proof.
  intros Hc p h q ->. set (bytes := p ++ (LF :: lit "#") ++ (h ++ [LF]) ++ q) in *. unfold sane_check in Hc. rewrite forallb_forall in Hc.
  assert (drop (length p) bytes = (LF :: lit "#") ++ (h ++ [LF]) ++ q) as Hd by apply drop_app_length.
  assert (length bytes = length p + (2 + (length (h ++ [LF]) + length q)))%nat as Hl by (unfold bytes; rewrite !length_app; done).
  specialize (Hc (length p)). rewrite in_seq, Hd in Hc. specialize (Hc ltac:(lia)). apply orb_true_iff in Hc as [Hc|Hc]; [done|].
  rewrite forallb_forall in Hc. specialize (Hc (length (h ++ [LF]))). rewrite in_seq in Hc. specialize (Hc ltac:(lia)). rewrite <- drop_drop, Hd in Hc.
  change (drop 2 ((LF :: lit "#") ++ (h ++ [LF]) ++ q)) with ((h ++ [LF]) ++ q) in Hc. rewrite take_app_length in Hc. lia.
Qed.

Definition w_safe : ncst :=
  NcSt (session NC_VERSION_11 NC_TI_OPENSSL) (environment [RdData (LF :: lit "#12" ++ [LF] ++ lit "<rpc"); RdAgain; RdData (lit "></rpc>"); RdError] []).

Lemma read_msg_safe_witness : returns (nc_read_msg_io no_oom early parser false) w_safe (received parser) /\ acceptable no_oom w_safe.
Proof.
  assert (acceptable no_oom w_safe) as Hok.
  { split; [by vm_compute|]. split; [intros _; apply sane_by_check; by vm_compute|by left]. }
  split; [exact (proj1 (read_msg_safe no_oom early parser w_safe Hok))|exact Hok].
Defined.

Definition w_overflow : ncst := NcSt (session NC_VERSION_11 NC_TI_LIBSSH) (environment [RdData (LF :: lit "#-1"); RdAgain; RdData (LF :: lit "<")] []).

Lemma chunk_size_overflow_witness : nc_read_msg_io no_oom early parser false w_overflow = Undef.
Proof.
  apply (chunk_size_overflow no_oom early parser w_overflow (lit "-1") (lit "<")); try done.
  - exact (early_steady w_overflow).
  - split; [done|]. split; [done|]. repeat constructor.
  - constructor.
  - change (lit "-1") with ["-"%char; "1"%char]. intros [|[|H%not_elem_of_nil]%elem_of_cons]%elem_of_cons; done.
Defined.



(** ** An end tag that is missed *)

(** A text that ends with a bracket: six characters are read, the last matches one of the
    tag; the next five do not go on from there, and of those only the last two count. *)
Example end_tag_missed :
  let s := NcSt (session NC_VERSION_10 NC_TI_FD) (environment [RdData (lit "<rpc/]" ++ NC_VERSION_10_ENDTAG)] []) in
  exists s', nc_read_msg_io no_oom early parser false s = Ret (NC_MSG_ERROR, None) s' /\ rd (env s') = [] /\ status (sess s') = NC_STATUS_INVALID.
Proof. eexists. split; [by vm_compute|done]. Qed.
